(** * The rust-prehistory runtime (src/rt/rust.c): procs, scheduler, upcalls
      and rendezvous, as a shallow embedding.

    Modelling conventions.
    - Pointers and [uintptr_t] words are integers ([Z]); [NULL] is [0].
    - [size_t] counters ([alloc], [init], [idx]) are natural numbers, without
      wrap-around.
    - The buffer of a [ptr_vec] is the block [v->data] points to, as the list
      [data] of the whole pointer slots it holds.  The source hands [alloc] to
      [xalloc] and [xrealloc] as the size of that block in bytes, so the
      buffer has [alloc / sizeof(void* )] slots; reading or writing
      [v->data[i]] outside the block is undefined in C and gives [Abort].
    - Heap objects live in typed stores keyed by their address: one finite
      map per struct type, and the set [blocks] of the addresses the malloc
      upcall has handed out.  The runtime record and the buffers of the
      vectors have no address of their own.  Dereferencing an address that holds no object
      of the expected type is undefined in C and gives [Abort] here, as does
      a failed [assert].
    - Words that procs exchange with the runtime (stack cells, out-slots,
      receive slots) live in a word store [mem], keyed by the address of the
      word; it is disjoint from the typed stores.
    - What the C library or the compiled proc code decides (the block
      returned by [malloc] or [realloc], the number returned by [rand], what
      a proc does before it yields) is an explicit argument of the function
      it affects.
    - [printf]/[logptr] output is not part of the state; the diagnostic that
      precedes an [exit] is carried by [Exit]. *)

From stdpp Require Import gmap list strings.
From Stdlib Require Import ZArith Lia.

(** ** Outcomes of runtime functions *)

Inductive res (A : Type) : Type :=
  | Ok (a : A)
  | Exit (msg : string) (code : Z)
  | Abort.
Arguments Ok {A} a.
Arguments Exit {A} msg code.
Arguments Abort {A}.

#[global] Instance res_ret : MRet res := λ A a, Ok a.
#[global] Instance res_bind : MBind res := λ A B f m,
  match m with
  | Ok a => f a
  | Exit msg code => Exit msg code
  | Abort => Abort
  end.

Definition assert (b : bool) : res unit := if b then Ok () else Abort.

Abbreviation ptr := Z (only parsing).
Definition null : ptr := 0%Z.

(** [deref h p] is [*p] for a pointer into the typed store [h]. *)
Definition deref {A} (h : gmap Z A) (p : ptr) : res A :=
  match h !! p with
  | Some a => Ok a
  | None => Abort
  end.

(** ** Enumerations *)

Inductive proc_state_t :=
  | proc_state_running
  | proc_state_calling_c
  | proc_state_exiting
  | proc_state_blocked_reading
  | proc_state_blocked_writing.

Inductive upcall_t :=
  | upcall_code_log_uint32
  | upcall_code_log_str
  | upcall_code_spawn
  | upcall_code_check_expr
  | upcall_code_malloc
  | upcall_code_free
  | upcall_code_new_port
  | upcall_code_del_port
  | upcall_code_new_chan
  | upcall_code_del_chan
  | upcall_code_send
  | upcall_code_recv
  | upcall_code_sched.

#[global] Instance proc_state_eq_dec : EqDecision proc_state_t.
Proof. solve_decision. Defined.
#[global] Instance upcall_eq_dec : EqDecision upcall_t.
Proof. solve_decision. Defined.

Definition PROC_MAX_UPCALL_ARGS : nat := 8.

(** ** Structures *)

Record ptr_vec := mk_ptr_vec {
  alloc : nat;
  init : nat;
  data : list ptr
}.

Record rust_prog := mk_prog {
  init_code : Z;
  main_code : Z;
  fini_code : Z
}.

Record stk_seg := mk_stk {
  stk_prev : ptr;
  stk_next : ptr;
  stk_size : Z;
  stk_live : Z
}.

(** [rust_proc] without its [rt] back pointer (one runtime per [rust_start],
    kept in the state below) and without the four accounting counters, which
    no function reads. *)
Record rust_proc := mk_proc {
  stk : ptr;
  prog : ptr;
  sp : Z;
  state : proc_state_t;
  idx : nat;
  refcnt : nat;
  upcall_code : upcall_t;
  upcall_args : list Z
}.

Record rust_port := mk_port {
  live_refcnt : nat;
  weak_refcnt : nat;
  port_proc : ptr;
  writers : ptr_vec
}.

Record rust_chan := mk_chan {
  chan_port : ptr;
  chan_proc : ptr;
  queued : bool;
  chan_idx : nat;
  buf : ptr_vec
}.

(** ** Runtime state *)

(** The single runtime of a [rust_start] call ([running_procs],
    [blocked_procs]) together with the typed stores, the word store and the
    blocks of the malloc upcall. *)
Record rt_state := mk_state {
  running_procs : ptr_vec;
  blocked_procs : ptr_vec;
  procs : gmap Z rust_proc;
  stks : gmap Z stk_seg;
  progs : gmap Z rust_prog;
  ports : gmap Z rust_port;
  chans : gmap Z rust_chan;
  mem : gmap Z Z;
  blocks : gset Z
}.

Definition set_running (st : rt_state) (v : ptr_vec) : rt_state :=
  mk_state v (blocked_procs st) (procs st) (stks st) (progs st) (ports st) (chans st)
    (mem st) (blocks st).
Definition set_blocked (st : rt_state) (v : ptr_vec) : rt_state :=
  mk_state (running_procs st) v (procs st) (stks st) (progs st) (ports st) (chans st)
    (mem st) (blocks st).
Definition set_procs (st : rt_state) (h : gmap Z rust_proc) : rt_state :=
  mk_state (running_procs st) (blocked_procs st) h (stks st) (progs st) (ports st) (chans st)
    (mem st) (blocks st).
Definition set_stks (st : rt_state) (h : gmap Z stk_seg) : rt_state :=
  mk_state (running_procs st) (blocked_procs st) (procs st) h (progs st) (ports st) (chans st)
    (mem st) (blocks st).
Definition set_ports (st : rt_state) (h : gmap Z rust_port) : rt_state :=
  mk_state (running_procs st) (blocked_procs st) (procs st) (stks st) (progs st) h (chans st)
    (mem st) (blocks st).
Definition set_chans (st : rt_state) (h : gmap Z rust_chan) : rt_state :=
  mk_state (running_procs st) (blocked_procs st) (procs st) (stks st) (progs st) (ports st) h
    (mem st) (blocks st).
Definition set_mem (st : rt_state) (m : gmap Z Z) : rt_state :=
  mk_state (running_procs st) (blocked_procs st) (procs st) (stks st) (progs st) (ports st)
    (chans st) m (blocks st).
Definition set_blocks (st : rt_state) (s : gset Z) : rt_state :=
  mk_state (running_procs st) (blocked_procs st) (procs st) (stks st) (progs st) (ports st)
    (chans st) (mem st) s.

Definition set_idx (pr : rust_proc) (i : nat) : rust_proc :=
  mk_proc (stk pr) (prog pr) (sp pr) (state pr) i (refcnt pr) (upcall_code pr) (upcall_args pr).
Definition set_state (pr : rust_proc) (s : proc_state_t) : rust_proc :=
  mk_proc (stk pr) (prog pr) (sp pr) s (idx pr) (refcnt pr) (upcall_code pr) (upcall_args pr).
Definition set_upcall_code (pr : rust_proc) (c : upcall_t) : rust_proc :=
  mk_proc (stk pr) (prog pr) (sp pr) (state pr) (idx pr) (refcnt pr) c (upcall_args pr).

Definition set_writers (pt : rust_port) (v : ptr_vec) : rust_port :=
  mk_port (live_refcnt pt) (weak_refcnt pt) (port_proc pt) v.
Definition set_chan_proc (c : rust_chan) (p : ptr) : rust_chan :=
  mk_chan (chan_port c) p (queued c) (chan_idx c) (buf c).
Definition set_chan_idx (c : rust_chan) (i : nat) : rust_chan :=
  mk_chan (chan_port c) (chan_proc c) (queued c) i (buf c).
Definition set_queued (c : rust_chan) (q : bool) : rust_chan :=
  mk_chan (chan_port c) (chan_proc c) q (chan_idx c) (buf c).

(** [upcall_args[k]] of a proc. *)
Definition arg (pr : rust_proc) (k : nat) : Z := default 0%Z (upcall_args pr !! k).

(** ** What the C library decides *)

(** What [malloc] or [realloc] returns for the buffer of a vector: [None] is
    [NULL]; [Some junk] is a block, whose bytes that were not copied from the
    old block hold whatever was there before, slot [i] reading as [junk i]. *)
Definition block : Type := option (nat → ptr).

(** The blocks the buffer allocations of one call will get.  A function that
    allocates once takes a [block]; one that calls several such functions
    takes a [bufs] and hands every call a part of its own, [o [k]] or
    [sub k o], so that no two allocations share an outcome. *)
Definition bufs : Type := list nat → block.
Definition sub (k : nat) (o : bufs) : bufs := λ l, o (k :: l).

(** What the environment supplies during one round of the driver loop:
    blocks returned by [malloc] and [realloc] and numbers returned by
    [rand]. *)
Record env := mk_env {
  e_block1 : ptr;
  e_block2 : ptr;
  e_rand_recv : nat;
  e_rand_sched : nat;
  e_bufs : bufs
}.

(** The two vectors [get_state_vec] can return a pointer to. *)
Inductive vec_sel := sel_running | sel_blocked.

#[global] Instance vec_sel_eq_dec : EqDecision vec_sel.
Proof. solve_decision. Defined.

Definition state_vec (st : rt_state) (sel : vec_sel) : ptr_vec :=
  match sel with
  | sel_running => running_procs st
  | sel_blocked => blocked_procs st
  end.

Definition set_state_vec (st : rt_state) (sel : vec_sel) (v : ptr_vec) : rt_state :=
  match sel with
  | sel_running => set_running st v
  | sel_blocked => set_blocked st v
  end.

Section Runtime.

(** Platform constants the source takes from the C compiler: the size of a
    pointer ([sizeof(uintptr_t)], which is [sizeof(void* )]) and
    [offsetof(stk_seg_t, data)]. *)
Variable word_bytes : Z.
Variable stk_data_off : Z.

(** ** Allocation *)

(** [xalloc] applied to the block [m] that [malloc] returned. *)
Definition xalloc (m : ptr) : res ptr :=
  if bool_decide (m = null) then Exit "rt: allocation failed, exiting" 123%Z else Ok m.

Definition xcalloc (m : ptr) : res ptr := xalloc m.

(** The whole pointer slots of a block of [sz] bytes. *)
Definition slots (sz : nat) : nat := Z.to_nat (Z.of_nat sz / word_bytes).

(** [xalloc(sz)] for the buffer of a vector: the slots of the new block, all
    of them uninitialised. *)
Definition xalloc_buf (b : block) (sz : nat) : res (list ptr) :=
  match b with
  | None => Exit "rt: allocation failed, exiting" 123%Z
  | Some junk => Ok (junk <$> seq 0 (slots sz))
  end.

(** [xrealloc(p, sz)] for the buffer [d]: the new block has [sz] bytes; it
    keeps the slots of [d] that still fit, and what it has beyond them is
    uninitialised. *)
Definition xrealloc (b : block) (d : list ptr) (sz : nat) : res (list ptr) :=
  match b with
  | None => Exit "rt: reallocation failed, exiting" 123%Z
  | Some junk =>
      Ok (take (slots sz) d ++ (junk <$> seq (length d) (slots sz - length d)))
  end.

(** ** Utility type: pointer-vector *)

Definition INIT_PTR_VEC_SZ : nat := 8.

Definition init_ptr_vec (b : block) : res ptr_vec :=
  d ← xalloc_buf b INIT_PTR_VEC_SZ;
  Ok (mk_ptr_vec INIT_PTR_VEC_SZ 0 d).

Definition fini_ptr_vec (v : ptr_vec) : res unit :=
  assert (bool_decide (init v = 0)).

(** [v->data[i]]; reading outside the buffer is undefined. *)
Definition vec_get (v : ptr_vec) (i : nat) : res ptr :=
  match data v !! i with
  | Some p => Ok p
  | None => Abort
  end.

(** [v->data[i] = p]; writing outside the buffer is undefined. *)
Definition vec_set (v : ptr_vec) (i : nat) (p : ptr) : res ptr_vec :=
  if bool_decide (i < length (data v))
  then Ok (mk_ptr_vec (alloc v) (init v) (<[i := p]> (data v)))
  else Abort.

Definition ptr_vec_push (b : block) (v : ptr_vec) (p : ptr) : res ptr_vec :=
  v1 ← (if bool_decide (init v = alloc v)
        then d ← xrealloc b (data v) (alloc v * 2);
             Ok (mk_ptr_vec (alloc v * 2) (init v) d)
        else Ok v);
  v2 ← vec_set v1 (init v1) p;
  Ok (mk_ptr_vec (alloc v2) (S (init v2)) (data v2)).

Definition ptr_vec_trim (b : block) (v : ptr_vec) (n : nat) : res ptr_vec :=
  if bool_decide (n ≤ alloc v / 4) && bool_decide (INIT_PTR_VEC_SZ ≤ alloc v / 2)
  then
    let a := alloc v / 2 in
    assert (bool_decide (init v ≤ a));;
    d ← xrealloc b (data v) a;
    Ok (mk_ptr_vec a (init v) d)
  else Ok v.

Definition ptr_vec_swapdel (v : ptr_vec) (i : nat) : res ptr_vec :=
  assert (bool_decide (0 < init v));;
  assert (bool_decide (i < init v));;
  let v1 := mk_ptr_vec (alloc v) (init v - 1) (data v) in
  if bool_decide (0 < init v1)
  then x ← vec_get v1 (init v1); vec_set v1 i x
  else Ok v1.

(** ** Scheduler vectors *)

Definition get_state_vec (s : proc_state_t) : vec_sel :=
  match s with
  | proc_state_running | proc_state_calling_c | proc_state_exiting => sel_running
  | proc_state_blocked_reading | proc_state_blocked_writing => sel_blocked
  end.

Definition get_proc_vec (proc : ptr) (st : rt_state) : res vec_sel :=
  pr ← deref (procs st) proc;
  Ok (get_state_vec (state pr)).

Definition add_proc_to_state_vec (b : block) (proc : ptr) (st : rt_state) : res rt_state :=
  sel ← get_proc_vec proc st;
  let v := state_vec st sel in
  pr ← deref (procs st) proc;
  let st1 := set_procs st (<[proc := set_idx pr (init v)]> (procs st)) in
  v' ← ptr_vec_push b v proc;
  Ok (set_state_vec st1 sel v').

Definition n_live_procs (st : rt_state) : nat :=
  init (running_procs st) + init (blocked_procs st).

Definition proc_vec_swapdel (sel : vec_sel) (proc : ptr) (st : rt_state) : res rt_state :=
  let v := state_vec st sel in
  assert (bool_decide (proc ≠ null));;
  pr ← deref (procs st) proc;
  x ← vec_get v (idx pr);
  assert (bool_decide (x = proc));;
  v' ← ptr_vec_swapdel v (idx pr);
  let st1 := set_state_vec st sel v' in
  if bool_decide (0 < init v')
  then
    pnew ← vec_get v' (idx pr);
    pn ← deref (procs st1) pnew;
    Ok (set_procs st1 (<[pnew := set_idx pn (idx pr)]> (procs st1)))
  else Ok st1.

Definition remove_proc_from_state_vec (b : block) (proc : ptr) (st : rt_state)
    : res rt_state :=
  sel ← get_proc_vec proc st;
  pr ← deref (procs st) proc;
  x ← vec_get (state_vec st sel) (idx pr);
  assert (bool_decide (x = proc));;
  st1 ← proc_vec_swapdel sel proc st;
  v' ← ptr_vec_trim b (state_vec st1 sel) (n_live_procs st1);
  Ok (set_state_vec st1 sel v').

Definition proc_state_transition (o : bufs) (proc : ptr) (src dst : proc_state_t)
    (st : rt_state) : res rt_state :=
  pr ← deref (procs st) proc;
  assert (bool_decide (state pr = src));;
  st1 ← remove_proc_from_state_vec (o [0]) proc st;
  pr1 ← deref (procs st1) proc;
  let st2 := set_procs st1 (<[proc := set_state pr1 dst]> (procs st1)) in
  add_proc_to_state_vec (o [1]) proc st2.

(** ** Stacks and procs *)

Definition init_stk_bytes : Z := 65536.
Definition n_callee_saves : nat := 4.

(** [new_stk] on the block [m] that [malloc] returned; [memset] clears the
    header.  The valgrind registration is left out. *)
Definition new_stk (m : ptr) (st : rt_state) : res (ptr * rt_state) :=
  s ← xalloc m;
  Ok (s, set_stks st (<[s := mk_stk null null init_stk_bytes 0]> (stks st))).

(** The do-while of [del_stk]: every round frees one segment, so
    [S (size h)] rounds are never used up. *)
Fixpoint del_stk_loop (fuel : nat) (s : ptr) (h : gmap Z stk_seg) : res (gmap Z stk_seg) :=
  match fuel with
  | 0 => Abort
  | S fuel' =>
      seg ← deref h s;
      let h' := delete s h in
      if bool_decide (stk_next seg ≠ null)
      then del_stk_loop fuel' (stk_next seg) h'
      else Ok h'
  end.

Definition del_stk (s : ptr) (st : rt_state) : res rt_state :=
  h ← del_stk_loop (S (size (stks st))) s (stks st);
  Ok (set_stks st h).

(** [*sp-- = x] on a cursor (address, word store). *)
Definition store_dec (x : Z) (c : Z * gmap Z Z) : Z * gmap Z Z :=
  (c.1 - word_bytes, <[c.1 := x]> (c.2))%Z.

(** [&proc->stk->data[tos]] aligned down by [&= ~0xf]. *)
Definition frame_top (s : ptr) : Z :=
  let tos := (init_stk_bytes - word_bytes)%Z in
  Z.land (s + stk_data_off + tos) (Z.lnot 15).

Definition new_proc (m_proc m_stk : ptr) (prog : ptr) (st : rt_state)
    : res (ptr * rt_state) :=
  proc ← xcalloc m_proc;
  pg ← deref (progs st) prog;
  '(s, st1) ← new_stk m_stk st;
  let sp0 := frame_top s in
  let proc_sp := (sp0 - (3 + Z.of_nat n_callee_saves) * word_bytes)%Z in
  let c1 := store_dec proc (sp0, mem st1) in
  let c2 := store_dec 0 c1 in
  let c3 := store_dec (main_code pg) c2 in
  let c4 := store_dec (main_code pg) c3 in
  let c5 := Nat.iter n_callee_saves (store_dec 0) c4 in
  let pr := mk_proc s prog proc_sp proc_state_running 0 0
              upcall_code_log_uint32 (replicate PROC_MAX_UPCALL_ARGS 0%Z) in
  Ok (proc, set_procs (set_mem st1 c5.2) (<[proc := pr]> (procs st1))).

Definition del_proc (proc : ptr) (st : rt_state) : res rt_state :=
  pr ← deref (procs st) proc;
  assert (bool_decide (refcnt pr = 0));;
  st1 ← del_stk (stk pr) st;
  Ok (set_procs st1 (delete proc (procs st1))).

Definition spawn_proc (m_proc m_stk : ptr) (prog : ptr) (st : rt_state)
    : res (ptr * rt_state) :=
  new_proc m_proc m_stk prog st.

Definition exit_proc (b : block) (proc : ptr) (st : rt_state) : res rt_state :=
  assert (bool_decide (proc ≠ null));;
  assert (bool_decide (0 < n_live_procs st));;
  sel ← get_proc_vec proc st;
  st1 ← proc_vec_swapdel sel proc st;
  st2 ← del_proc proc st1;
  v' ← ptr_vec_trim b (state_vec st2 sel) (n_live_procs st2);
  Ok (set_state_vec st2 sel v').

(** [sched]; [r] is the number [rand] returns. *)
Definition sched (r : nat) (st : rt_state) : res ptr :=
  assert (bool_decide (0 < n_live_procs st));;
  if bool_decide (0 < init (running_procs st))
  then vec_get (running_procs st) (r mod init (running_procs st))
  else Exit "rt: no schedulable processes" 1%Z.

(** ** Runtime *)

(** [new_rt] on the block [m] for the runtime and the blocks [b1], [b2] for
    the buffers of its two vectors; [pg] and [m0] are the progs and the
    words present before the runtime starts. *)
Definition new_rt (m : ptr) (b1 b2 : block) (pg : gmap Z rust_prog) (m0 : gmap Z Z)
    : res rt_state :=
  _ ← xcalloc m;
  r ← init_ptr_vec b1;
  bl ← init_ptr_vec b2;
  Ok (mk_state r bl ∅ ∅ pg ∅ ∅ m0 ∅).

(** The loop of [del_all_procs] on the vector [sel]; the first component is
    the list of indices at which [v->data] was read, in order.  Every round
    decrements [init], so [S init] rounds are never used up. *)
Fixpoint del_all_procs_loop (fuel : nat) (sel : vec_sel) (st : rt_state)
    : list nat * res rt_state :=
  match fuel with
  | 0 => ([], Abort)
  | S fuel' =>
      let v := state_vec st sel in
      if bool_decide (init v = 0) then ([], Ok st)
      else
        let i := init v in
        let st1 := set_state_vec st sel (mk_ptr_vec (alloc v) (i - 1) (data v)) in
        match p ← vec_get v i; del_proc p st1 with
        | Ok st2 =>
            let '(tr, r) := del_all_procs_loop fuel' sel st2 in (i :: tr, r)
        | Exit msg code => ([i], Exit msg code)
        | Abort => ([i], Abort)
        end
  end.

Definition del_all_procs (sel : vec_sel) (st : rt_state) : list nat * res rt_state :=
  del_all_procs_loop (S (init (state_vec st sel))) sel st.

Definition del_rt (st : rt_state) : res rt_state :=
  st1 ← (del_all_procs sel_running st).2;
  st2 ← (del_all_procs sel_blocked st1).2;
  fini_ptr_vec (running_procs st2);;
  fini_ptr_vec (blocked_procs st2);;
  Ok st2.

(** ** Upcalls *)

Definition upcall_new_port (m : ptr) (b : block) (proc : ptr) (st : rt_state)
    : res (ptr * rt_state) :=
  port ← xcalloc m;
  w ← init_ptr_vec b;
  Ok (port, set_ports st (<[port := mk_port 0 0 proc w]> (ports st))).

Definition upcall_del_port (port : ptr) (st : rt_state) : res rt_state :=
  pt ← deref (ports st) port;
  assert (bool_decide (live_refcnt pt = 0));;
  fini_ptr_vec (writers pt);;
  Ok (set_ports st (delete port (ports st))).

Definition upcall_new_chan (m : ptr) (b : block) (proc port : ptr) (st : rt_state)
    : res (ptr * rt_state) :=
  assert (bool_decide (port ≠ null));;
  chan ← xcalloc m;
  w ← init_ptr_vec b;
  Ok (chan, set_chans st (<[chan := mk_chan port proc false 0 w]> (chans st))).

Definition upcall_del_chan (chan : ptr) (st : rt_state) : res rt_state :=
  assert (bool_decide (chan ≠ null));;
  c ← deref (chans st) chan;
  fini_ptr_vec (buf c);;
  Ok (set_chans st (delete chan (chans st))).

Definition chan_vec_swapdel (port chan : ptr) (st : rt_state) : res rt_state :=
  pt ← deref (ports st) port;
  let v := writers pt in
  assert (bool_decide (chan ≠ null));;
  c ← deref (chans st) chan;
  x ← vec_get v (chan_idx c);
  assert (bool_decide (x = chan));;
  v' ← ptr_vec_swapdel v (chan_idx c);
  let st1 := set_ports st (<[port := set_writers pt v']> (ports st)) in
  if bool_decide (0 < init v')
  then
    cnew ← vec_get v' (chan_idx c);
    cn ← deref (chans st1) cnew;
    Ok (set_chans st1 (<[cnew := set_chan_idx cn (chan_idx c)]> (chans st1)))
  else Ok st1.

Definition attempt_rendezvous (o : bufs) (src dst : ptr) (st : rt_state)
    : res (bool * rt_state) :=
  assert (bool_decide (src ≠ null));;
  assert (bool_decide (dst ≠ null));;
  ps ← deref (procs st) src;
  pd ← deref (procs st) dst;
  if bool_decide (state ps = proc_state_blocked_writing)
     && bool_decide (state pd = proc_state_blocked_reading)
  then
    let sval := arg ps 1 in
    let dptr := arg pd 0 in
    let st1 := set_mem st (<[dptr := sval]> (mem st)) in
    st2 ← proc_state_transition (sub 0 o) src
            proc_state_blocked_writing proc_state_running st1;
    st3 ← proc_state_transition (sub 1 o) dst
            proc_state_blocked_reading proc_state_running st2;
    Ok (true, st3)
  else Ok (false, st).

Definition upcall_send (o : bufs) (src chan : ptr) (st : rt_state) : res rt_state :=
  assert (bool_decide (chan ≠ null));;
  c ← deref (chans st) chan;
  assert (bool_decide (chan_port c ≠ null));;
  let st1 := set_chans st (<[chan := set_chan_proc c src]> (chans st)) in
  let port := chan_port c in
  pt ← deref (ports st1) port;
  if bool_decide (port_proc pt ≠ null)
  then
    st2 ← proc_state_transition (sub 0 o) src
            proc_state_calling_c proc_state_blocked_writing st1;
    pt2 ← deref (ports st2) port;
    '(ok, st3) ← attempt_rendezvous (sub 1 o) src (port_proc pt2) st2;
    if (ok : bool) then Ok st3
    else
      c3 ← deref (chans st3) chan;
      if queued c3 then Ok st3
      else
        pt3 ← deref (ports st3) port;
        w ← ptr_vec_push (o [2]) (writers pt3) chan;
        let c4 := set_queued (set_chan_idx c3 (init (writers pt3))) true in
        Ok (set_chans (set_ports st3 (<[port := set_writers pt3 w]> (ports st3)))
              (<[chan := c4]> (chans st3)))
  else Ok st1.

(** [upcall_recv]; [r] is the number [rand] returns. *)
Definition upcall_recv (o : bufs) (r : nat) (dst port : ptr) (st : rt_state)
    : res rt_state :=
  assert (bool_decide (port ≠ null));;
  pt ← deref (ports st) port;
  assert (bool_decide (port_proc pt ≠ null));;
  assert (bool_decide (dst ≠ null));;
  assert (bool_decide (port_proc pt = dst));;
  st1 ← proc_state_transition (sub 0 o) dst
          proc_state_calling_c proc_state_blocked_reading st;
  pt1 ← deref (ports st1) port;
  if bool_decide (0 < init (writers pt1))
  then
    let i := r mod init (writers pt1) in
    schan ← vec_get (writers pt1) i;
    sc ← deref (chans st1) schan;
    assert (bool_decide (chan_idx sc = i));;
    let src := chan_proc sc in
    '(ok, st2) ← attempt_rendezvous (sub 1 o) src dst st1;
    if (ok : bool)
    then
      st3 ← chan_vec_swapdel port schan st2;
      pt3 ← deref (ports st3) port;
      w ← ptr_vec_trim (o [2]) (writers pt3) (init (writers pt3));
      let st4 := set_ports st3 (<[port := set_writers pt3 w]> (ports st3)) in
      sc4 ← deref (chans st4) schan;
      Ok (set_chans st4 (<[schan := set_queued sc4 false]> (chans st4)))
    else Ok st2
  else Ok st1.

(** [upcall_check_expr]; the argument is converted to [uint32_t]. *)
Definition upcall_check_expr (proc : ptr) (i : Z) (st : rt_state) : res rt_state :=
  if bool_decide ((i mod 2 ^ 32)%Z = 0%Z)
  then
    pr ← deref (procs st) proc;
    Ok (set_procs st (<[proc := set_state pr proc_state_exiting]> (procs st)))
  else Ok st.

(** [upcall_malloc] on the block [m] that [malloc] returned. *)
Definition upcall_malloc (m : ptr) (nbytes : Z) (st : rt_state) : res (ptr * rt_state) :=
  p ← xalloc m;
  Ok (p, set_blocks st ({[p]} ∪ blocks st)).

(** [upcall_free]: [free(ptr)].  [NULL] is ignored.  A block of the malloc
    upcall is released, and so is a proc record, a stack segment, a port or a
    channel when [ptr] is its address: the object is gone, what it points to
    and what points to it stay as they are.  [free] of any other pointer is
    undefined. *)
Definition upcall_free (p : ptr) (st : rt_state) : res rt_state :=
  if bool_decide (p = null) then Ok st
  else if bool_decide (p ∈ blocks st) then Ok (set_blocks st (blocks st ∖ {[p]}))
  else if bool_decide (is_Some (procs st !! p))
  then Ok (set_procs st (delete p (procs st)))
  else if bool_decide (is_Some (stks st !! p))
  then Ok (set_stks st (delete p (stks st)))
  else if bool_decide (is_Some (ports st !! p))
  then Ok (set_ports st (delete p (ports st)))
  else if bool_decide (is_Some (chans st !! p))
  then Ok (set_chans st (delete p (chans st)))
  else Abort.

Definition handle_upcall (e : env) (proc : ptr) (st : rt_state) : res rt_state :=
  pr ← deref (procs st) proc;
  let a0 := arg pr 0 in
  let a1 := arg pr 1 in
  st1 ←
    match upcall_code pr with
    | upcall_code_log_uint32 => Ok st
    | upcall_code_log_str => Ok st
    | upcall_code_spawn =>
        '(p, st') ← spawn_proc (e_block1 e) (e_block2 e) a1 st;
        Ok (set_mem st' (<[a0 := p]> (mem st')))
    | upcall_code_sched => add_proc_to_state_vec (e_bufs e []) a0 st
    | upcall_code_check_expr => upcall_check_expr proc a0 st
    | upcall_code_malloc =>
        '(p, st') ← upcall_malloc (e_block1 e) a1 st;
        Ok (set_mem st' (<[a0 := p]> (mem st')))
    | upcall_code_free => upcall_free a0 st
    | upcall_code_new_port =>
        '(p, st') ← upcall_new_port (e_block1 e) (e_bufs e []) proc st;
        Ok (set_mem st' (<[a0 := p]> (mem st')))
    | upcall_code_del_port => upcall_del_port a0 st
    | upcall_code_new_chan =>
        '(c, st') ← upcall_new_chan (e_block1 e) (e_bufs e []) proc a1 st;
        Ok (set_mem st' (<[a0 := c]> (mem st')))
    | upcall_code_del_chan => upcall_del_chan a1 st
    | upcall_code_send => upcall_send (e_bufs e) proc a0 st
    | upcall_code_recv => upcall_recv (e_bufs e) (e_rand_recv e) proc a1 st
    end;
  pr1 ← deref (procs st1) proc;
  Ok (set_procs st1 (<[proc := set_upcall_code pr1 upcall_code_log_uint32]> (procs st1))).

(** ** Driver *)

(** What a proc has done when the trampoline returns: the fields of its own
    record it wrote and the contents of the word store. *)
Record yield := mk_yield {
  y_state : proc_state_t;
  y_code : upcall_t;
  y_args : list Z;
  y_sp : Z;
  y_mem : gmap Z Z
}.

(** The trampoline [c_to_proc_glue] is the function pointer handed to
    [rust_start]: it runs the proc and returns once the proc yields.  What
    the proc did in between is the parameter [y]: its [state], upcall slot
    and saved [sp] are updated, and the word store is as the proc left it. *)
Definition c_to_proc_glue (y : yield) (proc : ptr) (st : rt_state) : res rt_state :=
  pr ← deref (procs st) proc;
  let pr' := mk_proc (stk pr) (prog pr) (y_sp y) (y_state y) (idx pr) (refcnt pr)
               (y_code y) (resize PROC_MAX_UPCALL_ARGS 0%Z (y_args y)) in
  Ok (set_mem (set_procs st (<[proc := pr']> (procs st))) (y_mem y)).

(** One round of the [while (1)] of [rust_start]; [None] is the [break]. *)
Definition loop_body (y : yield) (e : env) (proc : ptr) (st : rt_state)
    : res (option ptr * rt_state) :=
  pr ← deref (procs st) proc;
  let st0 := set_procs st (<[proc := set_state pr proc_state_running]> (procs st)) in
  st1 ← c_to_proc_glue y proc st0;
  pr1 ← deref (procs st1) proc;
  st2 ←
    match state pr1 with
    | proc_state_running => Ok st1
    | proc_state_calling_c =>
        st' ← handle_upcall e proc st1;
        pr' ← deref (procs st') proc;
        if bool_decide (state pr' = proc_state_calling_c)
        then Ok (set_procs st' (<[proc := set_state pr' proc_state_running]> (procs st')))
        else Ok st'
    | proc_state_exiting => exit_proc (e_bufs e []) proc st1
    | proc_state_blocked_reading | proc_state_blocked_writing => Abort
    end;
  if bool_decide (0 < n_live_procs st2)
  then p ← sched (e_rand_sched e) st2; Ok (Some p, st2)
  else Ok (None, st2).

(** [rust_start] up to the loop: the three [logptr] calls that read the
    prog, the new runtime, the root proc, the first [sched]. *)
Definition rust_start_init (m_rt : ptr) (e : env) (prog : ptr)
    (pg : gmap Z rust_prog) (m0 : gmap Z Z) : res (ptr * rt_state) :=
  _ ← deref pg prog;
  st ← new_rt m_rt (e_bufs e [0]) (e_bufs e [1]) pg m0;
  '(p, st1) ← spawn_proc (e_block1 e) (e_block2 e) prog st;
  st2 ← add_proc_to_state_vec (e_bufs e [2]) p st1;
  proc ← sched (e_rand_sched e) st2;
  Ok (proc, st2).

(** [rust_start] after the loop: the value returned. *)
Definition rust_start_fini (st : rt_state) : res Z :=
  _ ← del_rt st;
  Ok 0%Z.

(** The [while (1)] of [rust_start], driven by [rounds]: what the procs and
    the environment do, round by round.  The result is the state in which
    the loop leaves through its [break], or [None] when [rounds] ends with
    the loop still running. *)
Fixpoint rust_start_loop (rounds : list (yield * env)) (p : ptr) (st : rt_state)
    : res (option rt_state) :=
  match rounds with
  | [] => Ok None
  | (y, e) :: rounds' =>
      '(r, st') ← loop_body y e p st;
      match r with
      | Some p' => rust_start_loop rounds' p' st'
      | None => Ok (Some st')
      end
  end.

(** [rust_start]: the value returned, [None] when [rounds] ends first. *)
Definition rust_start (m_rt : ptr) (e : env) (prog : ptr)
    (pg : gmap Z rust_prog) (m0 : gmap Z Z) (rounds : list (yield * env))
    : res (option Z) :=
  '(p, st) ← rust_start_init m_rt e prog pg m0;
  r ← rust_start_loop rounds p st;
  match r with
  | Some st' => z ← rust_start_fini st'; Ok (Some z)
  | None => Ok None
  end.

End Runtime.

(** ** Specification vocabulary *)

(** Sequences of vector operations, run in order; they stop at the first
    failed assertion.  A push or trim carries the block [realloc] will
    return if the operation calls it. *)
Inductive vec_op :=
  | op_push (b : block) (p : ptr)
  | op_trim (b : block) (n : nat)
  | op_swapdel (i : nat).

Definition run_op (wb : Z) (o : vec_op) (v : ptr_vec) : res ptr_vec :=
  match o with
  | op_push b p => ptr_vec_push wb b v p
  | op_trim b n => ptr_vec_trim wb b v n
  | op_swapdel i => ptr_vec_swapdel v i
  end.

Fixpoint run_ops (wb : Z) (ops : list vec_op) (v : ptr_vec) : res ptr_vec :=
  match ops with
  | [] => Ok v
  | o :: ops' => v' ← run_op wb o v; run_ops wb ops' v'
  end.

Definition pow2 (n : nat) : Prop := ∃ k, n = 2 ^ k.

(** The capacity invariant in the words of the specification. *)
Definition cap_inv (v : ptr_vec) : Prop :=
  0 ≤ init v ∧ init v ≤ alloc v ∧ INIT_PTR_VEC_SZ ≤ alloc v ∧ pow2 (alloc v).

(** The slots in use lie inside the buffer. *)
Definition vec_ok (v : ptr_vec) : Prop := init v ≤ length (data v).

(** The buffer has room for [n] more pointers. *)
Definition room (v : ptr_vec) (n : nat) : Prop := init v + n ≤ length (data v).

(** A vector as [init_ptr_vec] makes it and as the operations leave it as
    long as they stay inside the buffer: [alloc] is still [INIT_PTR_VEC_SZ];
    the buffer, a block of [alloc] bytes, has fewer than [alloc] slots
    (pointers being wider than a byte); the slots in use lie inside it. *)
Definition vec_inv (v : ptr_vec) : Prop :=
  alloc v = INIT_PTR_VEC_SZ ∧ length (data v) < INIT_PTR_VEC_SZ ∧ vec_ok v.

(** The test of [ptr_vec_trim]. *)
Definition trim_cond (v : ptr_vec) (n : nat) : Prop :=
  n ≤ alloc v / 4 ∧ INIT_PTR_VEC_SZ ≤ alloc v / 2.

(** Slot [i] of the vector [sel] is in use and holds [p]. *)
Definition live_slot (st : rt_state) (sel : vec_sel) (i : nat) (p : ptr) : Prop :=
  i < init (state_vec st sel) ∧ data (state_vec st sel) !! i = Some p.

(** [p] is one of the procs counted by [n_live_procs]. *)
Definition registered (st : rt_state) (p : ptr) : Prop :=
  ∃ sel i, live_slot st sel i p.

(** Every slot in use holds a proc record that points back at the slot. *)
Definition slot_ok (st : rt_state) (sel : vec_sel) : Prop :=
  ∀ i p, live_slot st sel i p →
    p ≠ null ∧ ∃ pr, procs st !! p = Some pr ∧ idx pr = i
                     ∧ get_state_vec (state pr) = sel.

Definition sched_inv (st : rt_state) : Prop :=
  vec_inv (running_procs st) ∧ vec_inv (blocked_procs st)
  ∧ ∀ sel, slot_ok st sel.

(** Two proc records that differ at most in [idx]. *)
Definition same_but_idx (a b : rust_proc) : Prop := set_idx a 0 = set_idx b 0.

(** Two proc stores with the same procs, equal up to [idx]. *)
Definition heap_mod_idx (h h' : gmap Z rust_proc) : Prop :=
  ∀ q, option_Forall2 same_but_idx (h !! q) (h' !! q).

(** Everything but the scheduler vectors and the proc store is unchanged. *)
Definition same_rest (st st' : rt_state) : Prop :=
  stks st' = stks st ∧ progs st' = progs st ∧ ports st' = ports st
  ∧ chans st' = chans st ∧ mem st' = mem st ∧ blocks st' = blocks st.

(** What a successful rendezvous does to the state. *)
Definition rendezvous_done (src dst : ptr) (ps pd : rust_proc) (st st' : rt_state) : Prop :=
  mem st' = <[arg pd 0 := arg ps 1]> (mem st)
  ∧ stks st' = stks st ∧ progs st' = progs st ∧ ports st' = ports st
  ∧ chans st' = chans st
  ∧ heap_mod_idx
      (<[dst := set_state pd proc_state_running]>
         (<[src := set_state ps proc_state_running]> (procs st)))
      (procs st')
  ∧ (∃ ps', procs st' !! src = Some ps' ∧ state ps' = proc_state_running
        ∧ live_slot st' sel_running (idx ps') src)
  ∧ (∃ pd', procs st' !! dst = Some pd' ∧ state pd' = proc_state_running
        ∧ live_slot st' sel_running (idx pd') dst).

(** Slot [i] of the writer vector of [port] is in use and holds [c]. *)
Definition writer_slot (st : rt_state) (port : ptr) (i : nat) (c : ptr) : Prop :=
  ∃ pt, ports st !! port = Some pt ∧ i < init (writers pt)
        ∧ data (writers pt) !! i = Some c.

(** The queued-channel invariant: a queued channel sits in its port's writer
    vector at [idx], and the writer vectors hold nothing else. *)
Definition chan_inv (st : rt_state) : Prop :=
  (∀ c ch, chans st !! c = Some ch → queued ch = true →
     writer_slot st (chan_port ch) (chan_idx ch) c)
  ∧ (∀ port i c, writer_slot st port i c →
       ∃ ch, chans st !! c = Some ch ∧ queued ch = true
             ∧ chan_port ch = port ∧ chan_idx ch = i).

(** The proc record [new_proc] builds. *)
Definition fresh_proc (s prog : ptr) (proc_sp : Z) : rust_proc :=
  mk_proc s prog proc_sp proc_state_running 0 0
    upcall_code_log_uint32 (replicate PROC_MAX_UPCALL_ARGS 0%Z).

(** [upcall_args[0]] as the dispatcher will read it after the yield [y]. *)
Definition yield_arg0 (y : yield) : Z :=
  default 0%Z (resize PROC_MAX_UPCALL_ARGS 0%Z (y_args y) !! 0).

(** The conventions a round of the loop relies on: [malloc] returns a block
    that is not a live proc record, the sched upcall names a proc that no
    scheduler vector holds yet, and the free upcall names no proc that a
    scheduler vector holds. *)
Definition disciplined (y : yield) (e : env) (st : rt_state) : Prop :=
  y_state y = proc_state_calling_c →
  (y_code y = upcall_code_spawn → procs st !! e_block1 e = None)
  ∧ (y_code y = upcall_code_sched →
       yield_arg0 y ≠ null ∧ ¬ registered st (yield_arg0 y))
  ∧ (y_code y = upcall_code_free → ¬ registered st (yield_arg0 y)).

(** No convention at all. *)
Definition undisciplined (y : yield) (e : env) (st : rt_state) : Prop := True.

(** The states in which [rust_start] is at the end of a round of its loop
    (or about to enter it), with the proc chosen for the next round; [D]
    constrains what procs and environment may do in a round. *)
Inductive loop_reach (wb off : Z) (D : yield → env → rt_state → Prop)
    : option ptr → rt_state → Prop :=
  | reach_init m_rt e pgm pg m0 p st :
      rust_start_init wb off m_rt e pgm pg m0 = Ok (p, st) →
      loop_reach wb off D (Some p) st
  | reach_step y e p st r st' :
      loop_reach wb off D (Some p) st →
      D y e st →
      loop_body wb off y e p st = Ok (r, st') →
      loop_reach wb off D r st'.

(** Rounds of the loop run one after the other. *)
Fixpoint run_rounds (wb off : Z) (ys : list (yield * env)) (p : ptr) (st : rt_state)
    : res (option ptr * rt_state) :=
  match ys with
  | [] => Ok (Some p, st)
  | (y, e) :: ys' =>
      '(r, st') ← loop_body wb off y e p st;
      match r with
      | Some p' => run_rounds wb off ys' p' st'
      | None => match ys' with [] => Ok (None, st') | _ => Abort end
      end
  end.

(** The state in which the dispatcher starts after proc [p] (record [pr]
    before the round) has yielded [y]. *)
Definition glued (y : yield) (p : ptr) (pr : rust_proc) (st : rt_state) : rt_state :=
  set_mem
    (set_procs st
       (<[p := mk_proc (stk pr) (prog pr) (y_sp y) (y_state y) (idx pr) (refcnt pr)
                 (y_code y) (resize PROC_MAX_UPCALL_ARGS 0%Z (y_args y))]> (procs st)))
    (y_mem y).

(** The state of proc [p] in [st] is [s]. *)
Definition in_state (st : rt_state) (p : ptr) (s : proc_state_t) : Prop :=
  ∃ pr, procs st !! p = Some pr ∧ state pr = s.

(** The yields of a proc that sends [v] on [chan], and of a proc that
    receives from [port] into the address [x]. *)
Definition send_yield (chan v : Z) (rest : list Z) (new_sp : Z) (m : gmap Z Z) : yield :=
  mk_yield proc_state_calling_c upcall_code_send (chan :: v :: rest) new_sp m.
Definition recv_yield (x port : Z) (rest : list Z) (new_sp : Z) (m : gmap Z Z) : yield :=
  mk_yield proc_state_calling_c upcall_code_recv (x :: port :: rest) new_sp m.

(** The writer vector of the port [pt] is well formed: every slot in use
    holds a live channel that records the slot in its [idx]. *)
Definition writers_ok (st : rt_state) (pt : rust_port) : Prop :=
  vec_inv (writers pt)
  ∧ ∀ j, j < init (writers pt) →
      ∃ cj chj, data (writers pt) !! j = Some cj ∧ cj ≠ null
                ∧ chans st !! cj = Some chj ∧ chan_idx chj = j.

(** The pointers a vector holds: the contents of its slots in use. *)
Definition live (v : ptr_vec) : list ptr := take (init v) (data v).

(** The stack segments [l], in order, form the chain that starts at [s]:
    each is linked to the next through [next], the last one to [NULL]. *)
Fixpoint stk_chain (h : gmap Z stk_seg) (s : ptr) (l : list ptr) : Prop :=
  match l with
  | [] => s = null
  | a :: l' => a = s ∧ s ≠ null ∧ ∃ seg, h !! s = Some seg ∧ stk_chain h (stk_next seg) l'
  end.

(** The [switch] of the driver loop on the state in which the proc came
    back, applied to the state [g] the trampoline left. *)
Definition after_yield (wb off : Z) (y : yield) (e : env) (p : ptr) (g : rt_state)
    : res rt_state :=
  match y_state y with
  | proc_state_running => Ok g
  | proc_state_calling_c =>
      st' ← handle_upcall wb off e p g;
      pr' ← deref (procs st') p;
      if bool_decide (state pr' = proc_state_calling_c)
      then Ok (set_procs st' (<[p := set_state pr' proc_state_running]> (procs st')))
      else Ok st'
  | proc_state_exiting => exit_proc wb (e_bufs e []) p g
  | proc_state_blocked_reading | proc_state_blocked_writing => Abort
  end.

(** The yield of a proc that has the runtime check the value [v]. *)
Definition check_yield (v : Z) (rest : list Z) (new_sp : Z) (m : gmap Z Z) : yield :=
  mk_yield proc_state_calling_c upcall_code_check_expr (v :: rest) new_sp m.

(** Ports are well formed: the queued-channel invariant holds and every
    writer vector is as [vec_inv] says. *)
Definition port_inv (st : rt_state) : Prop :=
  chan_inv st ∧ ∀ port pt, ports st !! port = Some pt → vec_inv (writers pt).

(** Two channel records that agree on what ties a channel to a writer
    vector. *)
Definition chan_link (a b : rust_chan) : Prop :=
  queued a = queued b ∧ chan_port a = chan_port b ∧ chan_idx a = chan_idx b.

(** [upcall_args[1]] as the dispatcher will read it after the yield [y]. *)
Definition yield_arg1 (y : yield) : Z :=
  default 0%Z (resize PROC_MAX_UPCALL_ARGS 0%Z (y_args y) !! 1).

(** The conventions the queue invariant relies on: [malloc] returns a block
    that is not a live port or channel, [del_chan] names a channel that is
    not queued, and the free upcall names no live port or channel. *)
Definition chan_disciplined (y : yield) (e : env) (st : rt_state) : Prop :=
  y_state y = proc_state_calling_c →
  (y_code y = upcall_code_new_port → ports st !! e_block1 e = None)
  ∧ (y_code y = upcall_code_new_chan → chans st !! e_block1 e = None)
  ∧ (y_code y = upcall_code_del_chan →
       ∀ ch, chans st !! yield_arg1 y = Some ch → queued ch = false)
  ∧ (y_code y = upcall_code_free →
       ports st !! yield_arg0 y = None ∧ chans st !! yield_arg0 y = None).

(** ** Statements of the specification that the code does not satisfy *)

(** The proc-vector invariant in the words of the specification: a proc
    held by a scheduler vector is held by exactly one of the two, the one
    its state determines, at the slot its [idx] names. *)
Definition proc_vec_claim (st : rt_state) : Prop :=
  ∀ p, registered st p →
    ∃ pr, procs st !! p = Some pr
      ∧ live_slot st (get_state_vec (state pr)) (idx pr) p
      ∧ ∀ sel i, live_slot st sel i p → sel = get_state_vec (state pr).

(** [del_chan] as the specification wants it. *)
Definition del_chan_claim (chan : ptr) (st : rt_state) : Prop :=
  ∀ st', upcall_del_chan chan st = Ok st' →
    (∀ port i, ¬ writer_slot st' port i chan) ∧ chan_inv st'.

(** The spawn upcall as the specification describes it: the new proc, for
    the prog in [args[1]], is Running, its handle is in the out-slot
    [args[0]], and the running vector holds it. *)
Definition spawn_claim (wb off : Z) (e : env) (proc : ptr) (st : rt_state) : Prop :=
  ∀ pr st', procs st !! proc = Some pr → upcall_code pr = upcall_code_spawn →
    handle_upcall wb off e proc st = Ok st' →
    ∃ p pn, mem st' !! arg pr 0 = Some p ∧ procs st' !! p = Some pn
      ∧ state pn = proc_state_running ∧ prog pn = arg pr 1
      ∧ ∃ i, live_slot st' sel_running i p.

(** The initial frame as the specification lays it out. *)
Definition frame_claim (wb off : Z) (m_proc m_stk prog : ptr) (st : rt_state) : Prop :=
  ∀ p st' pg, new_proc wb off m_proc m_stk prog st = Ok (p, st') →
    progs st !! prog = Some pg →
    let top := frame_top wb off m_stk in
    (top mod 16 = 0)%Z
    ∧ mem st' !! top = Some p
    ∧ mem st' !! (top - wb)%Z = Some 0%Z
    ∧ mem st' !! (top - 2 * wb)%Z = Some 0%Z
    ∧ mem st' !! (top - 3 * wb)%Z = Some (main_code pg)
    ∧ (∀ j, (0 ≤ j < Z.of_nat n_callee_saves)%Z →
         mem st' !! (top - (4 + j) * wb)%Z = Some 0%Z)
    ∧ ∃ pr, procs st' !! p = Some pr ∧ (sp pr mod 16 = 0)%Z.

(** ** Example states and rounds *)

(** The examples are laid out for a 32-bit platform: pointers of 4 bytes, so
    that the 8-byte buffer of a vector has two slots. *)

(** [malloc] and [realloc] that succeed, with zeros in the fresh bytes. *)
Definition ex_block : block := Some (λ _, 0%Z).
Definition ex_bufs : bufs := λ _, ex_block.

(** An empty vector as [init_ptr_vec] builds it. *)
Definition ex_vec0 : ptr_vec := mk_ptr_vec 8 0 [0; 0]%Z.

(** A writer at address 16 blocked on sending 7 and a reader at address 32
    blocked on receiving into address 400, both held by the blocked vector. *)
Definition ex_writer : rust_proc :=
  mk_proc 0 0 0 proc_state_blocked_writing 0 0 upcall_code_send [64; 7; 0; 0; 0; 0; 0; 0]%Z.
Definition ex_reader : rust_proc :=
  mk_proc 0 0 0 proc_state_blocked_reading 1 0 upcall_code_recv [400; 48; 0; 0; 0; 0; 0; 0]%Z.
Definition ex_blocked_pair : rt_state :=
  mk_state ex_vec0 (mk_ptr_vec 8 2 [16; 32]%Z)
    (<[16%Z := ex_writer]> (<[32%Z := ex_reader]> ∅)) ∅ ∅ ∅ ∅ ∅ ∅.

(** A runtime whose running vector holds the proc at 16 and, in the stale
    slot behind it, the proc at 32, which has moved to the blocked vector. *)
Definition ex_stale : rt_state :=
  mk_state (mk_ptr_vec 8 1 [16; 32]%Z)
    (mk_ptr_vec 8 1 [32; 0]%Z)
    (<[16%Z := mk_proc 1024 0 0 proc_state_running 0 0 upcall_code_log_uint32 []]>
       (<[32%Z := mk_proc 2048 0 0 proc_state_blocked_reading 0 0 upcall_code_recv []]> ∅))
    (<[1024%Z := mk_stk 0 0 init_stk_bytes 0]>
       (<[2048%Z := mk_stk 0 0 init_stk_bytes 0]> ∅))
    ∅ ∅ ∅ ∅ ∅.

(** A port at 48 owned by the proc at 32, with the channel at 64 queued. *)
Definition ex_queued : rt_state :=
  mk_state ex_vec0 ex_vec0 ∅ ∅ ∅
    (<[48%Z := mk_port 0 0 32 (mk_ptr_vec 8 1 [64; 0]%Z)]> ∅)
    (<[64%Z := mk_chan 48 16 true 0 ex_vec0]> ∅)
    ∅ ∅.

(** A proc at 16 in CallingC that sends on the channel at 64, whose port at
    48 has no owner. *)
Definition ex_dead : rt_state :=
  mk_state (mk_ptr_vec 8 1 [16; 0]%Z) ex_vec0
    (<[16%Z := mk_proc 0 0 0 proc_state_calling_c 0 0 upcall_code_send
                 [64; 7; 0; 0; 0; 0; 0; 0]%Z]> ∅)
    ∅ ∅
    (<[48%Z := mk_port 0 0 null ex_vec0]> ∅)
    (<[64%Z := mk_chan 48 0 false 0 ex_vec0]> ∅)
    ∅ ∅.

(** A root proc at 16 that asks for a spawn of the prog at 80 with out-slot
    address 400. *)
Definition ex_spawn : rt_state :=
  mk_state (mk_ptr_vec 8 1 [16; 0]%Z) ex_vec0
    (<[16%Z := mk_proc 1024 80 0 proc_state_calling_c 0 0 upcall_code_spawn
                 [400; 80; 0; 0; 0; 0; 0; 0]%Z]> ∅)
    (<[1024%Z := mk_stk 0 0 init_stk_bytes 0]> ∅)
    (<[80%Z := mk_prog 11 22 33]> ∅)
    ∅ ∅ ∅ ∅.

Definition ex_env : env := mk_env 4096 1048576 0 0 ex_bufs.

(** A root proc that registers itself a second time, creates a port and
    receives on it. *)
Definition ex_rounds : list (yield * env) :=
  [ (mk_yield proc_state_calling_c upcall_code_sched [4096]%Z 0 ∅, mk_env 0 0 0 0 ex_bufs);
    (mk_yield proc_state_calling_c upcall_code_new_port [400]%Z 0 ∅,
     mk_env 12288 0 0 0 ex_bufs);
    (mk_yield proc_state_calling_c upcall_code_recv [404; 12288]%Z 0 ∅,
     mk_env 0 0 0 0 ex_bufs) ].

Definition ex_progs : gmap Z rust_prog := <[80%Z := mk_prog 11 22 33]> ∅.

(** The root proc asks for a spawn of the prog at 80, out-slot 400; [malloc]
    hands out the blocks 16384 and 2097152. *)
Definition ex_spawn_yield : yield :=
  mk_yield proc_state_calling_c upcall_code_spawn [400; 80]%Z 0 ∅.
Definition ex_spawn_env : env := mk_env 16384 2097152 0 0 ex_bufs.

(** Two procs at 16 (the sender) and 32 (the receiver, owner of the port at
    48), both runnable, and the channel at 64 bound to that port. *)
Definition ex_pair : rt_state :=
  mk_state (mk_ptr_vec 8 2 [16; 32]%Z) ex_vec0
    (<[16%Z := mk_proc 1024 80 0 proc_state_running 0 0 upcall_code_log_uint32
                 [0; 0; 0; 0; 0; 0; 0; 0]%Z]>
       (<[32%Z := mk_proc 2048 80 0 proc_state_running 1 0 upcall_code_log_uint32
                    [0; 0; 0; 0; 0; 0; 0; 0]%Z]> ∅))
    ∅ ∅
    (<[48%Z := mk_port 0 0 32 ex_vec0]> ∅)
    (<[64%Z := mk_chan 48 16 false 0 ex_vec0]> ∅)
    ∅ ∅.

Definition ex_send_yield : yield :=
  mk_yield proc_state_calling_c upcall_code_send [64; 7]%Z 0 ∅.
Definition ex_recv_yield : yield :=
  mk_yield proc_state_calling_c upcall_code_recv [400; 48]%Z 0 ∅.
Definition ex_round_env : env := mk_env 0 0 0 0 ex_bufs.

(** A single proc at 32 that owns the port at 48, on which nobody sends. *)
Definition ex_single : rt_state :=
  mk_state (mk_ptr_vec 8 1 [32; 0]%Z) ex_vec0
    (<[32%Z := mk_proc 2048 80 0 proc_state_running 0 0 upcall_code_log_uint32
                 [0; 0; 0; 0; 0; 0; 0; 0]%Z]> ∅)
    ∅ ∅
    (<[48%Z := mk_port 0 0 32 ex_vec0]> ∅)
    ∅ ∅ ∅.

(** A vector that holds one pointer, a full one that holds two, and one of
    capacity 16 (a 16-byte buffer) that holds two. *)
Definition ex_vec1 : ptr_vec := mk_ptr_vec 8 1 [16; 0]%Z.
Definition ex_vec2 : ptr_vec := mk_ptr_vec 8 2 [16; 32]%Z.
Definition ex_vec16 : ptr_vec := mk_ptr_vec 16 2 [16; 32; 0; 0]%Z.

(** Two stack segments, the one at 1024 linked to the one at 2048. *)
Definition ex_chain : rt_state :=
  mk_state ex_vec0 ex_vec0 ∅
    (<[1024%Z := mk_stk 0 2048 init_stk_bytes 0]>
       (<[2048%Z := mk_stk 1024 0 init_stk_bytes 0]> ∅))
    ∅ ∅ ∅ ∅ ∅.

(** [ex_pair], with the stacks of its procs, when the proc at 16 has asked
    to send 7 on the channel at 64; and [ex_single] when its proc has asked
    to receive from the port at 48 into address 400. *)
Definition ex_send_wait : rt_state :=
  mk_state (mk_ptr_vec 8 2 [16; 32]%Z) ex_vec0
    (<[16%Z := mk_proc 1024 80 0 proc_state_calling_c 0 0 upcall_code_send
                 [64; 7; 0; 0; 0; 0; 0; 0]%Z]>
       (<[32%Z := mk_proc 2048 80 0 proc_state_running 1 0 upcall_code_log_uint32
                    [0; 0; 0; 0; 0; 0; 0; 0]%Z]> ∅))
    (<[1024%Z := mk_stk 0 0 init_stk_bytes 0]>
       (<[2048%Z := mk_stk 0 0 init_stk_bytes 0]> ∅))
    ∅
    (<[48%Z := mk_port 0 0 32 ex_vec0]> ∅)
    (<[64%Z := mk_chan 48 16 false 0 ex_vec0]> ∅)
    ∅ ∅.

Definition ex_recv_wait : rt_state :=
  mk_state (mk_ptr_vec 8 1 [32; 0]%Z) ex_vec0
    (<[32%Z := mk_proc 2048 80 0 proc_state_calling_c 0 0 upcall_code_recv
                 [400; 48; 0; 0; 0; 0; 0; 0]%Z]> ∅)
    ∅ ∅
    (<[48%Z := mk_port 0 0 32 ex_vec0]> ∅)
    ∅ ∅ ∅.

(** A proc that comes back in state Exiting, and one that asks for a new
    port with out-slot 400 while [malloc] hands out the block 12288. *)
Definition ex_exit_yield : yield :=
  mk_yield proc_state_exiting upcall_code_log_uint32 [] 0 ∅.

Definition ex_new_port_yield : yield :=
  mk_yield proc_state_calling_c upcall_code_new_port [400]%Z 0 ∅.
Definition ex_new_port_env : env := mk_env 12288 0 0 0 ex_bufs.

(** A proc at 16 that has asked for 64 bytes, with out-slot 400. *)
Definition ex_malloc_wait : rt_state :=
  mk_state (mk_ptr_vec 8 1 [16; 0]%Z) ex_vec0
    (<[16%Z := mk_proc 1024 80 0 proc_state_calling_c 0 0 upcall_code_malloc
                 [400; 64; 0; 0; 0; 0; 0; 0]%Z]> ∅)
    ∅ ∅ ∅ ∅ ∅ ∅.

(** [ex_pair] with a second port at 52 of the proc at 32; the channel at 64
    is bound to that second port. *)
Definition ex_two_ports : rt_state :=
  mk_state (mk_ptr_vec 8 2 [16; 32]%Z) ex_vec0
    (<[16%Z := mk_proc 1024 80 0 proc_state_running 0 0 upcall_code_log_uint32
                 [0; 0; 0; 0; 0; 0; 0; 0]%Z]>
       (<[32%Z := mk_proc 2048 80 0 proc_state_running 1 0 upcall_code_log_uint32
                    [0; 0; 0; 0; 0; 0; 0; 0]%Z]> ∅))
    ∅ ∅
    (<[48%Z := mk_port 0 0 32 ex_vec0]> (<[52%Z := mk_port 0 0 32 ex_vec0]> ∅))
    (<[64%Z := mk_chan 52 16 false 0 ex_vec0]> ∅)
    ∅ ∅.

(** A root proc (at 4096) that spawns a proc (at 16384) and registers it,
    then spawns a second one (at 24576); and the sched upcall that would
    register the second one as the third pointer of the running vector. *)
Definition ex_third_rounds : list (yield * env) :=
  [ (mk_yield proc_state_calling_c upcall_code_spawn [400; 80]%Z 0 ∅,
     mk_env 16384 2097152 0 0 ex_bufs);
    (mk_yield proc_state_calling_c upcall_code_sched [16384]%Z 0 ∅,
     mk_env 0 0 0 0 ex_bufs);
    (mk_yield proc_state_calling_c upcall_code_spawn [404; 80]%Z 0 ∅,
     mk_env 24576 3145728 0 0 ex_bufs) ].
Definition ex_third_sched : yield :=
  mk_yield proc_state_calling_c upcall_code_sched [24576]%Z 0 ∅.

(** A root proc (at 4096) that spawns and registers a proc (at 16384), which
    creates a port (at 12288) and blocks in a receive on it into address
    408; the root proc then spawns and registers another proc (at 24576) and
    creates a channel (at 32768) to the port.  [ex_full_send] is the root
    proc sending 7 on that channel: the receiver is waiting, and the running
    vector holds the third proc and will get the sender back. *)
Definition ex_full_rounds : list (yield * env) :=
  [ (mk_yield proc_state_calling_c upcall_code_spawn [400; 80]%Z 0 ∅,
     mk_env 16384 2097152 0 0 ex_bufs);
    (mk_yield proc_state_calling_c upcall_code_sched [16384]%Z 0 ∅,
     mk_env 0 0 0 1 ex_bufs);
    (mk_yield proc_state_calling_c upcall_code_new_port [404]%Z 0 ∅,
     mk_env 12288 0 0 1 ex_bufs);
    (mk_yield proc_state_calling_c upcall_code_recv [408; 12288]%Z 0 ∅,
     mk_env 0 0 0 0 ex_bufs);
    (mk_yield proc_state_calling_c upcall_code_spawn [412; 80]%Z 0 ∅,
     mk_env 24576 3145728 0 0 ex_bufs);
    (mk_yield proc_state_calling_c upcall_code_sched [24576]%Z 0 ∅,
     mk_env 0 0 0 0 ex_bufs);
    (mk_yield proc_state_calling_c upcall_code_new_chan [416; 12288]%Z 0 ∅,
     mk_env 32768 0 0 0 ex_bufs) ].
Definition ex_full_send : yield :=
  mk_yield proc_state_calling_c upcall_code_send [32768; 7]%Z 0 ∅.


(** * Properties *)

#[local] Arguments Nat.div : simpl never.
#[local] Arguments Nat.modulo : simpl never.

(** ** Monad inversion *)

Lemma bind_Ok {A B} (m : res A) (f : A → res B) (b : B) :
  m ≫= f = Ok b → ∃ a, m = Ok a ∧ f a = Ok b.
Proof. destruct m; simpl; [eauto | discriminate | discriminate]. Qed.

Lemma assert_Ok (b : bool) (u : unit) : assert b = Ok u → b = true.
Proof. destruct b; [done | discriminate]. Qed.

Lemma deref_Ok {A} (h : gmap Z A) (p : ptr) (a : A) :
  deref h p = Ok a ↔ h !! p = Some a.
Proof. unfold deref. destruct (h !! p); split; congruence. Qed.

Lemma vec_get_Ok (v : ptr_vec) (i : nat) (p : ptr) :
  vec_get v i = Ok p ↔ data v !! i = Some p.
Proof. unfold vec_get. destruct (data v !! i); split; congruence. Qed.

Lemma vec_set_Ok (v : ptr_vec) (i : nat) (p : ptr) (v' : ptr_vec) :
  vec_set v i p = Ok v' ↔
  i < length (data v) ∧ v' = mk_ptr_vec (alloc v) (init v) (<[i := p]> (data v)).
Proof.
  unfold vec_set. case_bool_decide; split.
  - intros [= <-]. done.
  - intros [_ ->]. done.
  - discriminate.
  - intros [? _]. lia.
Qed.

(** Splits a hypothesis [m ≫= f = Ok b] into its steps. *)
Ltac inv_res H :=
  repeat match type of H with
  | _ ≫= _ = Ok _ =>
      let a := fresh "a" in let H1 := fresh "H" in
      apply bind_Ok in H as (a & H1 & H);
      try (apply assert_Ok, bool_decide_eq_true in H1);
      try (apply deref_Ok in H1);
      try (apply vec_get_Ok in H1)
  end.

(** ** PtrVec *)

Lemma pow2_double (n : nat) : pow2 n → pow2 (n * 2).
Proof. intros [k ->]. exists (S k). simpl. lia. Qed.

Lemma pow2_half (n : nat) : pow2 n → 2 ≤ n → pow2 (n / 2).
Proof.
  intros [k ->] Hn. destruct k as [|k]; [simpl in Hn; lia|].
  exists k. rewrite Nat.pow_succ_r', Nat.mul_comm, Nat.div_mul; done.
Qed.

(** A block of [sz] bytes has fewer than [sz] slots when a pointer takes
    more than one byte. *)
Lemma slots_lt (wb : Z) (sz : nat) : (1 < wb)%Z → 0 < sz → slots wb sz < sz.
Proof.
  intros Hwb Hsz. unfold slots.
  assert (Z.of_nat sz / wb < Z.of_nat sz)%Z by (apply Z.div_lt; lia).
  assert (0 ≤ Z.of_nat sz / wb)%Z by (apply Z.div_pos; lia).
  lia.
Qed.

Lemma slots_mono (wb : Z) (a b : nat) : (0 < wb)%Z → a ≤ b → slots wb a ≤ slots wb b.
Proof.
  intros Hwb Hab. unfold slots.
  assert (Z.of_nat a / wb ≤ Z.of_nat b / wb)%Z by (apply Z.div_le_mono; lia).
  lia.
Qed.

Lemma xrealloc_Ok (wb : Z) (b : block) (d d' : list ptr) (sz : nat) :
  xrealloc wb b d sz = Ok d' →
  length d' = slots wb sz
  ∧ ∀ j, j < length d → j < slots wb sz → d' !! j = d !! j.
Proof.
  unfold xrealloc. destruct b as [junk|]; [|discriminate]. intros [= <-]. split.
  - rewrite length_app, length_take, length_fmap, length_seq. lia.
  - intros j Hj Hs. rewrite lookup_app_l by (rewrite length_take; lia).
    by rewrite lookup_take_lt.
Qed.

(** Below [alloc], a push does not call [xrealloc]. *)
Lemma ptr_vec_push_eq (wb : Z) (b : block) (v : ptr_vec) (p : ptr) :
  init v ≠ alloc v →
  ptr_vec_push wb b v p =
    (v2 ← vec_set v (init v) p; Ok (mk_ptr_vec (alloc v2) (S (init v2)) (data v2))).
Proof. intros H. unfold ptr_vec_push. by rewrite bool_decide_eq_false_2. Qed.

(** At capacity [INIT_PTR_VEC_SZ], a trim does not call [xrealloc]. *)
Lemma ptr_vec_trim_id (wb : Z) (b : block) (v : ptr_vec) (n : nat) :
  alloc v = INIT_PTR_VEC_SZ → ptr_vec_trim wb b v n = Ok v.
Proof.
  intros H. unfold ptr_vec_trim. rewrite H.
  rewrite (bool_decide_eq_false_2 (INIT_PTR_VEC_SZ ≤ INIT_PTR_VEC_SZ / 2)).
  - by rewrite andb_false_r.
  - unfold INIT_PTR_VEC_SZ. change (8 / 2) with 4. lia.
Qed.

Lemma ptr_vec_push_spec (wb : Z) (b : block) (v : ptr_vec) (p : ptr) (v' : ptr_vec) :
  vec_inv v → ptr_vec_push wb b v p = Ok v' →
  vec_inv v' ∧ init v' = S (init v) ∧ init v < length (data v)
  ∧ data v' !! init v = Some p
  ∧ (∀ j, j ≠ init v → data v' !! j = data v !! j)
  ∧ alloc v' = alloc v ∧ length (data v') = length (data v).
Proof.
  intros (Ha & Hlen & Hok) H. unfold vec_ok in Hok.
  rewrite ptr_vec_push_eq in H by lia.
  inv_res H. apply vec_set_Ok in H0 as [Hi ->]. injection H as <-. simpl.
  unfold vec_inv, vec_ok. simpl. rewrite length_insert.
  split; [split; [done|split; [done|lia]]|].
  split; [done|]. split; [done|]. split.
  { by apply list_lookup_insert_eq. }
  split; [|done].
  intros j Hj. by rewrite list_lookup_insert_ne.
Qed.

Lemma ptr_vec_push_total (wb : Z) (b : block) (v : ptr_vec) (p : ptr) :
  vec_inv v → room v 1 → ∃ v', ptr_vec_push wb b v p = Ok v'.
Proof.
  intros (Ha & Hlen & Hok) Hr. unfold room in Hr.
  rewrite ptr_vec_push_eq by lia.
  unfold vec_set. rewrite bool_decide_eq_true_2 by lia. simpl. eauto.
Qed.

(** A push onto a vector whose buffer is full writes past its end. *)
Lemma ptr_vec_push_full (wb : Z) (b : block) (v : ptr_vec) (p : ptr) :
  vec_inv v → init v = length (data v) → ptr_vec_push wb b v p = Abort.
Proof.
  intros (Ha & Hlen & Hok) Hr.
  rewrite ptr_vec_push_eq by lia.
  unfold vec_set. by rewrite bool_decide_eq_false_2 by lia.
Qed.

Lemma ptr_vec_trim_spec (wb : Z) (b : block) (v : ptr_vec) (n : nat) :
  vec_inv v → ptr_vec_trim wb b v n = Ok v.
Proof. intros (Ha & _). by apply ptr_vec_trim_id. Qed.

Lemma ptr_vec_swapdel_spec (v : ptr_vec) (i : nat) (v' : ptr_vec) :
  vec_ok v → ptr_vec_swapdel v i = Ok v' →
  vec_ok v' ∧ i < init v ∧ S (init v') = init v ∧ alloc v' = alloc v
  ∧ length (data v') = length (data v)
  ∧ (0 < init v' → data v' !! i = data v !! init v')
  ∧ (∀ j, j ≠ i → data v' !! j = data v !! j).
Proof.
  unfold vec_ok. intros Hok H. unfold ptr_vec_swapdel in H.
  inv_res H. simpl in H. case_bool_decide as Hpos.
  - inv_res H. simpl in *. apply vec_set_Ok in H as [Hi ->]. simpl in *.
    rewrite length_insert.
    repeat split; auto; try lia.
    + intros _. rewrite list_lookup_insert_eq by lia. done.
    + intros j Hj. rewrite list_lookup_insert_ne by lia. done.
  - injection H as <-. simpl.
    repeat split; auto; try lia.
Qed.

Lemma ptr_vec_swapdel_inv (v : ptr_vec) (i : nat) (v' : ptr_vec) :
  vec_inv v → ptr_vec_swapdel v i = Ok v' → vec_inv v'.
Proof.
  intros (Ha & Hlen & Hok) H.
  destruct (ptr_vec_swapdel_spec _ _ _ Hok H) as (Hok' & _ & _ & Ha' & Hl' & _).
  unfold vec_inv. rewrite Ha', Hl'. done.
Qed.

Lemma run_op_inv (wb : Z) (o : vec_op) (v v' : ptr_vec) :
  vec_inv v → run_op wb o v = Ok v' → vec_inv v'.
Proof.
  intros Hv H. destruct o as [b p|b n|i]; simpl in H.
  - by destruct (ptr_vec_push_spec _ _ _ _ _ Hv H).
  - rewrite ptr_vec_trim_spec in H by done. by injection H as <-.
  - by apply (ptr_vec_swapdel_inv v i v').
Qed.

Lemma run_ops_inv (wb : Z) (ops : list vec_op) (v v' : ptr_vec) :
  vec_inv v → run_ops wb ops v = Ok v' → vec_inv v'.
Proof.
  revert v. induction ops as [|o ops IH]; intros v Hv H; simpl in H.
  - by injection H as <-.
  - inv_res H. eapply IH; [|done]. by eapply run_op_inv.
Qed.

(** The vector [init_ptr_vec] builds: capacity 8, a buffer of 8 bytes. *)
Lemma init_ptr_vec_Ok (wb : Z) (b : block) (v : ptr_vec) :
  init_ptr_vec wb b = Ok v →
  alloc v = INIT_PTR_VEC_SZ ∧ init v = 0 ∧ length (data v) = slots wb INIT_PTR_VEC_SZ.
Proof.
  unfold init_ptr_vec, xalloc_buf. destruct b as [junk|]; [|discriminate].
  simpl. intros [= <-]. simpl. by rewrite length_fmap, length_seq.
Qed.

Lemma init_ptr_vec_inv (wb : Z) (b : block) (v : ptr_vec) :
  (1 < wb)%Z → init_ptr_vec wb b = Ok v → vec_inv v ∧ init v = 0.
Proof.
  intros Hwb H. destruct (init_ptr_vec_Ok _ _ _ H) as (Ha & Hi & Hl).
  split; [|done]. unfold vec_inv, vec_ok. rewrite Ha, Hi, Hl.
  split; [done|]. split; [|lia].
  apply slots_lt; [done|]. unfold INIT_PTR_VEC_SZ. lia.
Qed.


(** ** Scheduler vectors: the invariant and its preservation *)

Lemma same_but_idx_refl (a : rust_proc) : same_but_idx a a.
Proof. done. Qed.

Lemma same_but_idx_set_idx (a : rust_proc) (i : nat) : same_but_idx a (set_idx a i).
Proof. done. Qed.

Lemma same_but_idx_trans (a b c : rust_proc) :
  same_but_idx a b → same_but_idx b c → same_but_idx a c.
Proof. unfold same_but_idx. congruence. Qed.

Lemma same_but_idx_fields (a b : rust_proc) :
  same_but_idx a b →
  state a = state b ∧ upcall_args a = upcall_args b ∧ upcall_code a = upcall_code b
  ∧ stk a = stk b ∧ refcnt a = refcnt b ∧ prog a = prog b ∧ sp a = sp b.
Proof.
  destruct a, b. unfold same_but_idx, set_idx; simpl. intros [=]. by subst.
Qed.

Lemma heap_mod_idx_refl (h : gmap Z rust_proc) : heap_mod_idx h h.
Proof. intros q. destruct (h !! q); constructor. done. Qed.

Lemma heap_mod_idx_trans (h1 h2 h3 : gmap Z rust_proc) :
  heap_mod_idx h1 h2 → heap_mod_idx h2 h3 → heap_mod_idx h1 h3.
Proof.
  intros H12 H23 q. specialize (H12 q). specialize (H23 q).
  destruct H12; inversion H23; subst; constructor.
  by eapply same_but_idx_trans.
Qed.

Lemma heap_mod_idx_insert (h : gmap Z rust_proc) (q : ptr) (a : rust_proc) (i : nat) :
  h !! q = Some a → heap_mod_idx h (<[q := set_idx a i]> h).
Proof.
  intros Hq r. destruct (decide (q = r)) as [<-|Hne].
  - rewrite lookup_insert_eq, Hq. constructor. done.
  - rewrite lookup_insert_ne by done. destruct (h !! r); constructor. done.
Qed.

Lemma heap_mod_idx_Some (h h' : gmap Z rust_proc) (q : ptr) (a : rust_proc) :
  heap_mod_idx h h' → h !! q = Some a → ∃ b, h' !! q = Some b ∧ same_but_idx a b.
Proof. intros H Hq. specialize (H q). rewrite Hq in H. inversion H; eauto. Qed.

Lemma heap_mod_idx_None (h h' : gmap Z rust_proc) (q : ptr) :
  heap_mod_idx h h' → h !! q = None → h' !! q = None.
Proof. intros H Hq. specialize (H q). rewrite Hq in H. by inversion H. Qed.

Lemma same_rest_refl (st : rt_state) : same_rest st st.
Proof. done. Qed.

Lemma same_rest_trans (a b c : rt_state) :
  same_rest a b → same_rest b c → same_rest a c.
Proof.
  unfold same_rest. intros (?&?&?&?&?&?) (?&?&?&?&?&?). repeat split; congruence.
Qed.

Lemma state_vec_set_same (st : rt_state) (sel : vec_sel) (v : ptr_vec) :
  state_vec (set_state_vec st sel v) sel = v.
Proof. by destruct sel. Qed.

Lemma state_vec_set_other (st : rt_state) (sel sel' : vec_sel) (v : ptr_vec) :
  sel ≠ sel' → state_vec (set_state_vec st sel v) sel' = state_vec st sel'.
Proof. by destruct sel, sel'. Qed.

Lemma state_vec_set_procs (st : rt_state) (h : gmap Z rust_proc) (sel : vec_sel) :
  state_vec (set_procs st h) sel = state_vec st sel.
Proof. by destruct sel. Qed.

Lemma procs_set_state_vec (st : rt_state) (sel : vec_sel) (v : ptr_vec) :
  procs (set_state_vec st sel v) = procs st.
Proof. by destruct sel. Qed.

Lemma same_rest_set_state_vec (st : rt_state) (sel : vec_sel) (v : ptr_vec) :
  same_rest st (set_state_vec st sel v).
Proof. by destruct sel. Qed.

Lemma sched_inv_vec (st : rt_state) (sel : vec_sel) :
  sched_inv st → vec_inv (state_vec st sel).
Proof. intros (? & ? & _). by destruct sel. Qed.

Lemma sched_inv_intro (st : rt_state) :
  (∀ sel, vec_inv (state_vec st sel)) → (∀ sel, slot_ok st sel) → sched_inv st.
Proof.
  intros Hv Hs. split; [apply (Hv sel_running)|].
  split; [apply (Hv sel_blocked)|done].
Qed.

Lemma live_slot_unique (st : rt_state) (sel sel' : vec_sel) (i j : nat) (p : ptr) :
  sched_inv st → live_slot st sel i p → live_slot st sel' j p → sel = sel' ∧ i = j.
Proof.
  intros (_ & _ & Hs) H1 H2.
  destruct (Hs _ _ _ H1) as (_ & pr & Hp & <- & <-).
  destruct (Hs _ _ _ H2) as (_ & pr' & Hp' & <- & <-).
  by simplify_eq.
Qed.

Lemma sched_inv_claim (st : rt_state) : sched_inv st → proc_vec_claim st.
Proof.
  intros Hinv p (sel & i & Hl).
  pose proof Hinv as (_ & _ & Hs).
  destruct (Hs _ _ _ Hl) as (_ & pr & Hp & <- & <-).
  exists pr. split; [done|]. split; [done|].
  intros sel' j Hl'. by destruct (live_slot_unique _ _ _ _ _ _ Hinv Hl' Hl).
Qed.

Lemma proc_vec_swapdel_inv (sel : vec_sel) (p : ptr) (st st1 : rt_state) :
  sched_inv st → proc_vec_swapdel sel p st = Ok st1 →
  sched_inv st1 ∧ ¬ registered st1 p
  ∧ (∃ pr, procs st !! p = Some pr ∧ live_slot st sel (idx pr) p)
  ∧ (∀ q, q ≠ p → registered st q → registered st1 q)
  ∧ heap_mod_idx (procs st) (procs st1) ∧ same_rest st st1.
Proof.
  intros Hinv H. pose proof Hinv as (_ & _ & Hs).
  unfold proc_vec_swapdel in H. inv_res H. subst a1. simpl in H.
  rename a0 into pr, a3 into v', H1 into Hpr, H2 into Hslot, H4 into Hsd.
  pose proof (ptr_vec_swapdel_inv _ _ _ (sched_inv_vec st sel Hinv) Hsd) as Hv'.
  destruct (ptr_vec_swapdel_spec _ _ _ (proj2 (proj2 (sched_inv_vec st sel Hinv))) Hsd)
    as (_ & Hidx & Hinit & _ & _ & Hmoved & Hkept).
  assert (Hlp : live_slot st sel (idx pr) p) by done.
  assert (Hvecs : ∀ st2, (∀ s, state_vec st2 s = state_vec (set_state_vec st sel v') s) →
                  ∀ s, vec_inv (state_vec st2 s)).
  { intros st2 E s. rewrite E. destruct (decide (sel = s)) as [<-|Hne].
    - by rewrite state_vec_set_same.
    - rewrite state_vec_set_other by done. by apply sched_inv_vec. }
  case_bool_decide as Hpos.
  - inv_res H. injection H as <-. rename a0 into pnew, a1 into pn.
    rewrite procs_set_state_vec in *.
    assert (Hlast : live_slot st sel (init v') pnew).
    { split; [lia|]. rewrite <- Hmoved by done. done. }
    destruct (Hs _ _ _ Hlast) as (Hnn & pn' & Hpn' & Hpnidx & Hpncls).
    assert (pn' = pn) as -> by congruence.
    assert (Hslots : ∀ s j q,
      live_slot (set_procs (set_state_vec st sel v')
        (<[pnew:=set_idx pn (idx pr)]> (procs st))) s j q →
      (s = sel ∧ j = idx pr ∧ q = pnew ∧ idx pr < init v') ∨
      (live_slot st s j q ∧ q ≠ pnew ∧ q ≠ p)).
    { intros s j q [Hj Hq]. rewrite state_vec_set_procs in Hj, Hq.
      destruct (decide (sel = s)) as [<-|Hne].
      - rewrite state_vec_set_same in Hj, Hq.
        destruct (decide (j = idx pr)) as [->|Hji].
        + left. repeat split; auto. congruence.
        + right. rewrite Hkept in Hq by done.
          assert (Hl : live_slot st sel j q) by (split; [lia|done]).
          split; [done|]. split; intros ->.
          * destruct (live_slot_unique _ _ _ _ _ _ Hinv Hl Hlast). lia.
          * destruct (live_slot_unique _ _ _ _ _ _ Hinv Hl Hlp). lia.
      - rewrite state_vec_set_other in Hj, Hq by done.
        right. split; [done|]. split; intros ->.
        + by destruct (live_slot_unique _ _ _ _ _ _ Hinv (conj Hj Hq) Hlast).
        + by destruct (live_slot_unique _ _ _ _ _ _ Hinv (conj Hj Hq) Hlp). }
    split; [|split; [|split; [|split; [|split]]]].
    + apply sched_inv_intro.
      * apply Hvecs. intros s. apply state_vec_set_procs.
      * intros s j q Hl. destruct (Hslots _ _ _ Hl) as [(-> & -> & -> & _)|(Hl' & Hne & _)].
        -- split; [done|]. exists (set_idx pn (idx pr)). simpl.
           rewrite lookup_insert_eq. done.
        -- destruct (Hs _ _ _ Hl') as (? & prq & ? & ? & ?). split; [done|].
           exists prq. simpl. rewrite lookup_insert_ne by done. done.
    + intros (s & j & Hl). destruct (Hslots _ _ _ Hl) as [(-> & -> & -> & Hlt)|(_ & _ & Hne)]; [|done].
      destruct (live_slot_unique _ _ _ _ _ _ Hinv Hlast Hlp). lia.
    + eauto.
    + intros q Hqp (s & j & [Hj Hq]). destruct (decide (sel = s)) as [<-|Hne].
      * destruct (decide (j = init v')) as [->|Hjl].
        -- exists sel, (idx pr). split; rewrite state_vec_set_procs, state_vec_set_same.
           ++ destruct (decide (idx pr = init v')) as [E|]; [|lia].
              rewrite E in Hslot. congruence.
           ++ rewrite Hmoved by done. done.
        -- exists sel, j. split; rewrite state_vec_set_procs, state_vec_set_same; [lia|].
           rewrite Hkept; [done|]. intros ->. congruence.
      * exists s, j. split; rewrite state_vec_set_procs, state_vec_set_other by done; done.
    + simpl. by apply heap_mod_idx_insert.
    + by destruct sel.
  - injection H as <-.
    assert (Hslots : ∀ s j q, live_slot (set_state_vec st sel v') s j q →
              s ≠ sel ∧ live_slot st s j q).
    { intros s j q [Hj Hq]. destruct (decide (sel = s)) as [<-|Hne].
      - rewrite state_vec_set_same in Hj. lia.
      - rewrite state_vec_set_other in Hj, Hq by done. done. }
    split; [|split; [|split; [|split; [|split]]]].
    + apply sched_inv_intro; [by apply Hvecs|].
      intros s j q Hl. destruct (Hslots _ _ _ Hl) as [_ Hl'].
      rewrite procs_set_state_vec. by apply Hs.
    + intros (s & j & Hl). destruct (Hslots _ _ _ Hl) as [Hne Hl'].
      by destruct (live_slot_unique _ _ _ _ _ _ Hinv Hl' Hlp).
    + eauto.
    + intros q Hqp (s & j & [Hj Hq]). destruct (decide (sel = s)) as [<-|Hne].
      * assert (j = idx pr) as -> by lia. congruence.
      * exists s, j. split; rewrite state_vec_set_other by done; done.
    + rewrite procs_set_state_vec. apply heap_mod_idx_refl.
    + apply same_rest_set_state_vec.
Qed.

Lemma sched_inv_transfer (st st' : rt_state) :
  sched_inv st →
  (∀ s, vec_inv (state_vec st' s)) →
  (∀ s j q, live_slot st' s j q → live_slot st s j q) →
  (∀ q pr, registered st q → procs st !! q = Some pr →
     ∃ pr', procs st' !! q = Some pr' ∧ idx pr' = idx pr
            ∧ get_state_vec (state pr') = get_state_vec (state pr)) →
  sched_inv st'.
Proof.
  intros Hinv Hv Hl Hp. pose proof Hinv as (_ & _ & Hs).
  apply sched_inv_intro; [done|].
  intros s j q Hq. apply Hl in Hq.
  destruct (Hs _ _ _ Hq) as (Hnn & pr & Hpr & Hi & Hc). split; [done|].
  destruct (Hp q pr) as (pr' & ? & ? & ?); [by exists s, j|done|].
  exists pr'. repeat split; congruence.
Qed.

Lemma set_state_vec_id (st : rt_state) (sel : vec_sel) :
  set_state_vec st sel (state_vec st sel) = st.
Proof. by destruct st, sel. Qed.

(** Under the invariant [ptr_vec_trim] leaves a scheduler vector as it is. *)
Lemma sched_inv_trim (wb : Z) (b : block) (st : rt_state) (sel : vec_sel) (n : nat)
    (v' : ptr_vec) :
  sched_inv st → ptr_vec_trim wb b (state_vec st sel) n = Ok v' →
  set_state_vec st sel v' = st.
Proof.
  intros Hinv H. rewrite ptr_vec_trim_spec in H by (by apply sched_inv_vec).
  injection H as <-. apply set_state_vec_id.
Qed.

Lemma sched_inv_set_procs_unregistered (st : rt_state) (p : ptr) (h : gmap Z rust_proc) :
  sched_inv st → ¬ registered st p →
  (∀ q, q ≠ p → h !! q = procs st !! q) →
  sched_inv (set_procs st h)
  ∧ ∀ s j q, live_slot (set_procs st h) s j q ↔ live_slot st s j q.
Proof.
  intros Hinv Hnr Hh.
  assert (Hl : ∀ s j q, live_slot (set_procs st h) s j q ↔ live_slot st s j q).
  { intros s j q. unfold live_slot. by rewrite state_vec_set_procs. }
  split; [|done].
  apply (sched_inv_transfer st); [done| |by intros; apply Hl|].
  - intros s. rewrite state_vec_set_procs. by apply sched_inv_vec.
  - intros q pr Hreg Hq. exists pr. simpl. rewrite Hh; [done|].
    intros ->. done.
Qed.

Lemma sched_inv_set_procs_state (st : rt_state) (p : ptr) (pr : rust_proc) (s : proc_state_t) :
  sched_inv st → procs st !! p = Some pr →
  get_state_vec s = get_state_vec (state pr) →
  sched_inv (set_procs st (<[p := set_state pr s]> (procs st)))
  ∧ ∀ sl j q, live_slot (set_procs st (<[p := set_state pr s]> (procs st))) sl j q
              ↔ live_slot st sl j q.
Proof.
  intros Hinv Hp Hc.
  assert (Hl : ∀ sl j q, live_slot (set_procs st (<[p := set_state pr s]> (procs st))) sl j q
                         ↔ live_slot st sl j q).
  { intros sl j q. unfold live_slot. by rewrite state_vec_set_procs. }
  split; [|done].
  apply (sched_inv_transfer st); [done| |by intros; apply Hl|].
  - intros sl. rewrite state_vec_set_procs. by apply sched_inv_vec.
  - intros q prq _ Hq. simpl. destruct (decide (p = q)) as [<-|Hne].
    + rewrite lookup_insert_eq. eexists; split; [done|]. simplify_eq. done.
    + rewrite lookup_insert_ne by done. eauto.
Qed.

Lemma sched_inv_same_sched (st st' : rt_state) :
  sched_inv st → running_procs st' = running_procs st →
  blocked_procs st' = blocked_procs st → procs st' = procs st → sched_inv st'.
Proof.
  intros Hinv Hr Hb Hp.
  assert (Hsv : ∀ s, state_vec st' s = state_vec st s) by (by intros []).
  apply (sched_inv_transfer st); [done| | |].
  - intros s. rewrite Hsv. by apply sched_inv_vec.
  - intros s j q. unfold live_slot. by rewrite Hsv.
  - intros q pr _ Hq. rewrite Hp. eauto.
Qed.

Lemma add_proc_to_state_vec_inv (wb : Z) (b : block) (p : ptr) (st st' : rt_state) :
  sched_inv st → ¬ registered st p → p ≠ null →
  add_proc_to_state_vec wb b p st = Ok st' →
  sched_inv st'
  ∧ (∃ pr', procs st' !! p = Some pr'
        ∧ live_slot st' (get_state_vec (state pr')) (idx pr') p)
  ∧ (∀ q, registered st q → registered st' q)
  ∧ (∀ q, registered st' q → q = p ∨ registered st q)
  ∧ heap_mod_idx (procs st) (procs st') ∧ same_rest st st'.
Proof.
  intros Hinv Hnr Hnn H. pose proof Hinv as (_ & _ & Hs).
  unfold add_proc_to_state_vec, get_proc_vec in H.
  apply bind_Ok in H as (sel0 & Hsel & H).
  apply bind_Ok in Hsel as (pr & Hpr & Hsel). apply deref_Ok in Hpr.
  injection Hsel as <-.
  apply bind_Ok in H as (pr0 & Hpr0 & H). apply deref_Ok in Hpr0.
  apply bind_Ok in H as (v' & Hpush & H). injection H as <-. simplify_eq.
  set (sel := get_state_vec (state pr)) in *.
  destruct (ptr_vec_push_spec _ _ _ _ _ (sched_inv_vec st sel Hinv) Hpush)
    as (Hv' & Hinit & _ & Hnew & Hkept & _).
  set (h := <[p:=set_idx pr (init (state_vec st sel))]> (procs st)).
  assert (Hslots : ∀ s j q, live_slot (set_state_vec (set_procs st h) sel v') s j q →
            (s = sel ∧ j = init (state_vec st sel) ∧ q = p) ∨ (live_slot st s j q ∧ q ≠ p)).
  { intros s j q [Hj Hq]. destruct (decide (sel = s)) as [<-|Hne].
    - rewrite state_vec_set_same in Hj, Hq.
      destruct (decide (j = init (state_vec st sel))) as [->|Hji].
      + left. repeat split; congruence.
      + right. rewrite Hkept in Hq by lia.
        assert (live_slot st sel j q) by (split; [lia|done]).
        split; [done|]. intros ->. apply Hnr. by exists sel, j.
    - rewrite state_vec_set_other, state_vec_set_procs in Hj, Hq by done.
      right. split; [done|]. intros ->. apply Hnr. by exists s, j. }
  assert (Hnewslot : live_slot (set_state_vec (set_procs st h) sel v') sel
                       (init (state_vec st sel)) p).
  { split; rewrite state_vec_set_same; [lia|done]. }
  split; [|split; [|split; [|split; [|split]]]].
  - apply sched_inv_intro.
    + intros s. destruct (decide (sel = s)) as [<-|Hne].
      * by rewrite state_vec_set_same.
      * rewrite state_vec_set_other, state_vec_set_procs by done. by apply sched_inv_vec.
    + intros s j q Hl. rewrite procs_set_state_vec. simpl. unfold h.
      destruct (Hslots _ _ _ Hl) as [(-> & -> & ->)|(Hl' & Hne)].
      * split; [done|]. rewrite lookup_insert_eq. eexists; split; [done|]. done.
      * rewrite lookup_insert_ne by done. by apply Hs.
  - rewrite procs_set_state_vec. simpl. unfold h. rewrite lookup_insert_eq.
    eexists; split; [done|]. simpl. done.
  - intros q (s & j & [Hj Hq]). exists s, j. destruct (decide (sel = s)) as [<-|Hne].
    + split; rewrite state_vec_set_same; [lia|]. by rewrite Hkept by lia.
    + split; rewrite state_vec_set_other, state_vec_set_procs by done; done.
  - intros q (s & j & Hl). destruct (Hslots _ _ _ Hl) as [(-> & -> & ->)|(Hl' & Hne)];
      [by left|right; by exists s, j].
  - rewrite procs_set_state_vec. simpl. by apply heap_mod_idx_insert.
  - by destruct sel.
Qed.

Lemma remove_proc_from_state_vec_inv (wb : Z) (b : block) (p : ptr) (st st1 : rt_state) :
  sched_inv st → remove_proc_from_state_vec wb b p st = Ok st1 →
  sched_inv st1 ∧ ¬ registered st1 p
  ∧ (∃ pr, procs st !! p = Some pr ∧ live_slot st (get_state_vec (state pr)) (idx pr) p)
  ∧ (∀ q, q ≠ p → registered st q → registered st1 q)
  ∧ heap_mod_idx (procs st) (procs st1) ∧ same_rest st st1.
Proof.
  intros Hinv H. unfold remove_proc_from_state_vec, get_proc_vec in H.
  apply bind_Ok in H as (sel0 & Hsel & H).
  apply bind_Ok in Hsel as (pr & Hpr & Hsel). apply deref_Ok in Hpr.
  injection Hsel as <-.
  apply bind_Ok in H as (pr0 & Hpr0 & H). apply deref_Ok in Hpr0.
  apply bind_Ok in H as (x & Hx & H). apply bind_Ok in H as (_ & _ & H).
  apply bind_Ok in H as (stA & Hsd & H).
  apply bind_Ok in H as (v' & Htrim & H). injection H as <-. simplify_eq.
  destruct (proc_vec_swapdel_inv _ _ _ _ Hinv Hsd)
    as (HinvA & HnrA & (pr' & Hpr' & Hl) & HregA & HheapA & HrestA).
  simplify_eq.
  rewrite (sched_inv_trim _ _ _ _ _ _ HinvA Htrim). eauto 10.
Qed.

Lemma proc_state_transition_inv (wb : Z) (o : bufs) (p : ptr) (src dst : proc_state_t)
    (st st' : rt_state) :
  sched_inv st → proc_state_transition wb o p src dst st = Ok st' →
  sched_inv st'
  ∧ (∃ pr, procs st !! p = Some pr ∧ state pr = src
        ∧ live_slot st (get_state_vec src) (idx pr) p
        ∧ heap_mod_idx (<[p := set_state pr dst]> (procs st)) (procs st'))
  ∧ (∃ pr', procs st' !! p = Some pr' ∧ state pr' = dst
        ∧ live_slot st' (get_state_vec dst) (idx pr') p)
  ∧ (∀ q, registered st q → registered st' q)
  ∧ same_rest st st'.
Proof.
  intros Hinv H. unfold proc_state_transition in H.
  apply bind_Ok in H as (pr & Hpr & H). apply deref_Ok in Hpr.
  apply bind_Ok in H as (u & Hsrc & H). apply assert_Ok, bool_decide_eq_true in Hsrc.
  apply bind_Ok in H as (st1 & Hrm & H).
  apply bind_Ok in H as (pr1 & Hpr1 & H). apply deref_Ok in Hpr1.
  destruct (remove_proc_from_state_vec_inv _ _ _ _ _ Hinv Hrm)
    as (Hinv1 & Hnr1 & (pr0 & Hpr0 & Hl0) & Hreg1 & Hheap1 & Hrest1).
  simplify_eq.
  pose proof Hinv as (_ & _ & Hs). destruct (Hs _ _ _ Hl0) as (Hnn & _).
  set (h2 := <[p:=set_state pr1 dst]> (procs st1)) in *.
  destruct (sched_inv_set_procs_unregistered st1 p h2 Hinv1 Hnr1) as (Hinv2 & Hl2).
  { intros q Hq. unfold h2. by rewrite lookup_insert_ne. }
  assert (Hnr2 : ¬ registered (set_procs st1 h2) p).
  { intros (s & j & Hq). apply Hnr1. exists s, j. by apply Hl2. }
  destruct (add_proc_to_state_vec_inv _ _ _ _ _ Hinv2 Hnr2 Hnn H)
    as (Hinv' & (pr' & Hpr' & Hl') & Hreg' & _ & Hheap' & Hrest').
  destruct (heap_mod_idx_Some _ _ p (set_state pr1 dst) Hheap') as (pr'' & Hpr'' & Hsame).
  { simpl. unfold h2. by rewrite lookup_insert_eq. }
  assert (pr'' = pr') as -> by congruence.
  destruct (same_but_idx_fields _ _ Hsame) as (Hst & _). simpl in Hst.
  split; [done|]. split; [|split; [|split]].
  - exists pr. split; [done|]. split; [done|]. split; [done|].
    eapply heap_mod_idx_trans; [|exact Hheap']. simpl. unfold h2.
    intros q. destruct (decide (p = q)) as [<-|Hne].
    + rewrite !lookup_insert_eq. constructor.
      destruct (heap_mod_idx_Some _ _ _ _ Hheap1 Hpr) as (b & Hb & Hsb).
      assert (b = pr1) as -> by congruence.
      unfold same_but_idx in *. destruct pr, pr1; simpl in *.
      unfold set_idx, set_state in *; simpl in *. congruence.
    + rewrite !lookup_insert_ne by done. apply Hheap1.
  - exists pr'. rewrite <- Hst in *. done.
  - intros q Hq. destruct (decide (q = p)) as [->|Hne].
    + exists (get_state_vec (state pr')), (idx pr'). done.
    + apply Hreg'. destruct (Hreg1 q Hne Hq) as (s & j & Hq').
      exists s, j. by apply Hl2.
  - eapply same_rest_trans; [done|]. done.
Qed.

(** *** What the operations do to the counters and the buffers *)

Lemma proc_vec_swapdel_shape (sel : vec_sel) (p : ptr) (st st1 : rt_state) :
  vec_ok (state_vec st sel) → proc_vec_swapdel sel p st = Ok st1 →
  S (init (state_vec st1 sel)) = init (state_vec st sel)
  ∧ alloc (state_vec st1 sel) = alloc (state_vec st sel)
  ∧ length (data (state_vec st1 sel)) = length (data (state_vec st sel))
  ∧ ∀ s, s ≠ sel → state_vec st1 s = state_vec st s.
Proof.
  intros Hok H. unfold proc_vec_swapdel in H. inv_res H. simpl in H.
  destruct (ptr_vec_swapdel_spec _ _ _ Hok H4) as (_ & _ & Hinit & Ha & Hl & _).
  case_bool_decide.
  - inv_res H. injection H as <-.
    rewrite !state_vec_set_procs, state_vec_set_same.
    repeat split; try done.
    intros s Hs. by rewrite state_vec_set_procs, state_vec_set_other.
  - injection H as <-. rewrite state_vec_set_same.
    repeat split; try done.
    intros s Hs. by rewrite state_vec_set_other.
Qed.

Lemma remove_proc_from_state_vec_shape (wb : Z) (b : block) (p : ptr) (pr : rust_proc)
    (st st1 : rt_state) :
  sched_inv st → procs st !! p = Some pr →
  remove_proc_from_state_vec wb b p st = Ok st1 →
  let sel := get_state_vec (state pr) in
  S (init (state_vec st1 sel)) = init (state_vec st sel)
  ∧ length (data (state_vec st1 sel)) = length (data (state_vec st sel))
  ∧ ∀ s, s ≠ sel → state_vec st1 s = state_vec st s.
Proof.
  intros Hinv Hpr H sel. unfold remove_proc_from_state_vec, get_proc_vec in H.
  apply bind_Ok in H as (sel0 & Hsel & H).
  apply bind_Ok in Hsel as (pr0 & Hpr0 & Hsel). apply deref_Ok in Hpr0.
  injection Hsel as <-. simplify_eq. fold sel in H.
  apply bind_Ok in H as (pr0 & Hpr0 & H).
  apply bind_Ok in H as (x & Hx & H). apply bind_Ok in H as (_ & _ & H).
  apply bind_Ok in H as (stA & Hsd & H).
  apply bind_Ok in H as (v' & Htrim & H). injection H as <-.
  destruct (proc_vec_swapdel_inv _ _ _ _ Hinv Hsd) as (HinvA & _).
  rewrite (sched_inv_trim _ _ _ _ _ _ HinvA Htrim).
  destruct (proc_vec_swapdel_shape _ _ _ _
              (proj2 (proj2 (sched_inv_vec st sel Hinv))) Hsd) as (? & _ & ? & ?).
  done.
Qed.

Lemma add_proc_to_state_vec_shape (wb : Z) (b : block) (p : ptr) (pr : rust_proc)
    (st st' : rt_state) :
  sched_inv st → procs st !! p = Some pr →
  add_proc_to_state_vec wb b p st = Ok st' →
  let sel := get_state_vec (state pr) in
  init (state_vec st' sel) = S (init (state_vec st sel))
  ∧ init (state_vec st sel) < length (data (state_vec st sel))
  ∧ length (data (state_vec st' sel)) = length (data (state_vec st sel))
  ∧ ∀ s, s ≠ sel → state_vec st' s = state_vec st s.
Proof.
  intros Hinv Hpr H sel. unfold add_proc_to_state_vec, get_proc_vec in H.
  apply bind_Ok in H as (sel0 & Hsel & H).
  apply bind_Ok in Hsel as (pr0 & Hpr0 & Hsel). apply deref_Ok in Hpr0.
  injection Hsel as <-. simplify_eq. fold sel in H.
  apply bind_Ok in H as (pr0 & Hpr0 & H).
  apply bind_Ok in H as (v' & Hpush & H). injection H as <-.
  destruct (ptr_vec_push_spec _ _ _ _ _ (sched_inv_vec st sel Hinv) Hpush)
    as (_ & Hi & Hlt & _ & _ & _ & Hl).
  rewrite state_vec_set_same.
  repeat split; try done.
  intros s Hs. by rewrite state_vec_set_other, state_vec_set_procs.
Qed.

(** *** Totality under the invariant *)

Lemma vec_ok_lookup (v : ptr_vec) (i : nat) :
  vec_ok v → i < init v → ∃ p, data v !! i = Some p.
Proof. unfold vec_ok. intros Hok Hi. apply lookup_lt_is_Some_2. lia. Qed.

Lemma ptr_vec_swapdel_total (v : ptr_vec) (i : nat) :
  vec_ok v → i < init v → ∃ v', ptr_vec_swapdel v i = Ok v'.
Proof.
  intros Hv Hi. pose proof Hv as Hok. unfold vec_ok in Hok.
  unfold ptr_vec_swapdel.
  rewrite (bool_decide_eq_true_2 (0 < init v)) by lia. simpl.
  rewrite (bool_decide_eq_true_2 (i < init v)) by lia. simpl.
  case_bool_decide; [|eauto].
  destruct (vec_ok_lookup v (init v - 1) Hv) as (x & Hx); [lia|].
  unfold vec_get. simpl. rewrite Hx. simpl.
  unfold vec_set. simpl. rewrite bool_decide_eq_true_2 by lia. eauto.
Qed.

(** Rewriting steps for a computation whose reads are known to succeed. *)
Ltac ok_deref H := rewrite (proj2 (deref_Ok _ _ _) H); simpl.
Ltac ok_get H := rewrite (proj2 (vec_get_Ok _ _ _) H); simpl.
Ltac ok_assert P := rewrite (bool_decide_eq_true_2 P) by (done || lia); simpl.

Lemma proc_vec_swapdel_total (sel : vec_sel) (p : ptr) (pr : rust_proc) (st : rt_state) :
  sched_inv st → procs st !! p = Some pr → live_slot st sel (idx pr) p →
  ∃ st1, proc_vec_swapdel sel p st = Ok st1.
Proof.
  intros Hinv Hpr [Hi Hp]. pose proof Hinv as (_ & _ & Hs).
  destruct (Hs sel (idx pr) p) as (Hnn & _); [done|].
  pose proof (proj2 (proj2 (sched_inv_vec st sel Hinv))) as Hv.
  destruct (ptr_vec_swapdel_total _ _ Hv Hi) as (v' & Hv').
  destruct (ptr_vec_swapdel_spec _ _ _ Hv Hv') as (Hvi & _ & Hinit & _ & _ & Hmoved & _).
  unfold proc_vec_swapdel.
  ok_assert (p ≠ null). ok_deref Hpr. ok_get Hp. ok_assert (p = p).
  rewrite Hv'. simpl.
  case_bool_decide as Hpos; [|eauto].
  specialize (Hmoved Hpos).
  destruct (vec_ok_lookup (state_vec st sel) (init v') Hv) as (q & Hq); [lia|].
  rewrite <- Hmoved in Hq. ok_get Hq. rewrite Hmoved in Hq.
  destruct (Hs sel (init v') q) as (_ & prq & Hprq & _); [split; [lia|done]|].
  rewrite procs_set_state_vec. ok_deref Hprq. eauto.
Qed.

Lemma remove_proc_from_state_vec_total (wb : Z) (b : block) (p : ptr) (pr : rust_proc)
    (st : rt_state) :
  sched_inv st → procs st !! p = Some pr →
  live_slot st (get_state_vec (state pr)) (idx pr) p →
  ∃ st1, remove_proc_from_state_vec wb b p st = Ok st1.
Proof.
  intros Hinv Hpr Hl.
  destruct (proc_vec_swapdel_total _ _ _ _ Hinv Hpr Hl) as (st1 & Hst1).
  destruct (proc_vec_swapdel_inv _ _ _ _ Hinv Hst1) as (Hinv1 & _).
  unfold remove_proc_from_state_vec, get_proc_vec.
  ok_deref Hpr. destruct Hl as [Hi Hp]. ok_get Hp. ok_assert (p = p).
  rewrite Hst1. simpl.
  rewrite ptr_vec_trim_spec by (by apply sched_inv_vec). simpl. eauto.
Qed.

(** [add_proc_to_state_vec] returns when the buffer of the vector has a slot
    left, and writes past the end of the buffer when it has none. *)
Lemma add_proc_to_state_vec_total (wb : Z) (b : block) (p : ptr) (pr : rust_proc)
    (st : rt_state) :
  sched_inv st → procs st !! p = Some pr →
  room (state_vec st (get_state_vec (state pr))) 1 →
  ∃ st', add_proc_to_state_vec wb b p st = Ok st'.
Proof.
  intros Hinv Hpr Hroom.
  unfold add_proc_to_state_vec, get_proc_vec. ok_deref Hpr.
  destruct (ptr_vec_push_total wb b (state_vec st (get_state_vec (state pr))) p)
    as (v' & Hv'); [by apply sched_inv_vec|done|].
  rewrite Hv'. simpl. eauto.
Qed.

Lemma add_proc_to_state_vec_full (wb : Z) (b : block) (p : ptr) (pr : rust_proc)
    (st : rt_state) :
  sched_inv st → procs st !! p = Some pr →
  init (state_vec st (get_state_vec (state pr)))
  = length (data (state_vec st (get_state_vec (state pr)))) →
  add_proc_to_state_vec wb b p st = Abort.
Proof.
  intros Hinv Hpr Hfull.
  unfold add_proc_to_state_vec, get_proc_vec. ok_deref Hpr.
  rewrite ptr_vec_push_full; [done|by apply sched_inv_vec|done].
Qed.

(** A transition returns when the vector the proc moves to has a slot left;
    within one vector the proc takes back the slot it gave up. *)
Lemma proc_state_transition_total (wb : Z) (o : bufs) (p : ptr) (pr : rust_proc)
    (dst : proc_state_t) (st : rt_state) :
  sched_inv st → procs st !! p = Some pr →
  live_slot st (get_state_vec (state pr)) (idx pr) p →
  (get_state_vec dst ≠ get_state_vec (state pr) → room (state_vec st (get_state_vec dst)) 1) →
  ∃ st', proc_state_transition wb o p (state pr) dst st = Ok st'.
Proof.
  intros Hinv Hpr Hl Hroom.
  destruct (remove_proc_from_state_vec_total wb (o [0]) _ _ _ Hinv Hpr Hl) as (st1 & Hst1).
  destruct (remove_proc_from_state_vec_inv _ _ _ _ _ Hinv Hst1)
    as (Hinv1 & Hnr1 & _ & _ & Hheap1 & _).
  destruct (remove_proc_from_state_vec_shape _ _ _ _ _ _ Hinv Hpr Hst1)
    as (Hi1 & Hl1 & Ho1).
  destruct (heap_mod_idx_Some _ _ _ _ Hheap1 Hpr) as (pr1 & Hpr1 & _).
  unfold proc_state_transition. ok_deref Hpr.
  ok_assert (state pr = state pr).
  rewrite Hst1. simpl. ok_deref Hpr1.
  apply (add_proc_to_state_vec_total wb (o [1]) p (set_state pr1 dst)).
  - eapply proj1, (sched_inv_set_procs_unregistered st1 p); [done|done|].
    intros q Hq. by rewrite lookup_insert_ne.
  - simpl. by rewrite lookup_insert_eq.
  - simpl. rewrite state_vec_set_procs. unfold room.
    destruct (decide (get_state_vec dst = get_state_vec (state pr))) as [E|E].
    + rewrite E, Hl1.
      pose proof (proj2 (proj2 (sched_inv_vec st (get_state_vec (state pr)) Hinv))) as Hok.
      unfold vec_ok in Hok. lia.
    + rewrite Ho1 by done. by apply Hroom.
Qed.

(** A transition moves one pointer from the vector of [src] to the vector
    of [dst] and leaves the buffers at their sizes. *)
Lemma proc_state_transition_shape (wb : Z) (o : bufs) (p : ptr) (src dst : proc_state_t)
    (st st' : rt_state) :
  sched_inv st → proc_state_transition wb o p src dst st = Ok st' →
  (∀ s, length (data (state_vec st' s)) = length (data (state_vec st s)))
  ∧ (get_state_vec src = get_state_vec dst →
       ∀ s, init (state_vec st' s) = init (state_vec st s))
  ∧ (get_state_vec src ≠ get_state_vec dst →
       S (init (state_vec st' (get_state_vec src))) = init (state_vec st (get_state_vec src))
       ∧ init (state_vec st' (get_state_vec dst))
         = S (init (state_vec st (get_state_vec dst)))).
Proof.
  intros Hinv H. unfold proc_state_transition in H.
  apply bind_Ok in H as (pr & Hpr & H). apply deref_Ok in Hpr.
  apply bind_Ok in H as (u & Hsrc & H). apply assert_Ok, bool_decide_eq_true in Hsrc.
  apply bind_Ok in H as (st1 & Hrm & H).
  apply bind_Ok in H as (pr1 & Hpr1 & H). apply deref_Ok in Hpr1.
  destruct (remove_proc_from_state_vec_inv _ _ _ _ _ Hinv Hrm)
    as (Hinv1 & Hnr1 & _ & _ & _ & _).
  destruct (remove_proc_from_state_vec_shape _ _ _ _ _ _ Hinv Hpr Hrm) as (Hi1 & Hl1 & Ho1).
  rewrite Hsrc in Hi1, Hl1, Ho1.
  set (st2 := set_procs st1 (<[p:=set_state pr1 dst]> (procs st1))) in *.
  assert (Hinv2 : sched_inv st2).
  { eapply proj1, (sched_inv_set_procs_unregistered st1 p); [done|done|].
    intros q Hq. by rewrite lookup_insert_ne. }
  assert (Hp2 : procs st2 !! p = Some (set_state pr1 dst)).
  { simpl. by rewrite lookup_insert_eq. }
  destruct (add_proc_to_state_vec_shape _ _ _ _ _ _ Hinv2 Hp2 H) as (Hi2 & _ & Hl2 & Ho2).
  simpl in Hi2, Hl2, Ho2. unfold st2 in Hi2, Hl2, Ho2.
  rewrite !state_vec_set_procs in Hi2, Hl2.
  assert (Ho2' : ∀ s, s ≠ get_state_vec dst → state_vec st' s = state_vec st1 s).
  { intros s Hs. rewrite Ho2 by done. by rewrite state_vec_set_procs. }
  split; [|split].
  - intros s. destruct (decide (s = get_state_vec dst)) as [->|Hd].
    + rewrite Hl2. destruct (decide (get_state_vec dst = get_state_vec src)) as [->|Hs].
      * done.
      * by rewrite Ho1.
    + rewrite Ho2' by done. destruct (decide (s = get_state_vec src)) as [->|Hs].
      * done.
      * by rewrite Ho1.
  - intros E s. destruct (decide (s = get_state_vec dst)) as [->|Hd].
    + rewrite Hi2. rewrite <- E in *. lia.
    + rewrite Ho2' by done. rewrite Ho1 by congruence. done.
  - intros E. split.
    + rewrite Ho2' by done. done.
    + rewrite Hi2. rewrite Ho1 by congruence. done.
Qed.


(** ** Rendezvous *)

Lemma same_but_idx_set_state (a b : rust_proc) (s : proc_state_t) :
  same_but_idx a b → same_but_idx (set_state a s) (set_state b s).
Proof.
  destruct a, b. unfold same_but_idx, set_idx, set_state; simpl. congruence.
Qed.

Lemma heap_mod_idx_insert_both (h h' : gmap Z rust_proc) (q : ptr) (a b : rust_proc) :
  heap_mod_idx h h' → same_but_idx a b → heap_mod_idx (<[q := a]> h) (<[q := b]> h').
Proof.
  intros Hh Hab r. destruct (decide (q = r)) as [<-|Hne].
  - rewrite !lookup_insert_eq. by constructor.
  - rewrite !lookup_insert_ne by done. apply Hh.
Qed.

Lemma attempt_rendezvous_inv (wb : Z) (o : bufs) (src dst : ptr) (st st' : rt_state)
    (ok : bool) :
  sched_inv st → attempt_rendezvous wb o src dst st = Ok (ok, st') →
  sched_inv st'
  ∧ (∀ q, registered st q → registered st' q)
  ∧ ∃ ps pd, procs st !! src = Some ps ∧ procs st !! dst = Some pd
      ∧ (ok = false → st' = st
           ∧ ¬ (state ps = proc_state_blocked_writing
                ∧ state pd = proc_state_blocked_reading))
      ∧ (ok = true → state ps = proc_state_blocked_writing
           ∧ state pd = proc_state_blocked_reading
           ∧ rendezvous_done src dst ps pd st st').
Proof.
  intros Hinv H. unfold attempt_rendezvous in H.
  apply bind_Ok in H as (u1 & _ & H). apply bind_Ok in H as (u2 & _ & H).
  apply bind_Ok in H as (ps & Hps & H). apply deref_Ok in Hps.
  apply bind_Ok in H as (pd & Hpd & H). apply deref_Ok in Hpd.
  destruct (bool_decide (state ps = proc_state_blocked_writing)) eqn:E1;
    [apply bool_decide_eq_true in E1|apply bool_decide_eq_false in E1];
  (destruct (bool_decide (state pd = proc_state_blocked_reading)) eqn:E2;
    [apply bool_decide_eq_true in E2|apply bool_decide_eq_false in E2]);
  simpl in H.
  2-4: injection H as <- <-; split; [done|]; split; [done|];
       exists ps, pd; repeat split; try done; tauto.
  apply bind_Ok in H as (st2 & Ht1 & H). apply bind_Ok in H as (st3 & Ht2 & H).
  injection H as <- <-.
  set (st1 := set_mem st (<[arg pd 0:=arg ps 1]> (mem st))) in *.
  assert (Hinv1 : sched_inv st1) by (by apply (sched_inv_same_sched st)).
  destruct (proc_state_transition_inv _ _ _ _ _ _ _ Hinv1 Ht1)
    as (Hinv2 & (ps0 & Hps0 & _ & _ & Hh2) & _ & Hreg2 & Hrest2).
  destruct (proc_state_transition_inv _ _ _ _ _ _ _ Hinv2 Ht2)
    as (Hinv3 & (pd2 & Hpd2 & _ & _ & Hh3) & (pd' & Hpd' & Hsd' & Hld') & Hreg3 & Hrest3).
  simpl in Hps0. assert (ps0 = ps) as -> by congruence.
  assert (Hne : src ≠ dst) by (intros ->; congruence).
  destruct (heap_mod_idx_Some _ _ dst pd Hh2) as (b & Hb & Hsb).
  { simpl. by rewrite lookup_insert_ne. }
  assert (b = pd2) as -> by congruence.
  assert (Hheap : heap_mod_idx
            (<[dst := set_state pd proc_state_running]>
               (<[src := set_state ps proc_state_running]> (procs st)))
            (procs st3)).
  { eapply heap_mod_idx_trans; [|exact Hh3].
    apply heap_mod_idx_insert_both; [exact Hh2|by apply same_but_idx_set_state]. }
  split; [done|]. split; [by auto|].
  exists ps, pd. split; [done|]. split; [done|]. split; [done|].
  intros _. split; [done|]. split; [done|].
  destruct Hrest2 as (? & ? & ? & ? & ? & ?). destruct Hrest3 as (? & ? & ? & ? & ? & ?).
  unfold rendezvous_done. split; [simpl in *; congruence|].
  split; [simpl in *; congruence|]. split; [simpl in *; congruence|].
  split; [simpl in *; congruence|]. split; [simpl in *; congruence|].
  split; [done|]. split; [|by eauto].
  destruct (heap_mod_idx_Some _ _ src (set_state ps proc_state_running) Hheap)
    as (ps' & Hps' & Hsame).
  { rewrite lookup_insert_ne, lookup_insert_eq by done. done. }
  destruct (same_but_idx_fields _ _ Hsame) as (Hst & _). simpl in Hst.
  exists ps'. split; [done|]. split; [done|].
  assert (Hr : registered st3 src).
  { apply Hreg3. destruct (proc_state_transition_inv _ _ _ _ _ _ _ Hinv1 Ht1)
      as (_ & _ & (x & ? & ? & ?) & _). by exists sel_running, (idx x). }
  destruct Hr as (s & j & Hl). pose proof Hinv3 as (_ & _ & Hs3).
  destruct (Hs3 _ _ _ Hl) as (_ & y & Hy & <- & <-).
  assert (y = ps') as -> by congruence. by rewrite <- Hst in Hl.
Qed.

Lemma attempt_rendezvous_fail (wb : Z) (o : bufs) (src dst : ptr) (st : rt_state)
    (ps pd : rust_proc) :
  src ≠ null → dst ≠ null → procs st !! src = Some ps → procs st !! dst = Some pd →
  ¬ (state ps = proc_state_blocked_writing ∧ state pd = proc_state_blocked_reading) →
  attempt_rendezvous wb o src dst st = Ok (false, st).
Proof.
  intros Hs Hd Hps Hpd Hno. unfold attempt_rendezvous.
  ok_assert (src ≠ null). ok_assert (dst ≠ null). ok_deref Hps. ok_deref Hpd.
  destruct (bool_decide (state ps = proc_state_blocked_writing)) eqn:E1;
    [apply bool_decide_eq_true in E1|done].
  destruct (bool_decide (state pd = proc_state_blocked_reading)) eqn:E2;
    [apply bool_decide_eq_true in E2|done].
  tauto.
Qed.

(** A rendezvous moves both procs into the running vector, which needs two
    free slots in its buffer. *)
Lemma attempt_rendezvous_total (wb : Z) (o : bufs) (src dst : ptr) (st : rt_state)
    (ps pd : rust_proc) :
  sched_inv st → procs st !! src = Some ps → procs st !! dst = Some pd →
  state ps = proc_state_blocked_writing → state pd = proc_state_blocked_reading →
  live_slot st sel_blocked (idx ps) src → live_slot st sel_blocked (idx pd) dst →
  room (running_procs st) 2 →
  ∃ st', attempt_rendezvous wb o src dst st = Ok (true, st').
Proof.
  intros Hinv Hps Hpd Es Ed Hls Hld Hroom. pose proof Hinv as (_ & _ & Hs).
  destruct (Hs _ _ _ Hls) as (Hsn & _). destruct (Hs _ _ _ Hld) as (Hdn & _).
  assert (Hne : src ≠ dst) by (intros ->; congruence).
  unfold attempt_rendezvous.
  ok_assert (src ≠ null). ok_assert (dst ≠ null). ok_deref Hps. ok_deref Hpd.
  ok_assert (state ps = proc_state_blocked_writing).
  ok_assert (state pd = proc_state_blocked_reading).
  set (st1 := set_mem st (<[arg pd 0:=arg ps 1]> (mem st))).
  assert (Hinv1 : sched_inv st1) by (by apply (sched_inv_same_sched st)).
  unfold room in Hroom.
  destruct (proc_state_transition_total wb (sub 0 o) src ps proc_state_running st1 Hinv1 Hps)
    as (st2 & Ht1); [by rewrite Es|intros _; unfold room; simpl; lia|].
  rewrite Es in Ht1. rewrite Ht1. simpl.
  destruct (proc_state_transition_inv _ _ _ _ _ _ _ Hinv1 Ht1)
    as (Hinv2 & (ps0 & Hps0 & _ & _ & Hh2) & _ & Hreg2 & _).
  destruct (proc_state_transition_shape _ _ _ _ _ _ _ Hinv1 Ht1) as (Hlen2 & _ & Hcnt2).
  destruct Hcnt2 as (_ & Hrun2); [done|]. simpl in Hrun2.
  specialize (Hlen2 sel_running). simpl in Hlen2.
  destruct (heap_mod_idx_Some _ _ dst pd Hh2) as (pd2 & Hpd2 & Hsame).
  { simpl. by rewrite lookup_insert_ne. }
  destruct (same_but_idx_fields _ _ Hsame) as (Hst & _).
  assert (Hr : registered st2 dst) by (apply Hreg2; by exists sel_blocked, (idx pd)).
  destruct Hr as (s & j & Hl). pose proof Hinv2 as (_ & _ & Hs2).
  destruct (Hs2 _ _ _ Hl) as (_ & y & Hy & <- & <-).
  assert (y = pd2) as -> by congruence.
  destruct (proc_state_transition_total wb (sub 1 o) dst pd2 proc_state_running st2
              Hinv2 Hpd2 Hl) as (st3 & Ht2).
  { intros _. unfold room. simpl. lia. }
  rewrite <- Hst, Ed in Ht2. rewrite Ht2. simpl. eauto.
Qed.

(** Proves [slot_ok] for a concrete state by going through its slots. *)
Ltac solve_slot_ok :=
  intros [] i p [Hi Hp]; simpl in Hi, Hp;
  repeat (destruct i as [|i];
          [simpl in Hp; simplify_eq; split; [unfold null; lia|]; eexists; split;
             [vm_compute; reflexivity|done]|]);
  simpl in Hi; lia.

Lemma vec_inv_concrete (n : nat) (d : list Z) :
  n ≤ length d → length d < 8 → vec_inv (mk_ptr_vec 8 n d).
Proof. intros. unfold vec_inv, vec_ok, INIT_PTR_VEC_SZ; simpl. done. Qed.

Lemma ex_vec0_inv : vec_inv ex_vec0.
Proof. apply vec_inv_concrete; simpl; lia. Qed.

Lemma ex_blocked_pair_inv : sched_inv ex_blocked_pair.
Proof.
  split; [apply ex_vec0_inv|]. split.
  - apply vec_inv_concrete; simpl; lia.
  - solve_slot_ok.
Qed.

(** X25. [attempt_rendezvous(src, dst)]: unless [src] is BlockedWriting and
    [dst] is BlockedReading it returns false and leaves the whole state as it
    was.  When both states match, both procs sit in the blocked vector at
    their [idx] (as the asserts of [proc_state_transition] demand) and the
    buffer of the running vector has two slots left, it stores
    [src.upcall_args[1]] at the address [dst.upcall_args[0]], moves both
    procs to the running vector in state Running and returns true. *)
Theorem attempt_rendezvous_spec (wb : Z) (o : bufs) (src dst : ptr) (st : rt_state)
    (ps pd : rust_proc) :
  src ≠ null → dst ≠ null →
  procs st !! src = Some ps → procs st !! dst = Some pd →
  (¬ (state ps = proc_state_blocked_writing ∧ state pd = proc_state_blocked_reading) →
     attempt_rendezvous wb o src dst st = Ok (false, st))
  ∧ (state ps = proc_state_blocked_writing → state pd = proc_state_blocked_reading →
     sched_inv st →
     live_slot st sel_blocked (idx ps) src → live_slot st sel_blocked (idx pd) dst →
     room (running_procs st) 2 →
     ∃ st', attempt_rendezvous wb o src dst st = Ok (true, st')
       ∧ mem st' !! arg pd 0 = Some (arg ps 1)
       ∧ rendezvous_done src dst ps pd st st'
       ∧ sched_inv st').
Proof.
  intros Hsn Hdn Hps Hpd. split.
  - by apply attempt_rendezvous_fail.
  - intros Es Ed Hinv Hls Hld Hroom.
    destruct (attempt_rendezvous_total wb o src dst st ps pd) as (st' & Hst'); try done.
    exists st'. split; [done|].
    destruct (attempt_rendezvous_inv _ _ _ _ _ _ _ Hinv Hst')
      as (Hinv' & _ & ps0 & pd0 & Hps0 & Hpd0 & _ & Hok).
    simplify_eq. destruct (Hok eq_refl) as (_ & _ & Hdone).
    split; [|done]. destruct Hdone as (-> & _). by rewrite lookup_insert_eq.
Qed.

Lemma attempt_rendezvous_spec_witness :
  ∃ st', attempt_rendezvous 4 ex_bufs 16 32 ex_blocked_pair = Ok (true, st')
    ∧ mem st' !! 400%Z = Some 7%Z.
Proof.
  destruct (attempt_rendezvous_spec 4 ex_bufs 16 32 ex_blocked_pair ex_writer ex_reader)
    as (_ & Hok); [done|done|reflexivity|reflexivity|].
  destruct Hok as (st' & Hst' & Hmem & _);
    [reflexivity|reflexivity|exact ex_blocked_pair_inv| | | |].
  - split; [simpl; lia|reflexivity].
  - split; [simpl; lia|reflexivity].
  - unfold room. simpl. lia.
  - exists st'. split; [exact Hst'|exact Hmem].
Defined.

(** C2 (the code departs from the claim).  On a 32-bit platform, in the
    state [rust_start] reaches after [ex_full_rounds], the root proc at 4096
    sends on a channel whose port is owned by the proc at 16384, which waits
    in a receive.  When [upcall_send] calls [attempt_rendezvous] the sender
    is BlockedWriting and the receiver BlockedReading, both in the blocked
    vector, and the running vector holds one proc in its buffer of two
    slots.  [attempt_rendezvous] moves the sender into the second slot and
    then writes the receiver to [data[2]], outside the 8 bytes that
    [init_ptr_vec] allocated: it does not return true. *)
Theorem attempt_rendezvous_overflow :
  ∃ p0 st0 st7 pr c g,
    rust_start_init 4 20 900 ex_env 80 ex_progs ∅ = Ok (p0, st0)
    ∧ run_rounds 4 20 ex_full_rounds p0 st0 = Ok (Some 4096%Z, st7)
    ∧ procs st7 !! 4096%Z = Some pr ∧ chans st7 !! 32768%Z = Some c
    ∧ proc_state_transition 4 (sub 0 ex_bufs) 4096
        proc_state_calling_c proc_state_blocked_writing
        (set_chans (glued ex_full_send 4096 pr st7)
           (<[32768%Z := set_chan_proc c 4096]> (chans st7))) = Ok g
    ∧ in_state g 4096 proc_state_blocked_writing
    ∧ in_state g 16384 proc_state_blocked_reading
    ∧ live_slot g sel_blocked 1 4096 ∧ live_slot g sel_blocked 0 16384
    ∧ init (running_procs g) = 1 ∧ length (data (running_procs g)) = 2
    ∧ alloc (running_procs g) = 8
    ∧ attempt_rendezvous 4 (sub 1 ex_bufs) 4096 16384 g = Abort
    ∧ loop_body 4 20 ex_full_send ex_round_env 4096 st7 = Abort.
Proof.
  eexists _, _, _, _, _, _.
  split; [vm_compute; reflexivity|].
  split; [vm_compute; reflexivity|].
  split; [vm_compute; reflexivity|].
  split; [vm_compute; reflexivity|].
  split; [vm_compute; reflexivity|].
  split; [eexists; split; vm_compute; reflexivity|].
  split; [eexists; split; vm_compute; reflexivity|].
  split; [split; [simpl; lia|reflexivity]|].
  split; [split; [simpl; lia|reflexivity]|].
  vm_compute. done.
Qed.

(** ** PtrVec capacity *)

(** C9 (the code departs from the claim).  [init_ptr_vec] sets [alloc] to 8
    and hands it to [xalloc] as a byte count; [ptr_vec_push] grows only when
    [init] reaches [alloc].  On a 32-bit platform the buffer has two slots:
    two pushes fill it with [alloc] still 8, and the third writes [data[2]]
    outside the block, so nine pushes never reach capacity 16.  [rust_start]
    gets there when the root proc registers a second spawned proc. *)
Theorem ptr_vec_push_overflow :
  ∃ v0 v2,
    init_ptr_vec 4 ex_block = Ok v0 ∧ alloc v0 = 8 ∧ init v0 = 0
    ∧ length (data v0) = 2
    ∧ run_ops 4 [op_push ex_block 16; op_push ex_block 32] v0 = Ok v2
    ∧ init v2 = 2 ∧ alloc v2 = 8
    ∧ ptr_vec_push 4 ex_block v2 48 = Abort
    ∧ run_ops 4 (replicate 9 (op_push ex_block 16)) v0 = Abort
    ∧ ∃ p0 st0 st3,
        rust_start_init 4 20 900 ex_env 80 ex_progs ∅ = Ok (p0, st0)
        ∧ run_rounds 4 20 ex_third_rounds p0 st0 = Ok (Some 4096%Z, st3)
        ∧ running_procs st3 = mk_ptr_vec 8 2 [4096; 16384]%Z
        ∧ loop_body 4 20 ex_third_sched ex_round_env 4096 st3 = Abort.
Proof.
  eexists _, _.
  split; [vm_compute; reflexivity|].
  split; [reflexivity|]. split; [reflexivity|]. split; [reflexivity|].
  split; [vm_compute; reflexivity|].
  split; [reflexivity|]. split; [reflexivity|].
  split; [vm_compute; reflexivity|].
  split; [vm_compute; reflexivity|].
  eexists _, _, _.
  split; [vm_compute; reflexivity|].
  split; [vm_compute; reflexivity|].
  split; vm_compute; reflexivity.
Qed.


(** ** Scheduler *)

(** C8. With at least one live proc and the slots in use of the running
    vector inside its buffer: if the running vector is non-empty, [sched]
    returns one of its elements, and the only one when there is exactly one;
    if it is empty (so that only blocked procs remain), [sched] prints its
    diagnostic and exits with code 1. *)
Theorem sched_spec (r : nat) (st : rt_state) :
  0 < n_live_procs st → vec_ok (running_procs st) →
  (0 < init (running_procs st) →
     ∃ p i, sched r st = Ok p ∧ i < init (running_procs st)
            ∧ data (running_procs st) !! i = Some p)
  ∧ (init (running_procs st) = 1 →
     ∀ p, data (running_procs st) !! 0 = Some p → sched r st = Ok p)
  ∧ (init (running_procs st) = 0 →
     0 < init (blocked_procs st)
     ∧ sched r st = Exit "rt: no schedulable processes" 1%Z
     ∧ 1%Z ≠ 0%Z).
Proof.
  intros Hlive Hv. unfold sched. ok_assert (0 < n_live_procs st).
  split; [|split].
  - intros Hpos. ok_assert (0 < init (running_procs st)).
    assert (Hi : r mod init (running_procs st) < init (running_procs st))
      by (apply Nat.mod_upper_bound; lia).
    destruct (vec_ok_lookup _ (r mod init (running_procs st)) Hv) as (p & Hp); [lia|].
    exists p, (r mod init (running_procs st)). ok_get Hp. done.
  - intros H1 p Hp. rewrite H1. ok_assert (0 < 1).
    rewrite Nat.mod_1_r. by ok_get Hp.
  - intros H0. unfold n_live_procs in Hlive. rewrite H0 in *.
    rewrite bool_decide_eq_false_2 by lia. split; [lia|]. done.
Qed.

(** The deadlock of the specification's last scenario: the only proc
    receives on a port without senders, and the round ends in [exit(1)]. *)
Example deadlock_round :
  loop_body 4 20 ex_recv_yield ex_round_env 32 ex_single
  = Exit "rt: no schedulable processes" 1%Z.
Proof. vm_compute. reflexivity. Qed.

Lemma sched_spec_witness :
  sched 5 ex_blocked_pair = Exit "rt: no schedulable processes" 1%Z
  ∧ sched 5 ex_stale = Ok 16%Z.
Proof.
  split.
  - refine (proj1 (proj2 (proj2 (proj2 (sched_spec 5 ex_blocked_pair _ _)) _))).
    + vm_compute. lia.
    + unfold vec_ok. simpl. lia.
    + reflexivity.
  - refine (proj1 (proj2 (sched_spec 5 ex_stale _ _)) _ 16%Z _).
    + vm_compute. lia.
    + unfold vec_ok. simpl. lia.
    + reflexivity.
    + reflexivity.
Defined.

(** ** Loops with a bound *)

(** The bound of [del_stk_loop] is never what stops it: past the number of
    live segments, more rounds change nothing. *)
Lemma del_stk_loop_fuel (fuel : nat) (s : ptr) (h : gmap Z stk_seg) :
  size h < fuel → del_stk_loop (S fuel) s h = del_stk_loop fuel s h.
Proof.
  revert s h. induction fuel as [|fuel IH]; intros s h Hsz; [lia|].
  change (del_stk_loop (S (S fuel)) s h) with
    (seg ← deref h s;
     if bool_decide (stk_next seg ≠ null)
     then del_stk_loop (S fuel) (stk_next seg) (delete s h)
     else Ok (delete s h)).
  simpl. unfold deref. destruct (h !! s) as [seg|] eqn:E; simpl; [|done].
  case_bool_decide; [|done]. apply IH.
  rewrite map_size_delete_Some by eauto.
  assert (size h ≠ 0); [|lia].
  intros Hz. apply map_size_empty_inv in Hz. subst h. by rewrite lookup_empty in E.
Qed.

Lemma del_all_procs_loop_S (fuel : nat) (sel : vec_sel) (st : rt_state) :
  del_all_procs_loop (S fuel) sel st =
  let v := state_vec st sel in
  if bool_decide (init v = 0) then ([], Ok st)
  else
    let i := init v in
    let st1 := set_state_vec st sel (mk_ptr_vec (alloc v) (i - 1) (data v)) in
    match p ← vec_get v i; del_proc p st1 with
    | Ok st2 => let '(tr, r) := del_all_procs_loop fuel sel st2 in (i :: tr, r)
    | Exit msg code => ([i], Exit msg code)
    | Abort => ([i], Abort)
    end.
Proof. reflexivity. Qed.

(** The same for [del_all_procs_loop]: [init] goes down by one per round. *)
Lemma del_all_procs_loop_fuel (fuel : nat) (sel : vec_sel) (st : rt_state) :
  init (state_vec st sel) < fuel →
  del_all_procs_loop (S fuel) sel st = del_all_procs_loop fuel sel st.
Proof.
  revert st. induction fuel as [|fuel IH]; intros st Hsz; [lia|].
  rewrite (del_all_procs_loop_S (S fuel)), (del_all_procs_loop_S fuel). cbv zeta.
  case_bool_decide as Hz; [done|].
  match goal with |- context [mbind ?f ?m] => destruct (mbind f m) as [st2| |] eqn:Hdel end;
    try done.
  rewrite IH; [done|].
  apply bind_Ok in Hdel as (p & _ & Hdel).
  unfold del_proc, del_stk in Hdel.
  apply bind_Ok in Hdel as (pr & _ & Hdel). apply bind_Ok in Hdel as (u & _ & Hdel).
  apply bind_Ok in Hdel as (s1 & Hs1 & Hdel). injection Hdel as <-.
  apply bind_Ok in Hs1 as (h & _ & Hs1). injection Hs1 as <-.
  destruct sel; simpl in *; lia.
Qed.

(** ** Runtime teardown *)

(** The loop of [del_all_procs] never reads slot 0, and when the vector is
    not empty the first slot it reads is slot [init], one past the slots in
    use. *)
Lemma del_all_procs_loop_trace (fuel : nat) (sel : vec_sel) (st : rt_state) :
  (0 ∉ fst (del_all_procs_loop fuel sel st))
  ∧ (0 < fuel → 0 < init (state_vec st sel) →
       ∃ tr, (del_all_procs_loop fuel sel st).1 = init (state_vec st sel) :: tr).
Proof.
  revert st. induction fuel as [|fuel IH]; intros st; simpl.
  - split; [apply not_elem_of_nil|lia].
  - case_bool_decide as Hz; simpl; [split; [apply not_elem_of_nil|lia]|].
    destruct (vec_get (state_vec st sel) (init (state_vec st sel))) as [p| |]; simpl.
    + destruct (del_proc p _) as [st2| |]; simpl.
      * specialize (IH st2). destruct (del_all_procs_loop fuel sel st2) as [tr r].
        simpl in *. split; [|eauto]. rewrite elem_of_cons. intros [?|?]; [lia|tauto].
      * split; [|eauto]. rewrite elem_of_cons, elem_of_nil. intros [?|?]; [lia|done].
      * split; [|eauto]. rewrite elem_of_cons, elem_of_nil. intros [?|?]; [lia|done].
    + split; [|eauto]. rewrite elem_of_cons, elem_of_nil. intros [?|?]; [lia|done].
    + split; [|eauto]. rewrite elem_of_cons, elem_of_nil. intros [?|?]; [lia|done].
Qed.




(** ** Dead send *)

(** C7. A send on a channel whose port has no owning proc only records the
    sender in [chan->proc]: the proc store (so the sender's state, CallingC
    on entry), both scheduler vectors, every port with its writer vector, and
    the channel's [queued] flag and index are as before. *)
Theorem upcall_send_dead (wb : Z) (o : bufs) (src chan : ptr) (st : rt_state)
    (c : rust_chan) (pt : rust_port) :
  chan ≠ null → chans st !! chan = Some c → chan_port c ≠ null →
  ports st !! chan_port c = Some pt → port_proc pt = null →
  ∃ st', upcall_send wb o src chan st = Ok st'
    ∧ chans st' = <[chan := set_chan_proc c src]> (chans st)
    ∧ procs st' = procs st
    ∧ running_procs st' = running_procs st ∧ blocked_procs st' = blocked_procs st
    ∧ ports st' = ports st ∧ mem st' = mem st
    ∧ (∀ pr, procs st !! src = Some pr → state pr = proc_state_calling_c →
         ∃ pr', procs st' !! src = Some pr' ∧ state pr' = proc_state_calling_c)
    ∧ (∃ c', chans st' !! chan = Some c' ∧ chan_proc c' = src
         ∧ queued c' = queued c ∧ chan_idx c' = chan_idx c)
    ∧ (∀ port i, writer_slot st' port i chan → writer_slot st port i chan).
Proof.
  intros Hnn Hc Hpn Hpt Hdead. unfold upcall_send.
  ok_assert (chan ≠ null). ok_deref Hc. ok_assert (chan_port c ≠ null).
  ok_deref Hpt. rewrite bool_decide_eq_false_2 by (intros ?; done).
  eexists. split; [done|]. simpl. repeat split; try done.
  - intros pr Hpr Hs. eauto.
  - eexists. rewrite lookup_insert_eq. done.
Qed.

Lemma upcall_send_dead_witness :
  ∃ st', upcall_send 4 ex_bufs 16 64 ex_dead = Ok st'
    ∧ running_procs st' = running_procs ex_dead
    ∧ ∃ pr', procs st' !! 16%Z = Some pr' ∧ state pr' = proc_state_calling_c.
Proof.
  destruct (upcall_send_dead 4 ex_bufs 16 64 ex_dead (mk_chan 48 0 false 0 ex_vec0)
              (mk_port 0 0 null ex_vec0))
    as (st' & Hst' & _ & _ & Hr & _ & _ & _ & Hs & _);
    [unfold null; lia|reflexivity|simpl; unfold null; lia|reflexivity|reflexivity|].
  exists st'. split; [exact Hst'|]. split; [exact Hr|].
  eapply Hs; reflexivity.
Defined.

(** ** Deleting a channel *)

Lemma ex_queued_inv : chan_inv ex_queued.
Proof.
  split.
  - intros c ch Hc Hq. unfold ex_queued in Hc. simpl in Hc.
    destruct (decide (c = 64%Z)) as [->|Hne].
    + rewrite lookup_insert_eq in Hc. injection Hc as <-. simpl.
      eexists. split; [reflexivity|]. simpl. split; [lia|reflexivity].
    + rewrite lookup_insert_ne, lookup_empty in Hc by done. done.
  - intros port i c (pt & Hpt & Hi & Hc). unfold ex_queued in Hpt. simpl in Hpt.
    destruct (decide (port = 48%Z)) as [->|Hne].
    + rewrite lookup_insert_eq in Hpt. injection Hpt as <-. simpl in *.
      assert (i = 0) as -> by lia. simpl in Hc. injection Hc as <-.
      eexists. split; [reflexivity|]. done.
    + rewrite lookup_insert_ne, lookup_empty in Hpt by done. done.
Qed.

(** C6, as stated, fails: the queued channel at 64 is still in the writer
    vector of its port after [upcall_del_chan] has freed it. *)
Lemma del_chan_claim_counterexample :
  chan_inv ex_queued ∧ ¬ del_chan_claim 64 ex_queued.
Proof.
  split; [exact ex_queued_inv|].
  intros Hclaim. destruct (Hclaim _ eq_refl) as (Hno & _).
  apply (Hno 48%Z 0). eexists. split; [reflexivity|]. simpl. split; [lia|reflexivity].
Qed.

(** C6, amended. [upcall_del_chan] finalises the channel's buffer vector and
    frees the channel; it leaves every port, and so every writer vector, as
    it was.  For a channel that is not queued, in a state satisfying the
    queued-channel invariant, no writer vector holds the deleted channel
    afterwards and the invariant still holds. *)
Theorem upcall_del_chan_unqueued (chan : ptr) (st : rt_state) (ch : rust_chan) :
  chan ≠ null → chans st !! chan = Some ch → init (buf ch) = 0 →
  ∃ st', upcall_del_chan chan st = Ok st'
    ∧ ports st' = ports st ∧ chans st' = delete chan (chans st)
    ∧ (chan_inv st → queued ch = false →
         (∀ port i, ¬ writer_slot st' port i chan) ∧ chan_inv st').
Proof.
  intros Hnn Hc Hbuf. unfold upcall_del_chan.
  ok_assert (chan ≠ null). ok_deref Hc. unfold fini_ptr_vec.
  ok_assert (init (buf ch) = 0).
  eexists. split; [done|]. simpl. split; [done|]. split; [done|].
  intros (Hq & Hw) Hnq.
  assert (Hnot : ∀ port i, ¬ writer_slot st port i chan).
  { intros port i Hs. destruct (Hw _ _ _ Hs) as (ch' & Hch' & Hq' & _). congruence. }
  split; [exact Hnot|]. split.
  - intros c ch' Hc' Hq'. simpl in Hc'.
    apply lookup_delete_Some in Hc' as [Hne Hc']. by apply (Hq c ch').
  - intros port i c Hs. destruct (Hw port i c Hs) as (ch' & Hch' & ?).
    exists ch'. split; [|done]. simpl. rewrite lookup_delete_ne; [done|].
    intros <-. by apply (Hnot port i).
Qed.

Lemma upcall_del_chan_unqueued_witness :
  ∃ st', upcall_del_chan 64 ex_dead = Ok st' ∧ chans st' = delete 64%Z (chans ex_dead)
    ∧ ports st' = ports ex_dead.
Proof.
  destruct (upcall_del_chan_unqueued 64 ex_dead (mk_chan 48 0 false 0 ex_vec0))
    as (st' & Hst' & Hp & Hch & _).
  - unfold null; lia.
  - reflexivity.
  - reflexivity.
  - exists st'. split; [exact Hst'|]. split; [exact Hch|exact Hp].
Defined.


(** ** Proc construction *)

Lemma xalloc_Ok (m p : ptr) : xalloc m = Ok p ↔ m ≠ null ∧ p = m.
Proof.
  unfold xalloc. case_bool_decide; split.
  - discriminate.
  - intros [? _]. done.
  - intros [= <-]. done.
  - intros [_ ->]. done.
Qed.

Lemma land_lnot_15 (x : Z) : Z.land x (Z.lnot 15) = (16 * (x / 16))%Z.
Proof.
  rewrite <- Z.ldiff_land. change 15%Z with (Z.ones 4).
  rewrite Z.ldiff_ones_r by lia.
  rewrite Z.shiftr_div_pow2, Z.shiftl_mul_pow2 by lia.
  change (2 ^ 4)%Z with 16%Z. lia.
Qed.

Lemma frame_top_aligned (wb off : Z) (s : ptr) :
  (frame_top wb off s mod 16 = 0
   ∧ frame_top wb off s ≤ s + off + (init_stk_bytes - wb) < frame_top wb off s + 16)%Z.
Proof.
  unfold frame_top. rewrite land_lnot_15.
  set (x := (s + off + (init_stk_bytes - wb))%Z).
  split.
  - rewrite Z.mul_comm. apply Z_mod_mult.
  - pose proof (Z.mod_pos_bound x 16 ltac:(lia)).
    pose proof (Z.div_mod x 16 ltac:(lia)). lia.
Qed.

Lemma new_proc_inv (wb off : Z) (m_proc m_stk prog : ptr) (st : rt_state)
    (p : ptr) (st' : rt_state) :
  new_proc wb off m_proc m_stk prog st = Ok (p, st') →
  p = m_proc ∧ m_proc ≠ null ∧ m_stk ≠ null
  ∧ running_procs st' = running_procs st ∧ blocked_procs st' = blocked_procs st
  ∧ progs st' = progs st ∧ ports st' = ports st ∧ chans st' = chans st
  ∧ stks st' = <[m_stk := mk_stk null null init_stk_bytes 0]> (stks st)
  ∧ procs st' = <[m_proc := fresh_proc m_stk prog
                    (frame_top wb off m_stk - (3 + Z.of_nat n_callee_saves) * wb)]>
                  (procs st)
  ∧ is_Some (progs st !! prog) ∧ blocks st' = blocks st.
Proof.
  intros H. unfold new_proc, xcalloc, new_stk in H.
  apply bind_Ok in H as (p0 & Hp0 & H). apply xalloc_Ok in Hp0 as [Hnn ->].
  apply bind_Ok in H as (pg & Hpg & H). apply deref_Ok in Hpg.
  apply bind_Ok in H as ([s st1] & Hs & H).
  apply bind_Ok in Hs as (s0 & Hs0 & Hs). apply xalloc_Ok in Hs0 as [Hsn ->].
  injection Hs as <- <-. injection H as <- <-.
  repeat split; done.
Qed.

Lemma new_proc_total (wb off : Z) (m_proc m_stk prog : ptr) (st : rt_state) (pg : rust_prog) :
  m_proc ≠ null → m_stk ≠ null → progs st !! prog = Some pg →
  ∃ st', new_proc wb off m_proc m_stk prog st = Ok (m_proc, st')
    ∧ mem st' =
        (Nat.iter n_callee_saves (store_dec wb 0)
           (store_dec wb (main_code pg) (store_dec wb (main_code pg)
              (store_dec wb 0 (store_dec wb m_proc
                 (frame_top wb off m_stk, mem st)))))).2.
Proof.
  intros Hp Hs Hpg. unfold new_proc, xcalloc, new_stk.
  rewrite (proj2 (xalloc_Ok m_proc m_proc)) by done. simpl.
  ok_deref Hpg.
  rewrite (proj2 (xalloc_Ok m_stk m_stk)) by done. simpl.
  eexists. split; reflexivity.
Qed.

Lemma sched_inv_fresh_proc (st st' : rt_state) (p : ptr) (pr : rust_proc) :
  sched_inv st → procs st !! p = None →
  running_procs st' = running_procs st → blocked_procs st' = blocked_procs st →
  procs st' = <[p := pr]> (procs st) →
  sched_inv st' ∧ ¬ registered st' p.
Proof.
  intros Hinv Hfresh Hr Hb Hp. pose proof Hinv as (_ & _ & Hs).
  assert (Hsv : ∀ s, state_vec st' s = state_vec st s) by (by intros []).
  assert (Hnr : ¬ registered st p).
  { intros (s & j & Hl). destruct (Hs _ _ _ Hl) as (_ & x & Hx & _). congruence. }
  split.
  - apply (sched_inv_transfer st); [done| | |].
    + intros s. rewrite Hsv. by apply sched_inv_vec.
    + intros s j q. unfold live_slot. by rewrite Hsv.
    + intros q prq Hreg Hq. rewrite Hp. exists prq.
      rewrite lookup_insert_ne; [done|]. intros ->. congruence.
  - intros (s & j & Hl). apply Hnr. exists s, j. unfold live_slot in *.
    by rewrite <- Hsv.
Qed.

Lemma lookup_insert_hit (m : gmap Z Z) (k k' v : Z) :
  k = k' → <[k := v]> m !! k' = Some v.
Proof. intros ->. apply lookup_insert_eq. Qed.

(** Reads one cell of a word store built by a chain of [insert]s. *)
Ltac read_frame :=
  repeat (rewrite lookup_insert_ne by lia);
  first [apply lookup_insert_hit; lia | reflexivity].

(** C4, as stated, fails on a 32-bit layout ([sizeof(uintptr_t) = 4], stack
    data at offset 20): the word below the out-pointer spacer holds
    [main_code], not zero, and the saved [sp] is not a multiple of 16. *)
Lemma frame_claim_counterexample : ¬ frame_claim 4 20 4096 8192 80 ex_spawn.
Proof.
  intros H.
  destruct (new_proc 4 20 4096 8192 80 ex_spawn) as [[p st']| |] eqn:E;
    [|vm_compute in E; discriminate E|vm_compute in E; discriminate E].
  destruct (H p st' (mk_prog 11 22 33) E eq_refl) as (_ & _ & _ & H3 & _).
  vm_compute in E. injection E as <- <-. vm_compute in H3. discriminate H3.
Qed.

(** C4, amended. [new_proc] aligns the address of the last word of the stack
    segment down to a multiple of 16 and writes eight words from there
    downward: the proc pointer, a zero (fake out-pointer), [main_code] (the
    fake return PC), [main_code] again (the activation PC) and
    [n_callee_saves = 4] zeros; no other word changes.  The saved [sp] is the
    aligned address minus [3 + n_callee_saves] words, the address of the
    lowest callee-save word; the new proc is Running. *)
Theorem new_proc_frame (wb off : Z) (m_proc m_stk prg : ptr) (st : rt_state)
    (pg : rust_prog) :
  (0 < wb)%Z → m_proc ≠ null → m_stk ≠ null → progs st !! prg = Some pg →
  let top := frame_top wb off m_stk in
  ∃ st' pr, new_proc wb off m_proc m_stk prg st = Ok (m_proc, st')
    ∧ (top mod 16 = 0)%Z
    ∧ (top ≤ m_stk + off + (init_stk_bytes - wb) < top + 16)%Z
    ∧ mem st' !! top = Some m_proc
    ∧ mem st' !! (top - wb)%Z = Some 0%Z
    ∧ mem st' !! (top - 2 * wb)%Z = Some (main_code pg)
    ∧ mem st' !! (top - 3 * wb)%Z = Some (main_code pg)
    ∧ (∀ j, (0 ≤ j < Z.of_nat n_callee_saves)%Z →
         mem st' !! (top - (4 + j) * wb)%Z = Some 0%Z)
    ∧ (∀ a, (a < top - 7 * wb ∨ top < a)%Z → mem st' !! a = mem st !! a)
    ∧ procs st' !! m_proc = Some pr
    ∧ sp pr = (top - (3 + Z.of_nat n_callee_saves) * wb)%Z
    ∧ state pr = proc_state_running ∧ prog pr = prg ∧ stk pr = m_stk
    ∧ n_callee_saves = 4.
Proof.
  intros Hwb Hp Hs Hpg top.
  destruct (new_proc_total wb off m_proc m_stk prg st pg Hp Hs Hpg) as (st' & Hst' & Hmem).
  destruct (new_proc_inv _ _ _ _ _ _ _ _ Hst') as (_ & _ & _ & _ & _ & _ & _ & _ & _ & Hprocs & _).
  destruct (frame_top_aligned wb off m_stk) as (Hal & Hrange).
  exists st', (fresh_proc m_stk prg (top - (3 + Z.of_nat n_callee_saves) * wb)).
  split; [done|]. split; [done|]. split; [done|].
  rewrite Hmem. unfold store_dec, n_callee_saves. simpl. fold top.
  split; [read_frame|]. split; [read_frame|]. split; [read_frame|].
  split; [read_frame|]. split.
  { intros j Hj.
    assert (j = 0 ∨ j = 1 ∨ j = 2 ∨ j = 3)%Z as [->|[->|[->| ->]]] by lia; read_frame. }
  split; [intros a Ha; read_frame|].
  rewrite Hprocs, lookup_insert_eq. done.
Qed.

Lemma new_proc_frame_witness :
  ∃ st' pr, new_proc 4 20 4096 8192 80 ex_spawn = Ok (4096%Z, st')
    ∧ mem st' !! (frame_top 4 20 8192 - 2 * 4)%Z = Some 22%Z
    ∧ procs st' !! 4096%Z = Some pr
    ∧ sp pr = (frame_top 4 20 8192 - 28)%Z.
Proof.
  destruct (new_proc_frame 4 20 4096 8192 80 ex_spawn (mk_prog 11 22 33))
    as (st' & pr & Hst' & _ & _ & _ & _ & H2 & _ & _ & _ & Hpr & Hsp & _);
    [lia|unfold null; lia|unfold null; lia|reflexivity|].
  exists st', pr. split; [exact Hst'|]. split; [exact H2|]. split; [exact Hpr|exact Hsp].
Defined.

(** ** Spawn *)

(** C5, as stated, fails: after the spawn upcall of [ex_spawn] the new proc
    is in no slot of the running vector. *)
Lemma spawn_claim_counterexample : ¬ spawn_claim 4 20 ex_env 16 ex_spawn.
Proof.
  intros H.
  destruct (handle_upcall 4 20 ex_env 16 ex_spawn) as [st'| |] eqn:E;
    [|vm_compute in E; discriminate E|vm_compute in E; discriminate E].
  destruct (H _ st' eq_refl eq_refl E) as (p & pn & Hm & _ & _ & _ & i & Hi & Hp).
  vm_compute in E. injection E as <-. vm_compute in Hm. injection Hm as <-.
  simpl in Hi, Hp. assert (i = 0) as -> by lia. discriminate Hp.
Qed.

(** C5, amended. The spawn upcall creates a proc for the prog in [args[1]]
    in state Running and stores its handle in the out-slot [args[0]]; it
    leaves both scheduler vectors as they were, so the new proc is in
    neither.  [add_proc_to_state_vec] on that handle (the sched upcall, or
    [rust_start] for the root proc) is what puts it into the running vector:
    whenever that call returns the proc is there, at the slot its [idx]
    names, and the call returns whenever the buffer of the running vector
    has a slot left. *)
Theorem spawn_upcall_spec (wb off : Z) (e : env) (proc : ptr) (st : rt_state)
    (pr : rust_proc) (pg : rust_prog) :
  procs st !! proc = Some pr → upcall_code pr = upcall_code_spawn →
  e_block1 e ≠ null → e_block2 e ≠ null → procs st !! e_block1 e = None →
  progs st !! arg pr 1 = Some pg →
  ∃ st' pn, handle_upcall wb off e proc st = Ok st'
    ∧ mem st' !! arg pr 0 = Some (e_block1 e)
    ∧ procs st' !! e_block1 e = Some pn
    ∧ state pn = proc_state_running ∧ prog pn = arg pr 1
    ∧ running_procs st' = running_procs st ∧ blocked_procs st' = blocked_procs st
    ∧ (sched_inv st →
         ¬ registered st' (e_block1 e)
         ∧ (∀ b st'', add_proc_to_state_vec wb b (e_block1 e) st' = Ok st'' →
              ∃ pn', procs st'' !! e_block1 e = Some pn'
                ∧ live_slot st'' sel_running (idx pn') (e_block1 e))
         ∧ (room (running_procs st) 1 →
              ∀ b, ∃ st'', add_proc_to_state_vec wb b (e_block1 e) st' = Ok st'')).
Proof.
  intros Hpr Hcode Hb1 Hb2 Hfresh Hpg.
  destruct (new_proc_total wb off _ _ _ st pg Hb1 Hb2 Hpg) as (st1 & Hst1 & _).
  destruct (new_proc_inv _ _ _ _ _ _ _ _ Hst1)
    as (_ & _ & _ & Hr & Hb & _ & _ & _ & _ & Hprocs & _).
  assert (Hne : e_block1 e ≠ proc) by (intros E; congruence).
  unfold handle_upcall. ok_deref Hpr. rewrite Hcode. unfold spawn_proc.
  rewrite Hst1. simpl. rewrite Hprocs.
  assert (Hpr1 : <[e_block1 e := fresh_proc (e_block2 e) (arg pr 1)
            (frame_top wb off (e_block2 e) - (3 + Z.of_nat n_callee_saves) * wb)]>
            (procs st) !! proc = Some pr) by (by rewrite lookup_insert_ne).
  ok_deref Hpr1.
  eexists _, _. split; [reflexivity|]. simpl.
  split; [by rewrite lookup_insert_eq|].
  split; [by rewrite lookup_insert_ne, lookup_insert_eq by done|].
  split; [done|]. split; [done|]. split; [done|]. split; [done|].
  intros Hinv.
  match goal with |- ¬ registered ?s _ ∧ _ => set (st' := s) end.
  assert (Hinv1 : sched_inv st1 ∧ ¬ registered st1 (e_block1 e)).
  { eapply (sched_inv_fresh_proc st); eauto. }
  destruct Hinv1 as (Hinv1 & Hnr1).
  assert (Hinv' : sched_inv st' ∧ ∀ s j q, live_slot st' s j q ↔ live_slot st1 s j q).
  { assert (Hl : ∀ s j q, live_slot st' s j q ↔ live_slot st1 s j q).
    { intros s j q. unfold live_slot. by destruct s. }
    split; [|done].
    apply (sched_inv_transfer st1); [done| |by intros; apply Hl|].
    - intros s. replace (state_vec st' s) with (state_vec st1 s) by (by destruct s).
      by apply sched_inv_vec.
    - intros q prq _ Hq. unfold st'. simpl. rewrite Hprocs in Hq.
      destruct (decide (proc = q)) as [<-|Hq'].
      + rewrite lookup_insert_eq. eexists. split; [done|].
        rewrite Hpr1 in Hq. by simplify_eq.
      + rewrite lookup_insert_ne by done. eauto. }
  destruct Hinv' as (Hinv' & Hl').
  assert (Hnr' : ¬ registered st' (e_block1 e)).
  { intros (s & j & Hl). apply Hnr1. exists s, j. by apply Hl'. }
  assert (Hnew : procs st' !! e_block1 e
                 = Some (fresh_proc (e_block2 e) (arg pr 1)
                      (frame_top wb off (e_block2 e) - (3 + Z.of_nat n_callee_saves) * wb))).
  { unfold st'. simpl. by rewrite lookup_insert_ne, lookup_insert_eq by done. }
  split; [done|]. split.
  - intros b st'' Hst''.
    destruct (add_proc_to_state_vec_inv _ _ _ _ _ Hinv' Hnr' Hb1 Hst'')
      as (_ & (pn' & Hpn' & Hlive) & _ & _ & Hheap & _).
    exists pn'. split; [done|].
    destruct (heap_mod_idx_Some _ _ (e_block1 e) _ Hheap Hnew) as (b' & Hb' & Hsame).
    assert (b' = pn') as -> by congruence.
    destruct (same_but_idx_fields _ _ Hsame) as (Hstate & _). simpl in Hstate.
    by rewrite <- Hstate in Hlive.
  - intros Hroom b.
    apply (add_proc_to_state_vec_total wb b (e_block1 e) _ st' Hinv' Hnew).
    simpl. unfold st'. simpl. by rewrite Hr.
Qed.

Lemma spawn_upcall_spec_witness :
  ∃ st', handle_upcall 4 20 ex_env 16 ex_spawn = Ok st'
    ∧ mem st' !! 400%Z = Some 4096%Z
    ∧ running_procs st' = running_procs ex_spawn.
Proof.
  destruct (spawn_upcall_spec 4 20 ex_env 16 ex_spawn
              (mk_proc 1024 80 0 proc_state_calling_c 0 0 upcall_code_spawn
                 [400; 80; 0; 0; 0; 0; 0; 0]%Z) (mk_prog 11 22 33))
    as (st' & pn & Hst' & Hm & _ & _ & _ & Hr & _);
    [reflexivity|reflexivity|simpl; unfold null; lia|simpl; unfold null; lia
    |reflexivity|reflexivity|].
  exists st'. split; [exact Hst'|]. split; [exact Hm|exact Hr].
Defined.


(** ** The invariant along the driver loop *)

Lemma sched_inv_update (st : rt_state) (p : ptr) (pr pr' : rust_proc) :
  sched_inv st → procs st !! p = Some pr →
  idx pr' = idx pr → get_state_vec (state pr') = get_state_vec (state pr) →
  sched_inv (set_procs st (<[p := pr']> (procs st))).
Proof.
  intros Hinv Hp Hi Hc.
  apply (sched_inv_transfer st); [done| | |].
  - intros sl. rewrite state_vec_set_procs. by apply sched_inv_vec.
  - intros sl j q. unfold live_slot. by rewrite state_vec_set_procs.
  - intros q prq _ Hq. simpl. destruct (decide (p = q)) as [<-|Hne].
    + rewrite lookup_insert_eq. eexists; split; [done|]. by simplify_eq.
    + rewrite lookup_insert_ne by done. eauto.
Qed.

Lemma sched_part_eq (st st' : rt_state) :
  running_procs st' = running_procs st → blocked_procs st' = blocked_procs st →
  ∀ s j q, live_slot st' s j q ↔ live_slot st s j q.
Proof. intros Hr Hb [] j q; unfold live_slot; simpl; by rewrite ?Hr, ?Hb. Qed.

Lemma chan_vec_swapdel_sched (port chan : ptr) (st st' : rt_state) :
  chan_vec_swapdel port chan st = Ok st' →
  running_procs st' = running_procs st ∧ blocked_procs st' = blocked_procs st
  ∧ procs st' = procs st ∧ mem st' = mem st.
Proof.
  intros H. unfold chan_vec_swapdel in H. inv_res H. simpl in H.
  case_bool_decide.
  - inv_res H. by injection H as <-.
  - by injection H as <-.
Qed.

Lemma upcall_send_inv (wb : Z) (o : bufs) (src chan : ptr) (st st' : rt_state) :
  sched_inv st → upcall_send wb o src chan st = Ok st' →
  sched_inv st' ∧ (∀ q, registered st q → registered st' q).
Proof.
  intros Hinv H. unfold upcall_send in H.
  apply bind_Ok in H as (u1 & _ & H).
  apply bind_Ok in H as (c & Hc & H). apply bind_Ok in H as (u2 & _ & H).
  apply bind_Ok in H as (pt & Hpt & H).
  set (st1 := set_chans st (<[chan:=set_chan_proc c src]> (chans st))) in *.
  assert (Hinv1 : sched_inv st1) by (by apply (sched_inv_same_sched st)).
  case_bool_decide; [|by injection H as <-].
  apply bind_Ok in H as (st2 & Ht & H).
  apply bind_Ok in H as (pt2 & Hpt2 & H).
  apply bind_Ok in H as ([ok st3] & Hr & H).
  destruct (proc_state_transition_inv _ _ _ _ _ _ _ Hinv1 Ht) as (Hinv2 & _ & _ & Hreg2 & _).
  destruct (attempt_rendezvous_inv _ _ _ _ _ _ _ Hinv2 Hr) as (Hinv3 & Hreg3 & _).
  assert (Hreg : ∀ q, registered st q → registered st3 q).
  { intros q Hq. apply Hreg3, Hreg2. exact Hq. }
  destruct ok; [by injection H as <-|].
  apply bind_Ok in H as (c3 & Hc3 & H).
  destruct (queued c3); [by injection H as <-|].
  apply bind_Ok in H as (pt3 & Hpt3 & H). apply bind_Ok in H as (w & Hw & H).
  injection H as <-. split; [by apply (sched_inv_same_sched st3)|].
  intros q Hq. destruct (Hreg q Hq) as (s & j & Hl). exists s, j.
  by destruct s.
Qed.

Lemma upcall_recv_inv (wb : Z) (o : bufs) (r : nat) (dst port : ptr) (st st' : rt_state) :
  sched_inv st → upcall_recv wb o r dst port st = Ok st' →
  sched_inv st' ∧ (∀ q, registered st q → registered st' q).
Proof.
  intros Hinv H. unfold upcall_recv in H.
  apply bind_Ok in H as (u1 & _ & H). apply bind_Ok in H as (pt & Hpt & H).
  apply bind_Ok in H as (u2 & _ & H). apply bind_Ok in H as (u3 & _ & H).
  apply bind_Ok in H as (u4 & _ & H).
  apply bind_Ok in H as (st1 & Ht & H).
  apply bind_Ok in H as (pt1 & Hpt1 & H).
  destruct (proc_state_transition_inv _ _ _ _ _ _ _ Hinv Ht) as (Hinv1 & _ & _ & Hreg1 & _).
  case_bool_decide; [|by injection H as <-].
  apply bind_Ok in H as (schan & Hsc & H). apply bind_Ok in H as (sc & Hsc' & H).
  apply bind_Ok in H as (u5 & _ & H).
  apply bind_Ok in H as ([ok st2] & Hr & H).
  destruct (attempt_rendezvous_inv _ _ _ _ _ _ _ Hinv1 Hr) as (Hinv2 & Hreg2 & _).
  assert (Hreg : ∀ q, registered st q → registered st2 q).
  { intros q Hq. apply Hreg2, Hreg1. exact Hq. }
  destruct ok; [|by injection H as <-].
  apply bind_Ok in H as (st3 & Hsd & H).
  apply bind_Ok in H as (pt3 & Hpt3 & H). apply bind_Ok in H as (w & Hw & H).
  apply bind_Ok in H as (sc4 & Hsc4 & H). injection H as <-.
  destruct (chan_vec_swapdel_sched _ _ _ _ Hsd) as (Hr3 & Hb3 & Hp3 & _).
  split.
  - apply (sched_inv_same_sched st2); simpl; done.
  - intros q Hq. destruct (Hreg q Hq) as (s & j & Hl). exists s, j.
    apply (sched_part_eq st2); simpl; done.
Qed.

Lemma del_proc_sched (p : ptr) (st st' : rt_state) :
  del_proc p st = Ok st' →
  running_procs st' = running_procs st ∧ blocked_procs st' = blocked_procs st
  ∧ procs st' = delete p (procs st).
Proof.
  intros H. unfold del_proc, del_stk in H. inv_res H.
  injection H as <-. apply bind_Ok in H2 as (h & _ & H2). by injection H2 as <-.
Qed.

Lemma exit_proc_inv (wb : Z) (b : block) (p : ptr) (st st' : rt_state) :
  sched_inv st → exit_proc wb b p st = Ok st' → sched_inv st'.
Proof.
  intros Hinv H. unfold exit_proc in H.
  apply bind_Ok in H as (u1 & _ & H). apply bind_Ok in H as (u2 & _ & H).
  apply bind_Ok in H as (sel & _ & H).
  apply bind_Ok in H as (st1 & Hsd & H). apply bind_Ok in H as (st2 & Hdel & H).
  apply bind_Ok in H as (v' & Htrim & H). injection H as <-.
  destruct (proc_vec_swapdel_inv _ _ _ _ Hinv Hsd) as (Hinv1 & Hnr1 & _).
  destruct (del_proc_sched _ _ _ Hdel) as (Hr & Hb & Hp).
  assert (Hinv2 : sched_inv st2).
  { apply (sched_inv_same_sched (set_procs st1 (delete p (procs st1)))); [|done..].
    eapply proj1, (sched_inv_set_procs_unregistered st1 p); [done|done|].
    intros q Hq. by rewrite lookup_delete_ne. }
  by rewrite (sched_inv_trim _ _ _ _ _ _ Hinv2 Htrim).
Qed.

(** What [free] can have done when it returns. *)
Lemma upcall_free_Ok (p : ptr) (st st' : rt_state) :
  upcall_free p st = Ok st' →
  st' = st
  ∨ st' = set_blocks st (blocks st ∖ {[p]})
  ∨ st' = set_procs st (delete p (procs st))
  ∨ st' = set_stks st (delete p (stks st))
  ∨ st' = set_ports st (delete p (ports st))
  ∨ st' = set_chans st (delete p (chans st)).
Proof.
  unfold upcall_free. intros H.
  repeat (case_bool_decide; [injection H as <-; tauto|]). discriminate.
Qed.

Lemma upcall_free_sched (p : ptr) (st st' : rt_state) :
  upcall_free p st = Ok st' →
  running_procs st' = running_procs st ∧ blocked_procs st' = blocked_procs st
  ∧ mem st' = mem st ∧ progs st' = progs st
  ∧ ∀ q, q ≠ p → procs st' !! q = procs st !! q.
Proof.
  intros H. destruct (upcall_free_Ok _ _ _ H) as [-> | [-> | [-> | [-> | [-> | ->]]]]];
    simpl; repeat split; try done.
  intros q Hq. by rewrite lookup_delete_ne.
Qed.

Lemma upcall_free_inv (p : ptr) (st st' : rt_state) :
  sched_inv st → ¬ registered st p → upcall_free p st = Ok st' → sched_inv st'.
Proof.
  intros Hinv Hnr H. destruct (upcall_free_sched _ _ _ H) as (Hr & Hb & _ & _ & Hp).
  apply (sched_inv_same_sched (set_procs st (procs st'))); [|done..].
  by eapply proj1, (sched_inv_set_procs_unregistered st p).
Qed.

Lemma handle_upcall_inv (wb off : Z) (e : env) (proc : ptr) (pr : rust_proc)
    (st st' : rt_state) :
  sched_inv st → procs st !! proc = Some pr →
  get_state_vec (state pr) = sel_running →
  (upcall_code pr = upcall_code_spawn → procs st !! e_block1 e = None) →
  (upcall_code pr = upcall_code_sched →
     arg pr 0 ≠ null ∧ ¬ registered st (arg pr 0)) →
  (upcall_code pr = upcall_code_free → ¬ registered st (arg pr 0)) →
  handle_upcall wb off e proc st = Ok st' →
  sched_inv st'.
Proof.
  intros Hinv Hpr Hcls Hspawn Hsched Hfree H. unfold handle_upcall in H.
  apply bind_Ok in H as (pr0 & Hpr0 & H). apply deref_Ok in Hpr0.
  assert (pr0 = pr) as -> by congruence.
  apply bind_Ok in H as (st1 & Hcase & H).
  apply bind_Ok in H as (pr1 & Hpr1 & H). apply deref_Ok in Hpr1.
  injection H as <-.
  assert (Hinv1 : sched_inv st1).
  { destruct (upcall_code pr) eqn:Hcode.
    - by injection Hcase as <-.
    - by injection Hcase as <-.
    - apply bind_Ok in Hcase as ([p st2] & Hnew & Hcase). injection Hcase as <-.
      unfold spawn_proc in Hnew.
      destruct (new_proc_inv _ _ _ _ _ _ _ _ Hnew)
        as (-> & _ & _ & Hr & Hb & _ & _ & _ & _ & Hprocs & _).
      apply (sched_inv_same_sched st2); [|done..].
      eapply proj1, (sched_inv_fresh_proc st); eauto.
    - unfold upcall_check_expr in Hcase. case_bool_decide; [|by injection Hcase as <-].
      apply bind_Ok in Hcase as (pr2 & Hpr2 & Hcase). apply deref_Ok in Hpr2.
      assert (pr2 = pr) as -> by congruence.
      injection Hcase as <-. eapply sched_inv_update; [done|exact Hpr|done|].
      simpl. congruence.
    - unfold upcall_malloc in Hcase.
      apply bind_Ok in Hcase as ([p st2] & Hm & Hcase). injection Hcase as <-.
      apply bind_Ok in Hm as (p' & _ & Hm). injection Hm as <- <-.
      by apply (sched_inv_same_sched st).
    - eapply upcall_free_inv; [done| |exact Hcase]. by apply Hfree.
    - unfold upcall_new_port in Hcase.
      apply bind_Ok in Hcase as ([p st2] & Hnew & Hcase). injection Hcase as <-.
      apply bind_Ok in Hnew as (port & _ & Hnew).
      apply bind_Ok in Hnew as (w & _ & Hnew). injection Hnew as <- <-.
      by apply (sched_inv_same_sched st).
    - unfold upcall_del_port in Hcase. inv_res Hcase. injection Hcase as <-.
      by apply (sched_inv_same_sched st).
    - unfold upcall_new_chan in Hcase.
      apply bind_Ok in Hcase as ([p st2] & Hnew & Hcase). injection Hcase as <-.
      apply bind_Ok in Hnew as (u & _ & Hnew).
      apply bind_Ok in Hnew as (chan & _ & Hnew).
      apply bind_Ok in Hnew as (w & _ & Hnew). injection Hnew as <- <-.
      by apply (sched_inv_same_sched st).
    - unfold upcall_del_chan in Hcase. inv_res Hcase. injection Hcase as <-.
      by apply (sched_inv_same_sched st).
    - by destruct (upcall_send_inv _ _ _ _ _ _ Hinv Hcase).
    - by destruct (upcall_recv_inv _ _ _ _ _ _ _ Hinv Hcase).
    - destruct (Hsched eq_refl) as (Hnn & Hnr).
      by destruct (add_proc_to_state_vec_inv _ _ _ _ _ Hinv Hnr Hnn Hcase). }
  by eapply sched_inv_update.
Qed.

Lemma sched_live (r : nat) (st : rt_state) (p : ptr) :
  sched r st = Ok p → ∃ i, live_slot st sel_running i p.
Proof.
  unfold sched. intros H. apply bind_Ok in H as (u & _ & H).
  case_bool_decide as Hpos; [|discriminate].
  apply vec_get_Ok in H. exists (r mod init (running_procs st)).
  split; [|done]. apply Nat.mod_upper_bound. simpl. lia.
Qed.

Lemma loop_body_inv (wb off : Z) (y : yield) (e : env) (p : ptr) (st : rt_state)
    (r : option ptr) (st' : rt_state) :
  sched_inv st → (∃ i, live_slot st sel_running i p) → disciplined y e st →
  loop_body wb off y e p st = Ok (r, st') →
  sched_inv st' ∧ ∀ q, r = Some q → ∃ i, live_slot st' sel_running i q.
Proof.
  intros Hinv (i & Hl) Hd H. pose proof Hinv as (_ & _ & Hs).
  destruct (Hs _ _ _ Hl) as (Hnn & pr0 & Hpr0 & Hidx & Hcls).
  unfold loop_body in H.
  apply bind_Ok in H as (pr & Hpr & H). apply deref_Ok in Hpr.
  assert (pr0 = pr) as -> by congruence.
  set (st0 := set_procs st (<[p:=set_state pr proc_state_running]> (procs st))) in *.
  assert (Hinv0 : sched_inv st0).
  { eapply sched_inv_update; [done|done|done|]. simpl. congruence. }
  assert (Hl0 : ∀ s j q, live_slot st0 s j q ↔ live_slot st s j q).
  { by apply sched_part_eq. }
  apply bind_Ok in H as (st1 & Hglue & H).
  unfold c_to_proc_glue in Hglue.
  apply bind_Ok in Hglue as (pra & Hpra & Hglue). apply deref_Ok in Hpra.
  simpl in Hpra. rewrite lookup_insert_eq in Hpra. injection Hpra as <-.
  injection Hglue as <-.
  apply bind_Ok in H as (pr1 & Hpr1 & H). apply deref_Ok in Hpr1.
  simpl in Hpr1. rewrite lookup_insert_eq in Hpr1. injection Hpr1 as <-.
  apply bind_Ok in H as (st2 & Hsw & H). simpl in Hsw.
  match type of Hsw with context [set_mem ?s (y_mem y)] => set (stg := set_mem s (y_mem y)) in * end.
  assert (Hinvg : get_state_vec (y_state y) = sel_running → sched_inv stg).
  { intros Hy. apply (sched_inv_same_sched
      (set_procs st0 (<[p := mk_proc (stk pr) (prog pr) (y_sp y) (y_state y) (idx pr)
         (refcnt pr) (y_code y) (resize PROC_MAX_UPCALL_ARGS 0%Z (y_args y))]> (procs st0))));
      [|done..].
    eapply (sched_inv_update st0 p (set_state pr proc_state_running));
      [done| |done|exact Hy].
    unfold st0. simpl. by rewrite lookup_insert_eq. }
  assert (Hinv2 : sched_inv st2).
  { destruct (y_state y) eqn:Hy; try discriminate Hsw.
    - injection Hsw as <-. by apply Hinvg.
    - apply bind_Ok in Hsw as (st3 & Hup & Hsw).
      apply bind_Ok in Hsw as (pr3 & Hpr3 & Hsw). apply deref_Ok in Hpr3.
      assert (Hinv3 : sched_inv st3).
      { destruct (Hd Hy) as (Hsp & Hsc & Hfr).
        eapply (handle_upcall_inv wb off e p _ stg); [by apply Hinvg| | | | | |exact Hup].
        - simpl. rewrite insert_insert_eq. apply lookup_insert_eq.
        - done.
        - simpl. intros Hc. rewrite insert_insert_eq.
          rewrite lookup_insert_ne; [by apply Hsp|].
          intros E. specialize (Hsp Hc). rewrite <- E in Hsp. congruence.
        - simpl. intros Hc. destruct (Hsc Hc) as (Ha & Hr). split; [done|].
          intros (s & j & Hq). apply Hr. by exists s, j.
        - simpl. intros Hc (s & j & Hq). apply (Hfr Hc). by exists s, j. }
      destruct (bool_decide (state pr3 = proc_state_calling_c)) eqn:Hc3;
        [apply bool_decide_eq_true in Hc3|by injection Hsw as <-].
      injection Hsw as <-. eapply sched_inv_update; [done|exact Hpr3|done|].
      simpl. by rewrite Hc3.
    - eapply exit_proc_inv; [|exact Hsw]. by apply Hinvg. }
  split.
  - case_bool_decide; [|by injection H as _ <-].
    apply bind_Ok in H as (q & _ & H). by injection H as _ <-.
  - intros q ->. case_bool_decide; [|discriminate H].
    apply bind_Ok in H as (q' & Hq' & H). injection H as <- <-.
    by eapply sched_live.
Qed.

Lemma new_rt_inv (wb : Z) (m : ptr) (b1 b2 : block) (pg : gmap Z rust_prog)
    (m0 : gmap Z Z) (st : rt_state) :
  (1 < wb)%Z → new_rt wb m b1 b2 pg m0 = Ok st →
  sched_inv st ∧ procs st = ∅ ∧ n_live_procs st = 0.
Proof.
  unfold new_rt. intros Hwb H. apply bind_Ok in H as (x & _ & H).
  apply bind_Ok in H as (r & Hr & H). apply bind_Ok in H as (bl & Hbl & H).
  injection H as <-.
  destruct (init_ptr_vec_inv _ _ _ Hwb Hr) as (Hvr & Hir).
  destruct (init_ptr_vec_inv _ _ _ Hwb Hbl) as (Hvb & Hib).
  split; [|split; [done|unfold n_live_procs; simpl; lia]].
  split; [done|]. split; [done|].
  intros [] i p [Hi _]; simpl in Hi; lia.
Qed.

Lemma rust_start_init_inv (wb off : Z) (m_rt : ptr) (e : env) (pgm : ptr)
    (pg : gmap Z rust_prog) (m0 : gmap Z Z) (p : ptr) (st : rt_state) :
  (1 < wb)%Z → rust_start_init wb off m_rt e pgm pg m0 = Ok (p, st) →
  sched_inv st ∧ ∃ i, live_slot st sel_running i p.
Proof.
  unfold rust_start_init. intros Hwb H.
  apply bind_Ok in H as (pg0 & _ & H).
  apply bind_Ok in H as (st0 & Hrt & H).
  apply bind_Ok in H as ([q st1] & Hnew & H).
  apply bind_Ok in H as (st2 & Hadd & H).
  apply bind_Ok in H as (p' & Hsch & H). injection H as <- <-.
  destruct (new_rt_inv _ _ _ _ _ _ _ Hwb Hrt) as (Hinv0 & Hempty & _).
  unfold spawn_proc in Hnew.
  destruct (new_proc_inv _ _ _ _ _ _ _ _ Hnew)
    as (-> & Hnn & _ & Hr & Hb & _ & _ & _ & _ & Hprocs & _).
  destruct (sched_inv_fresh_proc st0 st1 (e_block1 e) _ Hinv0
              ltac:(by rewrite Hempty) Hr Hb Hprocs) as (Hinv1 & Hnr1).
  destruct (add_proc_to_state_vec_inv _ _ _ _ _ Hinv1 Hnr1 Hnn Hadd) as (Hinv2 & _).
  split; [done|]. by eapply sched_live.
Qed.

Lemma loop_reach_inv (wb off : Z) (r : option ptr) (st : rt_state) :
  (1 < wb)%Z → loop_reach wb off disciplined r st →
  sched_inv st ∧ ∀ q, r = Some q → ∃ i, live_slot st sel_running i q.
Proof.
  intros Hwb.
  induction 1 as [m_rt e pgm pg m0 p st H|y e p st r st' _ IH Hd H].
  - destruct (rust_start_init_inv _ _ _ _ _ _ _ _ _ Hwb H) as (Hinv & Hl).
    split; [done|]. by intros q [= <-].
  - destruct IH as (Hinv & Hl). eapply loop_body_inv; eauto.
Qed.

Lemma run_rounds_reach (wb off : Z) (ys : list (yield * env)) (p : ptr) (st : rt_state)
    (r : option ptr) (st' : rt_state) :
  loop_reach wb off undisciplined (Some p) st →
  run_rounds wb off ys p st = Ok (r, st') →
  loop_reach wb off undisciplined r st'.
Proof.
  revert p st. induction ys as [|[y e] ys IH]; intros p st Hreach H; simpl in H.
  - by injection H as <- <-.
  - apply bind_Ok in H as ([r1 st1] & Hbody & H).
    assert (Hr1 : loop_reach wb off undisciplined r1 st1).
    { eapply reach_step; [exact Hreach|done|exact Hbody]. }
    destruct r1 as [p1|].
    + by eapply IH.
    + destruct ys; [|discriminate H]. by injection H as <- <-.
Qed.


(** ** Send and receive through the driver loop *)

Lemma loop_body_glue (wb off : Z) (y : yield) (e : env) (p : ptr) (st : rt_state)
    (r : option ptr) (st' : rt_state) :
  loop_body wb off y e p st = Ok (r, st') → y_state y = proc_state_calling_c →
  ∃ pr st1 pr1,
    procs st !! p = Some pr
    ∧ handle_upcall wb off e p (glued y p pr st) = Ok st1
    ∧ procs st1 !! p = Some pr1
    ∧ mem st' = mem st1
    ∧ procs st' = <[p := if bool_decide (state pr1 = proc_state_calling_c)
                         then set_state pr1 proc_state_running else pr1]> (procs st1).
Proof.
  intros H Hy. unfold loop_body in H.
  apply bind_Ok in H as (pr & Hpr & H). apply deref_Ok in Hpr.
  apply bind_Ok in H as (st1 & Hglue & H).
  unfold c_to_proc_glue in Hglue.
  apply bind_Ok in Hglue as (pra & Hpra & Hglue). apply deref_Ok in Hpra.
  simpl in Hpra. rewrite lookup_insert_eq in Hpra. injection Hpra as <-.
  injection Hglue as <-.
  apply bind_Ok in H as (pr1 & Hpr1 & H). apply deref_Ok in Hpr1.
  simpl in Hpr1. rewrite lookup_insert_eq in Hpr1. injection Hpr1 as <-.
  apply bind_Ok in H as (st2 & Hsw & H). simpl in Hsw. rewrite Hy in Hsw.
  rewrite insert_insert_eq in Hsw.
  apply bind_Ok in Hsw as (st3 & Hup & Hsw).
  apply bind_Ok in Hsw as (pr3 & Hpr3 & Hsw). apply deref_Ok in Hpr3.
  exists pr, st3, pr3. split; [done|].
  split; [unfold glued; rewrite Hy; exact Hup|]. split; [done|].
  assert (Hst2 : mem st2 = mem st3
            ∧ procs st2 = <[p := if bool_decide (state pr3 = proc_state_calling_c)
                         then set_state pr3 proc_state_running else pr3]> (procs st3)).
  { destruct (bool_decide (state pr3 = proc_state_calling_c)); injection Hsw as <-.
    - done.
    - split; [done|]. by rewrite insert_id. }
  destruct (bool_decide (0 < n_live_procs st2)).
  - apply bind_Ok in H as (q & _ & H). injection H as _ <-. done.
  - injection H as _ <-. done.
Qed.

Lemma handle_upcall_send (wb off : Z) (e : env) (p : ptr) (pr : rust_proc)
    (st st1 : rt_state) :
  procs st !! p = Some pr → upcall_code pr = upcall_code_send →
  handle_upcall wb off e p st = Ok st1 →
  ∃ st2 pr2, upcall_send wb (e_bufs e) p (arg pr 0) st = Ok st2
    ∧ procs st2 !! p = Some pr2
    ∧ mem st1 = mem st2
    ∧ procs st1 = <[p := set_upcall_code pr2 upcall_code_log_uint32]> (procs st2).
Proof.
  intros Hpr Hcode H. unfold handle_upcall in H.
  apply bind_Ok in H as (pr0 & Hpr0 & H). apply deref_Ok in Hpr0.
  assert (pr0 = pr) as -> by congruence. rewrite Hcode in H.
  apply bind_Ok in H as (st2 & Hs & H).
  apply bind_Ok in H as (pr2 & Hpr2 & H). apply deref_Ok in Hpr2.
  injection H as <-. by exists st2, pr2.
Qed.

Lemma handle_upcall_recv (wb off : Z) (e : env) (p : ptr) (pr : rust_proc)
    (st st1 : rt_state) :
  procs st !! p = Some pr → upcall_code pr = upcall_code_recv →
  handle_upcall wb off e p st = Ok st1 →
  ∃ st2 pr2, upcall_recv wb (e_bufs e) (e_rand_recv e) p (arg pr 1) st = Ok st2
    ∧ procs st2 !! p = Some pr2
    ∧ mem st1 = mem st2
    ∧ procs st1 = <[p := set_upcall_code pr2 upcall_code_log_uint32]> (procs st2).
Proof.
  intros Hpr Hcode H. unfold handle_upcall in H.
  apply bind_Ok in H as (pr0 & Hpr0 & H). apply deref_Ok in Hpr0.
  assert (pr0 = pr) as -> by congruence. rewrite Hcode in H.
  apply bind_Ok in H as (st2 & Hs & H).
  apply bind_Ok in H as (pr2 & Hpr2 & H). apply deref_Ok in Hpr2.
  injection H as <-. by exists st2, pr2.
Qed.

Lemma same_but_idx_sym (a b : rust_proc) : same_but_idx a b → same_but_idx b a.
Proof. unfold same_but_idx. congruence. Qed.

Lemma same_but_idx_arg (a b : rust_proc) (k : nat) : same_but_idx a b → arg a k = arg b k.
Proof.
  intros H. destruct (same_but_idx_fields _ _ H) as (_ & Ha & _).
  unfold arg. by rewrite Ha.
Qed.

Lemma same_but_idx_state (a b : rust_proc) : same_but_idx a b → state a = state b.
Proof. intros H. by destruct (same_but_idx_fields _ _ H) as (? & _). Qed.

Lemma same_but_idx_set_state2 (a b : rust_proc) (s s' : proc_state_t) :
  same_but_idx (set_state a s) b → same_but_idx (set_state a s') (set_state b s').
Proof.
  destruct a, b. unfold same_but_idx, set_idx, set_state; simpl. congruence.
Qed.

(** The record of [q] in [h'] when [h'] equals [<[k:=a]> h] up to [idx]. *)
Lemma heap_mod_idx_at (h h' : gmap Z rust_proc) (k q : ptr) (a : rust_proc) :
  heap_mod_idx (<[k := a]> h) h' →
  (q = k → ∃ b, h' !! q = Some b ∧ same_but_idx a b)
  ∧ (q ≠ k → option_Forall2 same_but_idx (h !! q) (h' !! q)).
Proof.
  intros H. specialize (H q). split.
  - intros ->. rewrite lookup_insert_eq in H. inversion H; subst. eauto.
  - intros Hne. by rewrite lookup_insert_ne in H.
Qed.

Lemma glued_inv (y : yield) (p : ptr) (pr : rust_proc) (st : rt_state) :
  sched_inv st → procs st !! p = Some pr →
  get_state_vec (state pr) = sel_running → get_state_vec (y_state y) = sel_running →
  sched_inv (glued y p pr st).
Proof.
  intros Hinv Hpr Hc Hy. unfold glued.
  eapply (sched_inv_same_sched (set_procs st _)); [|done..].
  eapply sched_inv_update; [done|exact Hpr|done|]. simpl. congruence.
Qed.

Lemma upcall_send_effect (wb : Z) (o : bufs) (src chan : ptr) (g g' : rt_state) :
  sched_inv g → upcall_send wb o src chan g = Ok g' →
  ∃ c pt, chans g !! chan = Some c ∧ ports g !! chan_port c = Some pt
    ∧ ((port_proc pt = null ∧ procs g' = procs g ∧ mem g' = mem g)
       ∨ ∃ ps, procs g !! src = Some ps ∧ port_proc pt ≠ null
           ∧ ((∃ pd, port_proc pt ≠ src ∧ procs g !! port_proc pt = Some pd
                 ∧ state pd = proc_state_blocked_reading
                 ∧ mem g' = <[arg pd 0 := arg ps 1]> (mem g)
                 ∧ heap_mod_idx (<[port_proc pt := set_state pd proc_state_running]>
                                   (<[src := set_state ps proc_state_running]> (procs g)))
                                (procs g'))
              ∨ (mem g' = mem g
                 ∧ heap_mod_idx
                     (<[src := set_state ps proc_state_blocked_writing]> (procs g))
                     (procs g')))).
Proof.
  intros Hinv H. unfold upcall_send in H.
  apply bind_Ok in H as (u1 & _ & H).
  apply bind_Ok in H as (c & Hc & H). apply deref_Ok in Hc.
  apply bind_Ok in H as (u2 & _ & H).
  apply bind_Ok in H as (pt & Hpt & H). apply deref_Ok in Hpt. simpl in Hpt.
  set (g1 := set_chans g (<[chan:=set_chan_proc c src]> (chans g))) in *.
  assert (Hinv1 : sched_inv g1) by (by apply (sched_inv_same_sched g)).
  exists c, pt. split; [done|]. split; [done|].
  destruct (bool_decide (port_proc pt ≠ null)) eqn:Hown;
    [apply bool_decide_eq_true in Hown|apply bool_decide_eq_false in Hown].
  2: { injection H as <-. left.
       split; [by destruct (decide (port_proc pt = null)); [|tauto]|done]. }
  apply bind_Ok in H as (g2 & Ht & H).
  apply bind_Ok in H as (pt2 & Hpt2 & H). apply deref_Ok in Hpt2.
  apply bind_Ok in H as ([ok g3] & Hr & H).
  destruct (proc_state_transition_inv _ _ _ _ _ _ _ Hinv1 Ht)
    as (Hinv2 & (ps & Hps & _ & _ & Hh2) & _ & _ & Hrest2).
  destruct Hrest2 as (_ & _ & Hports2 & _ & Hmem2 & _). simpl in *.
  assert (pt2 = pt) as -> by congruence.
  destruct (attempt_rendezvous_inv _ _ _ _ _ _ _ Hinv2 Hr)
    as (_ & _ & ps2 & pd2 & Hps2 & Hpd2 & Hfail & Hok).
  destruct (heap_mod_idx_at _ _ src src _ Hh2) as (Hsrc2 & _).
  destruct (Hsrc2 eq_refl) as (b & Hb & Hsb). assert (b = ps2) as -> by congruence.
  right. exists ps. split; [done|]. split; [done|].
  destruct ok.
  - destruct (Hok eq_refl) as (Es & Ed & Hdone). injection H as <-.
    destruct Hdone as (Hm3 & _ & _ & _ & _ & Hh3 & _).
    assert (Hne : port_proc pt ≠ src) by (intros E; rewrite E in *; congruence).
    destruct (heap_mod_idx_at _ _ src (port_proc pt) _ Hh2) as (_ & Hdst2).
    specialize (Hdst2 Hne). rewrite Hpd2 in Hdst2. inversion Hdst2 as [pd ? Hsd Hpd|]; subst.
    symmetry in Hpd. left. exists pd. split; [done|]. split; [done|].
    split; [by rewrite (same_but_idx_state _ _ Hsd)|]. split.
    + rewrite Hm3, Hmem2. f_equal.
      * by rewrite (same_but_idx_arg _ _ 0 Hsd).
      * rewrite <- (same_but_idx_arg _ _ 1 Hsb). done.
    + eapply heap_mod_idx_trans; [|exact Hh3].
      apply heap_mod_idx_insert_both; [|by apply same_but_idx_set_state].
      intros q. destruct (decide (q = src)) as [->|Hq].
      * rewrite !lookup_insert_eq. constructor.
        by apply (same_but_idx_set_state2 _ _ proc_state_blocked_writing).
      * rewrite !lookup_insert_ne by done.
        destruct (heap_mod_idx_at _ _ src q _ Hh2) as (_ & Hq2). by apply Hq2.
  - destruct (Hfail eq_refl) as (-> & _).
    apply bind_Ok in H as (c3 & Hc3 & H).
    destruct (queued c3).
    + injection H as <-. right. split; [done|]. done.
    + apply bind_Ok in H as (pt3 & Hpt3 & H). apply bind_Ok in H as (w & Hw & H).
      injection H as <-. right. split; [done|]. done.
Qed.

Lemma upcall_recv_effect (wb : Z) (o : bufs) (r : nat) (dst port : ptr) (g g' : rt_state) :
  sched_inv g → upcall_recv wb o r dst port g = Ok g' →
  dst ≠ null
  ∧ ∃ pd, procs g !! dst = Some pd
    ∧ ((∃ src ps, src ≠ dst ∧ procs g !! src = Some ps
          ∧ state ps = proc_state_blocked_writing
          ∧ mem g' = <[arg pd 0 := arg ps 1]> (mem g)
          ∧ heap_mod_idx (<[dst := set_state pd proc_state_running]>
                            (<[src := set_state ps proc_state_running]> (procs g)))
                         (procs g'))
       ∨ (mem g' = mem g
          ∧ heap_mod_idx (<[dst := set_state pd proc_state_blocked_reading]> (procs g))
                         (procs g'))).
Proof.
  intros Hinv H. unfold upcall_recv in H.
  apply bind_Ok in H as (u1 & _ & H). apply bind_Ok in H as (pt & Hpt & H).
  apply bind_Ok in H as (u2 & _ & H).
  apply bind_Ok in H as (u3 & Hnn & H). apply assert_Ok, bool_decide_eq_true in Hnn.
  apply bind_Ok in H as (u4 & _ & H).
  apply bind_Ok in H as (g1 & Ht & H).
  apply bind_Ok in H as (pt1 & Hpt1 & H).
  destruct (proc_state_transition_inv _ _ _ _ _ _ _ Hinv Ht)
    as (Hinv1 & (pd & Hpd & _ & _ & Hh1) & _ & _ & Hrest1).
  destruct Hrest1 as (_ & _ & _ & _ & Hmem1 & _).
  split; [done|]. exists pd. split; [done|].
  destruct (bool_decide (0 < init (writers pt1)));
    [|injection H as <-; right; by split].
  apply bind_Ok in H as (schan & Hsc & H). apply bind_Ok in H as (sc & Hsc' & H).
  apply bind_Ok in H as (u5 & _ & H).
  apply bind_Ok in H as ([ok g2] & Hr & H).
  destruct (attempt_rendezvous_inv _ _ _ _ _ _ _ Hinv1 Hr)
    as (_ & _ & ps1 & pd1 & Hps1 & Hpd1 & Hfail & Hok).
  destruct ok.
  2: { destruct (Hfail eq_refl) as (-> & _). injection H as <-. right. by split. }
  destruct (Hok eq_refl) as (Es & Ed & Hdone).
  destruct Hdone as (Hm2 & _ & _ & _ & _ & Hh2 & _).
  apply bind_Ok in H as (g3 & Hsd & H).
  apply bind_Ok in H as (pt3 & Hpt3 & H). apply bind_Ok in H as (w & Hw & H).
  apply bind_Ok in H as (sc4 & Hsc4 & H). injection H as <-.
  destruct (chan_vec_swapdel_sched _ _ _ _ Hsd) as (_ & _ & Hp3 & Hm3).
  simpl. rewrite Hp3, Hm3.
  set (src := chan_proc sc) in *.
  assert (Hne : src ≠ dst) by (intros E; rewrite E in *; congruence).
  destruct (heap_mod_idx_at _ _ dst dst _ Hh1) as (Hd1 & _).
  destruct (Hd1 eq_refl) as (b & Hb & Hsb). assert (b = pd1) as -> by congruence.
  destruct (heap_mod_idx_at _ _ dst src _ Hh1) as (_ & Hs1).
  specialize (Hs1 Hne). rewrite Hps1 in Hs1. inversion Hs1 as [ps ? Hss Hps|]; subst.
  symmetry in Hps. left. exists src, ps. split; [done|]. split; [done|].
  split; [by rewrite (same_but_idx_state _ _ Hss)|]. split.
  - rewrite Hm2, Hmem1. f_equal.
    + rewrite <- (same_but_idx_arg _ _ 0 Hsb). done.
    + by rewrite (same_but_idx_arg _ _ 1 Hss).
  - eapply heap_mod_idx_trans; [|exact Hh2].
    intros q. destruct (decide (q = dst)) as [->|Hqd].
    + rewrite !lookup_insert_eq. constructor.
      by apply (same_but_idx_set_state2 _ _ proc_state_blocked_reading).
    + rewrite !(lookup_insert_ne _ dst) by done.
      destruct (decide (q = src)) as [->|Hqs].
      * rewrite !lookup_insert_eq. constructor. by apply same_but_idx_set_state.
      * rewrite !lookup_insert_ne by done.
        destruct (heap_mod_idx_at _ _ dst q _ Hh1) as (_ & Hq1). by apply Hq1.
Qed.

(** What a round does in which proc [A] sends [v] on [chan]. *)
Lemma round_send (wb off : Z) (chan v : Z) (rest : list Z) (nsp : Z) (m : gmap Z Z)
    (e : env) (A : ptr) (i : nat) (st : rt_state) (r : option ptr) (st1 : rt_state) :
  sched_inv st → live_slot st sel_running i A →
  loop_body wb off (send_yield chan v rest nsp m) e A st = Ok (r, st1) →
  ∃ c pt, chans st !! chan = Some c ∧ ports st !! chan_port c = Some pt
    ∧ (port_proc pt = null
       ∨ (∃ pd, port_proc pt ≠ A ∧ procs st !! port_proc pt = Some pd
            ∧ state pd = proc_state_blocked_reading
            ∧ mem st1 !! arg pd 0 = Some v)
       ∨ (port_proc pt ≠ null
          ∧ (∃ a1, procs st1 !! A = Some a1
               ∧ state a1 = proc_state_blocked_writing ∧ arg a1 1 = v)
          ∧ (∀ q, q ≠ A → option_Forall2 same_but_idx (procs st !! q) (procs st1 !! q)))).
Proof.
  intros Hinv Hl H. pose proof Hinv as (_ & _ & Hs).
  destruct (Hs _ _ _ Hl) as (_ & prA & HprA & _ & Hcls).
  destruct (loop_body_glue _ _ _ _ _ _ _ _ H eq_refl)
    as (pr & s1 & pr1 & Hpr & Hup & Hpr1 & Hmem1 & Hprocs1).
  assert (pr = prA) as -> by congruence.
  set (g := glued (send_yield chan v rest nsp m) A prA st) in *.
  assert (Hinvg : sched_inv g) by (by apply glued_inv).
  assert (Hrec : ∃ recA, procs g !! A = Some recA ∧ upcall_code recA = upcall_code_send
                   ∧ arg recA 0 = chan ∧ arg recA 1 = v).
  { eexists. split; [unfold g, glued; simpl; apply lookup_insert_eq|]. done. }
  destruct Hrec as (recA & HrecA & Hcode & Ha0 & Ha1).
  destruct (handle_upcall_send _ _ _ _ _ _ _ HrecA Hcode Hup)
    as (s2 & pr2 & Hsend & Hpr2 & Hmem2 & Hprocs2).
  rewrite Ha0 in Hsend.
  destruct (upcall_send_effect _ _ _ _ _ _ Hinvg Hsend) as (c & pt & Hc & Hpt & Heff).
  exists c, pt. split; [done|]. split; [done|].
  destruct Heff as [(Hdead & _)|(ps & Hps & Hown & [Hrdv|Hblk])]; [by left|..].
  - assert (ps = recA) as -> by congruence.
    destruct Hrdv as (pd & Hne & Hpd & Hst & Hm & _).
    right. left. exists pd. split; [done|]. split.
    { unfold g, glued in Hpd. simpl in Hpd. by rewrite lookup_insert_ne in Hpd. }
    split; [done|]. rewrite Hmem1, Hmem2, Hm, Ha1. apply lookup_insert_eq.
  - assert (ps = recA) as -> by congruence.
    destruct Hblk as (_ & Hh). right. right. split; [done|].
    destruct (heap_mod_idx_at _ _ A A _ Hh) as (HA & _).
    destruct (HA eq_refl) as (b & Hb & Hsb). assert (b = pr2) as -> by congruence.
    rewrite Hprocs2, lookup_insert_eq in Hpr1. injection Hpr1 as <-.
    assert (Hst2 : state pr2 = proc_state_blocked_writing).
    { by rewrite <- (same_but_idx_state _ _ Hsb). }
    split.
    + rewrite Hprocs1, lookup_insert_eq. simpl. rewrite Hst2. simpl.
      eexists. split; [done|]. simpl. split; [done|].
      rewrite <- Ha1. symmetry. apply (same_but_idx_arg _ _ 1 Hsb).
    + intros q Hq. rewrite Hprocs1, Hprocs2, !lookup_insert_ne by done.
      destruct (heap_mod_idx_at _ _ A q _ Hh) as (_ & Hq2).
      specialize (Hq2 Hq). unfold g, glued in Hq2. simpl in Hq2.
      by rewrite lookup_insert_ne in Hq2.
Qed.

(** What a round does in which proc [B] receives from [port] into [x]. *)
Lemma round_recv (wb off : Z) (x port : Z) (rest : list Z) (nsp : Z) (m : gmap Z Z)
    (e : env) (B : ptr) (i : nat) (st : rt_state) (r : option ptr) (st1 : rt_state) :
  sched_inv st → live_slot st sel_running i B →
  loop_body wb off (recv_yield x port rest nsp m) e B st = Ok (r, st1) →
  B ≠ null
  ∧ (∃ b1, procs st1 !! B = Some b1 ∧ arg b1 0 = x)
  ∧ ((∃ src ps, src ≠ B ∧ procs st !! src = Some ps
        ∧ state ps = proc_state_blocked_writing
        ∧ mem st1 !! x = Some (arg ps 1)
        ∧ (∀ q, q ≠ B → q ≠ src →
             option_Forall2 same_but_idx (procs st !! q) (procs st1 !! q)))
     ∨ (in_state st1 B proc_state_blocked_reading
        ∧ (∀ q, q ≠ B → option_Forall2 same_but_idx (procs st !! q) (procs st1 !! q)))).
Proof.
  intros Hinv Hl H. pose proof Hinv as (_ & _ & Hs).
  destruct (Hs _ _ _ Hl) as (_ & prB & HprB & _ & Hcls).
  destruct (loop_body_glue _ _ _ _ _ _ _ _ H eq_refl)
    as (pr & s1 & pr1 & Hpr & Hup & Hpr1 & Hmem1 & Hprocs1).
  assert (pr = prB) as -> by congruence.
  set (g := glued (recv_yield x port rest nsp m) B prB st) in *.
  assert (Hinvg : sched_inv g) by (by apply glued_inv).
  assert (Hrec : ∃ recB, procs g !! B = Some recB ∧ upcall_code recB = upcall_code_recv
                   ∧ arg recB 0 = x ∧ arg recB 1 = port).
  { eexists. split; [unfold g, glued; simpl; apply lookup_insert_eq|]. done. }
  destruct Hrec as (recB & HrecB & Hcode & Ha0 & Ha1).
  destruct (handle_upcall_recv _ _ _ _ _ _ _ HrecB Hcode Hup)
    as (s2 & pr2 & Hrecv & Hpr2 & Hmem2 & Hprocs2).
  destruct (upcall_recv_effect _ _ _ _ _ _ _ Hinvg Hrecv) as (Hnn & pd & Hpd & Heff).
  assert (pd = recB) as -> by congruence.
  rewrite Hprocs2, lookup_insert_eq in Hpr1. injection Hpr1 as <-.
  split; [done|].
  assert (Hfin : ∀ s, s ≠ proc_state_calling_c → same_but_idx (set_state recB s) pr2 →
            ∃ b1, procs st1 !! B = Some b1 ∧ arg b1 0 = x ∧ state b1 = s).
  { intros s Hs' Hsb. rewrite Hprocs1, lookup_insert_eq. simpl.
    rewrite <- (same_but_idx_state _ _ Hsb). simpl.
    rewrite bool_decide_eq_false_2 by done.
    eexists. split; [done|]. simpl. split; [|by rewrite <- (same_but_idx_state _ _ Hsb)].
    rewrite <- Ha0. symmetry. apply (same_but_idx_arg _ _ 0 Hsb). }
  destruct Heff as [(src & ps & Hne & Hps & Hst & Hm & Hh)|(Hm & Hh)].
  - destruct (heap_mod_idx_at _ _ B B _ Hh) as (HB & _).
    destruct (HB eq_refl) as (b & Hb & Hsb). assert (b = pr2) as -> by congruence.
    destruct (Hfin proc_state_running) as (b1 & Hb1 & Hx & _); [done|done|].
    split; [by eauto|]. left. exists src, ps. split; [done|]. split.
    { unfold g, glued in Hps. simpl in Hps. by rewrite lookup_insert_ne in Hps. }
    split; [done|]. split.
    { rewrite Hmem1, Hmem2, Hm, Ha0. apply lookup_insert_eq. }
    intros q HqB Hqs. rewrite Hprocs1, Hprocs2, !lookup_insert_ne by done.
    specialize (Hh q). rewrite !lookup_insert_ne in Hh by done.
    unfold g, glued in Hh. simpl in Hh. by rewrite lookup_insert_ne in Hh.
  - destruct (heap_mod_idx_at _ _ B B _ Hh) as (HB & _).
    destruct (HB eq_refl) as (b & Hb & Hsb). assert (b = pr2) as -> by congruence.
    destruct (Hfin proc_state_blocked_reading) as (b1 & Hb1 & Hx & Hst); [done|done|].
    split; [by eauto|]. right. split; [by exists b1|].
    intros q Hq. rewrite Hprocs1, Hprocs2, !lookup_insert_ne by done.
    destruct (heap_mod_idx_at _ _ B q _ Hh) as (_ & Hq2).
    specialize (Hq2 Hq). unfold g, glued in Hq2. simpl in Hq2.
    by rewrite lookup_insert_ne in Hq2.
Qed.

Lemma in_state_same (st st' : rt_state) (q : ptr) (s s' : proc_state_t) :
  option_Forall2 same_but_idx (procs st !! q) (procs st' !! q) →
  in_state st q s → in_state st' q s' → s = s'.
Proof.
  intros Hq (a & Ha & <-) (b & Hb & <-). rewrite Ha, Hb in Hq.
  inversion Hq; subst. by apply same_but_idx_state.
Qed.

Lemma disciplined_send (chan v : Z) (rest : list Z) (nsp : Z) (m : gmap Z Z)
    (e : env) (st : rt_state) :
  disciplined (send_yield chan v rest nsp m) e st.
Proof. intros _. split; [|split]; intros Hc; discriminate Hc. Qed.

Lemma disciplined_recv (x port : Z) (rest : list Z) (nsp : Z) (m : gmap Z Z)
    (e : env) (st : rt_state) :
  disciplined (recv_yield x port rest nsp m) e st.
Proof. intros _. split; [|split]; intros Hc; discriminate Hc. Qed.

Lemma ex_pair_inv : sched_inv ex_pair.
Proof.
  split; [|split; [apply ex_vec0_inv|]].
  - apply vec_inv_concrete; simpl; lia.
  - solve_slot_ok.
Qed.


(** *** Rounds that complete a rendezvous *)

Lemma sched_total (r : nat) (st : rt_state) (i : nat) (p : ptr) :
  sched_inv st → live_slot st sel_running i p → ∃ q, sched r st = Ok q.
Proof.
  intros Hinv [Hi _]. simpl in Hi. unfold sched.
  rewrite (bool_decide_eq_true_2 (0 < n_live_procs st)) by (unfold n_live_procs; lia).
  simpl. ok_assert (0 < init (running_procs st)).
  pose proof (proj2 (proj2 (sched_inv_vec st sel_running Hinv))) as Hv. simpl in Hv.
  destruct (vec_ok_lookup _ (r mod init (running_procs st)) Hv) as (q & Hq).
  { pose proof (Nat.mod_upper_bound r (init (running_procs st))). lia. }
  ok_get Hq. eauto.
Qed.

Lemma registered_slot (st : rt_state) (p : ptr) (pr : rust_proc) :
  sched_inv st → registered st p → procs st !! p = Some pr →
  live_slot st (get_state_vec (state pr)) (idx pr) p.
Proof.
  intros (_ & _ & Hs) (s & j & Hl) Hp.
  destruct (Hs _ _ _ Hl) as (_ & pr' & Hp' & <- & <-). by simplify_eq.
Qed.

Lemma option_Forall2_Some_l {A} (R : A → A → Prop) (a : A) (o : option A) :
  option_Forall2 R (Some a) o → ∃ b, o = Some b ∧ R a b.
Proof. intros H. inversion H; subst. eauto. Qed.

(** A send to a proc that waits in a receive completes the rendezvous. *)
Lemma upcall_send_wakes (wb : Z) (o : bufs) (src chan : ptr) (g : rt_state)
    (c : rust_chan) (pt : rust_port) (ps pd : rust_proc) :
  sched_inv g → chan ≠ null → chans g !! chan = Some c → chan_port c ≠ null →
  ports g !! chan_port c = Some pt →
  procs g !! src = Some ps → state ps = proc_state_calling_c →
  live_slot g sel_running (idx ps) src →
  procs g !! port_proc pt = Some pd → state pd = proc_state_blocked_reading →
  live_slot g sel_blocked (idx pd) (port_proc pt) →
  room (blocked_procs g) 1 → room (running_procs g) 1 →
  ∃ g', upcall_send wb o src chan g = Ok g'
    ∧ sched_inv g'
    ∧ mem g' = <[arg pd 0 := arg ps 1]> (mem g)
    ∧ (∃ ps', procs g' !! src = Some ps' ∧ state ps' = proc_state_running
         ∧ live_slot g' sel_running (idx ps') src)
    ∧ in_state g' (port_proc pt) proc_state_running.
Proof.
  intros Hinv Hcn Hc Hpn Hpt Hps Hss Hls Hpd Hsd Hld Hrb Hrr.
  pose proof Hinv as (_ & _ & Hs). destruct (Hs _ _ _ Hld) as (Hdn & _).
  assert (Hne : src ≠ port_proc pt) by (intros E; rewrite <- E in *; congruence).
  unfold upcall_send.
  ok_assert (chan ≠ null). ok_deref Hc. ok_assert (chan_port c ≠ null).
  ok_deref Hpt. ok_assert (port_proc pt ≠ null).
  set (g1 := set_chans g (<[chan:=set_chan_proc c src]> (chans g))).
  assert (Hinv1 : sched_inv g1) by (by apply (sched_inv_same_sched g)).
  destruct (proc_state_transition_total wb (sub 0 o) src ps proc_state_blocked_writing
              g1 Hinv1 Hps) as (g2 & Ht); [by rewrite Hss|by intros _|].
  rewrite Hss in Ht. rewrite Ht. simpl.
  destruct (proc_state_transition_shape _ _ _ _ _ _ _ Hinv1 Ht) as (Hlen2 & _ & Hcnt2).
  destruct Hcnt2 as (Hrun2 & _); [done|]. simpl in Hrun2.
  pose proof (Hlen2 sel_running) as Hlr2. simpl in Hlr2.
  destruct (proc_state_transition_inv _ _ _ _ _ _ _ Hinv1 Ht)
    as (Hinv2 & (ps0 & Hps0 & _ & _ & Hh2) & (ps2 & Hps2 & Hss2 & Hls2) & Hreg2 & Hrest2).
  destruct Hrest2 as (_ & _ & Hports2 & _ & Hmem2 & _).
  assert (Hpt2 : ports g2 !! chan_port c = Some pt) by (by rewrite Hports2).
  ok_deref Hpt2.
  simpl in Hps0. assert (ps0 = ps) as -> by congruence.
  destruct (heap_mod_idx_at _ _ src (port_proc pt) _ Hh2) as (_ & Hd2).
  assert (Hne' : port_proc pt ≠ src) by done.
  specialize (Hd2 Hne'). simpl in Hd2. rewrite Hpd in Hd2.
  apply option_Forall2_Some_l in Hd2 as (pd2 & Hpd2 & Hsd2).
  assert (Hld2 : live_slot g2 sel_blocked (idx pd2) (port_proc pt)).
  { assert (Hr : registered g2 (port_proc pt)).
    { apply Hreg2. by exists sel_blocked, (idx pd). }
    pose proof (registered_slot _ _ _ Hinv2 Hr Hpd2) as Hl.
    by rewrite <- (same_but_idx_state _ _ Hsd2), Hsd in Hl. }
  destruct (attempt_rendezvous_total wb (sub 1 o) src (port_proc pt) g2 ps2 pd2)
    as (g3 & Hr3);
    [done|done|done|done|by rewrite <- (same_but_idx_state _ _ Hsd2)|done|done| |].
  { unfold room in *. lia. }
  rewrite Hr3. simpl.
  destruct (attempt_rendezvous_inv _ _ _ _ _ _ _ Hinv2 Hr3)
    as (Hinv3 & _ & ps2' & pd2' & Hps2' & Hpd2' & _ & Hok).
  simplify_eq. destruct (Hok eq_refl) as (_ & _ & Hdone).
  destruct Hdone as (Hm3 & _ & _ & _ & _ & _ & Hsrc3 & (pd3 & Hpd3 & Hsd3 & _)).
  exists g3. split; [done|]. split; [done|]. split.
  { rewrite Hm3, Hmem2. simpl. f_equal.
    - symmetry. apply (same_but_idx_arg _ _ 0 Hsd2).
    - destruct (heap_mod_idx_at _ _ src src _ Hh2) as (Hsrc2 & _).
      destruct (Hsrc2 eq_refl) as (b & Hb & Hsb). simplify_eq.
      symmetry. apply (same_but_idx_arg _ _ 1 Hsb). }
  split; [done|]. by exists pd3.
Qed.

Lemma handle_upcall_send_total (wb off : Z) (e : env) (p : ptr) (pr : rust_proc)
    (st st2 : rt_state) (pr2 : rust_proc) :
  procs st !! p = Some pr → upcall_code pr = upcall_code_send →
  upcall_send wb (e_bufs e) p (arg pr 0) st = Ok st2 → procs st2 !! p = Some pr2 →
  handle_upcall wb off e p st
  = Ok (set_procs st2 (<[p := set_upcall_code pr2 upcall_code_log_uint32]> (procs st2))).
Proof.
  intros Hpr Hcode Hsend Hpr2. unfold handle_upcall.
  ok_deref Hpr. rewrite Hcode, Hsend. simpl. by ok_deref Hpr2.
Qed.

Lemma handle_upcall_recv_total (wb off : Z) (e : env) (p : ptr) (pr : rust_proc)
    (st st2 : rt_state) (pr2 : rust_proc) :
  procs st !! p = Some pr → upcall_code pr = upcall_code_recv →
  upcall_recv wb (e_bufs e) (e_rand_recv e) p (arg pr 1) st = Ok st2 →
  procs st2 !! p = Some pr2 →
  handle_upcall wb off e p st
  = Ok (set_procs st2 (<[p := set_upcall_code pr2 upcall_code_log_uint32]> (procs st2))).
Proof.
  intros Hpr Hcode Hrecv Hpr2. unfold handle_upcall.
  ok_deref Hpr. rewrite Hcode, Hrecv. simpl. by ok_deref Hpr2.
Qed.

Lemma deref_insert {A} (h : gmap Z A) (p : ptr) (a : A) :
  deref (<[p := a]> h) p = Ok a.
Proof. apply deref_Ok, lookup_insert_eq. Qed.

(** The rest of a round once the dispatcher has left the calling proc
    Running in the running vector. *)
Lemma loop_body_finish (wb off : Z) (y : yield) (e : env) (p : ptr) (pr : rust_proc)
    (st s1 : rt_state) (pr1 : rust_proc) :
  procs st !! p = Some pr → y_state y = proc_state_calling_c →
  handle_upcall wb off e p (glued y p pr st) = Ok s1 →
  sched_inv s1 → procs s1 !! p = Some pr1 → state pr1 = proc_state_running →
  live_slot s1 sel_running (idx pr1) p →
  ∃ q, loop_body wb off y e p st = Ok (Some q, s1).
Proof.
  intros Hpr Hy Hup Hinv1 Hpr1 Hs1 Hl1.
  destruct (sched_total (e_rand_sched e) s1 _ _ Hinv1 Hl1) as (q & Hq).
  exists q. unfold loop_body. ok_deref Hpr. unfold c_to_proc_glue. simpl.
  rewrite deref_insert. simpl. rewrite deref_insert. simpl.
  rewrite insert_insert_eq.
  assert (Hg : ∀ h0,
    set_mem (set_procs (set_procs st h0)
      (<[p := mk_proc (stk pr) (prog pr) (y_sp y) (y_state y) (idx pr) (refcnt pr)
                (y_code y) (resize PROC_MAX_UPCALL_ARGS 0%Z (y_args y))]> (procs st)))
      (y_mem y) = glued y p pr st) by reflexivity.
  rewrite Hg, Hy, Hup. simpl.
  ok_deref Hpr1. rewrite Hs1. simpl.
  rewrite bool_decide_eq_true_2.
  - rewrite Hq. done.
  - unfold n_live_procs. destruct Hl1 as [Hi _]. simpl in Hi. lia.
Qed.

Lemma round_send_wakes (wb off : Z) (chan v : Z) (rest : list Z) (nsp : Z)
    (m : gmap Z Z) (e : env) (A B : ptr) (i : nat) (st : rt_state)
    (c : rust_chan) (pt : rust_port) (prB : rust_proc) :
  sched_inv st → live_slot st sel_running i A →
  chan ≠ null → chans st !! chan = Some c → chan_port c ≠ null →
  ports st !! chan_port c = Some pt → port_proc pt = B →
  procs st !! B = Some prB → state prB = proc_state_blocked_reading →
  live_slot st sel_blocked (idx prB) B →
  room (blocked_procs st) 1 → room (running_procs st) 1 →
  ∃ q st1, loop_body wb off (send_yield chan v rest nsp m) e A st = Ok (Some q, st1)
    ∧ mem st1 !! arg prB 0 = Some v
    ∧ in_state st1 A proc_state_running ∧ in_state st1 B proc_state_running.
Proof.
  intros Hinv Hl Hcn Hc Hpn Hpt Hown HprB HsB HlB Hrb Hrr. subst B.
  pose proof Hinv as (_ & _ & Hs).
  destruct (Hs _ _ _ Hl) as (_ & prA & HprA & HidxA & Hcls).
  assert (Hne : A ≠ port_proc pt) by (intros E; rewrite <- E in *; simplify_eq; by rewrite HsB in Hcls).
  set (y := send_yield chan v rest nsp m).
  set (g := glued y A prA st).
  assert (Hinvg : sched_inv g) by (by apply glued_inv).
  set (recA := mk_proc (stk prA) (prog prA) nsp proc_state_calling_c (idx prA) (refcnt prA)
                 upcall_code_send (resize PROC_MAX_UPCALL_ARGS 0%Z (chan :: v :: rest))).
  assert (HrecA : procs g !! A = Some recA) by (unfold g, glued; simpl; apply lookup_insert_eq).
  assert (HgB : procs g !! port_proc pt = Some prB).
  { unfold g, glued. simpl. by rewrite lookup_insert_ne. }
  destruct (upcall_send_wakes wb (e_bufs e) A chan g c pt recA prB)
    as (g' & Hsend & Hinv' & Hmem & (ps' & Hps' & Hss' & Hls') & (pd' & Hpd' & Hsd'));
    try done.
  { unfold live_slot in *. simpl. by rewrite HidxA. }
  pose proof (handle_upcall_send_total wb off e A recA g g' ps' HrecA eq_refl Hsend Hps')
    as Hup.
  set (s1 := set_procs g' (<[A:=set_upcall_code ps' upcall_code_log_uint32]> (procs g'))) in *.
  assert (Hinv1 : sched_inv s1) by (by eapply sched_inv_update).
  destruct (loop_body_finish wb off y e A prA st s1
              (set_upcall_code ps' upcall_code_log_uint32)) as (q & Hq); try done.
  { unfold s1. simpl. apply lookup_insert_eq. }
  exists q, s1. split; [done|]. split.
  { unfold s1. simpl. rewrite Hmem. apply lookup_insert_eq. }
  split.
  - eexists. split; [unfold s1; simpl; apply lookup_insert_eq|done].
  - exists pd'. split; [|done]. unfold s1. simpl. by rewrite lookup_insert_ne.
Qed.

Lemma chan_vec_swapdel_total (port chan : ptr) (st : rt_state) (pt : rust_port)
    (c : rust_chan) :
  ports st !! port = Some pt → writers_ok st pt → chan ≠ null →
  chans st !! chan = Some c → chan_idx c < init (writers pt) →
  data (writers pt) !! chan_idx c = Some chan →
  ∃ st' pt', chan_vec_swapdel port chan st = Ok st'
    ∧ ports st' !! port = Some pt' ∧ init (writers pt') ≤ init (writers pt)
    ∧ vec_inv (writers pt')
    ∧ is_Some (chans st' !! chan).
Proof.
  intros Hpt (Hv & Hslots) Hnn Hc Hi Hd.
  destruct (ptr_vec_swapdel_total _ _ (proj2 (proj2 Hv)) Hi) as (v' & Hv').
  destruct (ptr_vec_swapdel_spec _ _ _ (proj2 (proj2 Hv)) Hv')
    as (_ & _ & Hinit & _ & _ & Hmoved & _).
  pose proof (ptr_vec_swapdel_inv _ _ _ Hv Hv') as Hvi.
  unfold chan_vec_swapdel. ok_deref Hpt. ok_assert (chan ≠ null). ok_deref Hc.
  ok_get Hd. ok_assert (chan = chan). rewrite Hv'. simpl.
  case_bool_decide as Hpos.
  - specialize (Hmoved Hpos).
    destruct (Hslots (init v')) as (cn & chn & Hcn & _ & Hchn & _); [lia|].
    rewrite <- Hmoved in Hcn. ok_get Hcn. ok_deref Hchn.
    eexists _, _. split; [done|]. simpl. split; [apply lookup_insert_eq|].
    simpl. split; [lia|]. split; [done|].
    destruct (decide (cn = chan)) as [->|Hne].
    + rewrite lookup_insert_eq. eauto.
    + rewrite lookup_insert_ne by done. eauto.
  - eexists _, _. split; [done|]. simpl. split; [apply lookup_insert_eq|].
    simpl. split; [lia|]. split; [done|eauto].
Qed.

(** A receive that picks the channel of a proc blocked in a send completes
    the rendezvous. *)
Lemma upcall_recv_takes (wb : Z) (o : bufs) (r : nat) (dst port : ptr) (g : rt_state)
    (pt : rust_port) (chan : ptr) (c : rust_chan) (ps pd : rust_proc) :
  sched_inv g → port ≠ null → ports g !! port = Some pt → port_proc pt = dst →
  writers_ok g pt → 0 < init (writers pt) →
  data (writers pt) !! (r mod init (writers pt)) = Some chan →
  chans g !! chan = Some c → chan_idx c = r mod init (writers pt) →
  procs g !! chan_proc c = Some ps → state ps = proc_state_blocked_writing →
  live_slot g sel_blocked (idx ps) (chan_proc c) →
  procs g !! dst = Some pd → state pd = proc_state_calling_c →
  live_slot g sel_running (idx pd) dst →
  room (blocked_procs g) 1 → room (running_procs g) 1 →
  ∃ g', upcall_recv wb o r dst port g = Ok g'
    ∧ sched_inv g'
    ∧ mem g' = <[arg pd 0 := arg ps 1]> (mem g)
    ∧ in_state g' (chan_proc c) proc_state_running
    ∧ (∃ pd', procs g' !! dst = Some pd' ∧ state pd' = proc_state_running
         ∧ live_slot g' sel_running (idx pd') dst).
Proof.
  intros Hinv Hportn Hpt Hown Hwok Hpos Hpick Hc Hcidx Hps Hss Hls Hpd Hsd Hld Hrb Hrr.
  subst dst.
  pose proof Hinv as (_ & _ & Hs). destruct (Hs _ _ _ Hld) as (Hdn & _).
  set (src := chan_proc c) in *.
  assert (Hne : src ≠ (port_proc pt)) by (intros E; rewrite E in *; congruence).
  assert (Hi : r mod init (writers pt) < init (writers pt))
    by (apply Nat.mod_upper_bound; lia).
  destruct Hwok as (Hwv & Hslots).
  destruct (Hslots _ Hi) as (cj & chj & Hcj & Hcn & _). assert (cj = chan) as -> by congruence.
  unfold upcall_recv.
  ok_assert (port ≠ null). ok_deref Hpt. ok_assert (port_proc pt ≠ null).
  ok_assert (port_proc pt = port_proc pt).
  destruct (proc_state_transition_total wb (sub 0 o) (port_proc pt) pd
              proc_state_blocked_reading g Hinv Hpd)
    as (g1 & Ht); [by rewrite Hsd|by intros _|].
  rewrite Hsd in Ht. rewrite Ht. simpl.
  destruct (proc_state_transition_shape _ _ _ _ _ _ _ Hinv Ht) as (Hlen1 & _ & Hcnt1).
  destruct Hcnt1 as (Hrun1 & _); [done|]. simpl in Hrun1.
  pose proof (Hlen1 sel_running) as Hlr1. simpl in Hlr1.
  destruct (proc_state_transition_inv _ _ _ _ _ _ _ Hinv Ht)
    as (Hinv1 & (pd0 & Hpd0 & _ & _ & Hh1) & (pd1 & Hpd1 & Hsd1 & Hld1) & Hreg1 & Hrest1).
  assert (pd0 = pd) as -> by congruence.
  destruct Hrest1 as (_ & _ & Hports1 & Hchans1 & Hmem1 & _).
  assert (Hpt1 : ports g1 !! port = Some pt) by (by rewrite Hports1).
  assert (Hc1 : chans g1 !! chan = Some c) by (by rewrite Hchans1).
  ok_deref Hpt1. ok_assert (0 < init (writers pt)). ok_get Hpick. ok_deref Hc1.
  ok_assert (chan_idx c = r mod init (writers pt)). fold src.
  destruct (heap_mod_idx_at _ _ (port_proc pt) src _ Hh1) as (_ & Hs1). specialize (Hs1 Hne).
  rewrite Hps in Hs1. apply option_Forall2_Some_l in Hs1 as (ps1 & Hps1 & Hss1).
  assert (Hls1 : live_slot g1 sel_blocked (idx ps1) src).
  { assert (Hr : registered g1 src) by (apply Hreg1; by exists sel_blocked, (idx ps)).
    pose proof (registered_slot _ _ _ Hinv1 Hr Hps1) as Hl.
    by rewrite <- (same_but_idx_state _ _ Hss1), Hss in Hl. }
  destruct (attempt_rendezvous_total wb (sub 1 o) src (port_proc pt) g1 ps1 pd1)
    as (g2 & Hr2);
    [done|done|done|by rewrite <- (same_but_idx_state _ _ Hss1)|done|done|done| |].
  { unfold room in *. lia. }
  rewrite Hr2. simpl.
  destruct (attempt_rendezvous_inv _ _ _ _ _ _ _ Hinv1 Hr2)
    as (Hinv2 & _ & ps1' & pd1' & Hps1' & Hpd1' & _ & Hok).
  simplify_eq. destruct (Hok eq_refl) as (_ & _ & Hdone).
  destruct Hdone as (Hm2 & _ & _ & Hports2 & Hchans2 & _ & (ps2 & Hps2 & Hss2 & _) & Hdst2).
  assert (Hpt2 : ports g2 !! port = Some pt) by (by rewrite Hports2).
  assert (Hc2 : chans g2 !! chan = Some c) by (by rewrite Hchans2).
  assert (Hwok2 : writers_ok g2 pt).
  { split; [done|]. intros j Hj. rewrite Hchans2, Hchans1. by apply Hslots. }
  destruct (chan_vec_swapdel_total port chan g2 pt c Hpt2 Hwok2 Hcn Hc2)
    as (g3 & pt3 & Hsd3 & Hpt3 & Hinit3 & Hv3 & (c3 & Hc3)); [lia|by rewrite Hcidx|].
  rewrite Hsd3. simpl. ok_deref Hpt3.
  rewrite ptr_vec_trim_spec by done. simpl. ok_deref Hc3.
  destruct (chan_vec_swapdel_sched _ _ _ _ Hsd3) as (Hr3 & Hb3 & Hp3 & Hm3).
  eexists. split; [done|]. split.
  { apply (sched_inv_same_sched g2); simpl; done. }
  split.
  { simpl. rewrite Hm3, Hm2, Hmem1. f_equal.
    - destruct (heap_mod_idx_at _ _ (port_proc pt) (port_proc pt) _ Hh1) as (Hd1 & _).
      destruct (Hd1 eq_refl) as (b & Hb & Hsb). simplify_eq.
      symmetry. apply (same_but_idx_arg _ _ 0 Hsb).
    - symmetry. apply (same_but_idx_arg _ _ 1 Hss1). }
  split.
  { exists ps2. simpl. by rewrite Hp3. }
  destruct Hdst2 as (pd2 & Hpd2 & Hsd2 & Hld2).
  exists pd2. simpl. rewrite Hp3. split; [done|]. split; [done|].
  apply (sched_part_eq g2); simpl; done.
Qed.

Lemma round_recv_takes (wb off : Z) (x port : Z) (rest : list Z) (nsp : Z)
    (m : gmap Z Z) (e : env) (A B : ptr) (i : nat) (st : rt_state)
    (pt : rust_port) (chan : ptr) (c : rust_chan) (prA : rust_proc) :
  sched_inv st → live_slot st sel_running i B →
  port ≠ null → ports st !! port = Some pt → port_proc pt = B →
  writers_ok st pt → 0 < init (writers pt) →
  data (writers pt) !! (e_rand_recv e mod init (writers pt)) = Some chan →
  chans st !! chan = Some c → chan_idx c = e_rand_recv e mod init (writers pt) →
  chan_proc c = A →
  procs st !! A = Some prA → state prA = proc_state_blocked_writing →
  live_slot st sel_blocked (idx prA) A →
  room (blocked_procs st) 1 → room (running_procs st) 1 →
  ∃ q st1, loop_body wb off (recv_yield x port rest nsp m) e B st = Ok (Some q, st1)
    ∧ mem st1 !! x = Some (arg prA 1)
    ∧ in_state st1 A proc_state_running ∧ in_state st1 B proc_state_running.
Proof.
  intros Hinv Hl Hportn Hpt Hown Hwok Hpos Hpick Hc Hcidx Hcp HprA HsA HlA Hrb Hrr.
  subst A.
  pose proof Hinv as (_ & _ & Hs).
  destruct (Hs _ _ _ Hl) as (_ & prB & HprB & HidxB & Hcls).
  assert (Hne : chan_proc c ≠ B).
  { intros E. rewrite E in *. simplify_eq. by rewrite HsA in Hcls. }
  set (y := recv_yield x port rest nsp m).
  set (g := glued y B prB st).
  assert (Hinvg : sched_inv g) by (by apply glued_inv).
  set (recB := mk_proc (stk prB) (prog prB) nsp proc_state_calling_c (idx prB) (refcnt prB)
                 upcall_code_recv (resize PROC_MAX_UPCALL_ARGS 0%Z (x :: port :: rest))).
  assert (HrecB : procs g !! B = Some recB) by (unfold g, glued; simpl; apply lookup_insert_eq).
  assert (HgA : procs g !! chan_proc c = Some prA).
  { unfold g, glued. simpl. by rewrite lookup_insert_ne. }
  destruct (upcall_recv_takes wb (e_bufs e) (e_rand_recv e) B port g pt chan c prA recB)
    as (g' & Hrecv & Hinv' & Hmem & HA' & (pd' & Hpd' & Hsd' & Hld')); try done.
  { unfold live_slot in *. simpl. by rewrite HidxB. }
  pose proof (handle_upcall_recv_total wb off e B recB g g' pd' HrecB eq_refl Hrecv Hpd')
    as Hup.
  set (s1 := set_procs g' (<[B:=set_upcall_code pd' upcall_code_log_uint32]> (procs g'))) in *.
  assert (Hinv1 : sched_inv s1) by (by eapply sched_inv_update).
  destruct (loop_body_finish wb off y e B prB st s1
              (set_upcall_code pd' upcall_code_log_uint32)) as (q & Hq); try done.
  { unfold s1. simpl. apply lookup_insert_eq. }
  exists q, s1. split; [done|]. split.
  { unfold s1. simpl. rewrite Hmem. apply lookup_insert_eq. }
  split.
  - destruct HA' as (a & Ha & Hsa). exists a. split; [|done].
    unfold s1. simpl. by rewrite lookup_insert_ne.
  - eexists. split; [unfold s1; simpl; apply lookup_insert_eq|done].
Qed.

(** C1. Proc [A] sends [v] on a channel bound to port [P], owned by proc
    [B], and [B] receives from [P] into the address [x], in two consecutive
    rounds of the driver loop, in either order: [A] first, [B] not yet
    waiting (the writer is queued and the receive finds it), or [B] first
    (the send meets the waiting reader).  If both procs are Running after
    the second round, the word at [x] is [v].  The second round does
    complete the rendezvous whenever the buffers of the blocked and of the
    running vector have a slot left: a receive that picks the channel of the
    blocked sender, and a send to the waiting receiver, each end with both
    procs Running and [v] at [x]. *)
Theorem rendezvous_roundtrip (wb off : Z) (A B chan P x v : Z) (restA restB : list Z)
    (spA spB : Z) (mA mB : gmap Z Z) (e1 e2 : env) (st st1 st2 : rt_state)
    (r : option ptr) (i : nat) (c : rust_chan) (pt : rust_port) :
  A ≠ B → sched_inv st →
  (live_slot st sel_running i A →
   chans st !! chan = Some c → chan_port c = P →
   ports st !! P = Some pt → port_proc pt = B →
   ¬ in_state st B proc_state_blocked_reading →
   loop_body wb off (send_yield chan v restA spA mA) e1 A st = Ok (Some B, st1) →
   loop_body wb off (recv_yield x P restB spB mB) e2 B st1 = Ok (r, st2) →
   in_state st2 A proc_state_running → in_state st2 B proc_state_running →
   mem st2 !! x = Some v)
  ∧ (live_slot st sel_running i B →
     loop_body wb off (recv_yield x P restB spB mB) e1 B st = Ok (Some A, st1) →
     chans st1 !! chan = Some c → chan_port c = P →
     ports st1 !! P = Some pt → port_proc pt = B →
     loop_body wb off (send_yield chan v restA spA mA) e2 A st1 = Ok (r, st2) →
     in_state st2 A proc_state_running → in_state st2 B proc_state_running →
     mem st2 !! x = Some v)
  ∧ (∀ prA, live_slot st sel_running i B →
       P ≠ null → ports st !! P = Some pt → port_proc pt = B →
       writers_ok st pt → 0 < init (writers pt) →
       data (writers pt) !! (e_rand_recv e2 mod init (writers pt)) = Some chan →
       chans st !! chan = Some c → chan_idx c = e_rand_recv e2 mod init (writers pt) →
       chan_proc c = A →
       procs st !! A = Some prA → state prA = proc_state_blocked_writing →
       arg prA 1 = v → live_slot st sel_blocked (idx prA) A →
       room (blocked_procs st) 1 → room (running_procs st) 1 →
       ∃ q st', loop_body wb off (recv_yield x P restB spB mB) e2 B st = Ok (Some q, st')
         ∧ mem st' !! x = Some v
         ∧ in_state st' A proc_state_running ∧ in_state st' B proc_state_running)
  ∧ (∀ prB, live_slot st sel_running i A →
       chan ≠ null → chans st !! chan = Some c → chan_port c = P → P ≠ null →
       ports st !! P = Some pt → port_proc pt = B →
       procs st !! B = Some prB → state prB = proc_state_blocked_reading →
       arg prB 0 = x → live_slot st sel_blocked (idx prB) B →
       room (blocked_procs st) 1 → room (running_procs st) 1 →
       ∃ q st', loop_body wb off (send_yield chan v restA spA mA) e2 A st = Ok (Some q, st')
         ∧ mem st' !! x = Some v
         ∧ in_state st' A proc_state_running ∧ in_state st' B proc_state_running).
Proof.
  intros Hne Hinv. split; [|split; [|split]].
  3: { intros prA Hl HPn Hpt Hown Hwok Hpos Hpick Hc Hcidx Hcp HprA HsA Hv HlA Hrb Hrr.
       rewrite <- Hv. by eapply round_recv_takes. }
  3: { intros prB Hl Hcn Hc HcP HPn Hpt Hown HprB HsB Hx HlB Hrb Hrr.
       rewrite <- Hx. eapply round_send_wakes; eauto. by rewrite HcP. by rewrite HcP. }
  - intros Hl Hc HcP Hpt Hown HnotBR H1 H2 HA HB.
    destruct (loop_body_inv _ _ _ _ _ _ _ _ Hinv (ex_intro _ i Hl)
                (disciplined_send _ _ _ _ _ _ _) H1) as (Hinv1 & Hnext).
    destruct (Hnext B eq_refl) as (j & HlB).
    destruct (round_recv _ _ _ _ _ _ _ _ _ _ _ _ _ Hinv1 HlB H2) as (HBnn & _ & Hrecv).
    destruct (round_send _ _ _ _ _ _ _ _ _ _ _ _ _ Hinv Hl H1)
      as (c' & pt' & Hc' & Hpt' & Hsend).
    assert (c' = c) as -> by congruence. rewrite HcP in Hpt'.
    assert (pt' = pt) as -> by congruence. rewrite Hown in Hsend.
    destruct Hsend as [Hdead|[(pd & _ & Hpd & Hst & _)|(_ & (a1 & Ha1 & Hsa1 & Hv) & Hrest)]].
    + done.
    + exfalso. apply HnotBR. by exists pd.
    + destruct Hrecv as [(src & ps & Hsrc & Hps & Hsps & Hm & Hframe)|(HBR & _)].
      * destruct (decide (src = A)) as [->|HsA].
        -- assert (ps = a1) as -> by congruence. by rewrite Hm, Hv.
        -- exfalso. assert (Hbad : proc_state_blocked_writing = proc_state_running).
           { eapply (in_state_same st1 st2 A); [by apply Hframe|by exists a1|done]. }
           discriminate Hbad.
      * exfalso. destruct HBR as (b & Hb & Hsb). destruct HB as (b' & Hb' & Hsb').
        congruence.
  - intros Hl H1 Hc HcP Hpt Hown H2 HA HB.
    destruct (loop_body_inv _ _ _ _ _ _ _ _ Hinv (ex_intro _ i Hl)
                (disciplined_recv _ _ _ _ _ _ _) H1) as (Hinv1 & Hnext).
    destruct (Hnext A eq_refl) as (j & HlA).
    destruct (round_recv _ _ _ _ _ _ _ _ _ _ _ _ _ Hinv Hl H1)
      as (HBnn & (b1 & Hb1 & Hx) & _).
    destruct (round_send _ _ _ _ _ _ _ _ _ _ _ _ _ Hinv1 HlA H2)
      as (c' & pt' & Hc' & Hpt' & Hsend).
    assert (c' = c) as -> by congruence. rewrite HcP in Hpt'.
    assert (pt' = pt) as -> by congruence. rewrite Hown in Hsend.
    destruct Hsend as [Hdead|[(pd & _ & Hpd & _ & Hm)|(_ & (a1 & Ha1 & Hsa1 & _) & _)]].
    + done.
    + assert (pd = b1) as -> by congruence. by rewrite <- Hx.
    + exfalso. destruct HA as (a & Ha & Hsa). congruence.
Qed.

Lemma rendezvous_roundtrip_witness :
  (∃ st1 r st2,
     loop_body 4 20 ex_send_yield ex_round_env 16 ex_pair = Ok (Some 32%Z, st1)
     ∧ loop_body 4 20 ex_recv_yield ex_round_env 32 st1 = Ok (r, st2)
     ∧ mem st2 !! 400%Z = Some 7%Z)
  ∧ (∃ st1 r st2,
       loop_body 4 20 ex_recv_yield ex_round_env 32 ex_pair = Ok (Some 16%Z, st1)
       ∧ loop_body 4 20 ex_send_yield ex_round_env 16 st1 = Ok (r, st2)
       ∧ mem st2 !! 400%Z = Some 7%Z)
  ∧ (∃ st1 q st2,
       loop_body 4 20 ex_recv_yield ex_round_env 32 ex_pair = Ok (Some 16%Z, st1)
       ∧ loop_body 4 20 ex_send_yield ex_round_env 16 st1 = Ok (Some q, st2)
       ∧ mem st2 !! 400%Z = Some 7%Z
       ∧ in_state st2 16 proc_state_running ∧ in_state st2 32 proc_state_running).
Proof.
  split; [|split].
  3: { destruct (loop_body 4 20 ex_recv_yield ex_round_env 32 ex_pair)
         as [[[p1|] st1]| |] eqn:E1; try (vm_compute in E1; discriminate E1).
       assert (p1 = 16%Z) as -> by (vm_compute in E1; congruence).
       exists st1. vm_compute in E1. injection E1 as <-.
       match goal with |- ∃ q st2, _ ∧ loop_body _ _ _ _ _ ?s = _ ∧ _ =>
         destruct (proj2 (proj2 (proj2 (rendezvous_roundtrip 4 20 16 32 64 48 400 7 [] []
                    0 0 ∅ ∅ ex_round_env ex_round_env s s s None 0
                    (mk_chan 48 16 false 0 ex_vec0) (mk_port 0 0 32 ex_vec0)
                    ltac:(lia)
                    ltac:(split; [apply vec_inv_concrete; simpl; lia|];
                          split; [apply vec_inv_concrete; simpl; lia|]; solve_slot_ok))))
                  (mk_proc 2048 80 0 proc_state_blocked_reading 0 0 upcall_code_log_uint32
                     [400; 48; 0; 0; 0; 0; 0; 0]%Z))
           as (q & st2 & H2 & Hm & HA & HB)
       end.
       - split; [simpl; lia|reflexivity].
       - unfold null. lia.
       - reflexivity.
       - reflexivity.
       - unfold null. lia.
       - reflexivity.
       - reflexivity.
       - reflexivity.
       - reflexivity.
       - reflexivity.
       - split; [simpl; lia|reflexivity].
       - unfold room. simpl. lia.
       - unfold room. simpl. lia.
       - exists q, st2. split; [reflexivity|]. split; [exact H2|].
         split; [exact Hm|]. split; [exact HA|exact HB]. }
  - destruct (loop_body 4 20 ex_send_yield ex_round_env 16 ex_pair)
      as [[[p1|] st1]| |] eqn:E1; try (vm_compute in E1; discriminate E1).
    assert (p1 = 32%Z) as -> by (vm_compute in E1; congruence).
    destruct (loop_body 4 20 ex_recv_yield ex_round_env 32 st1)
      as [[r st2]| |] eqn:E2.
    + exists st1, r, st2. split; [reflexivity|]. split; [exact E2|].
      refine (proj1 (rendezvous_roundtrip 4 20 16 32 64 48 400 7 [] [] 0 0 ∅ ∅
                ex_round_env ex_round_env ex_pair st1 st2 r 0
                (mk_chan 48 16 false 0 ex_vec0) (mk_port 0 0 32 ex_vec0)
                _ ex_pair_inv) _ _ _ _ _ _ E1 E2 _ _).
      * lia.
      * split; [simpl; lia|reflexivity].
      * reflexivity.
      * reflexivity.
      * reflexivity.
      * reflexivity.
      * intros (b & Hb & Hs). vm_compute in Hb. injection Hb as <-. discriminate Hs.
      * vm_compute in E1. injection E1 as <-. vm_compute in E2. injection E2 as _ <-.
        eexists. split; [vm_compute; reflexivity|reflexivity].
      * vm_compute in E1. injection E1 as <-. vm_compute in E2. injection E2 as _ <-.
        eexists. split; [vm_compute; reflexivity|reflexivity].
    + vm_compute in E1. injection E1 as <-. vm_compute in E2. discriminate E2.
    + vm_compute in E1. injection E1 as <-. vm_compute in E2. discriminate E2.
  - destruct (loop_body 4 20 ex_recv_yield ex_round_env 32 ex_pair)
      as [[[p1|] st1]| |] eqn:E1; try (vm_compute in E1; discriminate E1).
    assert (p1 = 16%Z) as -> by (vm_compute in E1; congruence).
    destruct (loop_body 4 20 ex_send_yield ex_round_env 16 st1)
      as [[r st2]| |] eqn:E2.
    + exists st1, r, st2. split; [reflexivity|]. split; [exact E2|].
      refine (proj1 (proj2 (rendezvous_roundtrip 4 20 16 32 64 48 400 7 [] [] 0 0 ∅ ∅
                ex_round_env ex_round_env ex_pair st1 st2 r 1
                (mk_chan 48 16 false 0 ex_vec0) (mk_port 0 0 32 ex_vec0)
                _ ex_pair_inv)) _ E1 _ _ _ _ E2 _ _).
      * lia.
      * split; [simpl; lia|reflexivity].
      * vm_compute in E1. injection E1 as <-. reflexivity.
      * reflexivity.
      * vm_compute in E1. injection E1 as <-. reflexivity.
      * reflexivity.
      * vm_compute in E1. injection E1 as <-. vm_compute in E2. injection E2 as _ <-.
        eexists. split; [vm_compute; reflexivity|reflexivity].
      * vm_compute in E1. injection E1 as <-. vm_compute in E2. injection E2 as _ <-.
        eexists. split; [vm_compute; reflexivity|reflexivity].
    + vm_compute in E1. injection E1 as <-. vm_compute in E2. discriminate E2.
    + vm_compute in E1. injection E1 as <-. vm_compute in E2. discriminate E2.
Defined.


(** * Further properties of the runtime *)

(** ** The example states are well formed *)

Lemma ex_vec1_inv : vec_inv ex_vec1.
Proof. apply vec_inv_concrete; simpl; lia. Qed.

Lemma ex_vec2_inv : vec_inv ex_vec2.
Proof. apply vec_inv_concrete; simpl; lia. Qed.

Lemma ex_stale_inv : sched_inv ex_stale.
Proof.
  apply sched_inv_intro.
  - intros []; simpl; apply vec_inv_concrete; simpl; lia.
  - solve_slot_ok.
Qed.

Lemma ex_send_wait_inv : sched_inv ex_send_wait.
Proof.
  apply sched_inv_intro.
  - intros []; simpl; apply vec_inv_concrete; simpl; lia.
  - solve_slot_ok.
Qed.

Lemma ex_recv_wait_inv : sched_inv ex_recv_wait.
Proof.
  apply sched_inv_intro.
  - intros []; simpl; apply vec_inv_concrete; simpl; lia.
  - solve_slot_ok.
Qed.

Lemma ex_single_inv : sched_inv ex_single.
Proof.
  apply sched_inv_intro.
  - intros []; simpl; apply vec_inv_concrete; simpl; lia.
  - solve_slot_ok.
Qed.

(** ** Contents of a pointer-vector *)

Lemma live_length (v : ptr_vec) : vec_ok v → length (live v) = init v.
Proof. unfold vec_ok, live. intros H. rewrite length_take. lia. Qed.

Lemma live_lookup (v : ptr_vec) (j : nat) :
  j < init v → live v !! j = data v !! j.
Proof. intros. unfold live. by rewrite lookup_take_lt. Qed.

Lemma ptr_vec_push_live (wb : Z) (b : block) (v : ptr_vec) (p : ptr) (v' : ptr_vec) :
  vec_inv v → ptr_vec_push wb b v p = Ok v' →
  vec_inv v' ∧ init v' = S (init v) ∧ live v' = live v ++ [p]
  ∧ alloc v' = alloc v ∧ length (data v') = length (data v).
Proof.
  intros Hv E.
  destruct (ptr_vec_push_spec _ _ _ _ _ Hv E) as (Hv' & Hi & Hlt & Hp & Hold & Ha & Hl).
  pose proof (proj2 (proj2 Hv)) as Hok. pose proof (proj2 (proj2 Hv')) as Hok'.
  split; [done|]. split; [done|]. split; [|done].
  apply list_eq. intros j.
  destruct (decide (j < init v)) as [Hj|Hj].
  - rewrite live_lookup by lia. rewrite lookup_app_l by (rewrite live_length; [lia|done]).
    rewrite live_lookup by lia. apply Hold. lia.
  - destruct (decide (j = init v)) as [->|Hne].
    + rewrite live_lookup by lia. rewrite Hp.
      rewrite lookup_app_r by (rewrite live_length; [lia|done]).
      rewrite live_length by done. by rewrite Nat.sub_diag.
    + rewrite !lookup_ge_None_2; [done| |].
      * rewrite length_app, live_length by done. simpl. lia.
      * rewrite live_length by done. lia.
Qed.

(** X26. [init_ptr_vec] exits with status 123 when [malloc] returns [NULL].
    Otherwise the vector has capacity [alloc = 8], no pointer in use, and a
    buffer of 8 bytes: [8 / sizeof(void* )] slots, which is fewer than the 8
    of [alloc] as soon as a pointer takes more than one byte (two slots for
    4-byte pointers, one for 8-byte pointers). *)
Theorem init_ptr_vec_spec (wb : Z) :
  init_ptr_vec wb None = Exit "rt: allocation failed, exiting" 123%Z
  ∧ (∀ junk, ∃ v, init_ptr_vec wb (Some junk) = Ok v
       ∧ alloc v = 8 ∧ init v = 0
       ∧ length (data v) = Z.to_nat (8 / wb)
       ∧ (∀ j, j < length (data v) → data v !! j = Some (junk j))
       ∧ ((1 < wb)%Z → vec_inv v ∧ length (data v) ≤ 4)
       ∧ (wb = 4%Z → length (data v) = 2)
       ∧ (wb = 8%Z → length (data v) = 1)).
Proof.
  split; [done|]. intros junk. eexists. split; [reflexivity|]. simpl.
  split; [done|]. split; [done|].
  rewrite length_fmap, length_seq. unfold slots, INIT_PTR_VEC_SZ.
  change (Z.of_nat 8) with 8%Z.
  split; [done|]. split.
  { intros j Hj. rewrite list_lookup_fmap, lookup_seq_lt by done. done. }
  split; [|split; intros ->; reflexivity].
  intros Hwb.
  assert (0 ≤ 8 / wb ≤ 4)%Z.
  { split; [apply Z.div_pos; lia|]. apply Z.div_le_upper_bound; lia. }
  split; [|lia].
  unfold vec_inv, vec_ok, INIT_PTR_VEC_SZ. simpl.
  rewrite length_fmap, length_seq. unfold slots. change (Z.of_nat 8) with 8%Z. lia.
Qed.

(** The pushes of a list of pointers, each with the block [realloc] would
    return. *)
Lemma run_ops_push_cons (wb : Z) (b : block) (p : ptr) (ops : list (block * ptr))
    (v : ptr_vec) :
  run_ops wb (uncurry op_push <$> ((b, p) :: ops)) v
  = (v' ← ptr_vec_push wb b v p; run_ops wb (uncurry op_push <$> ops) v').
Proof. reflexivity. Qed.

(** X1. Pushing the pointers of a list, one after the other, onto a vector
    with [alloc] still at 8 returns exactly when they fit into what is left
    of the buffer.  Then they are appended to the pointers the vector holds
    and [alloc] and the buffer stay as they are.  When they do not fit, the
    first push past the last slot of the buffer, with [init] still below
    [alloc], writes outside the buffer. *)
Theorem ptr_vec_push_all (wb : Z) (ops : list (block * ptr)) (v : ptr_vec) :
  vec_inv v →
  (init v + length ops ≤ length (data v) →
     ∃ v', run_ops wb (uncurry op_push <$> ops) v = Ok v' ∧ vec_inv v'
       ∧ live v' = live v ++ ops.*2
       ∧ init v' = init v + length ops
       ∧ alloc v' = alloc v ∧ length (data v') = length (data v))
  ∧ (length (data v) < init v + length ops →
     run_ops wb (uncurry op_push <$> ops) v = Abort).
Proof.
  revert v. induction ops as [|[b p] ops IH]; intros v Hv.
  - split.
    + intros _. exists v. simpl. rewrite app_nil_r.
      split; [done|]. split; [done|]. split; [done|]. split; [lia|done].
    + intros Hlt. simpl in Hlt. pose proof (proj2 (proj2 Hv)) as Hok.
      unfold vec_ok in Hok. lia.
  - rewrite run_ops_push_cons. simpl.
    destruct (decide (init v < length (data v))) as [Hroom|Hfull].
    + destruct (ptr_vec_push_total wb b v p Hv) as (v1 & E1); [unfold room; lia|].
      destruct (ptr_vec_push_live _ _ _ _ _ Hv E1) as (Hv1 & Hi1 & Hl1 & Ha1 & Hd1).
      rewrite E1. simpl. destruct (IH v1 Hv1) as (IHfit & IHover). split.
      * intros Hfit. destruct IHfit as (v' & E & Hv' & Hl & Hi & Ha & Hd); [lia|].
        exists v'. split; [done|]. split; [done|].
        split; [by rewrite Hl, Hl1, <- app_assoc|].
        split; [lia|]. split; congruence.
      * intros Hover. apply IHover. lia.
    + pose proof (proj2 (proj2 Hv)) as Hok. unfold vec_ok in Hok.
      rewrite ptr_vec_push_full by (done || lia). simpl. split; [lia|done].
Qed.

Lemma ptr_vec_push_all_witness :
  (∃ v', run_ops 4 (uncurry op_push <$> [(ex_block, 16%Z); (ex_block, 32%Z)]) ex_vec0 = Ok v'
     ∧ live v' = [16; 32]%Z ∧ alloc v' = 8)
  ∧ run_ops 4 (uncurry op_push <$> [(ex_block, 16%Z); (ex_block, 32%Z); (ex_block, 48%Z)])
      ex_vec0 = Abort.
Proof.
  split.
  - destruct (proj1 (ptr_vec_push_all 4 [(ex_block, 16%Z); (ex_block, 32%Z)] ex_vec0
                       ex_vec0_inv))
      as (v' & E & _ & Hl & _ & Ha & _).
    + simpl. lia.
    + exists v'. split; [exact E|]. split; [exact Hl|exact Ha].
  - apply (proj2 (ptr_vec_push_all 4
                    [(ex_block, 16%Z); (ex_block, 32%Z); (ex_block, 48%Z)] ex_vec0
                    ex_vec0_inv)).
    simpl. lia.
Defined.

(** Overwriting a slot is, up to the order, removing it and adding the new
    element. *)
Lemma insert_Permutation_delete {A} (l : list A) (i : nat) (y : A) :
  i < length l → <[i := y]> l ≡ₚ y :: delete i l.
Proof.
  revert i. induction l as [|a l IH]; intros [|i] Hi; simpl in *; try lia.
  - done.
  - rewrite IH by lia. apply Permutation_swap.
Qed.

(** [ptr_vec_swapdel] on a slot in use, computed. *)
Lemma ptr_vec_swapdel_eq (v : ptr_vec) (i : nat) :
  vec_ok v → i < init v →
  ∃ y, data v !! (init v - 1) = Some y
    ∧ ptr_vec_swapdel v i
      = Ok (mk_ptr_vec (alloc v) (init v - 1)
              (if bool_decide (0 < init v - 1) then <[i := y]> (data v) else data v)).
Proof.
  intros Hv Hi. pose proof Hv as Hok. unfold vec_ok in Hok.
  destruct (vec_ok_lookup v (init v - 1) Hv) as (y & Hy); [lia|].
  exists y. split; [done|]. unfold ptr_vec_swapdel.
  rewrite (bool_decide_eq_true_2 (0 < init v)) by lia. simpl.
  rewrite (bool_decide_eq_true_2 (i < init v)) by lia. simpl.
  case_bool_decide; [|done].
  unfold vec_get. simpl. rewrite Hy. simpl. unfold vec_set. simpl.
  by rewrite bool_decide_eq_true_2 by lia.
Qed.

Lemma ptr_vec_swapdel_live (v : ptr_vec) (i : nat) :
  vec_ok v → i < init v →
  ∃ v' x y, ptr_vec_swapdel v i = Ok v' ∧ vec_ok v'
    ∧ alloc v' = alloc v ∧ length (data v') = length (data v)
    ∧ S (init v') = init v
    ∧ live v !! i = Some x ∧ last (live v) = Some y
    ∧ live v ≡ₚ x :: live v'
    ∧ (i < init v' → live v' = <[i := y]> (take (init v') (live v)))
    ∧ (i = init v' → live v' = take (init v') (live v)).
Proof.
  intros Hv Hi. pose proof Hv as Hok. unfold vec_ok in Hok.
  destruct (ptr_vec_swapdel_eq v i Hv Hi) as (y & Hy & E).
  destruct (vec_ok_lookup v i Hv) as (x & Hx); [lia|].
  eexists _, x, y. split; [exact E|].
  assert (Hlast : live v = take (init v - 1) (data v) ++ [y]).
  { unfold live. replace (init v) with (S (init v - 1)) at 1 by lia.
    by apply take_S_r. }
  split; [|split; [done|split; [|split; [simpl; lia|]]]].
  { unfold vec_ok. simpl. case_bool_decide; [rewrite length_insert|]; lia. }
  { simpl. case_bool_decide; [by rewrite length_insert|done]. }
  split; [by rewrite live_lookup|].
  split; [by rewrite Hlast, last_snoc|].
  unfold live at 2. simpl. split; [|split].
  - case_bool_decide as Hn.
    + destruct (decide (i = init v - 1)) as [->|Hne].
      * rewrite take_insert_ge by lia. rewrite Hlast.
        assert (x = y) as -> by congruence. by rewrite Permutation_app_comm.
      * rewrite take_insert_lt by lia. rewrite Hlast.
        set (l := take (init v - 1) (data v)).
        assert (Hl : l !! i = Some x) by (unfold l; rewrite lookup_take_lt by lia; done).
        rewrite insert_Permutation_delete
          by (unfold l; rewrite length_take; lia).
        rewrite (delete_Permutation l i x Hl) at 1.
        rewrite <- Permutation_app_comm. simpl. apply Permutation_swap.
    + assert (init v = 1) by lia. assert (i = 0) as -> by lia.
      rewrite Hlast. replace (init v - 1) with 0 by lia. simpl.
      assert (x = y) as ->; [|done].
      replace (init v - 1) with 0 in Hy by lia. congruence.
  - intros Hi'. rewrite bool_decide_eq_true_2 by lia.
    unfold live. simpl. rewrite take_insert_lt by lia. f_equal.
    rewrite take_take. f_equal. lia.
  - intros ->. unfold live. simpl. rewrite take_take.
    rewrite Nat.min_l by lia.
    destruct (bool_decide (0 < init v - 1)); [by rewrite take_insert_ge by lia|done].
Qed.

(** X2. On a vector whose slots in use lie inside the buffer,
    [ptr_vec_swapdel v i] fails its assertion when [i] is not a slot in use,
    in particular on an empty vector.  Otherwise it removes exactly the
    pointer at [i]: the last pointer in use moves into slot [i], every other
    slot keeps its pointer, and the capacity and the buffer are unchanged in
    size. *)
Theorem ptr_vec_swapdel_contents (v : ptr_vec) (i : nat) :
  vec_ok v →
  (init v ≤ i → ptr_vec_swapdel v i = Abort)
  ∧ (i < init v →
       ∃ v' x y, ptr_vec_swapdel v i = Ok v' ∧ vec_ok v' ∧ alloc v' = alloc v
         ∧ length (data v') = length (data v)
         ∧ S (init v') = init v
         ∧ live v !! i = Some x ∧ last (live v) = Some y
         ∧ live v ≡ₚ x :: live v'
         ∧ (i < init v' → live v' = <[i := y]> (take (init v') (live v)))
         ∧ (i = init v' → live v' = take (init v') (live v))).
Proof.
  intros Hv. split.
  - intros Hge. unfold ptr_vec_swapdel.
    destruct (decide (0 < init v)).
    + rewrite (bool_decide_eq_true_2 (0 < init v)) by done. simpl.
      by rewrite (bool_decide_eq_false_2 (i < init v)) by lia.
    + by rewrite (bool_decide_eq_false_2 (0 < init v)) by done.
  - intros Hi. by apply ptr_vec_swapdel_live.
Qed.

Lemma ptr_vec_swapdel_contents_witness :
  ∃ v', ptr_vec_swapdel ex_vec2 0 = Ok v' ∧ S (init v') = 2
    ∧ live ex_vec2 ≡ₚ 16%Z :: live v'.
Proof.
  destruct (proj2 (ptr_vec_swapdel_contents ex_vec2 0 (proj2 (proj2 ex_vec2_inv))))
    as (v' & x & y & E & _ & _ & _ & Hi & Hx & _ & Hp & _).
  - simpl. lia.
  - exists v'. split; [exact E|]. split; [exact Hi|].
    injection Hx as <-. exact Hp.
Defined.

(** X3. On a vector with [alloc] still at 8 and a slot left in its buffer,
    deleting the slot a push has just filled restores the pointers the
    vector held; with no slot left the push writes outside the buffer. *)
Theorem ptr_vec_push_swapdel (wb : Z) (b : block) (v : ptr_vec) (p : ptr) :
  vec_inv v →
  (room v 1 →
     ∃ v1 v2, ptr_vec_push wb b v p = Ok v1 ∧ ptr_vec_swapdel v1 (init v) = Ok v2
       ∧ live v2 = live v ∧ init v2 = init v ∧ vec_inv v2)
  ∧ (init v = length (data v) → ptr_vec_push wb b v p = Abort).
Proof.
  intros Hv. split; [|by apply ptr_vec_push_full].
  intros Hroom.
  destruct (ptr_vec_push_total wb b v p Hv Hroom) as (v1 & E1).
  destruct (ptr_vec_push_live _ _ _ _ _ Hv E1) as (Hv1 & Hi1 & Hl1 & _).
  destruct (ptr_vec_swapdel_live v1 (init v) (proj2 (proj2 Hv1))) as
    (v2 & x & y & E2 & Hv2 & _ & _ & Hi2 & _ & _ & _ & _ & Hl2); [lia|].
  exists v1, v2. split; [done|]. split; [done|].
  assert (Hi : init v2 = init v) by lia.
  split; [|split; [done|by apply (ptr_vec_swapdel_inv v1 (init v))]].
  rewrite Hl2 by lia. rewrite Hl1, Hi.
  rewrite take_app_length' by (symmetry; apply live_length, Hv). done.
Qed.

Lemma ptr_vec_push_swapdel_witness :
  (∃ v1 v2, ptr_vec_push 4 ex_block ex_vec1 64 = Ok v1 ∧ ptr_vec_swapdel v1 1 = Ok v2
     ∧ live v2 = [16]%Z)
  ∧ ptr_vec_push 4 ex_block ex_vec2 64 = Abort.
Proof.
  split.
  - destruct (proj1 (ptr_vec_push_swapdel 4 ex_block ex_vec1 64 ex_vec1_inv))
      as (v1 & v2 & E1 & E2 & Hl & _).
    + unfold room. simpl. lia.
    + exists v1, v2. split; [exact E1|]. split; [exact E2|exact Hl].
  - apply (proj2 (ptr_vec_push_swapdel 4 ex_block ex_vec2 64 ex_vec2_inv)). reflexivity.
Defined.

(** X4. [ptr_vec_trim] leaves the vector as it is unless its test holds,
    and so always at capacity 8.  When the test holds it fails its
    assertion if more than [alloc / 2] slots are in use, and exits with
    status 123 if [realloc] fails; otherwise it halves [alloc] and hands the
    new [alloc] to [xrealloc] as a byte count, so the buffer is cut down to
    [(alloc / 2) / sizeof(void* )] slots: these keep their pointers, and a
    slot in use beyond them is outside the buffer afterwards. *)
Theorem ptr_vec_trim_contents (wb : Z) (b : block) (v : ptr_vec) (n : nat) :
  (¬ trim_cond v n → ptr_vec_trim wb b v n = Ok v)
  ∧ (alloc v = INIT_PTR_VEC_SZ → ptr_vec_trim wb b v n = Ok v)
  ∧ (trim_cond v n → alloc v / 2 < init v → ptr_vec_trim wb b v n = Abort)
  ∧ (trim_cond v n → init v ≤ alloc v / 2 →
       match b with
       | None => ptr_vec_trim wb b v n = Exit "rt: reallocation failed, exiting" 123%Z
       | Some junk =>
           ∃ v', ptr_vec_trim wb b v n = Ok v'
             ∧ alloc v' = alloc v / 2 ∧ init v' = init v
             ∧ length (data v') = Z.to_nat (Z.of_nat (alloc v / 2) / wb)
             ∧ (∀ j, j < length (data v) → j < length (data v') →
                  data v' !! j = data v !! j)
             ∧ (∀ j, length (data v') ≤ j → data v' !! j = None)
       end).
Proof.
  split; [|split; [by apply ptr_vec_trim_id|split]].
  - intros Hn. unfold ptr_vec_trim, trim_cond in *.
    destruct (bool_decide (n ≤ alloc v / 4)) eqn:E1; [|done].
    destruct (bool_decide (INIT_PTR_VEC_SZ ≤ alloc v / 2)) eqn:E2; [|done].
    apply bool_decide_eq_true in E1, E2. tauto.
  - intros [H1 H2] H3. unfold ptr_vec_trim.
    rewrite (bool_decide_eq_true_2 _ H1), (bool_decide_eq_true_2 _ H2). simpl.
    by rewrite bool_decide_eq_false_2 by lia.
  - intros [H1 H2] H3. unfold ptr_vec_trim.
    rewrite (bool_decide_eq_true_2 _ H1), (bool_decide_eq_true_2 _ H2). simpl.
    rewrite (bool_decide_eq_true_2 _ H3). simpl.
    destruct b as [junk|]; [|done].
    destruct (xrealloc wb (Some junk) (data v) (alloc v / 2)) as [d| |] eqn:E;
      try discriminate E.
    destruct (xrealloc_Ok _ _ _ _ _ E) as (Hl & Hk). simpl.
    eexists. split; [done|]. simpl. split; [done|]. split; [done|].
    split; [done|]. split.
    + intros j Hj Hj'. apply Hk; [done|]. by rewrite <- Hl.
    + intros j Hj. by apply lookup_ge_None_2.
Qed.

Lemma ptr_vec_trim_contents_witness :
  (∃ v', ptr_vec_trim 4 ex_block ex_vec16 2 = Ok v' ∧ alloc v' = 8
     ∧ data v' = [16; 32]%Z)
  ∧ (∃ v', ptr_vec_trim 4 ex_block (mk_ptr_vec 16 4 [16; 32; 48; 64]%Z) 4 = Ok v'
       ∧ init v' = 4 ∧ data v' = [16; 32]%Z).
Proof.
  split.
  - destruct (proj2 (proj2 (proj2 (ptr_vec_trim_contents 4 ex_block ex_vec16 2))))
      as (v' & E & Ha & _).
    + split; [change (alloc ex_vec16 / 4) with 4; lia|].
      change (alloc ex_vec16 / 2) with 8. unfold INIT_PTR_VEC_SZ. lia.
    + change (alloc ex_vec16 / 2) with 8. simpl. lia.
    + exists v'. split; [exact E|]. split; [exact Ha|].
      vm_compute in E. injection E as <-. reflexivity.
  - destruct (proj2 (proj2 (proj2 (ptr_vec_trim_contents 4 ex_block
                (mk_ptr_vec 16 4 [16; 32; 48; 64]%Z) 4))))
      as (v' & E & _ & Hi & _).
    + split; [change (alloc (mk_ptr_vec 16 4 [16; 32; 48; 64]%Z) / 4) with 4; lia|].
      change (alloc (mk_ptr_vec 16 4 [16; 32; 48; 64]%Z) / 2) with 8.
      unfold INIT_PTR_VEC_SZ. lia.
    + change (alloc (mk_ptr_vec 16 4 [16; 32; 48; 64]%Z) / 2) with 8. simpl. lia.
    + exists v'. split; [exact E|]. split; [exact Hi|].
      vm_compute in E. injection E as <-. reflexivity.
Defined.

(** ** Stack segments *)

Lemma stk_chain_delete (h : gmap Z stk_seg) (a s : ptr) (l : list ptr) :
  a ∉ l → stk_chain h s l → stk_chain (delete a h) s l.
Proof.
  revert s. induction l as [|b l IH]; intros s Hnin; simpl; [done|].
  intros (-> & Hs & seg & Hseg & Hc). split; [done|]. split; [done|].
  exists seg. split.
  - rewrite lookup_delete_ne; [done|]. intros ->. apply Hnin. left.
  - apply IH; [|done]. intros Hin. apply Hnin. by right.
Qed.

Lemma stk_chain_lookup (h : gmap Z stk_seg) (s : ptr) (l : list ptr) (a : ptr) :
  stk_chain h s l → a ∈ l → is_Some (h !! a).
Proof.
  revert s. induction l as [|b l IH]; intros s; simpl.
  - intros _ Hin. by apply elem_of_nil in Hin.
  - intros (-> & _ & seg & Hseg & Hc) Hin. apply elem_of_cons in Hin as [->|Hin]; eauto.
Qed.

(** A map has at least as many entries as it has distinct keys in a list. *)
Lemma NoDup_keys_size {A} (h : gmap Z A) (l : list Z) :
  NoDup l → (∀ a, a ∈ l → is_Some (h !! a)) → length l ≤ size h.
Proof.
  revert h. induction l as [|a l IH]; intros h Hnd Hin; simpl; [lia|].
  apply NoDup_cons in Hnd as [Ha Hnd].
  destruct (Hin a) as [x Hx]; [left|].
  assert (length l ≤ size (delete a h)).
  { apply IH; [done|]. intros b Hb. rewrite lookup_delete_ne; [apply Hin; by right|].
    intros ->. done. }
  rewrite map_size_delete_Some in H by eauto.
  assert (size h ≠ 0); [|lia].
  intros Hz. apply map_size_empty_inv in Hz. subst h. by rewrite lookup_empty in Hx.
Qed.

(** With as many rounds as the chain has segments the loop of [del_stk]
    frees the chain. *)
Lemma del_stk_loop_chain (l : list ptr) (fuel : nat) (s : ptr) (h : gmap Z stk_seg) :
  stk_chain h s l → l ≠ [] → NoDup l → length l ≤ fuel →
  ∃ h', del_stk_loop fuel s h = Ok h'
    ∧ ∀ k, h' !! k = if bool_decide (k ∈ l) then None else h !! k.
Proof.
  revert fuel s h. induction l as [|a l IH]; intros fuel s h Hc Hne Hnd Hf; [done|].
  destruct Hc as (-> & Hs & seg & Hseg & Hc).
  apply NoDup_cons in Hnd as [Ha Hnd].
  destruct fuel as [|fuel]; [simpl in Hf; lia|]. simpl in Hf.
  simpl. unfold deref. rewrite Hseg. simpl.
  destruct l as [|b l'].
  - simpl in Hc. rewrite bool_decide_eq_false_2 by (intros ?; done).
    eexists. split; [done|]. intros k. case_bool_decide as Hk.
    + apply list_elem_of_singleton in Hk as ->. by rewrite lookup_delete_eq.
    + rewrite lookup_delete_ne; [done|]. intros ->. apply Hk. left.
  - pose proof Hc as (Hb & Hbn & _).
    rewrite bool_decide_eq_true_2 by done.
    destruct (IH fuel (stk_next seg) (delete s h)) as (h' & E & Hh'); [|done|done|lia|].
    { by apply stk_chain_delete. }
    exists h'. split; [done|]. intros k. rewrite Hh'.
    destruct (decide (k = s)) as [->|Hks].
    + rewrite (bool_decide_eq_true_2 (s ∈ s :: b :: l')) by left.
      case_bool_decide; [done|]. by rewrite lookup_delete_eq.
    + rewrite lookup_delete_ne by done.
      case_bool_decide as H1; case_bool_decide as H2; try done.
      * exfalso. apply H2. by right.
      * exfalso. apply H1. apply elem_of_cons in H2 as [?|?]; done.
Qed.

(** X5. [del_stk] frees the whole chain of segments that starts at [s] and
    follows [next] up to [NULL], and nothing else. *)
Theorem del_stk_chain (s : ptr) (l : list ptr) (st : rt_state) :
  stk_chain (stks st) s l → l ≠ [] → NoDup l →
  ∃ h', del_stk s st = Ok (set_stks st h')
    ∧ ∀ k, h' !! k = if bool_decide (k ∈ l) then None else stks st !! k.
Proof.
  intros Hc Hne Hnd.
  destruct (del_stk_loop_chain l (S (size (stks st))) s (stks st)) as (h' & E & Hh'); try done.
  { pose proof (NoDup_keys_size (stks st) l Hnd (λ a, stk_chain_lookup _ _ _ a Hc)). lia. }
  exists h'. split; [|done]. unfold del_stk. by rewrite E.
Qed.

Lemma del_stk_chain_witness :
  ∃ h', del_stk 1024 ex_chain = Ok (set_stks ex_chain h')
    ∧ h' !! 1024%Z = None ∧ h' !! 2048%Z = None.
Proof.
  destruct (del_stk_chain 1024 [1024; 2048]%Z ex_chain) as (h' & E & Hh').
  - simpl. split; [reflexivity|]. split; [unfold null; lia|].
    eexists. split; [reflexivity|]. simpl. split; [reflexivity|]. split; [unfold null; lia|].
    eexists. split; [reflexivity|]. reflexivity.
  - discriminate.
  - apply NoDup_cons. split; [|apply NoDup_singleton].
    intros H. apply list_elem_of_singleton in H. discriminate H.
  - exists h'. split; [exact E|]. split.
    + exact (Hh' 1024%Z).
    + exact (Hh' 2048%Z).
Defined.


(** ** Counting live procs *)

(** What the operations do to the number of slots in use; no invariant is
    needed for these. *)
Lemma ptr_vec_swapdel_init (v : ptr_vec) (i : nat) (v' : ptr_vec) :
  ptr_vec_swapdel v i = Ok v' → S (init v') = init v.
Proof.
  unfold ptr_vec_swapdel. intros H.
  apply bind_Ok in H as (u1 & H1 & H). apply assert_Ok, bool_decide_eq_true in H1.
  apply bind_Ok in H as (u2 & H2 & H). simpl in H.
  destruct (bool_decide (0 < init v - 1)).
  - apply bind_Ok in H as (x & _ & H). apply vec_set_Ok in H as [_ ->]. simpl. lia.
  - injection H as <-. simpl. lia.
Qed.

Lemma ptr_vec_trim_init (wb : Z) (b : block) (v : ptr_vec) (n : nat) (v' : ptr_vec) :
  ptr_vec_trim wb b v n = Ok v' → init v' = init v.
Proof.
  unfold ptr_vec_trim. intros H.
  destruct (bool_decide (n ≤ alloc v / 4) && bool_decide (INIT_PTR_VEC_SZ ≤ alloc v / 2)).
  - apply bind_Ok in H as (u & _ & H). apply bind_Ok in H as (d & _ & H).
    by injection H as <-.
  - by injection H as <-.
Qed.

Lemma ptr_vec_push_init (wb : Z) (b : block) (v : ptr_vec) (p : ptr) (v' : ptr_vec) :
  ptr_vec_push wb b v p = Ok v' → init v' = S (init v).
Proof.
  unfold ptr_vec_push. intros H.
  apply bind_Ok in H as (v1 & H1 & H). apply bind_Ok in H as (v2 & H2 & H).
  injection H as <-. simpl. apply vec_set_Ok in H2 as [_ ->]. simpl.
  case_bool_decide; [apply bind_Ok in H1 as (d & _ & H1)|]; by injection H1 as <-.
Qed.

Lemma proc_vec_swapdel_count (sel : vec_sel) (p : ptr) (st st1 : rt_state) :
  proc_vec_swapdel sel p st = Ok st1 →
  S (init (state_vec st1 sel)) = init (state_vec st sel)
  ∧ (∀ s, s ≠ sel → state_vec st1 s = state_vec st s)
  ∧ heap_mod_idx (procs st) (procs st1) ∧ same_rest st st1.
Proof.
  intros H. unfold proc_vec_swapdel in H.
  apply bind_Ok in H as (u1 & _ & H).
  apply bind_Ok in H as (pr & Hpr & H).
  apply bind_Ok in H as (x & _ & H). apply bind_Ok in H as (u2 & _ & H).
  apply bind_Ok in H as (v' & Hsd & H). apply ptr_vec_swapdel_init in Hsd.
  destruct (bool_decide (0 < init v')).
  - apply bind_Ok in H as (pnew & _ & H). apply bind_Ok in H as (pn & Hpn & H).
    apply deref_Ok in Hpn. rewrite procs_set_state_vec in Hpn.
    injection H as <-. rewrite state_vec_set_procs, state_vec_set_same.
    split; [done|]. split; [|split].
    + intros s Hs. by rewrite state_vec_set_procs, state_vec_set_other.
    + simpl. rewrite procs_set_state_vec. by apply heap_mod_idx_insert.
    + by destruct sel.
  - injection H as <-. rewrite state_vec_set_same. split; [done|]. split; [|split].
    + intros s Hs. by rewrite state_vec_set_other.
    + rewrite procs_set_state_vec. apply heap_mod_idx_refl.
    + apply same_rest_set_state_vec.
Qed.

Lemma remove_proc_from_state_vec_count (wb : Z) (b : block) (p : ptr) (st st1 : rt_state) :
  remove_proc_from_state_vec wb b p st = Ok st1 →
  ∃ pr, procs st !! p = Some pr
    ∧ S (init (state_vec st1 (get_state_vec (state pr))))
      = init (state_vec st (get_state_vec (state pr)))
    ∧ (∀ s, s ≠ get_state_vec (state pr) → state_vec st1 s = state_vec st s)
    ∧ heap_mod_idx (procs st) (procs st1) ∧ same_rest st st1.
Proof.
  intros H. unfold remove_proc_from_state_vec, get_proc_vec in H.
  apply bind_Ok in H as (sel0 & Hsel & H).
  apply bind_Ok in Hsel as (pr & Hpr & Hsel). apply deref_Ok in Hpr.
  injection Hsel as <-.
  apply bind_Ok in H as (pr0 & _ & H).
  apply bind_Ok in H as (x & _ & H). apply bind_Ok in H as (u & _ & H).
  apply bind_Ok in H as (stA & Hsd & H).
  apply bind_Ok in H as (v' & Htrim & H). injection H as <-.
  destruct (proc_vec_swapdel_count _ _ _ _ Hsd) as (Hc & Hoth & Hheap & Hrest).
  apply ptr_vec_trim_init in Htrim.
  exists pr. split; [done|]. rewrite state_vec_set_same. split; [lia|]. split; [|split].
  - intros s Hs. rewrite state_vec_set_other by done. by apply Hoth.
  - by rewrite procs_set_state_vec.
  - eapply same_rest_trans; [done|]. apply same_rest_set_state_vec.
Qed.

Lemma add_proc_to_state_vec_count (wb : Z) (b : block) (p : ptr) (st st' : rt_state) :
  add_proc_to_state_vec wb b p st = Ok st' →
  ∃ pr, procs st !! p = Some pr
    ∧ init (state_vec st' (get_state_vec (state pr)))
      = S (init (state_vec st (get_state_vec (state pr))))
    ∧ (∀ s, s ≠ get_state_vec (state pr) → state_vec st' s = state_vec st s)
    ∧ heap_mod_idx (procs st) (procs st') ∧ same_rest st st'.
Proof.
  intros H. unfold add_proc_to_state_vec, get_proc_vec in H.
  apply bind_Ok in H as (sel0 & Hsel & H).
  apply bind_Ok in Hsel as (pr & Hpr & Hsel). apply deref_Ok in Hpr.
  injection Hsel as <-.
  apply bind_Ok in H as (pr0 & Hpr0 & H). apply deref_Ok in Hpr0.
  apply bind_Ok in H as (v' & Hpush & H). injection H as <-. simplify_eq.
  apply ptr_vec_push_init in Hpush.
  exists pr. split; [done|]. rewrite state_vec_set_same. split; [done|]. split; [|split].
  - intros s Hs. by rewrite state_vec_set_other, state_vec_set_procs.
  - rewrite procs_set_state_vec. simpl. by apply heap_mod_idx_insert.
  - by destruct (get_state_vec (state pr)).
Qed.

Lemma same_rest_set_procs (st : rt_state) (h : gmap Z rust_proc) :
  same_rest st (set_procs st h).
Proof. done. Qed.

(** A transition takes one slot from the vector of the source state and
    adds one to the vector of the destination state. *)
Lemma proc_state_transition_count (wb : Z) (o : bufs) (p : ptr) (src dst : proc_state_t)
    (st st' : rt_state) :
  proc_state_transition wb o p src dst st = Ok st' →
  (∀ s, init (state_vec st' s) + (if bool_decide (s = get_state_vec src) then 1 else 0)
        = init (state_vec st s) + (if bool_decide (s = get_state_vec dst) then 1 else 0))
  ∧ same_rest st st'.
Proof.
  intros H. unfold proc_state_transition in H.
  apply bind_Ok in H as (pr & Hpr & H). apply deref_Ok in Hpr.
  apply bind_Ok in H as (u & Hsrc & H). apply assert_Ok, bool_decide_eq_true in Hsrc.
  apply bind_Ok in H as (st1 & Hrm & H).
  apply bind_Ok in H as (pr1 & Hpr1 & H). apply deref_Ok in Hpr1.
  destruct (remove_proc_from_state_vec_count _ _ _ _ _ Hrm) as (pr0 & Hpr0 & Hc1 & Ho1 & _ & Hr1).
  assert (pr0 = pr) as -> by congruence. rewrite Hsrc in *.
  destruct (add_proc_to_state_vec_count _ _ _ _ _ H) as (pr2 & Hpr2 & Hc2 & Ho2 & _ & Hr2).
  simpl in Hpr2. rewrite lookup_insert_eq in Hpr2. injection Hpr2 as <-. simpl in *.
  rewrite !state_vec_set_procs in Hc2.
  split.
  - intros s.
    assert (Hdst : init (state_vec st' s)
              = init (state_vec st1 s) + (if bool_decide (s = get_state_vec dst) then 1 else 0)).
    { case_bool_decide as E; [subst s; rewrite Hc2; lia|].
      rewrite Ho2, state_vec_set_procs by done. lia. }
    rewrite Hdst. destruct (decide (s = get_state_vec src)) as [->|E].
    + rewrite (bool_decide_eq_true_2 (get_state_vec src = get_state_vec src)) by done.
      destruct (bool_decide (get_state_vec src = get_state_vec dst)); lia.
    + rewrite (bool_decide_eq_false_2 (s = get_state_vec src)) by done.
      rewrite Ho1 by done. lia.
  - eapply same_rest_trans; [done|]. eapply same_rest_trans; [|done]. done.
Qed.

Lemma n_live_procs_sum (st : rt_state) :
  n_live_procs st = init (state_vec st sel_running) + init (state_vec st sel_blocked).
Proof. done. Qed.

Lemma proc_state_transition_live (wb : Z) (o : bufs) (p : ptr) (src dst : proc_state_t)
    (st st' : rt_state) :
  proc_state_transition wb o p src dst st = Ok st' → n_live_procs st' = n_live_procs st.
Proof.
  intros H. destruct (proc_state_transition_count _ _ _ _ _ _ _ H) as [Hc _].
  rewrite !n_live_procs_sum.
  pose proof (Hc sel_running). pose proof (Hc sel_blocked).
  destruct src, dst; simpl in *; lia.
Qed.

(** A proc registered after it has been taken out of a vector, or moved
    between the vectors, was registered before. *)
Lemma proc_vec_swapdel_back (sel : vec_sel) (p : ptr) (st st1 : rt_state) :
  sched_inv st → proc_vec_swapdel sel p st = Ok st1 →
  ∀ q, registered st1 q → registered st q.
Proof.
  intros Hinv H q (s & j & [Hj Hq]). unfold proc_vec_swapdel in H.
  apply bind_Ok in H as (u1 & _ & H).
  apply bind_Ok in H as (pr & Hpr & H).
  apply bind_Ok in H as (x & _ & H). apply bind_Ok in H as (u2 & _ & H).
  apply bind_Ok in H as (v' & Hsd & H).
  destruct (ptr_vec_swapdel_spec _ _ _ (proj2 (proj2 (sched_inv_vec st sel Hinv))) Hsd)
    as (_ & Hidx & Hinit & _ & _ & Hmoved & Hkept).
  assert (Hvec : state_vec st1 s = state_vec (set_state_vec st sel v') s).
  { destruct (bool_decide (0 < init v')).
    - apply bind_Ok in H as (pnew & _ & H). apply bind_Ok in H as (pn & _ & H).
      injection H as <-. apply state_vec_set_procs.
    - by injection H as <-. }
  rewrite Hvec in Hj, Hq. destruct (decide (sel = s)) as [<-|Hne].
  - rewrite state_vec_set_same in Hj, Hq.
    destruct (decide (j = idx pr)) as [->|Hji].
    + exists sel, (init v'). split; [lia|]. rewrite <- Hmoved by lia. done.
    + exists sel, j. split; [lia|]. by rewrite <- Hkept.
  - rewrite state_vec_set_other in Hj, Hq by done. by exists s, j.
Qed.

Lemma remove_proc_from_state_vec_back (wb : Z) (b : block) (p : ptr) (st st1 : rt_state) :
  sched_inv st → remove_proc_from_state_vec wb b p st = Ok st1 →
  ∀ q, registered st1 q → registered st q.
Proof.
  intros Hinv H q (s & j & Hq). unfold remove_proc_from_state_vec, get_proc_vec in H.
  apply bind_Ok in H as (sel0 & _ & H).
  apply bind_Ok in H as (pr0 & _ & H).
  apply bind_Ok in H as (x & _ & H). apply bind_Ok in H as (u & _ & H).
  apply bind_Ok in H as (stA & Hsd & H).
  apply bind_Ok in H as (v' & Htrim & H). injection H as <-.
  destruct (proc_vec_swapdel_inv _ _ _ _ Hinv Hsd) as (HinvA & _).
  rewrite (sched_inv_trim _ _ _ _ _ _ HinvA Htrim) in Hq.
  apply (proc_vec_swapdel_back _ _ _ _ Hinv Hsd). by exists s, j.
Qed.

Lemma proc_state_transition_registered (wb : Z) (o : bufs) (p : ptr)
    (src dst : proc_state_t) (st st' : rt_state) :
  sched_inv st → proc_state_transition wb o p src dst st = Ok st' →
  ∀ q, registered st' q ↔ registered st q.
Proof.
  intros Hinv H q. split; [|by apply (proc_state_transition_inv _ _ _ _ _ _ _ Hinv H)].
  destruct (proc_state_transition_inv _ _ _ _ _ _ _ Hinv H) as (_ & (pr & _ & _ & Hlp & _) & _).
  unfold proc_state_transition in H.
  apply bind_Ok in H as (pr0 & Hpr0 & H).
  apply bind_Ok in H as (u & _ & H).
  apply bind_Ok in H as (st1 & Hrm & H).
  apply bind_Ok in H as (pr1 & Hpr1 & H). apply deref_Ok in Hpr1.
  destruct (remove_proc_from_state_vec_inv _ _ _ _ _ Hinv Hrm) as (Hinv1 & Hnr1 & _).
  pose proof Hinv as (_ & _ & Hs). destruct (Hs _ _ _ Hlp) as (Hnn & _).
  set (h2 := <[p:=set_state pr1 dst]> (procs st1)) in *.
  destruct (sched_inv_set_procs_unregistered st1 p h2 Hinv1 Hnr1) as (Hinv2 & Hl2).
  { intros k Hk. unfold h2. by rewrite lookup_insert_ne. }
  assert (Hnr2 : ¬ registered (set_procs st1 h2) p).
  { intros (s & j & Hq). apply Hnr1. exists s, j. by apply Hl2. }
  destruct (add_proc_to_state_vec_inv _ _ _ _ _ Hinv2 Hnr2 Hnn H) as (_ & _ & _ & Hback & _).
  intros Hq. destruct (Hback q Hq) as [->|(s & j & Hl)].
  - by exists (get_state_vec src), (idx pr).
  - apply (remove_proc_from_state_vec_back _ _ _ _ _ Hinv Hrm). exists s, j. by apply Hl2.
Qed.

(** X6. [proc_state_transition] conserves the number of live procs: when
    the two states belong to different vectors one slot moves from the
    source's vector to the destination's, otherwise both counts stay.
    Nothing but the two vectors and the proc store changes, and under the
    scheduler invariant the same procs are registered before and after. *)
Theorem proc_state_transition_counts (wb : Z) (o : bufs) (p : ptr) (src dst : proc_state_t)
    (st st' : rt_state) :
  proc_state_transition wb o p src dst st = Ok st' →
  n_live_procs st' = n_live_procs st
  ∧ (get_state_vec src = get_state_vec dst →
       init (running_procs st') = init (running_procs st)
       ∧ init (blocked_procs st') = init (blocked_procs st))
  ∧ (get_state_vec src ≠ get_state_vec dst →
       S (init (state_vec st' (get_state_vec src))) = init (state_vec st (get_state_vec src))
       ∧ init (state_vec st' (get_state_vec dst))
         = S (init (state_vec st (get_state_vec dst))))
  ∧ same_rest st st'
  ∧ (sched_inv st → ∀ q, registered st' q ↔ registered st q).
Proof.
  intros H. split; [by eapply proc_state_transition_live|].
  destruct (proc_state_transition_count _ _ _ _ _ _ _ H) as [Hc Hrest].
  pose proof (Hc sel_running) as Hr. pose proof (Hc sel_blocked) as Hb.
  split; [|split; [|split; [done|]]].
  3: { intros Hinv. by eapply proc_state_transition_registered. }
  - intros E. rewrite E in Hr, Hb. simpl in Hr, Hb.
    destruct (bool_decide (sel_running = get_state_vec dst));
      destruct (bool_decide (sel_blocked = get_state_vec dst)); lia.
  - intros E. destruct (get_state_vec src), (get_state_vec dst); simpl in *; try done; lia.
Qed.

Lemma proc_state_transition_counts_witness :
  ∃ st', proc_state_transition 4 ex_bufs 16 proc_state_running proc_state_blocked_writing ex_pair
         = Ok st'
    ∧ n_live_procs st' = 2 ∧ S (init (running_procs st')) = 2
    ∧ init (blocked_procs st') = 1.
Proof.
  destruct (proc_state_transition 4 ex_bufs 16 proc_state_running proc_state_blocked_writing ex_pair)
    as [st'| |] eqn:E; [|vm_compute in E; discriminate E|vm_compute in E; discriminate E].
  exists st'. split; [reflexivity|].
  destruct (proc_state_transition_counts _ _ _ _ _ _ _ E) as (Hn & _ & Hmove & _).
  split; [exact Hn|]. apply Hmove. discriminate.
Defined.

Lemma attempt_rendezvous_live (wb : Z) (o : bufs) (src dst : ptr) (st st' : rt_state)
    (ok : bool) :
  attempt_rendezvous wb o src dst st = Ok (ok, st') → n_live_procs st' = n_live_procs st.
Proof.
  intros H. unfold attempt_rendezvous in H.
  apply bind_Ok in H as (u1 & _ & H). apply bind_Ok in H as (u2 & _ & H).
  apply bind_Ok in H as (ps & _ & H). apply bind_Ok in H as (pd & _ & H).
  destruct (_ && _); [|by injection H as _ <-].
  apply bind_Ok in H as (st2 & H2 & H). apply bind_Ok in H as (st3 & H3 & H).
  injection H as _ <-.
  apply proc_state_transition_live in H2, H3. rewrite H3, H2. done.
Qed.

Lemma upcall_send_live (wb : Z) (o : bufs) (src chan : ptr) (st st' : rt_state) :
  upcall_send wb o src chan st = Ok st' → n_live_procs st' = n_live_procs st.
Proof.
  intros H. unfold upcall_send in H.
  apply bind_Ok in H as (u1 & _ & H).
  apply bind_Ok in H as (c & Hc & H). apply bind_Ok in H as (u2 & _ & H).
  apply bind_Ok in H as (pt & Hpt & H).
  case_bool_decide; [|by injection H as <-].
  apply bind_Ok in H as (st2 & Ht & H).
  apply bind_Ok in H as (pt2 & Hpt2 & H).
  apply bind_Ok in H as ([ok st3] & Hr & H).
  apply proc_state_transition_live in Ht. apply attempt_rendezvous_live in Hr.
  assert (n_live_procs st3 = n_live_procs st) as <- by (rewrite Hr, Ht; done).
  destruct ok; [by injection H as <-|].
  apply bind_Ok in H as (c3 & Hc3 & H).
  destruct (queued c3); [by injection H as <-|].
  apply bind_Ok in H as (pt3 & Hpt3 & H). apply bind_Ok in H as (w & Hw & H).
  by injection H as <-.
Qed.

Lemma upcall_recv_live (wb : Z) (o : bufs) (r : nat) (dst port : ptr) (st st' : rt_state) :
  upcall_recv wb o r dst port st = Ok st' → n_live_procs st' = n_live_procs st.
Proof.
  intros H. unfold upcall_recv in H.
  apply bind_Ok in H as (u1 & _ & H). apply bind_Ok in H as (pt & Hpt & H).
  apply bind_Ok in H as (u2 & _ & H). apply bind_Ok in H as (u3 & _ & H).
  apply bind_Ok in H as (u4 & _ & H).
  apply bind_Ok in H as (st1 & Ht & H).
  apply bind_Ok in H as (pt1 & Hpt1 & H).
  apply proc_state_transition_live in Ht.
  case_bool_decide; [|by injection H as <-].
  apply bind_Ok in H as (schan & Hsc & H). apply bind_Ok in H as (sc & Hsc' & H).
  apply bind_Ok in H as (u5 & _ & H).
  apply bind_Ok in H as ([ok st2] & Hr & H).
  apply attempt_rendezvous_live in Hr.
  destruct ok; [|injection H as <-; by rewrite Hr].
  apply bind_Ok in H as (st3 & Hsd & H).
  apply bind_Ok in H as (pt3 & Hpt3 & H). apply bind_Ok in H as (w & Hw & H).
  apply bind_Ok in H as (sc4 & Hsc4 & H). injection H as <-.
  destruct (chan_vec_swapdel_sched _ _ _ _ Hsd) as (Hr3 & Hb3 & _).
  unfold n_live_procs in *. simpl. rewrite Hr3, Hb3. lia.
Qed.

Lemma handle_upcall_live (wb off : Z) (e : env) (proc : ptr) (pr : rust_proc)
    (st st' : rt_state) :
  procs st !! proc = Some pr → handle_upcall wb off e proc st = Ok st' →
  n_live_procs st'
  = n_live_procs st + (if bool_decide (upcall_code pr = upcall_code_sched) then 1 else 0).
Proof.
  intros Hpr H. unfold handle_upcall in H.
  apply bind_Ok in H as (pr0 & Hpr0 & H). apply deref_Ok in Hpr0.
  assert (pr0 = pr) as -> by congruence.
  apply bind_Ok in H as (st1 & Hcase & H).
  apply bind_Ok in H as (pr1 & Hpr1 & H). injection H as <-.
  change (n_live_procs (set_procs st1 _)) with (n_live_procs st1).
  destruct (upcall_code pr) eqn:Hcode; simpl; rewrite ?Nat.add_0_r.
  - by injection Hcase as <-.
  - by injection Hcase as <-.
  - apply bind_Ok in Hcase as ([p st2] & Hnew & Hcase). injection Hcase as <-.
    unfold spawn_proc in Hnew.
    destruct (new_proc_inv _ _ _ _ _ _ _ _ Hnew) as (_ & _ & _ & Hr & Hb & _).
    unfold n_live_procs. simpl. by rewrite Hr, Hb.
  - unfold upcall_check_expr in Hcase. case_bool_decide; [|by injection Hcase as <-].
    apply bind_Ok in Hcase as (pr2 & Hpr2 & Hcase). by injection Hcase as <-.
  - apply bind_Ok in Hcase as ([p st2] & Hm & Hcase). injection Hcase as <-.
    apply bind_Ok in Hm as (p' & _ & Hm). by injection Hm as <- <-.
  - destruct (upcall_free_sched _ _ _ Hcase) as (Hr & Hb & _).
    unfold n_live_procs. by rewrite Hr, Hb.
  - unfold upcall_new_port in Hcase.
    apply bind_Ok in Hcase as ([p st2] & Hnew & Hcase). injection Hcase as <-.
    apply bind_Ok in Hnew as (port & _ & Hnew). apply bind_Ok in Hnew as (w & _ & Hnew).
    by injection Hnew as <- <-.
  - unfold upcall_del_port in Hcase. inv_res Hcase. by injection Hcase as <-.
  - unfold upcall_new_chan in Hcase.
    apply bind_Ok in Hcase as ([p st2] & Hnew & Hcase). injection Hcase as <-.
    apply bind_Ok in Hnew as (u & _ & Hnew).
    apply bind_Ok in Hnew as (chan & _ & Hnew). apply bind_Ok in Hnew as (w & _ & Hnew).
    by injection Hnew as <- <-.
  - unfold upcall_del_chan in Hcase. inv_res Hcase. by injection Hcase as <-.
  - by apply upcall_send_live in Hcase.
  - by apply upcall_recv_live in Hcase.
  - destruct (add_proc_to_state_vec_count _ _ _ _ _ Hcase) as (pa & _ & Hc & Ho & _).
    rewrite !n_live_procs_sum.
    destruct (get_state_vec (state pa)).
    + rewrite Hc, (Ho sel_blocked) by done. lia.
    + rewrite Hc, (Ho sel_running) by done. lia.
Qed.

(** X7. Of all upcalls only [sched] changes the number of live procs, by
    one: an upcall never takes a proc away from the scheduler. *)
Theorem handle_upcall_live_count (wb off : Z) (e : env) (proc : ptr) (pr : rust_proc)
    (st st' : rt_state) :
  procs st !! proc = Some pr → handle_upcall wb off e proc st = Ok st' →
  n_live_procs st'
  = n_live_procs st + (if bool_decide (upcall_code pr = upcall_code_sched) then 1 else 0).
Proof. apply handle_upcall_live. Qed.

Lemma handle_upcall_live_count_witness :
  ∃ st', handle_upcall 4 20 ex_env 16 ex_spawn = Ok st' ∧ n_live_procs st' = 1.
Proof.
  destruct (handle_upcall 4 20 ex_env 16 ex_spawn) as [st'| |] eqn:E;
    [|vm_compute in E; discriminate E|vm_compute in E; discriminate E].
  exists st'. split; [reflexivity|].
  exact (handle_upcall_live_count 4 20 ex_env 16
           (mk_proc 1024 80 0 proc_state_calling_c 0 0 upcall_code_spawn
              [400; 80; 0; 0; 0; 0; 0; 0]%Z) ex_spawn st' eq_refl E).
Defined.

Lemma exit_proc_live (wb : Z) (b : block) (p : ptr) (st st' : rt_state) :
  exit_proc wb b p st = Ok st' → S (n_live_procs st') = n_live_procs st.
Proof.
  intros H. unfold exit_proc in H.
  apply bind_Ok in H as (u1 & _ & H). apply bind_Ok in H as (u2 & _ & H).
  apply bind_Ok in H as (sel & _ & H).
  apply bind_Ok in H as (st1 & Hsd & H). apply bind_Ok in H as (st2 & Hdel & H).
  apply bind_Ok in H as (v' & Htrim & H). injection H as <-.
  destruct (proc_vec_swapdel_count _ _ _ _ Hsd) as (Hc & Ho & _).
  destruct (del_proc_sched _ _ _ Hdel) as (Hr & Hb & _).
  apply ptr_vec_trim_init in Htrim.
  rewrite !n_live_procs_sum. destruct sel; simpl in *.
  - rewrite Htrim, Hr, Hb. specialize (Ho sel_blocked). simpl in Ho. rewrite Ho by done. lia.
  - rewrite Htrim, Hr, Hb. specialize (Ho sel_running). simpl in Ho. rewrite Ho by done. lia.
Qed.

Lemma del_rt_empty (st : rt_state) :
  n_live_procs st = 0 → del_rt st = Ok st.
Proof.
  unfold n_live_procs. intros Hz. unfold del_rt, del_all_procs. simpl.
  rewrite (bool_decide_eq_true_2 (init (running_procs st) = 0)) by lia. simpl.
  rewrite (bool_decide_eq_true_2 (init (blocked_procs st) = 0)) by lia. simpl.
  unfold fini_ptr_vec.
  rewrite (bool_decide_eq_true_2 (init (running_procs st) = 0)) by lia. simpl.
  by rewrite (bool_decide_eq_true_2 (init (blocked_procs st) = 0)) by lia.
Qed.

(** X8. A round of the driver loop changes the number of live procs by +1
    for a sched upcall and by -1 for an exiting proc, and by nothing else.
    The loop breaks exactly when no live proc is left, which happens only in
    a round in which the last live proc exits; [del_rt] then finds both
    vectors empty, frees no proc, and [rust_start] returns 0. *)
Theorem loop_body_live_count (wb off : Z) (y : yield) (e : env) (p : ptr) (st : rt_state)
    (r : option ptr) (st' : rt_state) :
  loop_body wb off y e p st = Ok (r, st') →
  n_live_procs st' + (if bool_decide (y_state y = proc_state_exiting) then 1 else 0)
  = n_live_procs st
    + (if bool_decide (y_state y = proc_state_calling_c ∧ y_code y = upcall_code_sched)
       then 1 else 0)
  ∧ (r = None ↔ n_live_procs st' = 0)
  ∧ (0 < n_live_procs st → r = None →
       y_state y = proc_state_exiting ∧ n_live_procs st = 1
       ∧ del_rt st' = Ok st' ∧ rust_start_fini st' = Ok 0%Z).
Proof.
  intros H.
  assert (Hr : r = None ↔ n_live_procs st' = 0).
  { unfold loop_body in H.
    apply bind_Ok in H as (pr & _ & H). apply bind_Ok in H as (st1 & _ & H).
    apply bind_Ok in H as (pr1 & _ & H). apply bind_Ok in H as (st2 & _ & H).
    case_bool_decide as Hn.
    - apply bind_Ok in H as (q & _ & H). injection H as <- <-. split; [done|lia].
    - injection H as <- <-. split; [lia|done]. }
  assert (Hcount :
    n_live_procs st' + (if bool_decide (y_state y = proc_state_exiting) then 1 else 0)
    = n_live_procs st
      + (if bool_decide (y_state y = proc_state_calling_c ∧ y_code y = upcall_code_sched)
         then 1 else 0)).
  { unfold loop_body in H.
    apply bind_Ok in H as (pr & Hpr & H). apply deref_Ok in Hpr.
    apply bind_Ok in H as (st1 & Hglue & H).
    unfold c_to_proc_glue in Hglue.
    apply bind_Ok in Hglue as (pra & Hpra & Hglue). injection Hglue as <-.
    apply bind_Ok in H as (pr1 & Hpr1 & H). apply deref_Ok in Hpr1.
    simpl in Hpr1. rewrite lookup_insert_eq in Hpr1. injection Hpr1 as <-.
    apply bind_Ok in H as (st2 & Hsw & H). simpl in Hsw.
    assert (st' = st2) as ->.
    { case_bool_decide; [|by injection H as _ <-].
      apply bind_Ok in H as (q & _ & H). by injection H as _ <-. }
    destruct (y_state y) eqn:Hy; try discriminate Hsw.
    - injection Hsw as <-.
      rewrite (bool_decide_eq_false_2 (proc_state_running = proc_state_exiting)) by done.
      rewrite bool_decide_eq_false_2 by (intros [? _]; done). done.
    - apply bind_Ok in Hsw as (st3 & Hup & Hsw).
      apply bind_Ok in Hsw as (pr3 & Hpr3 & Hsw).
      eapply handle_upcall_live in Hup; [|simpl; apply lookup_insert_eq].
      simpl in Hup.
      assert (n_live_procs st2 = n_live_procs st3) as ->.
      { destruct (bool_decide (state pr3 = proc_state_calling_c)); by injection Hsw as <-. }
      rewrite Hup.
      rewrite (bool_decide_eq_false_2 (proc_state_calling_c = proc_state_exiting)) by done.
      rewrite Nat.add_0_r.
      change (n_live_procs (set_mem _ _)) with (n_live_procs st).
      f_equal. destruct (decide (y_code y = upcall_code_sched)) as [E|E].
      + rewrite !bool_decide_eq_true_2; done.
      + rewrite !bool_decide_eq_false_2; [done| |done]. intros [_ ?]. done.
    - apply exit_proc_live in Hsw.
      rewrite (bool_decide_eq_true_2 (proc_state_exiting = proc_state_exiting)) by done.
      rewrite bool_decide_eq_false_2 by (intros [? _]; done).
      change (n_live_procs (set_mem _ _)) with (n_live_procs st) in Hsw. lia. }
  split; [done|]. split; [done|]. intros Hpos Hn. apply Hr in Hn.
  assert (Hex : y_state y = proc_state_exiting ∧ n_live_procs st = 1).
  { rewrite Hn in Hcount.
    destruct (bool_decide (y_state y = proc_state_exiting)) eqn:E1;
      destruct (bool_decide (y_state y = proc_state_calling_c ∧ y_code y = upcall_code_sched))
        eqn:E2; try lia.
    apply bool_decide_eq_true in E1. split; [done|lia]. }
  split; [tauto|]. split; [tauto|]. split; [by apply del_rt_empty|].
  unfold rust_start_fini. by rewrite del_rt_empty.
Qed.

Lemma loop_body_live_count_witness :
  ∃ r st', loop_body 4 20 ex_send_yield ex_round_env 16 ex_pair = Ok (r, st')
    ∧ n_live_procs st' + 0 = 2 + 0 ∧ (r = None ↔ n_live_procs st' = 0).
Proof.
  destruct (loop_body 4 20 ex_send_yield ex_round_env 16 ex_pair) as [[r st']| |] eqn:E;
    [|vm_compute in E; discriminate E|vm_compute in E; discriminate E].
  exists r, st'. split; [reflexivity|].
  destruct (loop_body_live_count _ _ _ _ _ _ _ _ E) as (Hc & Hr & _).
  split; [exact Hc|exact Hr].
Defined.


(** ** Deleting procs *)

Lemma exit_proc_Ok (wb : Z) (b : block) (p : ptr) (pr : rust_proc) (l : list ptr)
    (st : rt_state) :
  sched_inv st → procs st !! p = Some pr →
  live_slot st (get_state_vec (state pr)) (idx pr) p →
  refcnt pr = 0 → stk_chain (stks st) (stk pr) l → l ≠ [] → NoDup l →
  ∃ st', exit_proc wb b p st = Ok st' ∧ sched_inv st'
    ∧ procs st' !! p = None ∧ ¬ registered st' p
    ∧ S (n_live_procs st') = n_live_procs st
    ∧ (∀ q, q ≠ p → (registered st' q ↔ registered st q))
    ∧ (∀ q, q ≠ p → option_Forall2 same_but_idx (procs st !! q) (procs st' !! q))
    ∧ (∀ k, stks st' !! k = if bool_decide (k ∈ l) then None else stks st !! k)
    ∧ ports st' = ports st ∧ chans st' = chans st ∧ mem st' = mem st.
Proof.
  intros Hinv Hpr Hl Hrc Hch Hne Hnd. pose proof Hinv as (_ & _ & Hs).
  destruct (Hs _ _ _ Hl) as (Hnn & _).
  set (sel := get_state_vec (state pr)) in *.
  destruct (proc_vec_swapdel_total sel p pr st Hinv Hpr Hl) as (st1 & Hsd).
  destruct (proc_vec_swapdel_inv _ _ _ _ Hinv Hsd)
    as (Hinv1 & Hnr1 & _ & Hreg1 & Hheap1 & (Hstk1 & Hpg1 & Hpo1 & Hch1 & Hm1 & Hbl1)).
  pose proof (proc_vec_swapdel_back _ _ _ _ Hinv Hsd) as Hback1.
  destruct (heap_mod_idx_Some _ _ _ _ Hheap1 Hpr) as (pr1 & Hpr1 & Hsame).
  destruct (same_but_idx_fields _ _ Hsame) as (_ & _ & _ & Hstk & Hrc1 & _).
  assert (Hchn : stk_chain (stks st1) (stk pr1) l) by (by rewrite Hstk1, <- Hstk).
  destruct (del_stk_loop_chain l (S (size (stks st1))) (stk pr1) (stks st1))
    as (h' & Hloop & Hh'); [done|done|done| |].
  { pose proof (NoDup_keys_size (stks st1) l Hnd (λ a, stk_chain_lookup _ _ _ a Hchn)). lia. }
  assert (Hds : del_stk (stk pr1) st1 = Ok (set_stks st1 h'))
    by (unfold del_stk; by rewrite Hloop).
  set (st2 := set_procs (set_stks st1 h') (delete p (procs st1))).
  assert (Hdel : del_proc p st1 = Ok st2).
  { unfold del_proc. ok_deref Hpr1.
    rewrite (bool_decide_eq_true_2 (refcnt pr1 = 0)) by congruence. simpl.
    rewrite Hds. done. }
  assert (Hinv2 : sched_inv st2 ∧ ∀ s j q, live_slot st2 s j q ↔ live_slot st1 s j q).
  { destruct (sched_inv_set_procs_unregistered st1 p (delete p (procs st1)) Hinv1 Hnr1)
      as (Hi & Hls).
    { intros q Hq. by rewrite lookup_delete_ne. }
    split.
    - apply (sched_inv_same_sched (set_procs st1 (delete p (procs st1)))); done.
    - intros s j q. rewrite <- Hls. by apply sched_part_eq. }
  destruct Hinv2 as (Hinv2 & Hls2).
  pose proof (ptr_vec_trim_spec wb b (state_vec st2 sel) (n_live_procs st2)
                (sched_inv_vec st2 sel Hinv2)) as Htrim.
  exists st2.
  assert (E : exit_proc wb b p st = Ok st2).
  { unfold exit_proc.
    rewrite (bool_decide_eq_true_2 (p ≠ null)) by done. simpl.
    rewrite (bool_decide_eq_true_2 (0 < n_live_procs st)).
    2:{ destruct Hl as [Hlt _]. unfold n_live_procs. destruct sel; simpl in Hlt; lia. }
    simpl. unfold get_proc_vec. ok_deref Hpr. fold sel. rewrite Hsd. simpl.
    rewrite Hdel. simpl. rewrite Htrim. simpl. by rewrite set_state_vec_id. }
  split; [done|]. split; [done|]. split.
  { simpl. apply lookup_delete_eq. }
  split.
  { intros (s & j & Hq). apply Hnr1. exists s, j. by apply Hls2. }
  split; [by apply exit_proc_live in E|]. split.
  { intros q Hq. split.
    - intros (s & j & Hlq). apply Hback1. exists s, j. by apply Hls2.
    - intros Hr. destruct (Hreg1 q Hq Hr) as (s & j & Hlq). exists s, j.
      by apply Hls2. }
  split.
  { intros q Hq. simpl. rewrite lookup_delete_ne by done. apply Hheap1. }
  split.
  { intros k. simpl. by rewrite Hh', Hstk1. }
  done.
Qed.

(** X9. [del_proc] undoes [new_proc]: when [malloc] returned fresh blocks,
    deleting the new proc leaves the state as it was, apart from the words
    of the initial frame. *)
Theorem new_proc_del_proc (wb off : Z) (m_proc m_stk prg : ptr) (st : rt_state)
    (p : ptr) (st1 : rt_state) :
  new_proc wb off m_proc m_stk prg st = Ok (p, st1) →
  procs st !! m_proc = None → stks st !! m_stk = None →
  del_proc p st1 = Ok (set_mem st (mem st1)).
Proof.
  intros H Hp Hs.
  destruct (new_proc_inv _ _ _ _ _ _ _ _ H)
    as (-> & Hnp & Hns & Hr & Hb & Hpg & Hpo & Hch & Hstk & Hprocs & _ & Hbl).
  unfold del_proc. unfold deref. rewrite Hprocs, lookup_insert_eq. simpl.
  unfold del_stk. rewrite Hstk.
  change (del_stk_loop (S ?n) ?s ?h) with
    (seg ← deref h s;
     if bool_decide (stk_next seg ≠ null)
     then del_stk_loop n (stk_next seg) (delete s h)
     else Ok (delete s h)).
  unfold deref. rewrite lookup_insert_eq. simpl.
  rewrite Hprocs, !delete_insert_id by done. f_equal.
  destruct st, st1. simpl in *. unfold set_mem, set_procs, set_stks. simpl. congruence.
Qed.

Lemma new_proc_del_proc_witness :
  ∃ p st1, new_proc 4 20 4096 8192 80 ex_spawn = Ok (p, st1)
    ∧ del_proc p st1 = Ok (set_mem ex_spawn (mem st1)).
Proof.
  destruct (new_proc 4 20 4096 8192 80 ex_spawn) as [[p st1]| |] eqn:E;
    [|vm_compute in E; discriminate E|vm_compute in E; discriminate E].
  exists p, st1. split; [reflexivity|].
  apply (new_proc_del_proc 4 20 4096 8192 80 ex_spawn p st1 E); reflexivity.
Defined.

(** X10. [exit_proc] on a registered proc without references and with an
    intact stack chain returns, whatever block [realloc] would hand out (the
    trim after the removal never resizes a scheduler vector, which keeps
    its first 8 bytes).  The proc leaves its vector and the proc
    store, its stack segments are freed and one proc fewer is live; every
    other proc stays registered exactly when it was, its record changed at
    most in [idx]; ports, channels and words are untouched, and the
    scheduler invariant holds afterwards. *)
Theorem exit_proc_spec (wb : Z) (b : block) (p : ptr) (pr : rust_proc) (l : list ptr)
    (st : rt_state) :
  sched_inv st → procs st !! p = Some pr →
  live_slot st (get_state_vec (state pr)) (idx pr) p →
  refcnt pr = 0 → stk_chain (stks st) (stk pr) l → l ≠ [] → NoDup l →
  ∃ st', exit_proc wb b p st = Ok st' ∧ sched_inv st'
    ∧ procs st' !! p = None ∧ ¬ registered st' p
    ∧ S (n_live_procs st') = n_live_procs st
    ∧ (∀ q, q ≠ p → (registered st' q ↔ registered st q))
    ∧ (∀ q, q ≠ p → option_Forall2 same_but_idx (procs st !! q) (procs st' !! q))
    ∧ (∀ k, stks st' !! k = if bool_decide (k ∈ l) then None else stks st !! k)
    ∧ ports st' = ports st ∧ chans st' = chans st ∧ mem st' = mem st.
Proof. apply exit_proc_Ok. Qed.

Lemma exit_proc_spec_witness :
  ∃ st', exit_proc 4 None 16 ex_stale = Ok st' ∧ procs st' !! 16%Z = None
    ∧ S (n_live_procs st') = 2.
Proof.
  destruct (exit_proc_spec 4 None 16
              (mk_proc 1024 0 0 proc_state_running 0 0 upcall_code_log_uint32 [])
              [1024%Z] ex_stale ex_stale_inv)
    as (st' & E & _ & Hp & _ & Hn & _).
  - reflexivity.
  - split; [simpl; lia|reflexivity].
  - reflexivity.
  - simpl. split; [reflexivity|]. split; [unfold null; lia|].
    eexists. split; [reflexivity|reflexivity].
  - discriminate.
  - apply NoDup_singleton.
  - exists st'. split; [exact E|]. split; [exact Hp|exact Hn].
Defined.


(** ** Start-up, and a root proc that exits *)

Lemma xalloc_null : xalloc null = Exit "rt: allocation failed, exiting" 123%Z.
Proof. done. Qed.

Lemma xalloc_nonnull (m : ptr) : m ≠ null → xalloc m = Ok m.
Proof. intros H. unfold xalloc. by rewrite bool_decide_eq_false_2. Qed.

Lemma slots_pos (wb : Z) : (0 < wb ≤ 8)%Z → ∃ k, slots wb INIT_PTR_VEC_SZ = S k.
Proof.
  intros Hwb. unfold slots, INIT_PTR_VEC_SZ. change (Z.of_nat 8) with 8%Z.
  assert (1 ≤ 8 / wb)%Z by (apply Z.div_le_lower_bound; lia).
  exists (Nat.pred (Z.to_nat (8 / wb))). lia.
Qed.

Lemma rust_start_init_Ok (wb off : Z) (m_rt : ptr) (e : env) (prg : ptr)
    (pg : gmap Z rust_prog) (m0 : gmap Z Z) :
  (1 < wb ≤ 8)%Z → is_Some (pg !! prg) → m_rt ≠ null →
  is_Some (e_bufs e [0]) → is_Some (e_bufs e [1]) →
  e_block1 e ≠ null → e_block2 e ≠ null →
  ∃ st, rust_start_init wb off m_rt e prg pg m0 = Ok (e_block1 e, st)
    ∧ sched_inv st
    ∧ live (running_procs st) = [e_block1 e] ∧ live (blocked_procs st) = []
    ∧ n_live_procs st = 1
    ∧ procs st = {[ e_block1 e :=
         fresh_proc (e_block2 e) prg
           (frame_top wb off (e_block2 e) - (3 + Z.of_nat n_callee_saves) * wb) ]}
    ∧ stks st = {[ e_block2 e := mk_stk null null init_stk_bytes 0 ]}
    ∧ progs st = pg ∧ ports st = ∅ ∧ chans st = ∅ ∧ blocks st = ∅.
Proof.
  intros Hwb [pgm Hpg] Hrt [j0 Hv0] [j1 Hv1] Hb1 Hb2.
  destruct (slots_pos wb) as (k & Hk); [lia|].
  assert (E : ∃ st, rust_start_init wb off m_rt e prg pg m0 = Ok (e_block1 e, st)
    ∧ live (running_procs st) = [e_block1 e] ∧ live (blocked_procs st) = []
    ∧ n_live_procs st = 1
    ∧ procs st = {[ e_block1 e :=
         fresh_proc (e_block2 e) prg
           (frame_top wb off (e_block2 e) - (3 + Z.of_nat n_callee_saves) * wb) ]}
    ∧ stks st = {[ e_block2 e := mk_stk null null init_stk_bytes 0 ]}
    ∧ progs st = pg ∧ ports st = ∅ ∧ chans st = ∅ ∧ blocks st = ∅).
  { unfold rust_start_init. unfold deref at 1. rewrite Hpg. simpl.
    unfold new_rt, xcalloc. rewrite xalloc_nonnull by done. simpl.
    unfold init_ptr_vec, xalloc_buf. rewrite Hv0, Hv1, Hk. simpl.
    unfold spawn_proc, new_proc, xcalloc, new_stk.
    rewrite xalloc_nonnull by done. simpl.
    unfold deref at 1. rewrite Hpg. simpl.
    rewrite xalloc_nonnull by done. simpl.
    unfold add_proc_to_state_vec, get_proc_vec, deref. simpl.
    rewrite lookup_insert_eq. simpl.
    unfold ptr_vec_push, vec_set. simpl.
    unfold sched, n_live_procs. simpl.
    eexists. split; [reflexivity|]. simpl.
    split; [done|]. split; [done|]. split; [done|]. split; [|done].
    rewrite insert_insert_eq. done. }
  destruct E as (st & E & H).
  exists st. split; [done|]. split; [|done].
  destruct (rust_start_init_inv _ _ _ _ _ _ _ _ _ (proj1 Hwb) E) as (Hinv & _). done.
Qed.

(** X11. Start-up of [rust_start].  The fields of the prog are read first, so
    a prog pointer that holds no prog is undefined behaviour whatever
    [malloc] does.  Otherwise, if [malloc] fails for the runtime, for the
    buffer of either scheduler vector, for the root proc or for its stack,
    the program exits with status 123.  If all five succeed, on a platform
    whose pointers take 2 to 8 bytes, the root proc is the only registered
    proc, in slot 0 of the running vector, and it is the proc [sched] picks
    whatever [rand] returns. *)
Theorem rust_start_init_spec (wb off : Z) (m_rt : ptr) (e : env) (prg : ptr)
    (pg : gmap Z rust_prog) (m0 : gmap Z Z) :
  (pg !! prg = None → rust_start_init wb off m_rt e prg pg m0 = Abort)
  ∧ (is_Some (pg !! prg) →
     m_rt = null ∨ e_bufs e [0] = None ∨ e_bufs e [1] = None
       ∨ e_block1 e = null ∨ e_block2 e = null →
     rust_start_init wb off m_rt e prg pg m0 = Exit "rt: allocation failed, exiting" 123%Z)
  ∧ ((1 < wb ≤ 8)%Z → is_Some (pg !! prg) → m_rt ≠ null →
     is_Some (e_bufs e [0]) → is_Some (e_bufs e [1]) →
     e_block1 e ≠ null → e_block2 e ≠ null →
       ∃ st, rust_start_init wb off m_rt e prg pg m0 = Ok (e_block1 e, st)
         ∧ sched_inv st
         ∧ live (running_procs st) = [e_block1 e] ∧ live (blocked_procs st) = []
         ∧ n_live_procs st = 1
         ∧ procs st = {[ e_block1 e :=
              fresh_proc (e_block2 e) prg
                (frame_top wb off (e_block2 e) - (3 + Z.of_nat n_callee_saves) * wb) ]}
         ∧ stks st = {[ e_block2 e := mk_stk null null init_stk_bytes 0 ]}
         ∧ progs st = pg ∧ ports st = ∅ ∧ chans st = ∅ ∧ blocks st = ∅).
Proof.
  split; [|split].
  - intros Hpg. unfold rust_start_init, deref. by rewrite Hpg.
  - intros [pgm Hpg] H. unfold rust_start_init. unfold deref at 1. rewrite Hpg. simpl.
    unfold new_rt, xcalloc.
    destruct (decide (m_rt = null)) as [->|Hrt]; [done|].
    rewrite xalloc_nonnull by done. simpl.
    unfold init_ptr_vec, xalloc_buf.
    destruct (e_bufs e [0]) as [j0|]; [|done]. simpl.
    destruct (e_bufs e [1]) as [j1|]; [|done]. simpl.
    unfold spawn_proc, new_proc, xcalloc.
    destruct (decide (e_block1 e = null)) as [->|Hb1]; [done|].
    rewrite xalloc_nonnull by done. simpl.
    destruct H as [?|[?|[?|[?|Hb2]]]]; [done..|].
    unfold deref. rewrite Hpg. simpl. unfold new_stk. by rewrite Hb2.
  - apply rust_start_init_Ok.
Qed.

Lemma rust_start_init_spec_witness :
  rust_start_init 4 20 900 ex_env 81 ex_progs ∅ = Abort
  ∧ rust_start_init 4 20 0 ex_env 80 ex_progs ∅ = Exit "rt: allocation failed, exiting" 123%Z
  ∧ ∃ st, rust_start_init 4 20 900 ex_env 80 ex_progs ∅ = Ok (4096%Z, st)
      ∧ live (running_procs st) = [4096%Z] ∧ n_live_procs st = 1.
Proof.
  destruct (rust_start_init_spec 4 20 900 ex_env 81 ex_progs ∅) as (Hbad & _).
  destruct (rust_start_init_spec 4 20 0 ex_env 80 ex_progs ∅) as (_ & Hexit & _).
  destruct (rust_start_init_spec 4 20 900 ex_env 80 ex_progs ∅) as (_ & _ & Hok).
  split; [apply Hbad; reflexivity|].
  split; [apply Hexit; [eexists; reflexivity|left; reflexivity]|].
  destruct Hok as (st & E & _ & Hrun & _ & Hn & _).
  - lia.
  - eexists. reflexivity.
  - unfold null. lia.
  - eexists. reflexivity.
  - eexists. reflexivity.
  - unfold null. simpl. lia.
  - unfold null. simpl. lia.
  - exists st. split; [exact E|]. split; [exact Hrun|exact Hn].
Defined.

(** [loop_body] once the record of the proc is known. *)
Lemma loop_body_glued (wb off : Z) (y : yield) (e : env) (p : ptr) (pr : rust_proc)
    (st : rt_state) :
  procs st !! p = Some pr →
  loop_body wb off y e p st =
  (st2 ← after_yield wb off y e p (glued y p pr st);
   if bool_decide (0 < n_live_procs st2)
   then q ← sched (e_rand_sched e) st2; Ok (Some q, st2)
   else Ok (None, st2)).
Proof.
  intros Hpr. unfold loop_body. ok_deref Hpr. unfold c_to_proc_glue. simpl.
  rewrite deref_insert. simpl. rewrite deref_insert. simpl.
  rewrite insert_insert_eq.
  assert (Hg : ∀ h0,
    set_mem (set_procs (set_procs st h0)
      (<[p := mk_proc (stk pr) (prog pr) (y_sp y) (y_state y) (idx pr) (refcnt pr)
                (y_code y) (resize PROC_MAX_UPCALL_ARGS 0%Z (y_args y))]> (procs st)))
      (y_mem y) = glued y p pr st) by reflexivity.
  rewrite Hg. unfold after_yield. done.
Qed.

(** The loop sets the state of the proc it runs to Running, whatever it was. *)
Lemma loop_body_ignores_state (wb off : Z) (y : yield) (e : env) (p : ptr)
    (pr : rust_proc) (s : proc_state_t) (st : rt_state) :
  procs st !! p = Some pr →
  loop_body wb off y e p (set_procs st (<[p := set_state pr s]> (procs st)))
  = loop_body wb off y e p st.
Proof.
  intros Hpr. rewrite (loop_body_glued _ _ _ _ _ pr st Hpr).
  rewrite (loop_body_glued _ _ _ _ _ (set_state pr s))
    by (simpl; apply lookup_insert_eq).
  unfold glued. simpl. by rewrite insert_insert_eq.
Qed.

(** X12. A program whose root proc comes back from its first activation in
    state Exiting, on a platform whose pointers take 2 to 8 bytes and with
    every [malloc] of the start-up succeeding: the loop deletes the proc and
    its stack and breaks, and [rust_start] returns 0 with no proc and no
    stack segment left. *)
Theorem rust_start_root_exits (wb off : Z) (m_rt : ptr) (e : env) (prg : ptr)
    (pg : gmap Z rust_prog) (m0 : gmap Z Z) (y : yield) (e1 : env)
    (rounds : list (yield * env)) :
  (1 < wb ≤ 8)%Z → is_Some (e_bufs e [0]) → is_Some (e_bufs e [1]) →
  m_rt ≠ null → e_block1 e ≠ null → e_block2 e ≠ null → is_Some (pg !! prg) →
  y_state y = proc_state_exiting →
  ∃ st st', rust_start_init wb off m_rt e prg pg m0 = Ok (e_block1 e, st)
    ∧ loop_body wb off y e1 (e_block1 e) st = Ok (None, st')
    ∧ procs st' = ∅ ∧ stks st' = ∅ ∧ n_live_procs st' = 0 ∧ mem st' = y_mem y
    ∧ rust_start wb off m_rt e prg pg m0 ((y, e1) :: rounds) = Ok (Some 0%Z).
Proof.
  intros Hwb Hv0 Hv1 Hrt Hb1 Hb2 Hpg Hy.
  destruct (rust_start_init_Ok wb off m_rt e prg pg m0 Hwb Hpg Hrt Hv0 Hv1 Hb1 Hb2)
    as (st & E & Hinv & Hrun & Hblk & Hn & Hprocs & Hstks & _).
  set (p := e_block1 e) in *.
  set (pr := fresh_proc (e_block2 e) prg
               (frame_top wb off (e_block2 e) - (3 + Z.of_nat n_callee_saves) * wb)) in *.
  assert (Hpr : procs st !! p = Some pr) by (rewrite Hprocs; apply lookup_singleton_eq).
  assert (Hl : live_slot st sel_running 0 p).
  { pose proof (sched_inv_vec st sel_running Hinv) as Hv. simpl in Hv.
    pose proof (live_length _ (proj2 (proj2 Hv))) as Hlen. rewrite Hrun in Hlen.
    simpl in Hlen.
    split; simpl; [lia|]. rewrite <- live_lookup by lia. by rewrite Hrun. }
  set (g := glued y p pr st).
  assert (Hinvg : sched_inv g) by (apply glued_inv; [done|done|done|by rewrite Hy]).
  destruct (exit_proc_Ok wb (e_bufs e1 []) p (mk_proc (stk pr) (prog pr) (y_sp y) (y_state y) (idx pr)
              (refcnt pr) (y_code y) (resize PROC_MAX_UPCALL_ARGS 0%Z (y_args y)))
              [e_block2 e] g)
    as (st' & Hex & Hinv' & Hp' & _ & Hlive & _ & Hprocs' & Hstks' & _ & _ & Hmem');
    try done.
  { unfold g, glued. simpl. apply lookup_insert_eq. }
  { simpl. by rewrite Hy. }
  { simpl. split; [done|]. split; [done|]. eexists. split.
    - change (stks g) with (stks st). rewrite Hstks. apply lookup_singleton_eq.
    - reflexivity. }
  { apply NoDup_singleton. }
  assert (Hn' : n_live_procs st' = 0).
  { change (n_live_procs g) with (n_live_procs st) in Hlive. lia. }
  assert (Hloop : loop_body wb off y e1 p st = Ok (None, st')).
  { rewrite (loop_body_glued _ _ _ _ _ pr) by done. fold g. unfold after_yield.
    rewrite Hy. rewrite Hex. simpl. by rewrite bool_decide_eq_false_2 by lia. }
  exists st, st'. split; [done|]. split; [done|]. split.
  { apply map_eq. intros q. rewrite lookup_empty. destruct (decide (q = p)) as [->|Hq]; [done|].
    specialize (Hprocs' q Hq). unfold g, glued in Hprocs'. simpl in Hprocs'.
    rewrite lookup_insert_ne, Hprocs, lookup_singleton_ne in Hprocs' by done.
    by inversion Hprocs'. }
  split.
  { apply map_eq. intros k. rewrite Hstks', lookup_empty. case_bool_decide as Hk; [done|].
    change (stks g) with (stks st). rewrite Hstks. apply lookup_singleton_ne.
    intros Ek. apply Hk. rewrite <- Ek. left. }
  split; [done|]. split; [done|].
  unfold rust_start. rewrite E. simpl. rewrite Hloop. simpl.
  unfold rust_start_fini. by rewrite del_rt_empty.
Qed.

Lemma rust_start_root_exits_witness :
  rust_start 4 20 900 ex_env 80 ex_progs ∅ [(ex_exit_yield, ex_round_env)] = Ok (Some 0%Z).
Proof.
  destruct (rust_start_root_exits 4 20 900 ex_env 80 ex_progs ∅ ex_exit_yield ex_round_env [])
    as (st & st' & _ & _ & _ & _ & _ & _ & E).
  - lia.
  - eexists. reflexivity.
  - eexists. reflexivity.
  - unfold null. lia.
  - unfold null. simpl. lia.
  - unfold null. simpl. lia.
  - eexists. reflexivity.
  - reflexivity.
  - exact E.
Defined.


(** ** Procs that block *)

Lemma upcall_recv_blocks (wb : Z) (o : bufs) (r : nat) (dst port : ptr) (g : rt_state)
    (pt : rust_port) (pd : rust_proc) :
  sched_inv g → port ≠ null → ports g !! port = Some pt → port_proc pt = dst →
  init (writers pt) = 0 →
  procs g !! dst = Some pd → state pd = proc_state_calling_c →
  live_slot g sel_running (idx pd) dst →
  room (blocked_procs g) 1 →
  ∃ g' pd', upcall_recv wb o r dst port g = Ok g' ∧ sched_inv g' ∧ same_rest g g'
    ∧ procs g' !! dst = Some pd' ∧ same_but_idx (set_state pd proc_state_blocked_reading) pd'
    ∧ live_slot g' sel_blocked (idx pd') dst
    ∧ S (init (running_procs g')) = init (running_procs g)
    ∧ init (blocked_procs g') = S (init (blocked_procs g))
    ∧ (∀ q, registered g q → registered g' q)
    ∧ (∀ q, q ≠ dst → option_Forall2 same_but_idx (procs g !! q) (procs g' !! q))
    ∧ (∀ s, length (data (state_vec g' s)) = length (data (state_vec g s))).
Proof.
  intros Hinv Hportn Hpt Hown Hw Hpd Hsd Hld Hroom. subst dst.
  pose proof Hinv as (_ & _ & Hs). destruct (Hs _ _ _ Hld) as (Hdn & _).
  destruct (proc_state_transition_total wb (sub 0 o) (port_proc pt) pd
              proc_state_blocked_reading g Hinv Hpd)
    as (g1 & Ht); [by rewrite Hsd|by intros _|].
  rewrite Hsd in Ht.
  destruct (proc_state_transition_shape _ _ _ _ _ _ _ Hinv Ht) as (Hlen1 & _).
  destruct (proc_state_transition_inv _ _ _ _ _ _ _ Hinv Ht)
    as (Hinv1 & (pd0 & Hpd0 & _ & _ & Hh1) & (pd1 & Hpd1 & Hsd1 & Hld1) & Hreg1 & Hrest1).
  assert (pd0 = pd) as -> by congruence.
  destruct (proc_state_transition_count _ _ _ _ _ _ _ Ht) as [Hc _].
  pose proof Hrest1 as (_ & _ & Hports1 & _).
  assert (Hpt1 : ports g1 !! port = Some pt) by (by rewrite Hports1).
  exists g1, pd1. split.
  { unfold upcall_recv.
    ok_assert (port ≠ null). ok_deref Hpt. ok_assert (port_proc pt ≠ null).
    ok_assert (port_proc pt = port_proc pt). rewrite Ht. simpl. ok_deref Hpt1.
    by rewrite (bool_decide_eq_false_2 (0 < init (writers pt))) by lia. }
  split; [done|]. split; [done|]. split; [done|].
  destruct (heap_mod_idx_at _ _ (port_proc pt) (port_proc pt) _ Hh1) as (Hd1 & _).
  destruct (Hd1 eq_refl) as (b & Hb & Hsb). assert (b = pd1) as -> by congruence.
  split; [done|]. split; [exact Hld1|].
  pose proof (Hc sel_running) as Hcr. pose proof (Hc sel_blocked) as Hcb.
  simpl in Hcr, Hcb. split; [lia|]. split; [lia|]. split; [done|]. split; [|done].
  intros q Hq. by destruct (heap_mod_idx_at _ _ (port_proc pt) q _ Hh1) as (_ & Hq1); auto.
Qed.

(** X13. A receive on the caller's own port without queued writer, while
    the buffer of the blocked vector has a free slot, blocks the caller: it
    moves from the running to the blocked vector in state BlockedReading.
    No word is copied, no other proc, port or channel changes, and neither
    vector's buffer is resized. *)
Theorem upcall_recv_no_writer (wb : Z) (o : bufs) (r : nat) (dst port : ptr)
    (g : rt_state) (pt : rust_port) (pd : rust_proc) :
  sched_inv g → port ≠ null → ports g !! port = Some pt → port_proc pt = dst →
  init (writers pt) = 0 →
  procs g !! dst = Some pd → state pd = proc_state_calling_c →
  live_slot g sel_running (idx pd) dst →
  room (blocked_procs g) 1 →
  ∃ g' pd', upcall_recv wb o r dst port g = Ok g' ∧ sched_inv g' ∧ same_rest g g'
    ∧ procs g' !! dst = Some pd' ∧ same_but_idx (set_state pd proc_state_blocked_reading) pd'
    ∧ live_slot g' sel_blocked (idx pd') dst
    ∧ S (init (running_procs g')) = init (running_procs g)
    ∧ init (blocked_procs g') = S (init (blocked_procs g))
    ∧ (∀ q, registered g q → registered g' q)
    ∧ (∀ q, q ≠ dst → option_Forall2 same_but_idx (procs g !! q) (procs g' !! q))
    ∧ (∀ s, length (data (state_vec g' s)) = length (data (state_vec g s))).
Proof. apply upcall_recv_blocks. Qed.

Lemma upcall_recv_no_writer_witness :
  ∃ g' pd', upcall_recv 4 ex_bufs 0 32 48 ex_recv_wait = Ok g'
    ∧ procs g' !! 32%Z = Some pd' ∧ live_slot g' sel_blocked (idx pd') 32
    ∧ S (init (running_procs g')) = 1.
Proof.
  destruct (upcall_recv_no_writer 4 ex_bufs 0 32 48 ex_recv_wait (mk_port 0 0 32 ex_vec0)
              (mk_proc 2048 80 0 proc_state_calling_c 0 0 upcall_code_recv
                 [400; 48; 0; 0; 0; 0; 0; 0]%Z) ex_recv_wait_inv)
    as (g' & pd' & E & _ & _ & Hpd & _ & Hl & Hr & _).
  - unfold null. lia.
  - reflexivity.
  - reflexivity.
  - reflexivity.
  - reflexivity.
  - reflexivity.
  - split; [simpl; lia|reflexivity].
  - unfold room. simpl. lia.
  - exists g', pd'. split; [exact E|]. split; [exact Hpd|]. split; [exact Hl|exact Hr].
Defined.

Lemma upcall_send_blocks (wb : Z) (o : bufs) (src chan : ptr) (g : rt_state)
    (c : rust_chan) (pt : rust_port) (ps pd : rust_proc) :
  sched_inv g → chan ≠ null → chans g !! chan = Some c → chan_port c ≠ null →
  ports g !! chan_port c = Some pt → port_proc pt ≠ null → vec_inv (writers pt) →
  procs g !! src = Some ps → state ps = proc_state_calling_c →
  live_slot g sel_running (idx ps) src →
  procs g !! port_proc pt = Some pd →
  port_proc pt = src ∨ state pd ≠ proc_state_blocked_reading →
  room (blocked_procs g) 1 → (queued c = false → room (writers pt) 1) →
  ∃ g' ps', upcall_send wb o src chan g = Ok g' ∧ sched_inv g' ∧ mem g' = mem g
    ∧ procs g' !! src = Some ps'
    ∧ same_but_idx (set_state ps proc_state_blocked_writing) ps'
    ∧ live_slot g' sel_blocked (idx ps') src
    ∧ S (init (running_procs g')) = init (running_procs g)
    ∧ init (blocked_procs g') = S (init (blocked_procs g))
    ∧ (∀ q, q ≠ src → option_Forall2 same_but_idx (procs g !! q) (procs g' !! q))
    ∧ (queued c = true →
         ports g' = ports g ∧ chans g' = <[chan := set_chan_proc c src]> (chans g))
    ∧ (queued c = false →
         ∃ w, ptr_vec_push wb (o [2]) (writers pt) chan = Ok w
           ∧ ports g' = <[chan_port c := set_writers pt w]> (ports g)
           ∧ chans g' = <[chan := mk_chan (chan_port c) src true (init (writers pt)) (buf c)]>
                          (chans g)
           ∧ writer_slot g' (chan_port c) (init (writers pt)) chan
           ∧ upcall_del_port (chan_port c) g' = Abort)
    ∧ (∀ s, length (data (state_vec g' s)) = length (data (state_vec g s))).
Proof.
  intros Hinv Hcn Hc Hpn Hpt Hown Hvw Hps Hss Hls Hpd Hnot Hroom Hroomw.
  set (g1 := set_chans g (<[chan:=set_chan_proc c src]> (chans g))).
  assert (Hinv1 : sched_inv g1) by (by apply (sched_inv_same_sched g)).
  destruct (proc_state_transition_total wb (sub 0 o) src ps proc_state_blocked_writing
              g1 Hinv1 Hps)
    as (g2 & Ht); [by rewrite Hss|by intros _|].
  rewrite Hss in Ht.
  destruct (proc_state_transition_shape _ _ _ _ _ _ _ Hinv1 Ht) as (Hlen2 & _).
  destruct (proc_state_transition_inv _ _ _ _ _ _ _ Hinv1 Ht)
    as (Hinv2 & (ps0 & Hps0 & _ & _ & Hh2) & (ps2 & Hps2 & Hss2 & Hls2) & Hreg2 & Hrest2).
  destruct Hrest2 as (_ & _ & Hports2 & Hchans2 & Hmem2 & _).
  destruct (proc_state_transition_count _ _ _ _ _ _ _ Ht) as [Hcnt _].
  pose proof (Hcnt sel_running) as Hcr. pose proof (Hcnt sel_blocked) as Hcb.
  simpl in Hcr, Hcb. change (running_procs g1) with (running_procs g) in Hcr.
  change (blocked_procs g1) with (blocked_procs g) in Hcb.
  assert (Hpt2 : ports g2 !! chan_port c = Some pt) by (by rewrite Hports2).
  simpl in Hps0. assert (ps0 = ps) as -> by congruence.
  destruct (heap_mod_idx_at _ _ src src _ Hh2) as (Hsrc2 & _).
  destruct (Hsrc2 eq_refl) as (b & Hb & Hsb). assert (b = ps2) as -> by congruence.
  assert (Hpd2 : ∃ pd2, procs g2 !! port_proc pt = Some pd2
                  ∧ state pd2 ≠ proc_state_blocked_reading).
  { destruct (decide (port_proc pt = src)) as [E|E].
    - exists ps2. rewrite E. split; [done|]. by rewrite Hss2.
    - destruct Hnot as [?|Hnot]; [done|].
      destruct (heap_mod_idx_at _ _ src (port_proc pt) _ Hh2) as (_ & Hd2).
      specialize (Hd2 E). simpl in Hd2. rewrite Hpd in Hd2.
      apply option_Forall2_Some_l in Hd2 as (pd2 & Hpd2 & Hsd2).
      exists pd2. split; [done|]. by rewrite <- (same_but_idx_state _ _ Hsd2). }
  destruct Hpd2 as (pd2 & Hpd2 & Hsd2).
  assert (Hsn : src ≠ null).
  { pose proof Hinv as (_ & _ & Hs). by destruct (Hs _ _ _ Hls). }
  assert (Hr : attempt_rendezvous wb (sub 1 o) src (port_proc pt) g2 = Ok (false, g2)).
  { apply (attempt_rendezvous_fail wb (sub 1 o) src (port_proc pt) g2 ps2 pd2
             Hsn Hown Hps2 Hpd2).
    intros [_ ?]. done. }
  assert (Hc2 : chans g2 !! chan = Some (set_chan_proc c src)).
  { rewrite Hchans2. simpl. apply lookup_insert_eq. }
  assert (Hframe : ∀ q, q ≠ src → option_Forall2 same_but_idx (procs g !! q) (procs g2 !! q)).
  { intros q Hq. by destruct (heap_mod_idx_at _ _ src q _ Hh2) as (_ & Hq2); auto. }
  assert (Hpre :
    upcall_send wb o src chan g
    = (if queued c then Ok g2 else
         w ← ptr_vec_push wb (o [2]) (writers pt) chan;
         Ok (set_chans (set_ports g2 (<[chan_port c := set_writers pt w]> (ports g2)))
               (<[chan := set_queued (set_chan_idx (set_chan_proc c src)
                                        (init (writers pt))) true]> (chans g2))))).
  { unfold upcall_send.
    ok_assert (chan ≠ null). ok_deref Hc. ok_assert (chan_port c ≠ null).
    ok_deref Hpt. ok_assert (port_proc pt ≠ null). fold g1. rewrite Ht. simpl.
    ok_deref Hpt2. rewrite Hr. simpl. ok_deref Hc2. destruct (queued c); [done|].
    by ok_deref Hpt2. }
  rewrite Hpre. clear Hpre.
  destruct (queued c) eqn:Hq.
  - exists g2, ps2. split; [done|]. split; [done|]. split; [done|]. split; [done|].
    split; [done|]. split; [done|]. split; [lia|]. split; [lia|].
    split; [done|]. split; [|done].
    intros _. split; [done|]. by rewrite Hchans2.
  - destruct (ptr_vec_push_total wb (o [2]) (writers pt) chan Hvw (Hroomw eq_refl))
      as (w & Hw).
    destruct (ptr_vec_push_spec _ _ _ _ _ Hvw Hw) as (Hvw' & Hiw & _ & Hnew & Hkept & _).
    rewrite Hw. simpl. eexists _, ps2. split; [done|].
    split; [by apply (sched_inv_same_sched g2)|]. split; [done|]. split; [done|].
    split; [done|]. split; [done|]. split; [simpl; lia|]. split; [simpl; lia|].
    split; [done|]. split; [done|]. split; [|done].
    intros _. exists w. split; [done|]. simpl. split; [by rewrite Hports2|]. split.
    { rewrite Hchans2. simpl. by rewrite insert_insert_eq. }
    split.
    { eexists. simpl. split; [apply lookup_insert_eq|]. simpl. split; [lia|done]. }
    unfold upcall_del_port, deref. simpl. rewrite lookup_insert_eq. simpl.
    destruct (bool_decide (live_refcnt pt = 0)); simpl; [|done].
    unfold fini_ptr_vec. by rewrite bool_decide_eq_false_2 by lia.
Qed.

(** X14. A send to a port whose owner is not waiting in a receive (or is
    the sender itself), while the buffer of the blocked vector has a free
    slot, blocks the sender in state BlockedWriting.  A channel that is not
    queued yet is appended to the writer vector of the port, whose buffer
    must have a free slot for it,
    with [queued] set and [idx] naming its slot, and from then on [del_port]
    on that port fails its assertion; a channel that is queued already is
    not queued a second time. *)
Theorem upcall_send_queues (wb : Z) (o : bufs) (src chan : ptr) (g : rt_state)
    (c : rust_chan) (pt : rust_port) (ps pd : rust_proc) :
  sched_inv g → chan ≠ null → chans g !! chan = Some c → chan_port c ≠ null →
  ports g !! chan_port c = Some pt → port_proc pt ≠ null → vec_inv (writers pt) →
  procs g !! src = Some ps → state ps = proc_state_calling_c →
  live_slot g sel_running (idx ps) src →
  procs g !! port_proc pt = Some pd →
  port_proc pt = src ∨ state pd ≠ proc_state_blocked_reading →
  room (blocked_procs g) 1 → (queued c = false → room (writers pt) 1) →
  ∃ g' ps', upcall_send wb o src chan g = Ok g' ∧ sched_inv g' ∧ mem g' = mem g
    ∧ procs g' !! src = Some ps'
    ∧ same_but_idx (set_state ps proc_state_blocked_writing) ps'
    ∧ live_slot g' sel_blocked (idx ps') src
    ∧ S (init (running_procs g')) = init (running_procs g)
    ∧ init (blocked_procs g') = S (init (blocked_procs g))
    ∧ (∀ q, q ≠ src → option_Forall2 same_but_idx (procs g !! q) (procs g' !! q))
    ∧ (queued c = true →
         ports g' = ports g ∧ chans g' = <[chan := set_chan_proc c src]> (chans g))
    ∧ (queued c = false →
         ∃ w, ptr_vec_push wb (o [2]) (writers pt) chan = Ok w
           ∧ ports g' = <[chan_port c := set_writers pt w]> (ports g)
           ∧ chans g' = <[chan := mk_chan (chan_port c) src true (init (writers pt)) (buf c)]>
                          (chans g)
           ∧ writer_slot g' (chan_port c) (init (writers pt)) chan
           ∧ upcall_del_port (chan_port c) g' = Abort)
    ∧ (∀ s, length (data (state_vec g' s)) = length (data (state_vec g s))).
Proof. apply upcall_send_blocks. Qed.

Lemma upcall_send_queues_witness :
  ∃ g', upcall_send 4 ex_bufs 16 64 ex_send_wait = Ok g'
    ∧ writer_slot g' 48 0 64 ∧ upcall_del_port 48 g' = Abort.
Proof.
  destruct (upcall_send_queues 4 ex_bufs 16 64 ex_send_wait (mk_chan 48 16 false 0 ex_vec0)
              (mk_port 0 0 32 ex_vec0)
              (mk_proc 1024 80 0 proc_state_calling_c 0 0 upcall_code_send
                 [64; 7; 0; 0; 0; 0; 0; 0]%Z)
              (mk_proc 2048 80 0 proc_state_running 1 0 upcall_code_log_uint32
                 [0; 0; 0; 0; 0; 0; 0; 0]%Z) ex_send_wait_inv)
    as (g' & ps' & E & _ & _ & _ & _ & _ & _ & _ & _ & _ & Hq & _).
  - unfold null. lia.
  - reflexivity.
  - unfold null. simpl. lia.
  - reflexivity.
  - unfold null. simpl. lia.
  - apply ex_vec0_inv.
  - reflexivity.
  - reflexivity.
  - split; [simpl; lia|reflexivity].
  - reflexivity.
  - right. discriminate.
  - unfold room. simpl. lia.
  - intros _. unfold room. simpl. lia.
  - destruct (Hq eq_refl) as (w & _ & _ & _ & Hw & Hd).
    exists g'. split; [exact E|]. split; [exact Hw|exact Hd].
Defined.

Lemma recv_round_deadlock (wb off : Z) (x port : Z) (rest : list Z) (nsp : Z) (m : gmap Z Z)
    (e : env) (p : ptr) (i : nat) (st : rt_state) (pt : rust_port) :
  sched_inv st → live_slot st sel_running i p → init (running_procs st) = 1 →
  room (blocked_procs st) 1 →
  port ≠ null → ports st !! port = Some pt → port_proc pt = p → init (writers pt) = 0 →
  loop_body wb off (recv_yield x port rest nsp m) e p st
  = Exit "rt: no schedulable processes" 1%Z.
Proof.
  intros Hinv Hl Hone Hroom Hportn Hpt Hown Hw.
  pose proof Hinv as (_ & _ & Hs).
  destruct (Hs _ _ _ Hl) as (_ & pr & Hpr & Hidx & Hcls).
  set (y := recv_yield x port rest nsp m).
  set (g := glued y p pr st).
  assert (Hinvg : sched_inv g) by (by apply glued_inv).
  set (rec := mk_proc (stk pr) (prog pr) nsp proc_state_calling_c (idx pr) (refcnt pr)
                upcall_code_recv (resize PROC_MAX_UPCALL_ARGS 0%Z (x :: port :: rest))).
  assert (Hrec : procs g !! p = Some rec) by (unfold g, glued; simpl; apply lookup_insert_eq).
  destruct (upcall_recv_blocks wb (e_bufs e) (e_rand_recv e) p port g pt rec)
    as (g' & pd' & Hrecv & Hinv' & _ & Hpd' & Hsame & Hld' & Hrun & Hblk & _); try done.
  { unfold live_slot in *. simpl. by rewrite Hidx. }
  pose proof (handle_upcall_recv_total wb off e p rec g g' pd' Hrec eq_refl Hrecv Hpd') as Hup.
  rewrite (loop_body_glued _ _ _ _ _ pr) by done. fold y g. unfold after_yield.
  change (y_state y) with proc_state_calling_c. cbv iota.
  rewrite Hup. simpl. rewrite deref_insert. simpl.
  apply same_but_idx_state in Hsame. simpl in Hsame.
  rewrite (bool_decide_eq_false_2 (state pd' = proc_state_calling_c)) by congruence.
  unfold sched, n_live_procs. simpl.
  change (running_procs g) with (running_procs st) in Hrun.
  rewrite (bool_decide_eq_true_2 (0 < init (running_procs g') + init (blocked_procs g')))
    by lia. simpl.
  by rewrite (bool_decide_eq_false_2 (0 < init (running_procs g'))) by lia.
Qed.

Lemma send_round_deadlock (wb off : Z) (chan v : Z) (rest : list Z) (nsp : Z) (m : gmap Z Z)
    (e : env) (p : ptr) (i : nat) (st : rt_state) (c : rust_chan) (pt : rust_port)
    (pd : rust_proc) :
  sched_inv st → live_slot st sel_running i p → init (running_procs st) = 1 →
  room (blocked_procs st) 1 →
  chan ≠ null → chans st !! chan = Some c → chan_port c ≠ null →
  ports st !! chan_port c = Some pt → port_proc pt ≠ null → vec_inv (writers pt) →
  (queued c = false → room (writers pt) 1) →
  procs st !! port_proc pt = Some pd →
  port_proc pt = p ∨ state pd ≠ proc_state_blocked_reading →
  loop_body wb off (send_yield chan v rest nsp m) e p st
  = Exit "rt: no schedulable processes" 1%Z.
Proof.
  intros Hinv Hl Hone Hroom Hcn Hc Hpn Hpt Hown Hvw Hroomw Hpd Hnot.
  pose proof Hinv as (_ & _ & Hs).
  destruct (Hs _ _ _ Hl) as (_ & pr & Hpr & Hidx & Hcls).
  set (y := send_yield chan v rest nsp m).
  set (g := glued y p pr st).
  assert (Hinvg : sched_inv g) by (by apply glued_inv).
  set (rec := mk_proc (stk pr) (prog pr) nsp proc_state_calling_c (idx pr) (refcnt pr)
                upcall_code_send (resize PROC_MAX_UPCALL_ARGS 0%Z (chan :: v :: rest))).
  assert (Hrec : procs g !! p = Some rec) by (unfold g, glued; simpl; apply lookup_insert_eq).
  assert (Hgd : ∃ pd', procs g !! port_proc pt = Some pd'
                 ∧ (port_proc pt = p ∨ state pd' ≠ proc_state_blocked_reading)).
  { destruct (decide (port_proc pt = p)) as [E|E].
    - exists rec. rewrite E. split; [done|by left].
    - exists pd. unfold g, glued. simpl. rewrite lookup_insert_ne by done.
      split; [done|]. destruct Hnot; [done|by right]. }
  destruct Hgd as (pd' & Hpd' & Hnot').
  destruct (upcall_send_blocks wb (e_bufs e) p chan g c pt rec pd')
    as (g' & ps' & Hsend & Hinv' & _ & Hps' & Hsame & Hls' & Hrun & Hblk & _); try done.
  { unfold live_slot in *. simpl. by rewrite Hidx. }
  pose proof (handle_upcall_send_total wb off e p rec g g' ps' Hrec eq_refl Hsend Hps') as Hup.
  rewrite (loop_body_glued _ _ _ _ _ pr) by done. fold y g. unfold after_yield.
  change (y_state y) with proc_state_calling_c. cbv iota.
  rewrite Hup. simpl. rewrite deref_insert. simpl.
  apply same_but_idx_state in Hsame. simpl in Hsame.
  rewrite (bool_decide_eq_false_2 (state ps' = proc_state_calling_c)) by congruence.
  unfold sched, n_live_procs. simpl.
  change (running_procs g) with (running_procs st) in Hrun.
  rewrite (bool_decide_eq_true_2 (0 < init (running_procs g') + init (blocked_procs g')))
    by lia. simpl.
  by rewrite (bool_decide_eq_false_2 (0 < init (running_procs g'))) by lia.
Qed.

(** X15. Deadlock.  When the only proc of the running vector blocks, in a
    receive on its port without queued writer or in a send that no receiver
    is waiting for, and the buffers written on the way have a free slot
    (the blocked vector's, and the writer vector's when the channel is yet
    to be queued), the round ends in [sched] printing its diagnostic and
    [exit(1)]. *)
Theorem last_runner_blocks (wb off : Z) (e : env) (p : ptr) (i : nat) (st : rt_state) :
  sched_inv st → live_slot st sel_running i p → init (running_procs st) = 1 →
  room (blocked_procs st) 1 →
  (∀ x port rest nsp m pt,
     port ≠ null → ports st !! port = Some pt → port_proc pt = p → init (writers pt) = 0 →
     loop_body wb off (recv_yield x port rest nsp m) e p st
     = Exit "rt: no schedulable processes" 1%Z)
  ∧ (∀ chan v rest nsp m c pt pd,
       chan ≠ null → chans st !! chan = Some c → chan_port c ≠ null →
       ports st !! chan_port c = Some pt → port_proc pt ≠ null → vec_inv (writers pt) →
       (queued c = false → room (writers pt) 1) →
       procs st !! port_proc pt = Some pd →
       port_proc pt = p ∨ state pd ≠ proc_state_blocked_reading →
       loop_body wb off (send_yield chan v rest nsp m) e p st
       = Exit "rt: no schedulable processes" 1%Z).
Proof.
  intros Hinv Hl Hone Hroom. split.
  - intros. by eapply recv_round_deadlock.
  - intros. by eapply send_round_deadlock.
Qed.

Lemma last_runner_blocks_witness :
  loop_body 4 20 ex_recv_yield ex_round_env 32 ex_single
  = Exit "rt: no schedulable processes" 1%Z.
Proof.
  refine (proj1 (last_runner_blocks 4 20 ex_round_env 32 0 ex_single ex_single_inv _ _ _)
            400%Z 48%Z [] 0%Z ∅ (mk_port 0 0 32 ex_vec0) _ _ _ _).
  - split; [simpl; lia|reflexivity].
  - reflexivity.
  - unfold room. simpl. lia.
  - unfold null. lia.
  - reflexivity.
  - reflexivity.
  - reflexivity.
Defined.

(** A round in which a proc blocks in a receive while another proc can run. *)
Lemma round_recv_blocks (wb off : Z) (x port : Z) (rest : list Z) (nsp : Z) (m : gmap Z Z)
    (e : env) (A B : ptr) (i j : nat) (st : rt_state) (pt : rust_port) :
  sched_inv st → live_slot st sel_running i B → live_slot st sel_running j A → A ≠ B →
  port ≠ null → ports st !! port = Some pt → port_proc pt = B → init (writers pt) = 0 →
  room (blocked_procs st) 1 →
  ∃ q st1 prB, loop_body wb off (recv_yield x port rest nsp m) e B st = Ok (Some q, st1)
    ∧ sched_inv st1
    ∧ procs st1 !! B = Some prB ∧ state prB = proc_state_blocked_reading ∧ arg prB 0 = x
    ∧ live_slot st1 sel_blocked (idx prB) B
    ∧ (∃ k, live_slot st1 sel_running k A)
    ∧ ports st1 = ports st ∧ chans st1 = chans st
    ∧ S (init (running_procs st1)) = init (running_procs st)
    ∧ init (blocked_procs st1) = S (init (blocked_procs st))
    ∧ (∀ s, length (data (state_vec st1 s)) = length (data (state_vec st s))).
Proof.
  intros Hinv Hl HlA Hne Hportn Hpt Hown Hw Hroom.
  pose proof Hinv as (_ & _ & Hs).
  destruct (Hs _ _ _ Hl) as (_ & pr & Hpr & Hidx & Hcls).
  destruct (Hs _ _ _ HlA) as (_ & pa & Hpa & Hidxa & Hclsa).
  set (y := recv_yield x port rest nsp m).
  set (g := glued y B pr st).
  assert (Hinvg : sched_inv g) by (by apply glued_inv).
  set (rec := mk_proc (stk pr) (prog pr) nsp proc_state_calling_c (idx pr) (refcnt pr)
                upcall_code_recv (resize PROC_MAX_UPCALL_ARGS 0%Z (x :: port :: rest))).
  assert (Hrec : procs g !! B = Some rec) by (unfold g, glued; simpl; apply lookup_insert_eq).
  destruct (upcall_recv_blocks wb (e_bufs e) (e_rand_recv e) B port g pt rec)
    as (g' & pd' & Hrecv & Hinv' & Hrest & Hpd' & Hsame & Hld' & Hrun & Hblk & Hreg
        & Hframe & Hlen);
    try done.
  { unfold live_slot in *. simpl. by rewrite Hidx. }
  pose proof (handle_upcall_recv_total wb off e B rec g g' pd' Hrec eq_refl Hrecv Hpd') as Hup.
  set (fin := set_upcall_code pd' upcall_code_log_uint32).
  set (s1 := set_procs g' (<[B := fin]> (procs g'))) in *.
  assert (Hinv1 : sched_inv s1) by (by eapply sched_inv_update).
  assert (HA1 : ∃ k, live_slot s1 sel_running k A).
  { assert (Hr : registered g' A) by (apply Hreg; by exists sel_running, j).
    specialize (Hframe A Hne). unfold g, glued in Hframe. simpl in Hframe.
    rewrite lookup_insert_ne, Hpa in Hframe by done.
    apply option_Forall2_Some_l in Hframe as (pa' & Hpa' & Hsa).
    pose proof (registered_slot _ _ _ Hinv' Hr Hpa') as Hla.
    rewrite <- (same_but_idx_state _ _ Hsa), Hclsa in Hla. exists (idx pa'). exact Hla. }
  destruct HA1 as (k & HA1).
  destruct (sched_total (e_rand_sched e) s1 _ _ Hinv1 HA1) as (q & Hq).
  pose proof (same_but_idx_state _ _ Hsame) as Hst. simpl in Hst.
  pose proof (same_but_idx_arg _ _ 0 Hsame) as Harg.
  exists q, s1, fin. split.
  { rewrite (loop_body_glued _ _ _ _ _ pr) by done. fold y g. unfold after_yield.
    change (y_state y) with proc_state_calling_c. cbv iota.
    rewrite Hup. simpl. rewrite deref_insert. simpl.
    rewrite (bool_decide_eq_false_2 (state pd' = proc_state_calling_c)) by congruence.
    fold fin s1. simpl. rewrite bool_decide_eq_true_2.
    - by rewrite Hq.
    - unfold n_live_procs. destruct HA1 as [Hk _]. simpl in Hk.
      change (running_procs s1) with (running_procs g'). lia. }
  split; [done|]. split; [apply lookup_insert_eq|]. split; [simpl; congruence|].
  split; [change (arg fin 0) with (arg pd' 0); by rewrite <- Harg|].
  split; [done|]. split; [by exists k|].
  destruct Hrest as (_ & _ & Hp & Hc & _). done.
Qed.

Lemma ex_two_ports_inv : sched_inv ex_two_ports.
Proof.
  apply sched_inv_intro.
  - intros []; simpl; [apply vec_inv_concrete; simpl; lia|].
    apply ex_vec0_inv.
  - solve_slot_ok.
Qed.

(** X16. A proc blocked in a receive is woken by a send on any channel whose
    port it owns, not only on a channel of the port it is receiving from:
    when the buffer of the blocked vector has two free slots (one for the
    receiver, one for the sender on its way through the blocked vector),
    the value goes to the address of the pending receive and both procs are
    Running afterwards. *)
Theorem send_completes_any_receive (wb off : Z) (A B chan P1 x v : Z) (restA restB : list Z)
    (spA spB : Z) (mA mB : gmap Z Z) (e1 e2 : env) (st : rt_state) (i j : nat)
    (c : rust_chan) (pt1 pt2 : rust_port) :
  sched_inv st → live_slot st sel_running i B → live_slot st sel_running j A → A ≠ B →
  P1 ≠ null → ports st !! P1 = Some pt1 → port_proc pt1 = B → init (writers pt1) = 0 →
  chan ≠ null → chans st !! chan = Some c → chan_port c ≠ null →
  ports st !! chan_port c = Some pt2 → port_proc pt2 = B →
  room (blocked_procs st) 2 →
  ∃ q st1 q' st2,
    loop_body wb off (recv_yield x P1 restB spB mB) e1 B st = Ok (Some q, st1)
    ∧ loop_body wb off (send_yield chan v restA spA mA) e2 A st1 = Ok (Some q', st2)
    ∧ mem st2 !! x = Some v
    ∧ in_state st2 A proc_state_running ∧ in_state st2 B proc_state_running.
Proof.
  intros Hinv HlB HlA Hne HP1 Hpt1 Hown1 Hw1 Hcn Hc Hpn Hpt2 Hown2 Hroom.
  destruct (round_recv_blocks wb off x P1 restB spB mB e1 A B i j st pt1)
    as (q & st1 & prB & E1 & Hinv1 & HprB & HsB & Hx & HlB1 & (k & HlA1) & Hports & Hchans
        & Hrun1 & Hblk1 & Hlen1);
    try done.
  { unfold room in *. lia. }
  pose proof (proj2 (proj2 (sched_inv_vec st sel_running Hinv))) as Hokr.
  unfold vec_ok in Hokr. simpl in Hokr.
  pose proof (Hlen1 sel_running) as Hlr. pose proof (Hlen1 sel_blocked) as Hlb.
  simpl in Hlr, Hlb.
  destruct (round_send_wakes wb off chan v restA spA mA e2 A B k st1 c pt2 prB)
    as (q' & st2 & E2 & Hm & HA & HB); try done.
  - by rewrite Hchans.
  - by rewrite Hports.
  - unfold room in *. lia.
  - unfold room. lia.
  - exists q, st1, q', st2. split; [done|]. split; [done|]. split; [by rewrite <- Hx|done].
Qed.

Lemma send_completes_any_receive_witness :
  ∃ q st1 q' st2,
    loop_body 4 20 ex_recv_yield ex_round_env 32 ex_two_ports = Ok (Some q, st1)
    ∧ loop_body 4 20 ex_send_yield ex_round_env 16 st1 = Ok (Some q', st2)
    ∧ mem st2 !! 400%Z = Some 7%Z.
Proof.
  destruct (send_completes_any_receive 4 20 16 32 64 48 400 7 [] [] 0 0 ∅ ∅
              ex_round_env ex_round_env ex_two_ports 1 0
              (mk_chan 52 16 false 0 ex_vec0) (mk_port 0 0 32 ex_vec0)
              (mk_port 0 0 32 ex_vec0) ex_two_ports_inv)
    as (q & st1 & q' & st2 & E1 & E2 & Hm & _).
  - split; [simpl; lia|reflexivity].
  - split; [simpl; lia|reflexivity].
  - lia.
  - unfold null. lia.
  - reflexivity.
  - reflexivity.
  - reflexivity.
  - unfold null. lia.
  - reflexivity.
  - unfold null. simpl. lia.
  - reflexivity.
  - reflexivity.
  - unfold room. simpl. lia.
  - exists q, st1, q', st2. split; [exact E1|]. split; [exact E2|exact Hm].
Defined.


(** ** Failed checks *)

Lemma upcall_check_expr_eq (proc : ptr) (i : Z) (st : rt_state) (pr : rust_proc) :
  procs st !! proc = Some pr →
  upcall_check_expr proc i st
  = Ok (if bool_decide ((i mod 2 ^ 32)%Z = 0%Z)
        then set_procs st (<[proc := set_state pr proc_state_exiting]> (procs st))
        else st).
Proof.
  intros Hpr. unfold upcall_check_expr. case_bool_decide; [|done]. by ok_deref Hpr.
Qed.

Lemma check_round (wb off : Z) (v : Z) (rest : list Z) (nsp : Z) (m : gmap Z Z)
    (e : env) (p : ptr) (i : nat) (st : rt_state) :
  sched_inv st → live_slot st sel_running i p →
  ∃ q st' pr', loop_body wb off (check_yield v rest nsp m) e p st = Ok (Some q, st')
    ∧ procs st' !! p = Some pr'
    ∧ state pr' = (if bool_decide ((v mod 2 ^ 32)%Z = 0%Z)
                   then proc_state_exiting else proc_state_running)
    ∧ upcall_code pr' = upcall_code_log_uint32
    ∧ live_slot st' sel_running i p
    ∧ running_procs st' = running_procs st ∧ blocked_procs st' = blocked_procs st
    ∧ stks st' = stks st ∧ ports st' = ports st ∧ chans st' = chans st ∧ mem st' = m
    ∧ (∀ q', q' ≠ p → procs st' !! q' = procs st !! q').
Proof.
  intros Hinv Hl. pose proof Hinv as (_ & _ & Hs).
  destruct (Hs _ _ _ Hl) as (_ & pr & Hpr & Hidx & Hcls).
  set (y := check_yield v rest nsp m).
  set (g := glued y p pr st).
  assert (Hinvg : sched_inv g) by (by apply glued_inv).
  set (rec := mk_proc (stk pr) (prog pr) nsp proc_state_calling_c (idx pr) (refcnt pr)
                upcall_code_check_expr (resize PROC_MAX_UPCALL_ARGS 0%Z (v :: rest))).
  assert (Hrec : procs g !! p = Some rec) by (unfold g, glued; simpl; apply lookup_insert_eq).
  set (s := if bool_decide ((v mod 2 ^ 32)%Z = 0%Z)
            then proc_state_exiting else proc_state_running).
  set (fin := mk_proc (stk pr) (prog pr) nsp s (idx pr) (refcnt pr)
                upcall_code_log_uint32 (resize PROC_MAX_UPCALL_ARGS 0%Z (v :: rest))).
  set (st' := set_procs g (<[p := fin]> (procs st))).
  assert (Hafter : after_yield wb off y e p g = Ok st').
  { unfold after_yield. change (y_state y) with proc_state_calling_c. cbv iota.
    unfold handle_upcall. ok_deref Hrec.
    change (arg rec 0) with v.
    rewrite (upcall_check_expr_eq p v g rec Hrec). unfold st', fin, s.
    unfold g, glued.
    case_bool_decide; simpl; rewrite ?deref_insert; simpl; rewrite ?deref_insert; simpl;
      rewrite ?insert_insert_eq; done. }
  assert (Hinv' : sched_inv st').
  { apply (sched_inv_same_sched (set_procs st (<[p := fin]> (procs st)))); [|done..].
    eapply sched_inv_update; [done|exact Hpr|done|]. simpl. rewrite Hcls.
    unfold s. by case_bool_decide. }
  assert (Hl' : live_slot st' sel_running i p) by done.
  destruct (sched_total (e_rand_sched e) st' _ _ Hinv' Hl') as (q & Hq).
  exists q, st', fin. split.
  { rewrite (loop_body_glued _ _ _ _ _ pr) by done. fold y g. rewrite Hafter. simpl.
    rewrite bool_decide_eq_true_2.
    - by rewrite Hq.
    - destruct Hl' as [Hi _]. unfold n_live_procs. simpl in *. lia. }
  split; [apply lookup_insert_eq|]. split; [done|]. split; [done|]. split; [done|].
  split; [done|]. split; [done|]. split; [done|]. split; [done|]. split; [done|].
  split; [done|]. intros q' Hq'. simpl. by rewrite lookup_insert_ne.
Qed.

(** X17. A round with a [check_expr] upcall.  When the low 32 bits of the
    argument are zero the proc is marked Exiting, otherwise it is Running
    again; either way it stays registered in its slot of the running vector
    and keeps its stack.  The mark does not survive: the next round of the
    proc runs as if the proc were Running. *)
Theorem check_expr_round (wb off : Z) (v : Z) (rest : list Z) (nsp : Z) (m : gmap Z Z)
    (e : env) (p : ptr) (i : nat) (st : rt_state) :
  sched_inv st → live_slot st sel_running i p →
  ∃ q st' pr', loop_body wb off (check_yield v rest nsp m) e p st = Ok (Some q, st')
    ∧ procs st' !! p = Some pr'
    ∧ state pr' = (if bool_decide ((v mod 2 ^ 32)%Z = 0%Z)
                   then proc_state_exiting else proc_state_running)
    ∧ upcall_code pr' = upcall_code_log_uint32
    ∧ live_slot st' sel_running i p
    ∧ running_procs st' = running_procs st ∧ blocked_procs st' = blocked_procs st
    ∧ stks st' = stks st ∧ ports st' = ports st ∧ chans st' = chans st ∧ mem st' = m
    ∧ (∀ q', q' ≠ p → procs st' !! q' = procs st !! q')
    ∧ (∀ y' e',
         loop_body wb off y' e' p st'
         = loop_body wb off y' e' p
             (set_procs st' (<[p := set_state pr' proc_state_running]> (procs st')))).
Proof.
  intros Hinv Hl.
  destruct (check_round wb off v rest nsp m e p i st Hinv Hl)
    as (q & st' & pr' & E & Hpr' & H).
  exists q, st', pr'. split; [done|]. split; [done|].
  repeat (split; [apply H|]).
  intros y' e'. symmetry. by apply loop_body_ignores_state.
Qed.

Lemma check_expr_round_witness :
  ∃ q st' pr', loop_body 4 20 (check_yield 0 [] 0 ∅) ex_round_env 16 ex_pair = Ok (Some q, st')
    ∧ procs st' !! 16%Z = Some pr' ∧ state pr' = proc_state_exiting
    ∧ running_procs st' = running_procs ex_pair.
Proof.
  destruct (check_expr_round 4 20 0 [] 0 ∅ ex_round_env 16 0 ex_pair ex_pair_inv)
    as (q & st' & pr' & E & Hpr & Hs & _ & _ & Hr & _).
  - split; [simpl; lia|reflexivity].
  - exists q, st', pr'. split; [exact E|]. split; [exact Hpr|]. split; [exact Hs|exact Hr].
Defined.


(** ** The queue invariant of ports *)

Lemma writer_slot_ports (st st' : rt_state) (port : ptr) (i : nat) (c : ptr) :
  ports st' = ports st → writer_slot st' port i c ↔ writer_slot st port i c.
Proof. intros E. unfold writer_slot. by rewrite E. Qed.

Lemma option_Forall2_Some_r {A} (R : A → A → Prop) (b : A) (o : option A) :
  option_Forall2 R o (Some b) → ∃ a, o = Some a ∧ R a b.
Proof. inversion 1; eauto. Qed.

(** The queue invariant reads the ports and, of a channel, only [queued],
    [port] and [idx]. *)
Lemma port_inv_transfer (st st' : rt_state) :
  port_inv st → ports st' = ports st →
  (∀ c, option_Forall2 chan_link (chans st !! c) (chans st' !! c)) →
  port_inv st'.
Proof.
  intros [[H1 H2] Hv] Hp Hc. split; [split|].
  - intros c ch' Hch' Hq. specialize (Hc c). rewrite Hch' in Hc.
    apply option_Forall2_Some_r in Hc as (ch & Hch & Eq & Ep & Ei).
    rewrite <- Ep, <- Ei. apply (writer_slot_ports st); [done|].
    apply (H1 c ch Hch). by rewrite Eq.
  - intros port i c Hw. apply (writer_slot_ports st) in Hw; [|done].
    destruct (H2 _ _ _ Hw) as (ch & Hch & Hq & Hpo & Hi).
    specialize (Hc c). rewrite Hch in Hc.
    apply option_Forall2_Some_l in Hc as (ch' & Hch' & Eq & Ep & Ei).
    exists ch'. split; [done|]. split; [congruence|]. split; congruence.
  - intros port pt Hpt. rewrite Hp in Hpt. by eapply Hv.
Qed.

Lemma port_inv_same (st st' : rt_state) :
  port_inv st → ports st' = ports st → chans st' = chans st → port_inv st'.
Proof.
  intros H Hp Hc. apply (port_inv_transfer st); [done|done|].
  intros c. rewrite Hc. destruct (chans st !! c); by constructor.
Qed.

Lemma attempt_rendezvous_rest (wb : Z) (o : bufs) (src dst : ptr) (st st' : rt_state)
    (ok : bool) :
  attempt_rendezvous wb o src dst st = Ok (ok, st') →
  ports st' = ports st ∧ chans st' = chans st ∧ stks st' = stks st.
Proof.
  intros H. unfold attempt_rendezvous in H.
  apply bind_Ok in H as (u1 & _ & H). apply bind_Ok in H as (u2 & _ & H).
  apply bind_Ok in H as (ps & _ & H). apply bind_Ok in H as (pd & _ & H).
  destruct (_ && _); [|by injection H as _ <-].
  apply bind_Ok in H as (st2 & H2 & H). apply bind_Ok in H as (st3 & H3 & H).
  injection H as _ <-.
  destruct (proc_state_transition_count _ _ _ _ _ _ _ H2) as [_ (Hs2 & _ & Hp2 & Hc2 & _)].
  destruct (proc_state_transition_count _ _ _ _ _ _ _ H3) as [_ (Hs3 & _ & Hp3 & Hc3 & _)].
  simpl in *. split; [congruence|]. split; congruence.
Qed.

(** A send queues the channel at most once, in the slot its [idx] names. *)
Lemma upcall_send_port_inv (wb : Z) (o : bufs) (src chan : ptr) (st st' : rt_state) :
  port_inv st → upcall_send wb o src chan st = Ok st' → port_inv st'.
Proof.
  intros Hinv H. unfold upcall_send in H.
  apply bind_Ok in H as (u1 & _ & H).
  apply bind_Ok in H as (c & Hc & H). apply deref_Ok in Hc.
  apply bind_Ok in H as (u2 & _ & H).
  apply bind_Ok in H as (pt & Hpt & H). apply deref_Ok in Hpt. simpl in Hpt.
  set (st1 := set_chans st (<[chan:=set_chan_proc c src]> (chans st))) in *.
  assert (Hinv1 : port_inv st1).
  { apply (port_inv_transfer st); [done|done|]. intros k. simpl.
    destruct (decide (k = chan)) as [->|Hk].
    - rewrite lookup_insert_eq, Hc. by constructor.
    - rewrite lookup_insert_ne by done. destruct (chans st !! k); by constructor. }
  case_bool_decide; [|by injection H as <-].
  apply bind_Ok in H as (st2 & Ht & H).
  apply bind_Ok in H as (pt2 & Hpt2 & H). apply deref_Ok in Hpt2.
  apply bind_Ok in H as ([ok st3] & Hr & H).
  destruct (proc_state_transition_count _ _ _ _ _ _ _ Ht) as [_ (_ & _ & Hp2 & Hc2 & _)].
  destruct (attempt_rendezvous_rest _ _ _ _ _ _ _ Hr) as (Hp3 & Hc3 & _).
  assert (Hinv3 : port_inv st3).
  { apply (port_inv_same st1); [done|congruence|congruence]. }
  destruct ok; [by injection H as <-|].
  apply bind_Ok in H as (c3 & Hc3' & H). apply deref_Ok in Hc3'.
  destruct (queued c3) eqn:Hq3; [by injection H as <-|].
  apply bind_Ok in H as (pt3 & Hpt3 & H). apply deref_Ok in Hpt3.
  apply bind_Ok in H as (w & Hw & H). injection H as <-.
  rewrite Hc3, Hc2 in Hc3'. simpl in Hc3'. rewrite lookup_insert_eq in Hc3'.
  injection Hc3' as <-. simpl in Hq3.
  destruct Hinv3 as [[H1 H2] Hv].
  set (port := chan_port c) in *.
  pose proof (Hv _ _ Hpt3) as Hvpt.
  destruct (ptr_vec_push_spec _ _ _ _ _ Hvpt Hw) as (Hvw & Hiw & _ & Hnew & Hkept & _).
  assert (Hnq : ∀ k ch, chans st3 !! k = Some ch → queued ch = true → chan ≠ k).
  { intros k ch Hk Hqk <-. rewrite Hc3, Hc2 in Hk. simpl in Hk.
    rewrite lookup_insert_eq in Hk. injection Hk as <-. simpl in Hqk. congruence. }
  split; [split|].
  - intros k ch Hk Hqk. simpl in Hk.
    destruct (decide (k = chan)) as [->|Hkc].
    + rewrite lookup_insert_eq in Hk. injection Hk as <-. simpl. fold port.
      eexists. simpl. split; [apply lookup_insert_eq|]. simpl. split; [lia|done].
    + rewrite lookup_insert_ne in Hk by done.
      destruct (H1 _ _ Hk Hqk) as (pt' & Hpt' & Hi & Hd).
      destruct (decide (chan_port ch = port)) as [E|E].
      * rewrite E in *. assert (pt' = pt3) as -> by congruence.
        eexists. simpl. split; [apply lookup_insert_eq|]. simpl.
        split; [lia|]. by rewrite Hkept by lia.
      * exists pt'. simpl. by rewrite lookup_insert_ne.
  - intros port' i k (pt' & Hpt' & Hi & Hd). simpl in Hpt'.
    destruct (decide (port' = port)) as [->|E].
    + rewrite lookup_insert_eq in Hpt'. injection Hpt' as <-. simpl in Hi, Hd.
      destruct (decide (i = init (writers pt3))) as [->|Hne].
      * assert (k = chan) as -> by congruence.
        eexists. simpl. split; [apply lookup_insert_eq|]. done.
      * rewrite Hkept in Hd by lia.
        destruct (H2 port i k) as (ch & Hch & Hqk & Hpo & Hidx).
        { exists pt3. split; [done|]. split; [lia|done]. }
        exists ch. simpl. rewrite lookup_insert_ne by (by eapply Hnq). done.
    + rewrite lookup_insert_ne in Hpt' by done.
      destruct (H2 port' i k) as (ch & Hch & Hqk & Hpo & Hidx).
      { by exists pt'. }
      exists ch. simpl. rewrite lookup_insert_ne by (by eapply Hnq). done.
  - intros port' pt' Hpt'. simpl in Hpt'.
    destruct (decide (port' = port)) as [->|E].
    + rewrite lookup_insert_eq in Hpt'. by injection Hpt' as <-.
    + rewrite lookup_insert_ne in Hpt' by done. by eapply Hv.
Qed.

(** A receive that completes a rendezvous takes the channel out of the
    writer vector, moves the last writer into its slot and clears [queued]. *)
Lemma upcall_recv_port_inv (wb : Z) (o : bufs) (r : nat) (dst port : ptr)
    (st st' : rt_state) :
  port_inv st → upcall_recv wb o r dst port st = Ok st' → port_inv st'.
Proof.
  intros Hinv H. unfold upcall_recv in H.
  apply bind_Ok in H as (u1 & _ & H). apply bind_Ok in H as (pt & Hpt & H).
  apply deref_Ok in Hpt.
  apply bind_Ok in H as (u2 & _ & H). apply bind_Ok in H as (u3 & _ & H).
  apply bind_Ok in H as (u4 & _ & H).
  apply bind_Ok in H as (st1 & Ht & H).
  apply bind_Ok in H as (pt1 & Hpt1 & H). apply deref_Ok in Hpt1.
  destruct (proc_state_transition_count _ _ _ _ _ _ _ Ht) as [_ (_ & _ & Hp1 & Hc1 & _)].
  assert (Hinv1 : port_inv st1) by (by apply (port_inv_same st)).
  case_bool_decide as Hpos; [|by injection H as <-].
  apply bind_Ok in H as (schan & Hsc & H). apply vec_get_Ok in Hsc.
  apply bind_Ok in H as (sc & Hsc' & H). apply deref_Ok in Hsc'.
  apply bind_Ok in H as (u5 & Hidx & H). apply assert_Ok, bool_decide_eq_true in Hidx.
  apply bind_Ok in H as ([ok st2] & Hr & H).
  destruct (attempt_rendezvous_rest _ _ _ _ _ _ _ Hr) as (Hp2 & Hc2 & _).
  assert (Hinv2 : port_inv st2) by (by apply (port_inv_same st1)).
  destruct ok; [|by injection H as <-].
  apply bind_Ok in H as (st3 & Hsd & H).
  apply bind_Ok in H as (pt3 & Hpt3 & H). apply deref_Ok in Hpt3.
  apply bind_Ok in H as (w & Hw & H).
  apply bind_Ok in H as (sc4 & Hsc4 & H). apply deref_Ok in Hsc4. injection H as <-.
  simpl in Hsc4.
  (* the dequeue *)
  unfold chan_vec_swapdel in Hsd.
  apply bind_Ok in Hsd as (pt2 & Hpt2 & Hsd). apply deref_Ok in Hpt2.
  apply bind_Ok in Hsd as (u6 & _ & Hsd).
  apply bind_Ok in Hsd as (c & Hc & Hsd). apply deref_Ok in Hc.
  apply bind_Ok in Hsd as (x & Hx & Hsd). apply vec_get_Ok in Hx.
  apply bind_Ok in Hsd as (u7 & Hxc & Hsd). apply assert_Ok, bool_decide_eq_true in Hxc.
  apply bind_Ok in Hsd as (v' & Hv' & Hsd). subst x.
  rewrite Hp2 in Hpt2. assert (pt2 = pt1) as -> by congruence.
  rewrite Hc2 in Hc. assert (c = sc) as -> by congruence.
  set (i := r mod init (writers pt1)) in *.
  rewrite Hidx in *.
  destruct Hinv2 as [[H1 H2] Hv].
  assert (Hvpt : vec_inv (writers pt1)) by (eapply Hv; by rewrite Hp2).
  destruct (ptr_vec_swapdel_spec _ _ _ (proj2 (proj2 Hvpt)) Hv')
    as (_ & Hi & Hinit & _ & _ & Hmoved & Hkept).
  pose proof (ptr_vec_swapdel_inv _ _ _ Hvpt Hv') as Hvv'.
  assert (Hslot : ∀ j k, j < init (writers pt1) → data (writers pt1) !! j = Some k →
            ∃ ch, chans st2 !! k = Some ch ∧ queued ch = true ∧ chan_port ch = port
                  ∧ chan_idx ch = j).
  { intros j k Hj Hk. apply H2. exists pt1. rewrite Hp2. done. }
  destruct (Hslot i schan Hi Hsc) as (sc' & Hsc2 & Hscq & Hscp & Hsci).
  rewrite Hc2 in Hsc2. assert (sc' = sc) as -> by congruence. clear Hsci.
  (* the state after the swap, and the channel store after it *)
  assert (Hst3 : ∃ chA,
    st3 = set_chans (set_ports st2 (<[port := set_writers pt1 v']> (ports st2))) chA
    ∧ (∀ k, k ≠ schan → ∀ ch, chA !! k = Some ch → queued ch = true →
         ∃ ch0, chans st2 !! k = Some ch0 ∧ queued ch0 = true
           ∧ chan_port ch = chan_port ch0
           ∧ ((chan_idx ch0 = init v' ∧ chan_port ch0 = port ∧ chan_idx ch = i
               ∧ i < init v')
              ∨ (chan_idx ch = chan_idx ch0
                 ∧ ¬ (chan_idx ch0 = init v' ∧ chan_port ch0 = port ∧ 0 < init v'))))
    ∧ (∀ k ch0, k ≠ schan → chans st2 !! k = Some ch0 → queued ch0 = true →
         ∃ ch, chA !! k = Some ch ∧ queued ch = true ∧ chan_port ch = chan_port ch0
           ∧ chan_idx ch
             = (if bool_decide (chan_idx ch0 = init v' ∧ chan_port ch0 = port ∧ 0 < init v')
                then i else chan_idx ch0))
    ∧ is_Some (chA !! schan)).
  { destruct (bool_decide (0 < init v')) eqn:Hpos'.
    - apply bool_decide_eq_true in Hpos'.
      apply bind_Ok in Hsd as (cnew & Hcnew & Hsd). apply vec_get_Ok in Hcnew.
      apply bind_Ok in Hsd as (cn & Hcn & Hsd). apply deref_Ok in Hcn. simpl in Hcn.
      injection Hsd as <-. eexists. split; [reflexivity|].
      rewrite Hmoved in Hcnew by done.
      destruct (Hslot (init v') cnew) as (cn' & Hcn' & Hcnq & Hcnp & Hcni); [lia|done|].
      assert (cn' = cn) as -> by congruence.
      split; [|split].
      + intros k Hk ch Hch Hq. simpl in Hch.
        destruct (decide (k = cnew)) as [->|Hkn].
        * rewrite lookup_insert_eq in Hch. injection Hch as <-. simpl in *.
          exists cn. split; [done|]. split; [done|]. split; [done|]. left.
          split; [done|]. split; [done|]. split; [done|].
          destruct (decide (i = init v')) as [E|E]; [|lia].
          exfalso. apply Hk. rewrite E in Hsc. congruence.
        * rewrite lookup_insert_ne in Hch by done.
          exists ch. split; [done|]. split; [done|]. split; [done|]. right.
          split; [done|]. intros (E1 & E2 & _).
          destruct (H1 _ _ Hch Hq) as (pt' & Hpt' & Hj & Hd).
          rewrite E2, Hp2, Hpt1 in Hpt'. injection Hpt' as <-. rewrite E1 in Hd.
          congruence.
      + intros k ch0 Hk Hch0 Hq0. simpl.
        destruct (decide (k = cnew)) as [->|Hkn].
        * rewrite lookup_insert_eq. assert (ch0 = cn) as -> by congruence.
          eexists. split; [done|]. simpl. split; [done|]. split; [done|].
          by rewrite bool_decide_eq_true_2.
        * rewrite lookup_insert_ne by done. exists ch0.
          split; [done|]. split; [done|]. split; [done|].
          rewrite bool_decide_eq_false_2; [done|]. intros (E1 & E2 & _).
          destruct (H1 _ _ Hch0 Hq0) as (pt' & Hpt' & Hj & Hd).
          rewrite E2, Hp2, Hpt1 in Hpt'. injection Hpt' as <-. rewrite E1 in Hd.
          congruence.
      + simpl. destruct (decide (schan = cnew)) as [->|Hne].
        * rewrite lookup_insert_eq. eauto.
        * rewrite lookup_insert_ne by done. rewrite Hc2. eauto.
    - apply bool_decide_eq_false in Hpos'. injection Hsd as <-.
      eexists. split; [reflexivity|]. split; [|split].
      + intros k Hk ch Hch Hq. simpl in Hch. exists ch.
        split; [done|]. split; [done|]. split; [done|]. right. split; [done|]. lia.
      + intros k ch0 Hk Hch0 Hq0. simpl. exists ch0.
        split; [done|]. split; [done|]. split; [done|].
        rewrite bool_decide_eq_false_2; [done|]. lia.
      + simpl. rewrite Hc2. eauto. }
  destruct Hst3 as (chA & -> & HA1 & HA2 & HAs).
  simpl in Hpt3. rewrite lookup_insert_eq in Hpt3. injection Hpt3 as <-.
  simpl in Hw, Hsc4 |- *. rewrite insert_insert_eq.
  assert (Hwv : w = v') by (rewrite (ptr_vec_trim_spec _ _ _ _ Hvv') in Hw; congruence).
  assert (Hvw : vec_inv w) by (by rewrite Hwv).
  assert (Hiw : init w = init v') by (by rewrite Hwv).
  assert (Hkw : ∀ j, j < init w → data w !! j = data v' !! j)
    by (intros; by rewrite Hwv).
  assert (Hdw : ∀ j, j < init w → j ≠ i → data w !! j = data (writers pt1) !! j).
  { intros j Hj Hji. rewrite Hkw by lia. by apply Hkept. }
  assert (Hdi : i < init w → data w !! i = data (writers pt1) !! init v').
  { intros Hj. rewrite Hkw by lia. apply Hmoved. lia. }
  split; [split|].
  - intros k ch Hk Hq. simpl in Hk.
    destruct (decide (k = schan)) as [->|Hks].
    { rewrite lookup_insert_eq in Hk. injection Hk as <-. simpl in Hq. discriminate Hq. }
    rewrite lookup_insert_ne in Hk by done.
    destruct (HA1 k Hks ch Hk Hq) as (ch0 & Hch0 & Hq0 & Hpo & Hcase).
    destruct (H1 _ _ Hch0 Hq0) as (pt' & Hpt' & Hj & Hd).
    destruct (decide (chan_port ch0 = port)) as [E|E].
    + rewrite E, Hp2, Hpt1 in Hpt'. injection Hpt' as <-.
      exists (set_writers pt1 w). simpl. rewrite Hpo, E.
      split; [apply lookup_insert_eq|]. simpl.
      destruct Hcase as [(E1 & _ & E3 & E4)|(E1 & E2)].
      * rewrite E3. split; [lia|]. rewrite Hdi by lia. by rewrite <- E1.
      * rewrite E1.
        assert (chan_idx ch0 ≠ i).
        { intros E3. rewrite E3 in Hd. apply Hks. congruence. }
        assert (chan_idx ch0 ≠ init v').
        { intros E3. apply E2. split; [done|]. split; [done|]. lia. }
        split; [lia|]. rewrite Hdw by lia. done.
    + exists pt'. simpl. rewrite Hpo. rewrite lookup_insert_ne by done.
      destruct Hcase as [(_ & E2 & _)|(E1 & _)]; [done|]. by rewrite E1.
  - intros port' j k (pt' & Hpt' & Hj & Hd). simpl in Hpt'.
    assert (Hold : (∃ j0, j0 < init (writers pt1) ∧ port' = port ∧ j < init w
                   ∧ data (writers pt1) !! j0 = Some k
                   ∧ ((j0 = init v' ∧ j = i ∧ 0 < init v') ∨ (j0 = j ∧ j ≠ i ∧ j0 ≠ init v')))
                   ∨ (port' ≠ port ∧ writer_slot st2 port' j k)).
    { destruct (decide (port' = port)) as [->|E].
      - rewrite lookup_insert_eq in Hpt'. injection Hpt' as <-. simpl in Hj, Hd.
        destruct (decide (j = i)) as [->|Hji].
        + left. exists (init v'). split; [lia|]. split; [done|]. split; [done|].
          rewrite <- Hdi by done. split; [done|]. left. split; [done|]. split; [done|]. lia.
        + left. exists j. split; [lia|]. split; [done|]. split; [done|].
          rewrite <- Hdw by done.
          split; [done|]. right. split; [done|]. split; [done|]. lia.
      - right. rewrite lookup_insert_ne in Hpt' by done. split; [done|]. by exists pt'. }
    destruct Hold as [(j0 & Hj0 & -> & Hjw & Hd0 & Hcase)|(E & Hws)].
    + destruct (Hslot j0 k Hj0 Hd0) as (ch0 & Hch0 & Hq0 & Hpo0 & Hi0).
      assert (Hks : k ≠ schan).
      { intros ->. rewrite Hc2 in Hch0. assert (ch0 = sc) as -> by congruence.
        destruct (Hslot i schan Hi Hsc) as (sc' & Hsc'' & _ & _ & Hsci).
        rewrite Hc2 in Hsc''. assert (sc' = sc) as -> by congruence.
        destruct Hcase as [(E1 & E2 & E3)|(E1 & E2 & E3)]; lia. }
      destruct (HA2 k ch0 Hks Hch0 Hq0) as (ch & Hch & Hq & Hpo & Hci).
      exists ch. simpl. rewrite lookup_insert_ne by done.
      split; [done|]. split; [done|]. split; [congruence|]. rewrite Hci.
      destruct Hcase as [(E1 & E2 & E3)|(E1 & E2 & E3)].
      * rewrite bool_decide_eq_true_2; [done|]. split; [congruence|]. done.
      * rewrite bool_decide_eq_false_2; [congruence|]. intros (? & _). congruence.
    + destruct (H2 _ _ _ Hws) as (ch0 & Hch0 & Hq0 & Hpo0 & Hi0).
      assert (Hks : k ≠ schan).
      { intros ->. rewrite Hc2 in Hch0. congruence. }
      destruct (HA2 k ch0 Hks Hch0 Hq0) as (ch & Hch & Hq & Hpo & Hci).
      exists ch. simpl. rewrite lookup_insert_ne by done.
      split; [done|]. split; [done|]. split; [congruence|]. rewrite Hci.
      rewrite bool_decide_eq_false_2; [congruence|]. intros (_ & ? & _). congruence.
  - intros port' pt' Hpt'. simpl in Hpt'.
    destruct (decide (port' = port)) as [->|E].
    + rewrite lookup_insert_eq in Hpt'. by injection Hpt' as <-.
    + rewrite lookup_insert_ne in Hpt' by done. by eapply Hv.
Qed.

Lemma ex_send_wait_port_inv : port_inv ex_send_wait.
Proof.
  split; [split|].
  - intros c ch Hc Hq. unfold ex_send_wait in Hc. simpl in Hc.
    destruct (decide (c = 64%Z)) as [->|Hne].
    + rewrite lookup_insert_eq in Hc. injection Hc as <-. discriminate Hq.
    + rewrite lookup_insert_ne, lookup_empty in Hc by done. done.
  - intros port i c (pt & Hpt & Hi & Hc). unfold ex_send_wait in Hpt. simpl in Hpt.
    destruct (decide (port = 48%Z)) as [->|Hne].
    + rewrite lookup_insert_eq in Hpt. injection Hpt as <-. simpl in Hi. lia.
    + rewrite lookup_insert_ne, lookup_empty in Hpt by done. done.
  - intros port pt Hpt. unfold ex_send_wait in Hpt. simpl in Hpt.
    destruct (decide (port = 48%Z)) as [->|Hne].
    + rewrite lookup_insert_eq in Hpt. injection Hpt as <-. apply ex_vec0_inv.
    + rewrite lookup_insert_ne, lookup_empty in Hpt by done. done.
Qed.

(** X18. [upcall_send] and [upcall_recv], whenever they return, keep the
    queue invariant of ports: the queued channels are exactly the channels
    in the slots in use of their port's writer vector, each at the slot its
    [idx] names, and every writer vector still has its first buffer of 8
    bytes, with no more slots in use than the buffer holds. *)
Theorem send_recv_port_inv (wb : Z) (st st' : rt_state) :
  port_inv st →
  (∀ o src chan, upcall_send wb o src chan st = Ok st' → port_inv st')
  ∧ (∀ o r dst port, upcall_recv wb o r dst port st = Ok st' → port_inv st').
Proof.
  intros Hinv. split.
  - intros o src chan. by apply upcall_send_port_inv.
  - intros o r dst port. by apply upcall_recv_port_inv.
Qed.

Lemma send_recv_port_inv_witness :
  ∃ st', upcall_send 4 ex_bufs 16 64 ex_send_wait = Ok st' ∧ port_inv st'.
Proof.
  destruct (upcall_send 4 ex_bufs 16 64 ex_send_wait) as [st'| |] eqn:E;
    [|vm_compute in E; discriminate E|vm_compute in E; discriminate E].
  exists st'. split; [reflexivity|].
  exact (proj1 (send_recv_port_inv 4 ex_send_wait st' ex_send_wait_port_inv)
           ex_bufs 16%Z 64%Z E).
Defined.

Lemma new_port_port_inv (wb : Z) (m : ptr) (b : block) (proc : ptr) (st : rt_state)
    (p : ptr) (st' : rt_state) :
  (1 < wb)%Z → port_inv st → ports st !! m = None →
  upcall_new_port wb m b proc st = Ok (p, st') → port_inv st'.
Proof.
  intros Hwb [[H1 H2] Hv] Hfresh H. unfold upcall_new_port in H.
  apply bind_Ok in H as (port & Hport & H). apply xalloc_Ok in Hport as [_ ->].
  apply bind_Ok in H as (w & Hw & H).
  destruct (init_ptr_vec_inv _ _ _ Hwb Hw) as (Hvw & Hiw).
  injection H as <- <-. split; [split|].
  - intros c ch Hc Hq. destruct (H1 _ _ Hc Hq) as (pt & Hpt & Hi & Hd).
    exists pt. simpl. rewrite lookup_insert_ne; [done|]. intros E. congruence.
  - intros port i c (pt & Hpt & Hi & Hd). simpl in Hpt.
    destruct (decide (port = m)) as [->|E].
    + rewrite lookup_insert_eq in Hpt. injection Hpt as <-. simpl in Hi. lia.
    + rewrite lookup_insert_ne in Hpt by done. apply H2. by exists pt.
  - intros port pt Hpt. simpl in Hpt.
    destruct (decide (port = m)) as [->|E].
    + rewrite lookup_insert_eq in Hpt. by injection Hpt as <-.
    + rewrite lookup_insert_ne in Hpt by done. by eapply Hv.
Qed.

Lemma del_port_port_inv (port : ptr) (st st' : rt_state) :
  port_inv st → upcall_del_port port st = Ok st' → port_inv st'.
Proof.
  intros [[H1 H2] Hv] H. unfold upcall_del_port in H.
  apply bind_Ok in H as (pt & Hpt & H). apply deref_Ok in Hpt.
  apply bind_Ok in H as (u1 & _ & H).
  apply bind_Ok in H as (u2 & Hw & H). apply assert_Ok, bool_decide_eq_true in Hw.
  injection H as <-. split; [split|].
  - intros c ch Hc Hq. destruct (H1 _ _ Hc Hq) as (pt' & Hpt' & Hi & Hd).
    exists pt'. simpl. rewrite lookup_delete_ne; [done|].
    intros E. rewrite <- E, Hpt in Hpt'. injection Hpt' as <-. lia.
  - intros port' i c (pt' & Hpt' & Hi & Hd). simpl in Hpt'.
    apply lookup_delete_Some in Hpt' as [_ Hpt']. apply H2. by exists pt'.
  - intros port' pt' Hpt'. simpl in Hpt'.
    apply lookup_delete_Some in Hpt' as [_ Hpt']. by eapply Hv.
Qed.

Lemma new_chan_port_inv (wb : Z) (m : ptr) (b : block) (proc port : ptr) (st : rt_state)
    (c : ptr) (st' : rt_state) :
  port_inv st → chans st !! m = None →
  upcall_new_chan wb m b proc port st = Ok (c, st') → port_inv st'.
Proof.
  intros [[H1 H2] Hv] Hfresh H. unfold upcall_new_chan in H.
  apply bind_Ok in H as (u & _ & H).
  apply bind_Ok in H as (chan & Hchan & H). apply xalloc_Ok in Hchan as [_ ->].
  apply bind_Ok in H as (w & _ & H).
  injection H as <- <-. split; [split|].
  - intros c ch Hc Hq. simpl in Hc.
    destruct (decide (c = m)) as [->|E].
    + rewrite lookup_insert_eq in Hc. injection Hc as <-. discriminate Hq.
    + rewrite lookup_insert_ne in Hc by done. by apply H1.
  - intros port' i c Hw. destruct (H2 _ _ _ Hw) as (ch & Hch & Hrest).
    exists ch. simpl. rewrite lookup_insert_ne; [done|]. intros E. congruence.
  - done.
Qed.

Lemma del_chan_port_inv (chan : ptr) (st st' : rt_state) :
  port_inv st → (∀ ch, chans st !! chan = Some ch → queued ch = false) →
  upcall_del_chan chan st = Ok st' → port_inv st'.
Proof.
  intros [[H1 H2] Hv] Hnq H. unfold upcall_del_chan in H.
  apply bind_Ok in H as (u1 & _ & H).
  apply bind_Ok in H as (c & Hc & H). apply deref_Ok in Hc.
  apply bind_Ok in H as (u2 & _ & H). injection H as <-.
  specialize (Hnq _ Hc). split; [split|].
  - intros k ch Hk Hq. simpl in Hk.
    apply lookup_delete_Some in Hk as [_ Hk]. by apply (H1 k ch).
  - intros port i k Hw. destruct (H2 _ _ _ Hw) as (ch & Hch & Hq & Hrest).
    exists ch. simpl. rewrite lookup_delete_ne; [done|]. intros E. congruence.
  - done.
Qed.

Lemma handle_upcall_port_inv (wb off : Z) (e : env) (proc : ptr) (pr : rust_proc)
    (st st' : rt_state) :
  (1 < wb)%Z → port_inv st → procs st !! proc = Some pr →
  (upcall_code pr = upcall_code_new_port → ports st !! e_block1 e = None) →
  (upcall_code pr = upcall_code_new_chan → chans st !! e_block1 e = None) →
  (upcall_code pr = upcall_code_del_chan →
     ∀ ch, chans st !! arg pr 1 = Some ch → queued ch = false) →
  (upcall_code pr = upcall_code_free →
     ports st !! arg pr 0 = None ∧ chans st !! arg pr 0 = None) →
  handle_upcall wb off e proc st = Ok st' →
  port_inv st'.
Proof.
  intros Hwb Hinv Hpr Hnp Hnc Hdc Hfr H. unfold handle_upcall in H.
  apply bind_Ok in H as (pr0 & Hpr0 & H). apply deref_Ok in Hpr0.
  assert (pr0 = pr) as -> by congruence.
  apply bind_Ok in H as (st1 & Hcase & H).
  apply bind_Ok in H as (pr1 & Hpr1 & H). injection H as <-.
  apply (port_inv_same st1); [|done|done].
  destruct (upcall_code pr) eqn:Hcode.
  - by injection Hcase as <-.
  - by injection Hcase as <-.
  - apply bind_Ok in Hcase as ([p st2] & Hnew & Hcase). injection Hcase as <-.
    unfold spawn_proc in Hnew.
    destruct (new_proc_inv _ _ _ _ _ _ _ _ Hnew) as (_ & _ & _ & _ & _ & _ & Hp & Hc & _).
    by apply (port_inv_same st).
  - unfold upcall_check_expr in Hcase. case_bool_decide; [|by injection Hcase as <-].
    apply bind_Ok in Hcase as (pr2 & Hpr2 & Hcase). injection Hcase as <-.
    by apply (port_inv_same st).
  - apply bind_Ok in Hcase as ([p st2] & Hm & Hcase). injection Hcase as <-.
    apply bind_Ok in Hm as (p' & _ & Hm). injection Hm as <- <-.
    by apply (port_inv_same st).
  - destruct (Hfr eq_refl) as (Hfp & Hfc).
    destruct (upcall_free_Ok _ _ _ Hcase) as [-> | [-> | [-> | [-> | [-> | ->]]]]];
      try done; apply (port_inv_same st); try done; simpl; by rewrite delete_id.
  - apply bind_Ok in Hcase as ([p st2] & Hnew & Hcase). injection Hcase as <-.
    apply (port_inv_same st2); [|done|done].
    eapply new_port_port_inv; [done|done| |done]. by apply Hnp.
  - by eapply del_port_port_inv.
  - apply bind_Ok in Hcase as ([p st2] & Hnew & Hcase). injection Hcase as <-.
    apply (port_inv_same st2); [|done|done].
    eapply new_chan_port_inv; [done| |done]. by apply Hnc.
  - eapply del_chan_port_inv; [done| |done]. by apply Hdc.
  - by eapply upcall_send_port_inv.
  - by eapply upcall_recv_port_inv.
  - destruct (add_proc_to_state_vec_count _ _ _ _ _ Hcase) as (_ & _ & _ & _ & _ & _ & _ & Hp & Hc & _).
    by apply (port_inv_same st).
Qed.

Lemma exit_proc_rest (wb : Z) (b : block) (p : ptr) (st st' : rt_state) :
  exit_proc wb b p st = Ok st' →
  ports st' = ports st ∧ chans st' = chans st ∧ mem st' = mem st.
Proof.
  intros H. unfold exit_proc in H.
  apply bind_Ok in H as (u1 & _ & H). apply bind_Ok in H as (u2 & _ & H).
  apply bind_Ok in H as (sel & _ & H).
  apply bind_Ok in H as (st1 & Hsd & H). apply bind_Ok in H as (st2 & Hdel & H).
  apply bind_Ok in H as (v' & Htrim & H). injection H as <-.
  destruct (proc_vec_swapdel_count _ _ _ _ Hsd) as (_ & _ & _ & _ & _ & Hp & Hc & Hm & _).
  unfold del_proc, del_stk in Hdel.
  apply bind_Ok in Hdel as (pr & _ & Hdel). apply bind_Ok in Hdel as (u & _ & Hdel).
  apply bind_Ok in Hdel as (st1' & Hds & Hdel). injection Hdel as <-.
  apply bind_Ok in Hds as (h & _ & Hds). injection Hds as <-.
  by destruct sel.
Qed.

Lemma loop_body_port_inv (wb off : Z) (y : yield) (e : env) (p : ptr) (st : rt_state)
    (r : option ptr) (st' : rt_state) :
  (1 < wb)%Z → port_inv st → chan_disciplined y e st →
  loop_body wb off y e p st = Ok (r, st') → port_inv st'.
Proof.
  intros Hwb Hinv Hd H.
  assert (∃ pr, procs st !! p = Some pr) as (pr & Hpr).
  { unfold loop_body in H. apply bind_Ok in H as (pr & Hpr & _). apply deref_Ok in Hpr. eauto. }
  rewrite (loop_body_glued _ _ _ _ _ pr) in H by done.
  apply bind_Ok in H as (st2 & Hafter & H).
  assert (st' = st2) as ->.
  { case_bool_decide; [|by injection H as _ <-].
    apply bind_Ok in H as (q & _ & H). by injection H as _ <-. }
  assert (Hg : port_inv (glued y p pr st)) by (by apply (port_inv_same st)).
  unfold after_yield in Hafter. destruct (y_state y) eqn:Hy; try discriminate Hafter.
  - by injection Hafter as <-.
  - apply bind_Ok in Hafter as (st3 & Hup & Hafter).
    apply bind_Ok in Hafter as (pr3 & Hpr3 & Hafter).
    destruct (Hd Hy) as (Hnp & Hnc & Hdc & Hfr).
    assert (port_inv st3).
    { eapply (handle_upcall_port_inv wb off e p _ (glued y p pr st));
        [done|done|unfold glued; simpl; apply lookup_insert_eq|done|done|done|done|done]. }
    destruct (bool_decide (state pr3 = proc_state_calling_c)); injection Hafter as <-; [|done].
    by apply (port_inv_same st3).
  - destruct (exit_proc_rest _ _ _ _ _ Hafter) as (Hp & Hc & _).
    by apply (port_inv_same (glued y p pr st)).
Qed.

Lemma new_rt_port_inv (wb : Z) (m : ptr) (b1 b2 : block) (pg : gmap Z rust_prog)
    (m0 : gmap Z Z) (st : rt_state) :
  new_rt wb m b1 b2 pg m0 = Ok st → port_inv st.
Proof.
  unfold new_rt. intros H. apply bind_Ok in H as (x & _ & H).
  apply bind_Ok in H as (r & _ & H). apply bind_Ok in H as (bl & _ & H).
  injection H as <-.
  split; [split|].
  - intros c ch Hc. simpl in Hc. by rewrite lookup_empty in Hc.
  - intros port i c (pt & Hpt & _). simpl in Hpt. by rewrite lookup_empty in Hpt.
  - intros port pt Hpt. simpl in Hpt. by rewrite lookup_empty in Hpt.
Qed.

Lemma rust_start_init_port_inv (wb off : Z) (m_rt : ptr) (e : env) (pgm : ptr)
    (pg : gmap Z rust_prog) (m0 : gmap Z Z) (p : ptr) (st : rt_state) :
  rust_start_init wb off m_rt e pgm pg m0 = Ok (p, st) → port_inv st.
Proof.
  intros H. unfold rust_start_init in H.
  apply bind_Ok in H as (pg0 & _ & H).
  apply bind_Ok in H as (st0 & Hrt & H).
  apply bind_Ok in H as ([q st1] & Hsp & H).
  apply bind_Ok in H as (st2 & Hadd & H).
  apply bind_Ok in H as (proc & _ & H). injection H as _ <-.
  unfold spawn_proc in Hsp.
  destruct (new_proc_inv _ _ _ _ _ _ _ _ Hsp) as (_ & _ & _ & _ & _ & _ & Hp & Hc & _).
  destruct (add_proc_to_state_vec_count _ _ _ _ _ Hadd) as (_ & _ & _ & _ & _ & _ & _ & Hp2 & Hc2 & _).
  apply (port_inv_same st0); [by eapply new_rt_port_inv|congruence|congruence].
Qed.

(** X19. On a platform whose pointers take more than one byte, the queue
    invariant of ports holds in every state the driver loop reaches, as long
    as [malloc] returns a fresh block for a new port or channel, [del_chan]
    is applied to channels that are not queued and the free upcall names no
    live port or channel.  Every writer vector then still has its first
    buffer of 8 bytes, with no more slots in use than the buffer holds. *)
Theorem port_invariant (wb off : Z) (r : option ptr) (st : rt_state) :
  (1 < wb)%Z → loop_reach wb off chan_disciplined r st →
  chan_inv st ∧ ∀ port pt, ports st !! port = Some pt → vec_inv (writers pt).
Proof.
  intros Hwb.
  induction 1 as [m_rt e pgm pg m0 p st E|y e p st r st' _ IH Hd Hstep].
  - by eapply rust_start_init_port_inv.
  - by eapply loop_body_port_inv.
Qed.

Lemma port_invariant_witness :
  ∃ p st r st',
    rust_start_init 4 20 900 ex_env 80 ex_progs ∅ = Ok (p, st)
    ∧ loop_body 4 20 ex_new_port_yield ex_new_port_env p st = Ok (r, st')
    ∧ chan_inv st'.
Proof.
  destruct (rust_start_init 4 20 900 ex_env 80 ex_progs ∅) as [[p st]| |] eqn:E0;
    [|vm_compute in E0; discriminate E0|vm_compute in E0; discriminate E0].
  destruct (loop_body 4 20 ex_new_port_yield ex_new_port_env p st) as [[r st']| |] eqn:E1.
  - exists p, st, r, st'. split; [reflexivity|]. split; [exact E1|].
    refine (proj1 (port_invariant 4 20 r st' _ _)); [lia|].
    eapply reach_step; [eapply reach_init; exact E0| |exact E1].
    intros _. split; [intros _|split; [|split]; intros Hc; discriminate Hc].
    vm_compute in E0. injection E0 as <- <-. reflexivity.
  - vm_compute in E0. injection E0 as <- <-. vm_compute in E1. discriminate E1.
  - vm_compute in E0. injection E0 as <- <-. vm_compute in E1. discriminate E1.
Defined.

(** X20. Creating a port and deleting it again restores the state, and so
    does creating a channel and deleting it again ([malloc] succeeding for
    the record and for the 8-byte buffer of its vector, whose slots in use
    are none). *)
Theorem new_del_round_trip (wb : Z) (m proc port : ptr) (junk : nat → ptr)
    (st : rt_state) :
  m ≠ null →
  (ports st !! m = None →
     ∃ st1 w, init_ptr_vec wb (Some junk) = Ok w
       ∧ upcall_new_port wb m (Some junk) proc st = Ok (m, st1)
       ∧ ports st1 !! m = Some (mk_port 0 0 proc w)
       ∧ upcall_del_port m st1 = Ok st)
  ∧ (chans st !! m = None → port ≠ null →
       ∃ st1 w, init_ptr_vec wb (Some junk) = Ok w
         ∧ upcall_new_chan wb m (Some junk) proc port st = Ok (m, st1)
         ∧ chans st1 !! m = Some (mk_chan port proc false 0 w)
         ∧ upcall_del_chan m st1 = Ok st).
Proof.
  intros Hm. split.
  - intros Hfresh. unfold upcall_new_port, xcalloc. rewrite xalloc_nonnull by done. simpl.
    eexists _, _. split; [done|]. split; [done|]. simpl. split; [apply lookup_insert_eq|].
    unfold upcall_del_port, deref. simpl. rewrite lookup_insert_eq. simpl.
    rewrite delete_insert_id by done. by destruct st.
  - intros Hfresh Hp. unfold upcall_new_chan, xcalloc.
    ok_assert (port ≠ null). rewrite xalloc_nonnull by done. simpl.
    eexists _, _. split; [done|]. split; [done|]. simpl. split; [apply lookup_insert_eq|].
    unfold upcall_del_chan, deref. ok_assert (m ≠ null). rewrite lookup_insert_eq. simpl.
    rewrite delete_insert_id by done. by destruct st.
Qed.

Lemma new_del_round_trip_witness :
  (∃ st1, upcall_new_port 4 4096 ex_block 16 ex_pair = Ok (4096%Z, st1)
     ∧ upcall_del_port 4096 st1 = Ok ex_pair)
  ∧ (∃ st1, upcall_new_chan 4 4096 ex_block 16 48 ex_pair = Ok (4096%Z, st1)
       ∧ upcall_del_chan 4096 st1 = Ok ex_pair).
Proof.
  assert (Hm : 4096%Z ≠ null) by (unfold null; lia).
  destruct (new_del_round_trip 4 4096 16 48 (λ _, 0%Z) ex_pair Hm) as [Hp Hc].
  split.
  - destruct Hp as (st1 & w & _ & E & _ & Hd); [reflexivity|].
    exists st1. split; [exact E|exact Hd].
  - destruct Hc as (st1 & w & _ & E & _ & Hd); [reflexivity|unfold null; lia|].
    exists st1. split; [exact E|exact Hd].
Defined.

(** A transition into a vector whose buffer is full writes past its end. *)
Lemma proc_state_transition_full (wb : Z) (o : bufs) (p : ptr) (pr : rust_proc)
    (dst : proc_state_t) (st : rt_state) :
  sched_inv st → procs st !! p = Some pr →
  live_slot st (get_state_vec (state pr)) (idx pr) p →
  get_state_vec dst ≠ get_state_vec (state pr) →
  init (state_vec st (get_state_vec dst)) = length (data (state_vec st (get_state_vec dst))) →
  proc_state_transition wb o p (state pr) dst st = Abort.
Proof.
  intros Hinv Hpr Hl Hne Hfull.
  destruct (remove_proc_from_state_vec_total wb (o [0]) _ _ _ Hinv Hpr Hl) as (st1 & Hst1).
  destruct (remove_proc_from_state_vec_inv _ _ _ _ _ Hinv Hst1)
    as (Hinv1 & Hnr1 & _ & _ & Hheap1 & _).
  destruct (remove_proc_from_state_vec_shape _ _ _ _ _ _ Hinv Hpr Hst1)
    as (Hi1 & Hl1 & Ho1).
  destruct (heap_mod_idx_Some _ _ _ _ Hheap1 Hpr) as (pr1 & Hpr1 & _).
  unfold proc_state_transition. ok_deref Hpr.
  ok_assert (state pr = state pr).
  rewrite Hst1. simpl. ok_deref Hpr1.
  apply (add_proc_to_state_vec_full wb (o [1]) p (set_state pr1 dst)).
  - eapply proj1, (sched_inv_set_procs_unregistered st1 p); [done|done|].
    intros q Hq. by rewrite lookup_insert_ne.
  - simpl. by rewrite lookup_insert_eq.
  - simpl. rewrite state_vec_set_procs. by rewrite Ho1.
Qed.

(** A send to a port whose owner has no proc record any more. *)
Lemma upcall_send_dangling (wb : Z) (o : bufs) (src chan : ptr) (g : rt_state)
    (c : rust_chan) (pt : rust_port) (ps : rust_proc) :
  sched_inv g → chan ≠ null → chans g !! chan = Some c → chan_port c ≠ null →
  ports g !! chan_port c = Some pt → port_proc pt ≠ null →
  procs g !! port_proc pt = None →
  procs g !! src = Some ps → state ps = proc_state_calling_c →
  live_slot g sel_running (idx ps) src →
  upcall_send wb o src chan g = Abort.
Proof.
  intros Hinv Hcn Hc Hpn Hpt Hown Hgone Hps Hss Hls.
  set (g1 := set_chans g (<[chan:=set_chan_proc c src]> (chans g))).
  assert (Hinv1 : sched_inv g1) by (by apply (sched_inv_same_sched g)).
  destruct (decide (init (blocked_procs g) = length (data (blocked_procs g))))
    as [Hfull|Hfree].
  { pose proof (proc_state_transition_full wb (sub 0 o) src ps proc_state_blocked_writing
                  g1 Hinv1 Hps) as Ht.
    rewrite Hss in Ht. unfold upcall_send.
    ok_assert (chan ≠ null). ok_deref Hc. ok_assert (chan_port c ≠ null).
    ok_deref Hpt. ok_assert (port_proc pt ≠ null). fold g1.
    by rewrite Ht. }
  destruct (proc_state_transition_total wb (sub 0 o) src ps proc_state_blocked_writing
              g1 Hinv1 Hps)
    as (g2 & Ht); [by rewrite Hss| |].
  { intros _. pose proof (proj2 (proj2 (sched_inv_vec g sel_blocked Hinv))) as Hok.
    unfold vec_ok, room in *. simpl in *. lia. }
  rewrite Hss in Ht.
  destruct (proc_state_transition_inv _ _ _ _ _ _ _ Hinv1 Ht)
    as (Hinv2 & (ps0 & Hps0 & _ & _ & Hh2) & (ps2 & Hps2 & _) & _ & Hrest2).
  destruct Hrest2 as (_ & _ & Hports2 & _).
  assert (Hpt2 : ports g2 !! chan_port c = Some pt) by (by rewrite Hports2).
  assert (Hne : port_proc pt ≠ src) by (intros E; rewrite E in Hgone; congruence).
  assert (Hgone2 : procs g2 !! port_proc pt = None).
  { eapply heap_mod_idx_None; [exact Hh2|]. by rewrite lookup_insert_ne. }
  assert (Hsn : src ≠ null).
  { pose proof Hinv as (_ & _ & Hs). by destruct (Hs _ _ _ Hls). }
  unfold upcall_send.
  ok_assert (chan ≠ null). ok_deref Hc. ok_assert (chan_port c ≠ null).
  ok_deref Hpt. ok_assert (port_proc pt ≠ null). fold g1. rewrite Ht. simpl.
  ok_deref Hpt2. unfold attempt_rendezvous.
  ok_assert (src ≠ null). ok_assert (port_proc pt ≠ null). ok_deref Hps2.
  unfold deref. by rewrite Hgone2.
Qed.

(** X21. [exit_proc] does not clear the [proc] field of the ports the
    exiting proc owns: the ports stay as they are, and a later send on a
    channel of such a port reads the record of the proc that was freed,
    which is undefined behaviour. *)
Theorem send_after_owner_exit (wb : Z) (b : block) (o : bufs) (p src chan : ptr)
    (st st' : rt_state) (c : rust_chan) (pt : rust_port) (ps : rust_proc) :
  sched_inv st → exit_proc wb b p st = Ok st' →
  ports st !! chan_port c = Some pt → port_proc pt = p →
  chan ≠ null → chans st' !! chan = Some c → chan_port c ≠ null →
  procs st' !! src = Some ps → state ps = proc_state_calling_c →
  live_slot st' sel_running (idx ps) src →
  ports st' !! chan_port c = Some pt ∧ procs st' !! p = None
  ∧ upcall_send wb o src chan st' = Abort.
Proof.
  intros Hinv0 Hex Hpt Hown Hcn Hc Hpn Hps Hss Hls.
  pose proof (exit_proc_inv _ _ _ _ _ Hinv0 Hex) as Hinv.
  destruct (exit_proc_rest _ _ _ _ _ Hex) as (Hports & _).
  assert (Hgone : procs st' !! p = None ∧ p ≠ null).
  { unfold exit_proc in Hex.
    apply bind_Ok in Hex as (u1 & Hnn & H). apply assert_Ok, bool_decide_eq_true in Hnn.
    apply bind_Ok in H as (u2 & _ & H). apply bind_Ok in H as (sel & _ & H).
    apply bind_Ok in H as (st1 & _ & H). apply bind_Ok in H as (st2 & Hdel & H).
    apply bind_Ok in H as (v' & _ & H). injection H as <-.
    destruct (del_proc_sched _ _ _ Hdel) as (_ & _ & Hp).
    split; [|done]. rewrite procs_set_state_vec, Hp. apply lookup_delete_eq. }
  destruct Hgone as [Hgone Hnn].
  split; [by rewrite Hports|]. split; [done|].
  apply (upcall_send_dangling wb o src chan st' c pt ps); try done.
  - by rewrite Hports.
  - by rewrite Hown.
  - by rewrite Hown.
Qed.

Lemma send_after_owner_exit_witness :
  ∃ st', exit_proc 4 ex_block 32 ex_send_wait = Ok st' ∧ procs st' !! 32%Z = None
    ∧ upcall_send 4 ex_bufs 16 64 st' = Abort.
Proof.
  destruct (exit_proc 4 ex_block 32 ex_send_wait) as [st'| |] eqn:E;
    [|vm_compute in E; discriminate E|vm_compute in E; discriminate E].
  exists st'. split; [reflexivity|].
  refine (proj2 (send_after_owner_exit 4 ex_block ex_bufs 32 16 64 ex_send_wait st'
            (mk_chan 48 16 false 0 ex_vec0) (mk_port 0 0 32 ex_vec0)
            (mk_proc 1024 80 0 proc_state_calling_c 0 0 upcall_code_send
               [64; 7; 0; 0; 0; 0; 0; 0]%Z) ex_send_wait_inv E _ _ _ _ _ _ _ _)).
  - reflexivity.
  - reflexivity.
  - unfold null. lia.
  - vm_compute in E. injection E as <-. reflexivity.
  - unfold null. simpl. lia.
  - vm_compute in E. injection E as <-. reflexivity.
  - reflexivity.
  - vm_compute in E. injection E as <-. split; [simpl; lia|reflexivity].
Defined.


(** ** Out-slots, allocation failure and tear-down *)

(** X22. What an upcall leaves behind.  The malloc, new_port and new_chan
    upcalls return a block that is not [NULL] through the out-slot
    [args[0]] and write no other word; the log, free, check_expr, del_port,
    del_chan and sched upcalls write no word at all.  A new port is owned by
    the caller and has no writers, a new channel is bound to the port in
    [args[1]] and is not queued; the vector of either is the one
    [init_ptr_vec] builds on the block [malloc] returned for its buffer.  The upcall code of the caller is reset to
    zero. *)
Theorem handle_upcall_out_slot (wb off : Z) (e : env) (proc : ptr) (pr : rust_proc)
    (st st' : rt_state) :
  procs st !! proc = Some pr → handle_upcall wb off e proc st = Ok st' →
  (upcall_code pr ∈ [upcall_code_malloc; upcall_code_new_port; upcall_code_new_chan] →
     e_block1 e ≠ null ∧ mem st' = <[arg pr 0 := e_block1 e]> (mem st))
  ∧ (upcall_code pr ∈ [upcall_code_log_uint32; upcall_code_log_str; upcall_code_free;
                       upcall_code_check_expr; upcall_code_del_port; upcall_code_del_chan;
                       upcall_code_sched] →
       mem st' = mem st)
  ∧ (upcall_code pr = upcall_code_new_port →
       ∃ w, init_ptr_vec wb (e_bufs e []) = Ok w
         ∧ ports st' = <[e_block1 e := mk_port 0 0 proc w]> (ports st))
  ∧ (upcall_code pr = upcall_code_new_chan →
       ∃ w, init_ptr_vec wb (e_bufs e []) = Ok w
         ∧ chans st' = <[e_block1 e := mk_chan (arg pr 1) proc false 0 w]> (chans st))
  ∧ ∃ pr', procs st' !! proc = Some pr' ∧ upcall_code pr' = upcall_code_log_uint32.
Proof.
  intros Hpr H. unfold handle_upcall in H.
  apply bind_Ok in H as (pr0 & Hpr0 & H). apply deref_Ok in Hpr0.
  assert (pr0 = pr) as -> by congruence.
  apply bind_Ok in H as (st1 & Hcase & H).
  apply bind_Ok in H as (pr1 & Hpr1 & H). injection H as <-.
  split; [|split; [|split; [|split]]].
  - intros Hin. repeat (apply elem_of_cons in Hin as [E|Hin]; [rewrite E in Hcase|]).
    + apply bind_Ok in Hcase as ([p st2] & Hm & Hcase). injection Hcase as <-.
      apply bind_Ok in Hm as (p' & Hp & Hm). injection Hm as <- <-.
      apply xalloc_Ok in Hp as [Hn ->]. done.
    + unfold upcall_new_port in Hcase.
      apply bind_Ok in Hcase as ([p st2] & Hnew & Hcase). injection Hcase as <-.
      apply bind_Ok in Hnew as (port & Hp & Hnew).
      apply bind_Ok in Hnew as (w & Hw & Hnew). injection Hnew as <- <-.
      apply xalloc_Ok in Hp as [Hn ->]. done.
    + unfold upcall_new_chan in Hcase.
      apply bind_Ok in Hcase as ([p st2] & Hnew & Hcase). injection Hcase as <-.
      apply bind_Ok in Hnew as (u & _ & Hnew).
      apply bind_Ok in Hnew as (chan & Hp & Hnew).
      apply bind_Ok in Hnew as (w & Hw & Hnew). injection Hnew as <- <-.
      apply xalloc_Ok in Hp as [Hn ->]. done.
    + by apply elem_of_nil in Hin.
  - intros Hin. repeat (apply elem_of_cons in Hin as [E|Hin]; [rewrite E in Hcase|]).
    + by injection Hcase as <-.
    + by injection Hcase as <-.
    + by destruct (upcall_free_sched _ _ _ Hcase) as (_ & _ & ? & _).
    + unfold upcall_check_expr in Hcase. case_bool_decide; [|by injection Hcase as <-].
      apply bind_Ok in Hcase as (pr2 & Hpr2 & Hcase). by injection Hcase as <-.
    + unfold upcall_del_port in Hcase. inv_res Hcase. by injection Hcase as <-.
    + unfold upcall_del_chan in Hcase. inv_res Hcase. by injection Hcase as <-.
    + by destruct (add_proc_to_state_vec_count _ _ _ _ _ Hcase) as (_ & _ & _ & _ & _ & _ & _ & _ & _ & ? & _).
    + by apply elem_of_nil in Hin.
  - intros E. rewrite E in Hcase. unfold upcall_new_port in Hcase.
    apply bind_Ok in Hcase as ([p st2] & Hnew & Hcase). injection Hcase as <-.
    apply bind_Ok in Hnew as (port & Hp & Hnew).
    apply bind_Ok in Hnew as (w & Hw & Hnew). injection Hnew as <- <-.
    apply xalloc_Ok in Hp as [Hn ->]. by exists w.
  - intros E. rewrite E in Hcase. unfold upcall_new_chan in Hcase.
    apply bind_Ok in Hcase as ([p st2] & Hnew & Hcase). injection Hcase as <-.
    apply bind_Ok in Hnew as (u & _ & Hnew).
    apply bind_Ok in Hnew as (chan & Hp & Hnew).
    apply bind_Ok in Hnew as (w & Hw & Hnew). injection Hnew as <- <-.
    apply xalloc_Ok in Hp as [Hn ->]. by exists w.
  - eexists. simpl. split; [apply lookup_insert_eq|done].
Qed.

Lemma handle_upcall_out_slot_witness :
  ∃ st', handle_upcall 4 20 ex_env 16 ex_malloc_wait = Ok st'
    ∧ mem st' = <[400%Z := 4096%Z]> (mem ex_malloc_wait).
Proof.
  destruct (handle_upcall 4 20 ex_env 16 ex_malloc_wait) as [st'| |] eqn:E;
    [|vm_compute in E; discriminate E|vm_compute in E; discriminate E].
  exists st'. split; [reflexivity|].
  refine (proj2 (proj1 (handle_upcall_out_slot 4 20 ex_env 16
            (mk_proc 1024 80 0 proc_state_calling_c 0 0 upcall_code_malloc
               [400; 64; 0; 0; 0; 0; 0; 0]%Z) ex_malloc_wait st' eq_refl E) _)).
  left.
Defined.

(** X23. When [malloc] returns [NULL] in a spawn, malloc, new_port or
    new_chan upcall, the round ends with [exit(123)]. *)
Theorem alloc_failure_exits (wb off : Z) (y : yield) (e : env) (p : ptr) (st : rt_state)
    (pr : rust_proc) :
  procs st !! p = Some pr → y_state y = proc_state_calling_c → e_block1 e = null →
  y_code y = upcall_code_spawn ∨ y_code y = upcall_code_malloc
  ∨ y_code y = upcall_code_new_port
  ∨ (y_code y = upcall_code_new_chan ∧ yield_arg1 y ≠ null) →
  loop_body wb off y e p st = Exit "rt: allocation failed, exiting" 123%Z.
Proof.
  intros Hpr Hy Hb Hcode. rewrite (loop_body_glued _ _ _ _ _ pr) by done.
  unfold after_yield. rewrite Hy. unfold handle_upcall.
  unfold glued at 1. simpl. rewrite deref_insert. simpl.
  destruct Hcode as [E|[E|[E|[E Hn]]]]; rewrite E.
  - unfold spawn_proc, new_proc, xcalloc. by rewrite Hb.
  - unfold upcall_malloc. by rewrite Hb.
  - unfold upcall_new_port, xcalloc. by rewrite Hb.
  - unfold upcall_new_chan, xcalloc. unfold yield_arg1 in Hn. unfold arg. simpl.
    rewrite (bool_decide_eq_true_2 _ Hn). simpl. by rewrite Hb.
Qed.

Lemma alloc_failure_exits_witness :
  loop_body 4 20 ex_spawn_yield ex_round_env 16 ex_pair
  = Exit "rt: allocation failed, exiting" 123%Z.
Proof.
  apply (alloc_failure_exits 4 20 ex_spawn_yield ex_round_env 16 ex_pair
           (mk_proc 1024 80 0 proc_state_running 0 0 upcall_code_log_uint32
              [0; 0; 0; 0; 0; 0; 0; 0]%Z)).
  - reflexivity.
  - reflexivity.
  - reflexivity.
  - left. reflexivity.
Defined.

(** A run of the loop of [del_all_procs] that returns has read the slots
    [init], ..., 1, in this order. *)
Lemma del_all_procs_loop_Ok (fuel : nat) (sel : vec_sel) (st st' : rt_state) :
  (del_all_procs_loop fuel sel st).2 = Ok st' →
  (del_all_procs_loop fuel sel st).1 = rev (seq 1 (init (state_vec st sel)))
  ∧ init (state_vec st' sel) = 0.
Proof.
  revert st. induction fuel as [|fuel IH]; intros st; [discriminate|].
  rewrite del_all_procs_loop_S. cbv zeta.
  case_bool_decide as Hz.
  { simpl. intros [= <-]. rewrite Hz. done. }
  destruct (vec_get (state_vec st sel) (init (state_vec st sel))) as [p| |] eqn:Hp;
    simpl; try discriminate.
  destruct (del_proc p _) as [st2| |] eqn:Hdel; simpl; try discriminate.
  destruct (del_proc_sched _ _ _ Hdel) as (Hr & Hb & _).
  assert (Hi : init (state_vec st2 sel) = init (state_vec st sel) - 1).
  { destruct sel; simpl in *; [rewrite Hr|rewrite Hb]; done. }
  specialize (IH st2). destruct (del_all_procs_loop fuel sel st2) as [tr r]. simpl in *.
  intros Hres. destruct (IH Hres) as [-> Hz']. split; [|done].
  rewrite Hi. replace (init (state_vec st sel)) with (S (init (state_vec st sel) - 1)) at 1 3
    by lia.
  rewrite seq_S, rev_app_distr. simpl. do 2 f_equal. 
Qed.

(** X24. The slots [del_all_procs] reads: none on an empty vector, the only
    case [rust_start] reaches; otherwise it starts at slot [init], one past
    the slots in use, goes down to slot 1 and never reads slot 0; on a full
    vector the first read is outside the buffer. *)
Theorem del_all_procs_reads (sel : vec_sel) (st : rt_state) :
  (init (state_vec st sel) = 0 → del_all_procs sel st = ([], Ok st))
  ∧ (0 ∉ fst (del_all_procs sel st))
  ∧ (0 < init (state_vec st sel) →
       ∃ tr, (del_all_procs sel st).1 = init (state_vec st sel) :: tr)
  ∧ (0 < init (state_vec st sel) →
       length (data (state_vec st sel)) ≤ init (state_vec st sel) →
       del_all_procs sel st = ([init (state_vec st sel)], Abort))
  ∧ (∀ st', (del_all_procs sel st).2 = Ok st' →
       (del_all_procs sel st).1 = rev (seq 1 (init (state_vec st sel)))
       ∧ init (state_vec st' sel) = 0).
Proof.
  split; [|split; [|split; [|split]]].
  - intros Hz. unfold del_all_procs. rewrite del_all_procs_loop_S. cbv zeta.
    by rewrite bool_decide_eq_true_2.
  - apply del_all_procs_loop_trace.
  - intros Hpos. apply del_all_procs_loop_trace; [lia|done].
  - intros Hpos Hlen. unfold del_all_procs. rewrite del_all_procs_loop_S. cbv zeta.
    rewrite bool_decide_eq_false_2 by lia.
    unfold vec_get. rewrite lookup_ge_None_2 by done. done.
  - intros st'. apply del_all_procs_loop_Ok.
Qed.


(** ** Who enters a scheduler vector *)

Lemma registered_same_vecs (st st' : rt_state) (q : ptr) :
  running_procs st' = running_procs st → blocked_procs st' = blocked_procs st →
  registered st' q → registered st q.
Proof.
  intros Hr Hb (s & j & Hl). exists s, j. by apply (sched_part_eq st st' Hr Hb).
Qed.

Lemma attempt_rendezvous_back (wb : Z) (o : bufs) (src dst : ptr) (st st' : rt_state)
    (ok : bool) :
  sched_inv st → attempt_rendezvous wb o src dst st = Ok (ok, st') →
  ∀ q, registered st' q → registered st q.
Proof.
  intros Hinv H. unfold attempt_rendezvous in H.
  apply bind_Ok in H as (u1 & _ & H). apply bind_Ok in H as (u2 & _ & H).
  apply bind_Ok in H as (ps & _ & H). apply bind_Ok in H as (pd & _ & H).
  destruct (_ && _); [|by injection H as _ <-].
  apply bind_Ok in H as (st2 & Ht1 & H). apply bind_Ok in H as (st3 & Ht2 & H).
  injection H as _ <-.
  set (st1 := set_mem st (<[arg pd 0:=arg ps 1]> (mem st))) in *.
  assert (Hinv1 : sched_inv st1) by (by apply (sched_inv_same_sched st)).
  destruct (proc_state_transition_inv _ _ _ _ _ _ _ Hinv1 Ht1) as (Hinv2 & _).
  intros q Hq.
  apply (proc_state_transition_registered _ _ _ _ _ _ _ Hinv2 Ht2) in Hq.
  apply (proc_state_transition_registered _ _ _ _ _ _ _ Hinv1 Ht1) in Hq.
  by apply (registered_same_vecs st st1).
Qed.

Lemma upcall_send_back (wb : Z) (o : bufs) (src chan : ptr) (st st' : rt_state) :
  sched_inv st → upcall_send wb o src chan st = Ok st' →
  ∀ q, registered st' q → registered st q.
Proof.
  intros Hinv H. unfold upcall_send in H.
  apply bind_Ok in H as (u1 & _ & H).
  apply bind_Ok in H as (c & Hc & H). apply bind_Ok in H as (u2 & _ & H).
  apply bind_Ok in H as (pt & Hpt & H).
  set (st1 := set_chans st (<[chan:=set_chan_proc c src]> (chans st))) in *.
  assert (Hinv1 : sched_inv st1) by (by apply (sched_inv_same_sched st)).
  case_bool_decide; [|by injection H as <-].
  apply bind_Ok in H as (st2 & Ht & H).
  apply bind_Ok in H as (pt2 & Hpt2 & H).
  apply bind_Ok in H as ([ok st3] & Hr & H).
  destruct (proc_state_transition_inv _ _ _ _ _ _ _ Hinv1 Ht) as (Hinv2 & _).
  assert (Hback : ∀ q, registered st3 q → registered st q).
  { intros q Hq. apply (attempt_rendezvous_back _ _ _ _ _ _ _ Hinv2 Hr) in Hq.
    apply (proc_state_transition_registered _ _ _ _ _ _ _ Hinv1 Ht) in Hq.
    by apply (registered_same_vecs st st1). }
  destruct ok; [by injection H as <-|].
  apply bind_Ok in H as (c3 & Hc3 & H).
  destruct (queued c3); [by injection H as <-|].
  apply bind_Ok in H as (pt3 & Hpt3 & H). apply bind_Ok in H as (w & Hw & H).
  injection H as <-. intros q Hq. apply Hback.
  eapply registered_same_vecs; [| |exact Hq]; done.
Qed.

Lemma upcall_recv_back (wb : Z) (o : bufs) (r : nat) (dst port : ptr) (st st' : rt_state) :
  sched_inv st → upcall_recv wb o r dst port st = Ok st' →
  ∀ q, registered st' q → registered st q.
Proof.
  intros Hinv H. unfold upcall_recv in H.
  apply bind_Ok in H as (u1 & _ & H). apply bind_Ok in H as (pt & Hpt & H).
  apply bind_Ok in H as (u2 & _ & H). apply bind_Ok in H as (u3 & _ & H).
  apply bind_Ok in H as (u4 & _ & H).
  apply bind_Ok in H as (st1 & Ht & H).
  apply bind_Ok in H as (pt1 & Hpt1 & H).
  destruct (proc_state_transition_inv _ _ _ _ _ _ _ Hinv Ht) as (Hinv1 & _).
  pose proof (proc_state_transition_registered _ _ _ _ _ _ _ Hinv Ht) as Hreg1.
  case_bool_decide; [|injection H as <-; intros q Hq; by apply Hreg1].
  apply bind_Ok in H as (schan & Hsc & H). apply bind_Ok in H as (sc & Hsc' & H).
  apply bind_Ok in H as (u5 & _ & H).
  apply bind_Ok in H as ([ok st2] & Hr & H).
  pose proof (attempt_rendezvous_back _ _ _ _ _ _ _ Hinv1 Hr) as Hreg2.
  destruct ok; [|injection H as <-; intros q Hq; by apply Hreg1, Hreg2].
  apply bind_Ok in H as (st3 & Hsd & H).
  apply bind_Ok in H as (pt3 & Hpt3 & H). apply bind_Ok in H as (w & Hw & H).
  apply bind_Ok in H as (sc4 & Hsc4 & H). injection H as <-.
  destruct (chan_vec_swapdel_sched _ _ _ _ Hsd) as (Hr3 & Hb3 & _).
  intros q Hq. apply Hreg1, Hreg2.
  eapply registered_same_vecs; [| |exact Hq]; done.
Qed.

Lemma exit_proc_back (wb : Z) (b : block) (p : ptr) (st st' : rt_state) :
  sched_inv st → exit_proc wb b p st = Ok st' →
  ∀ q, registered st' q → registered st q.
Proof.
  intros Hinv H. unfold exit_proc in H.
  apply bind_Ok in H as (u1 & _ & H). apply bind_Ok in H as (u2 & _ & H).
  apply bind_Ok in H as (sel & _ & H).
  apply bind_Ok in H as (st1 & Hsd & H). apply bind_Ok in H as (st2 & Hdel & H).
  apply bind_Ok in H as (v' & Htrim & H). injection H as <-.
  destruct (proc_vec_swapdel_inv _ _ _ _ Hinv Hsd) as (Hinv1 & Hnr1 & _).
  destruct (del_proc_sched _ _ _ Hdel) as (Hr & Hb & Hp).
  assert (Hinv2 : sched_inv st2).
  { apply (sched_inv_same_sched (set_procs st1 (delete p (procs st1)))); [|done..].
    eapply proj1, (sched_inv_set_procs_unregistered st1 p); [done|done|].
    intros q Hq. by rewrite lookup_delete_ne. }
  rewrite (sched_inv_trim _ _ _ _ _ _ Hinv2 Htrim).
  intros q Hq. apply (proc_vec_swapdel_back _ _ _ _ Hinv Hsd).
  by apply (registered_same_vecs st1 st2).
Qed.

(** An upcall registers no proc but the one a sched upcall names. *)
Lemma handle_upcall_back (wb off : Z) (e : env) (proc : ptr) (pr : rust_proc)
    (st st' : rt_state) :
  sched_inv st → procs st !! proc = Some pr →
  (upcall_code pr = upcall_code_sched →
     arg pr 0 ≠ null ∧ ¬ registered st (arg pr 0)) →
  handle_upcall wb off e proc st = Ok st' →
  ∀ q, registered st' q →
    registered st q ∨ (upcall_code pr = upcall_code_sched ∧ q = arg pr 0).
Proof.
  intros Hinv Hpr Hsched H. unfold handle_upcall in H.
  apply bind_Ok in H as (pr0 & Hpr0 & H). apply deref_Ok in Hpr0.
  assert (pr0 = pr) as -> by congruence.
  apply bind_Ok in H as (st1 & Hcase & H).
  apply bind_Ok in H as (pr1 & Hpr1 & H). injection H as <-.
  intros q Hq.
  assert (Hq1 : registered st1 q) by (eapply registered_same_vecs; [| |exact Hq]; done).
  clear Hq. destruct (upcall_code pr) eqn:Hcode.
  - injection Hcase as <-. by left.
  - injection Hcase as <-. by left.
  - apply bind_Ok in Hcase as ([p st2] & Hnew & Hcase). injection Hcase as <-.
    unfold spawn_proc in Hnew.
    destruct (new_proc_inv _ _ _ _ _ _ _ _ Hnew) as (_ & _ & _ & Hr & Hb & _).
    left. eapply registered_same_vecs; [| |exact Hq1]; done.
  - unfold upcall_check_expr in Hcase. left.
    case_bool_decide; [|by injection Hcase as <-].
    apply bind_Ok in Hcase as (pr2 & Hpr2 & Hcase). injection Hcase as <-.
    eapply registered_same_vecs; [| |exact Hq1]; done.
  - apply bind_Ok in Hcase as ([p st2] & Hm & Hcase). injection Hcase as <-.
    apply bind_Ok in Hm as (p' & _ & Hm). injection Hm as <- <-.
    left. eapply registered_same_vecs; [| |exact Hq1]; done.
  - destruct (upcall_free_sched _ _ _ Hcase) as (Hr & Hb & _).
    left. eapply registered_same_vecs; [| |exact Hq1]; done.
  - unfold upcall_new_port in Hcase.
    apply bind_Ok in Hcase as ([p st2] & Hnew & Hcase). injection Hcase as <-.
    apply bind_Ok in Hnew as (port & _ & Hnew).
    apply bind_Ok in Hnew as (w & _ & Hnew). injection Hnew as <- <-.
    left. eapply registered_same_vecs; [| |exact Hq1]; done.
  - unfold upcall_del_port in Hcase. inv_res Hcase. injection Hcase as <-.
    left. eapply registered_same_vecs; [| |exact Hq1]; done.
  - unfold upcall_new_chan in Hcase.
    apply bind_Ok in Hcase as ([p st2] & Hnew & Hcase). injection Hcase as <-.
    apply bind_Ok in Hnew as (u & _ & Hnew).
    apply bind_Ok in Hnew as (chan & _ & Hnew).
    apply bind_Ok in Hnew as (w & _ & Hnew). injection Hnew as <- <-.
    left. eapply registered_same_vecs; [| |exact Hq1]; done.
  - unfold upcall_del_chan in Hcase. inv_res Hcase. injection Hcase as <-.
    left. eapply registered_same_vecs; [| |exact Hq1]; done.
  - left. by eapply upcall_send_back.
  - left. by eapply upcall_recv_back.
  - destruct (Hsched eq_refl) as (Hnn & Hnr).
    destruct (add_proc_to_state_vec_inv _ _ _ _ _ Hinv Hnr Hnn Hcase)
      as (_ & _ & _ & Hback & _).
    destruct (Hback q Hq1) as [->|Hreg]; [by right|by left].
Qed.

(** A round of the loop registers no proc but the one a sched upcall names. *)
Lemma loop_body_back (wb off : Z) (y : yield) (e : env) (p : ptr) (st : rt_state)
    (r : option ptr) (st' : rt_state) :
  sched_inv st → (∃ i, live_slot st sel_running i p) → disciplined y e st →
  loop_body wb off y e p st = Ok (r, st') →
  ∀ q, registered st' q →
    registered st q
    ∨ (y_state y = proc_state_calling_c ∧ y_code y = upcall_code_sched
       ∧ q = yield_arg0 y).
Proof.
  intros Hinv (i & Hl) Hd H. pose proof Hinv as (_ & _ & Hs).
  destruct (Hs _ _ _ Hl) as (Hnn & pr & Hpr & Hidx & Hcls).
  rewrite (loop_body_glued _ _ _ _ _ pr) in H by done.
  apply bind_Ok in H as (st2 & Hafter & H).
  assert (st' = st2) as ->.
  { case_bool_decide; [|by injection H as _ <-].
    apply bind_Ok in H as (q & _ & H). by injection H as _ <-. }
  clear H. set (g := glued y p pr st) in *.
  assert (Hg : ∀ q, registered g q → registered st q).
  { intros q. by apply registered_same_vecs. }
  intros q Hq. unfold after_yield in Hafter.
  destruct (y_state y) eqn:Hy; try discriminate Hafter.
  - injection Hafter as <-. left. by apply Hg.
  - assert (Hinvg : sched_inv g) by (apply glued_inv; [done|done|done|by rewrite Hy]).
    apply bind_Ok in Hafter as (st3 & Hup & Hafter).
    apply bind_Ok in Hafter as (pr3 & Hpr3 & Hafter).
    assert (Hq3 : registered st3 q).
    { destruct (bool_decide (state pr3 = proc_state_calling_c));
        injection Hafter as <-; [|done].
      eapply registered_same_vecs; [| |exact Hq]; done. }
    destruct (Hd Hy) as (_ & Hsc & _).
    set (rec := mk_proc (stk pr) (prog pr) (y_sp y) (y_state y) (idx pr) (refcnt pr)
                  (y_code y) (resize PROC_MAX_UPCALL_ARGS 0%Z (y_args y))).
    assert (Hrec : procs g !! p = Some rec) by (unfold g, glued; simpl; apply lookup_insert_eq).
    assert (Hsc' : upcall_code rec = upcall_code_sched →
                   arg rec 0 ≠ null ∧ ¬ registered g (arg rec 0)).
    { simpl. intros Hc. destruct (Hsc Hc) as (Ha & Hr). split; [done|].
      intros Hreg. apply Hr. by apply Hg. }
    destruct (handle_upcall_back wb off e p rec g st3 Hinvg Hrec Hsc' Hup q Hq3)
      as [Hreg|(Hc & ->)].
    + left. by apply Hg.
    + right. done.
  - assert (Hinvg : sched_inv g) by (apply glued_inv; [done|done|done|by rewrite Hy]).
    left. apply Hg. by eapply exit_proc_back.
Qed.

(** A round with a spawn upcall: the new proc has a record, its handle is in
    the out-slot, and no scheduler vector holds it. *)
Lemma loop_body_spawn (wb off : Z) (y : yield) (e : env) (p : ptr) (st : rt_state)
    (r : option ptr) (st' : rt_state) :
  sched_inv st → (∃ i, live_slot st sel_running i p) → disciplined y e st →
  y_state y = proc_state_calling_c → y_code y = upcall_code_spawn →
  loop_body wb off y e p st = Ok (r, st') →
  e_block1 e ≠ null
  ∧ mem st' !! yield_arg0 y = Some (e_block1 e)
  ∧ (∃ pn, procs st' !! e_block1 e = Some pn ∧ state pn = proc_state_running)
  ∧ ¬ registered st' (e_block1 e).
Proof.
  intros Hinv Hex Hd Hy Hcode H.
  pose proof (loop_body_back _ _ _ _ _ _ _ _ Hinv Hex Hd H) as Hback.
  destruct Hex as (i & Hl). pose proof Hinv as (_ & _ & Hs).
  destruct (Hs _ _ _ Hl) as (Hnn & pr & Hpr & Hidx & Hcls).
  destruct (Hd Hy) as (Hfresh & _). specialize (Hfresh Hcode).
  assert (Hne : e_block1 e ≠ p) by (intros E; congruence).
  assert (Hnr : ¬ registered st' (e_block1 e)).
  { intros Hreg. destruct (Hback _ Hreg) as [(s & j & Hq)|(_ & Hc & _)]; [|congruence].
    destruct (Hs _ _ _ Hq) as (_ & x & Hx & _). congruence. }
  rewrite (loop_body_glued _ _ _ _ _ pr) in H by done.
  apply bind_Ok in H as (st2 & Hafter & H).
  assert (st' = st2) as ->.
  { case_bool_decide; [|by injection H as _ <-].
    apply bind_Ok in H as (q & _ & H). by injection H as _ <-. }
  clear H. unfold after_yield in Hafter. rewrite Hy in Hafter.
  apply bind_Ok in Hafter as (st3 & Hup & Hafter).
  apply bind_Ok in Hafter as (pr3 & Hpr3 & Hafter).
  assert (Hst3 : e_block1 e ≠ null
            ∧ mem st3 !! yield_arg0 y = Some (e_block1 e)
            ∧ ∃ pn, procs st3 !! e_block1 e = Some pn ∧ state pn = proc_state_running).
  { unfold handle_upcall in Hup.
    apply bind_Ok in Hup as (rec & Hrec & Hup). apply deref_Ok in Hrec.
    unfold glued in Hrec. simpl in Hrec. rewrite lookup_insert_eq in Hrec.
    injection Hrec as <-. simpl in Hup. rewrite Hcode in Hup.
    apply bind_Ok in Hup as (st4 & Hcase & Hup).
    apply bind_Ok in Hup as (pr4 & Hpr4 & Hup). injection Hup as <-.
    apply bind_Ok in Hcase as ([p' st5] & Hnew & Hcase). injection Hcase as <-.
    unfold spawn_proc in Hnew.
    destruct (new_proc_inv _ _ _ _ _ _ _ _ Hnew)
      as (-> & Hb1 & _ & _ & _ & _ & _ & _ & _ & Hprocs & _).
    split; [done|]. simpl. split; [apply lookup_insert_eq|].
    eexists. rewrite lookup_insert_ne by done. rewrite Hprocs.
    split; [apply lookup_insert_eq|done]. }
  destruct Hst3 as (Hb1 & Hm3 & pn & Hpn & Hsn).
  split; [done|].
  destruct (bool_decide (state pr3 = proc_state_calling_c)); injection Hafter as <-.
  - split; [done|]. split; [|done]. exists pn. simpl.
    by rewrite lookup_insert_ne.
  - split; [done|]. split; [|done]. by exists pn.
Qed.

(** C3, as stated, fails: a root proc that applies the sched upcall to
    itself and then blocks in a receive is held by both scheduler vectors
    when the dispatcher returns. *)
Lemma proc_vec_claim_counterexample :
  ¬ (∀ r st, loop_reach 4 20 undisciplined r st → proc_vec_claim st).
Proof.
  intros H.
  destruct (rust_start_init 4 20 900 ex_env 80 ex_progs ∅) as [[p0 st0]| |] eqn:E0;
    [|vm_compute in E0; discriminate E0|vm_compute in E0; discriminate E0].
  destruct (run_rounds 4 20 ex_rounds p0 st0) as [[r1 st1]| |] eqn:E1.
  - specialize (H r1 st1
      (run_rounds_reach _ _ _ _ _ _ _ (reach_init _ _ _ _ _ _ _ _ _ _ E0) E1)).
    vm_compute in E0. injection E0 as <- <-.
    vm_compute in E1. injection E1 as <- <-.
    destruct (H 4096%Z) as (pr & _ & _ & Huniq).
    { exists sel_running, 0. split; [simpl; lia|reflexivity]. }
    assert (Hrun : sel_running = get_state_vec (state pr)).
    { apply (Huniq sel_running 0). split; [simpl; lia|reflexivity]. }
    assert (Hblk : sel_blocked = get_state_vec (state pr)).
    { apply (Huniq sel_blocked 0). split; [simpl; lia|reflexivity]. }
    congruence.
  - vm_compute in E0. injection E0 as <- <-. vm_compute in E1. discriminate E1.
  - vm_compute in E0. injection E0 as <- <-. vm_compute in E1. discriminate E1.
Qed.

(** C3, amended. On a platform whose pointers take more than one byte, in
    every state the driver loop reaches while the sched upcall is applied
    only to procs that no scheduler vector holds yet, the free upcall to no
    proc that a scheduler vector holds, and [malloc] never returns a live
    proc record: every proc held by a scheduler vector is held by exactly
    one of the two, the one its state determines, in exactly one slot, the
    slot [idx] names.  A proc that spawn has created is in neither vector
    until a sched upcall registers it: after the round of the spawn upcall
    no vector holds it, and a round puts no proc into a vector but the one
    its sched upcall names. *)
Theorem proc_vec_invariant (wb off : Z) (r : option ptr) (st : rt_state) :
  (1 < wb)%Z → loop_reach wb off disciplined r st →
  proc_vec_claim st
  ∧ (∀ p sel sel' i j, live_slot st sel i p → live_slot st sel' j p →
       sel = sel' ∧ i = j)
  ∧ (∀ q, r = Some q → ∃ i, live_slot st sel_running i q)
  ∧ (∀ y e p r' st', r = Some p → disciplined y e st →
       loop_body wb off y e p st = Ok (r', st') →
       (y_state y = proc_state_calling_c → y_code y = upcall_code_spawn →
          mem st' !! yield_arg0 y = Some (e_block1 e)
          ∧ (∃ pn, procs st' !! e_block1 e = Some pn ∧ state pn = proc_state_running)
          ∧ ¬ registered st' (e_block1 e))
       ∧ (∀ q, registered st' q →
            registered st q
            ∨ (y_state y = proc_state_calling_c ∧ y_code y = upcall_code_sched
               ∧ q = yield_arg0 y))).
Proof.
  intros Hwb Hreach. destruct (loop_reach_inv _ _ _ _ Hwb Hreach) as (Hinv & Hnext).
  split; [by apply sched_inv_claim|]. split; [|split; [done|]].
  { intros p sel sel' i j. by apply live_slot_unique. }
  intros y e p r' st' -> Hd H. specialize (Hnext p eq_refl). split.
  - intros Hy Hcode.
    by destruct (loop_body_spawn _ _ _ _ _ _ _ _ Hinv Hnext Hd Hy Hcode H) as (_ & ?).
  - by eapply loop_body_back.
Qed.

Lemma proc_vec_invariant_witness :
  ∃ p st r st',
    rust_start_init 4 20 900 ex_env 80 ex_progs ∅ = Ok (p, st)
    ∧ loop_body 4 20 ex_spawn_yield ex_spawn_env p st = Ok (r, st')
    ∧ proc_vec_claim st' ∧ ¬ registered st' 16384.
Proof.
  destruct (rust_start_init 4 20 900 ex_env 80 ex_progs ∅) as [[p st]| |] eqn:E0;
    [|vm_compute in E0; discriminate E0|vm_compute in E0; discriminate E0].
  assert (Hd : disciplined ex_spawn_yield ex_spawn_env st).
  { intros _. split; [intros _|split; intros Hc; discriminate Hc].
    vm_compute in E0. injection E0 as <- <-. reflexivity. }
  destruct (loop_body 4 20 ex_spawn_yield ex_spawn_env p st) as [[r st']| |] eqn:E1.
  - exists p, st, r, st'. split; [reflexivity|]. split; [exact E1|]. split.
    + refine (proj1 (proc_vec_invariant 4 20 r st' _ _)); [lia|].
      eapply reach_step; [eapply reach_init; exact E0|exact Hd|exact E1].
    + refine (proj2 (proj2 (proj1 (proj2 (proj2 (proj2
                (proc_vec_invariant 4 20 (Some p) st _ _)))
                ex_spawn_yield ex_spawn_env p r st' eq_refl Hd E1) eq_refl eq_refl)));
        [lia|].
      eapply reach_init; exact E0.
  - vm_compute in E0. injection E0 as <- <-. vm_compute in E1. discriminate E1.
  - vm_compute in E0. injection E0 as <- <-. vm_compute in E1. discriminate E1.
Defined.


(** ** The counters of a vector *)

(** X27. What [ptr_vec_push], [ptr_vec_trim] and [ptr_vec_swapdel] do to the
    counters [init] and [alloc], whenever they return: they keep
    [init ≤ alloc], [alloc ≥ 8] and [alloc] a power of two; push adds one to
    [init] and doubles [alloc] exactly when [init = alloc]; trim halves
    [alloc] exactly when the supplied count is at most [alloc / 4] and
    [alloc / 2 ≥ 8]; swap-delete takes one from [init].  So does every
    sequence of the three that returns. *)
Theorem ptr_vec_counters (wb : Z) (v : ptr_vec) :
  cap_inv v →
  (∀ b p v', ptr_vec_push wb b v p = Ok v' →
     cap_inv v' ∧ init v' = S (init v)
     ∧ alloc v' = (if bool_decide (init v = alloc v) then alloc v * 2 else alloc v))
  ∧ (∀ b n v', ptr_vec_trim wb b v n = Ok v' →
       cap_inv v' ∧ init v' = init v
       ∧ alloc v' = (if bool_decide (trim_cond v n) then alloc v / 2 else alloc v))
  ∧ (∀ i v', ptr_vec_swapdel v i = Ok v' →
       cap_inv v' ∧ S (init v') = init v ∧ alloc v' = alloc v)
  ∧ (∀ ops v', run_ops wb ops v = Ok v' → cap_inv v').
Proof.
  assert (Hpush : ∀ u b p v', cap_inv u → ptr_vec_push wb b u p = Ok v' →
     cap_inv v' ∧ init v' = S (init u)
     ∧ alloc v' = (if bool_decide (init u = alloc u) then alloc u * 2 else alloc u)).
  { intros u b p v' (_ & Hle & H8 & Hp2) H. unfold ptr_vec_push in H.
    apply bind_Ok in H as (v1 & H1 & H). apply bind_Ok in H as (v2 & H2 & H).
    injection H as <-. apply vec_set_Ok in H2 as [_ ->]. simpl.
    unfold cap_inv. simpl. unfold INIT_PTR_VEC_SZ in *.
    case_bool_decide as E.
    - apply bind_Ok in H1 as (d & _ & H1). injection H1 as <-. simpl.
      split; [|done]. split; [lia|]. split; [lia|]. split; [lia|by apply pow2_double].
    - injection H1 as <-. split; [|done]. split; [lia|]. split; [lia|done]. }
  assert (Htrim : ∀ u b n v', cap_inv u → ptr_vec_trim wb b u n = Ok v' →
     cap_inv v' ∧ init v' = init u
     ∧ alloc v' = (if bool_decide (trim_cond u n) then alloc u / 2 else alloc u)).
  { intros u b n v' Hu H. pose proof Hu as (_ & Hle & H8 & Hp2).
    unfold ptr_vec_trim in H. unfold trim_cond.
    destruct (decide (n ≤ alloc u / 4)) as [C1|C1];
      destruct (decide (INIT_PTR_VEC_SZ ≤ alloc u / 2)) as [C2|C2].
    - rewrite !bool_decide_eq_true_2 in H by done. simpl in H.
      apply bind_Ok in H as (x & Ha & H). apply assert_Ok, bool_decide_eq_true in Ha.
      apply bind_Ok in H as (d & _ & H). injection H as <-. simpl.
      rewrite bool_decide_eq_true_2 by done. split; [|done].
      unfold cap_inv. simpl. split; [lia|]. split; [done|]. split; [done|].
      apply pow2_half; [done|]. unfold INIT_PTR_VEC_SZ in H8. lia.
    - rewrite (bool_decide_eq_false_2 (INIT_PTR_VEC_SZ ≤ alloc u / 2)), andb_false_r in H
        by done.
      injection H as <-. by rewrite bool_decide_eq_false_2 by tauto.
    - rewrite (bool_decide_eq_false_2 (n ≤ alloc u / 4)) in H by done.
      injection H as <-. by rewrite bool_decide_eq_false_2 by tauto.
    - rewrite (bool_decide_eq_false_2 (n ≤ alloc u / 4)) in H by done.
      injection H as <-. by rewrite bool_decide_eq_false_2 by tauto. }
  assert (Hdel : ∀ u i v', cap_inv u → ptr_vec_swapdel u i = Ok v' →
     cap_inv v' ∧ S (init v') = init u ∧ alloc v' = alloc u).
  { intros u i v' (_ & Hle & H8 & Hp2) H. unfold ptr_vec_swapdel in H.
    apply bind_Ok in H as (u1 & H1 & H). apply assert_Ok, bool_decide_eq_true in H1.
    apply bind_Ok in H as (u2 & _ & H). simpl in H.
    assert (E : init v' = init u - 1 ∧ alloc v' = alloc u).
    { destruct (bool_decide (0 < init u - 1)).
      - apply bind_Ok in H as (x & _ & H). by apply vec_set_Ok in H as [_ ->].
      - by injection H as <-. }
    destruct E as [Ei Ea]. unfold cap_inv. rewrite Ei, Ea.
    split; [|split; [lia|done]]. split; [lia|]. split; [lia|done]. }
  intros Hv. split; [by intros; eapply Hpush|]. split; [by intros; eapply Htrim|].
  split; [by intros; eapply Hdel|].
  intros ops. revert v Hv. induction ops as [|o ops IH]; intros v Hv v' H; simpl in H.
  - by injection H as <-.
  - apply bind_Ok in H as (v1 & H1 & H). eapply (IH v1); [|done].
    destruct o as [b p|b n|i]; simpl in H1.
    + by destruct (Hpush _ _ _ _ Hv H1).
    + by destruct (Htrim _ _ _ _ Hv H1).
    + by destruct (Hdel _ _ _ Hv H1).
Qed.

Lemma ptr_vec_counters_witness :
  ∃ v', ptr_vec_trim 4 ex_block ex_vec16 2 = Ok v' ∧ cap_inv v' ∧ alloc v' = 8.
Proof.
  assert (Hv : cap_inv ex_vec16).
  { unfold cap_inv, ex_vec16, INIT_PTR_VEC_SZ. simpl.
    split; [lia|]. split; [lia|]. split; [lia|]. exists 4. reflexivity. }
  destruct (ptr_vec_trim 4 ex_block ex_vec16 2) as [v'| |] eqn:E;
    [|vm_compute in E; discriminate E|vm_compute in E; discriminate E].
  exists v'. split; [reflexivity|].
  destruct (proj1 (proj2 (ptr_vec_counters 4 ex_vec16 Hv)) ex_block 2 v' E)
    as (Hc & _ & Ha).
  split; [exact Hc|]. rewrite Ha. reflexivity.
Defined.


(** ** The buffers of the scheduler vectors *)

Lemma proc_state_transition_len (wb : Z) (o : bufs) (p : ptr) (src dst : proc_state_t)
    (st st' : rt_state) :
  sched_inv st → proc_state_transition wb o p src dst st = Ok st' →
  ∀ s, length (data (state_vec st' s)) = length (data (state_vec st s)).
Proof. intros Hinv H. by destruct (proc_state_transition_shape _ _ _ _ _ _ _ Hinv H). Qed.

Lemma attempt_rendezvous_len (wb : Z) (o : bufs) (src dst : ptr) (st st' : rt_state)
    (ok : bool) :
  sched_inv st → attempt_rendezvous wb o src dst st = Ok (ok, st') →
  ∀ s, length (data (state_vec st' s)) = length (data (state_vec st s)).
Proof.
  intros Hinv H. unfold attempt_rendezvous in H.
  apply bind_Ok in H as (u1 & _ & H). apply bind_Ok in H as (u2 & _ & H).
  apply bind_Ok in H as (ps & _ & H). apply bind_Ok in H as (pd & _ & H).
  destruct (_ && _); [|by injection H as _ <-].
  apply bind_Ok in H as (st2 & Ht1 & H). apply bind_Ok in H as (st3 & Ht2 & H).
  injection H as _ <-.
  set (st1 := set_mem st (<[arg pd 0:=arg ps 1]> (mem st))) in *.
  assert (Hinv1 : sched_inv st1) by (by apply (sched_inv_same_sched st)).
  destruct (proc_state_transition_inv _ _ _ _ _ _ _ Hinv1 Ht1) as (Hinv2 & _).
  intros s. rewrite (proc_state_transition_len _ _ _ _ _ _ _ Hinv2 Ht2).
  rewrite (proc_state_transition_len _ _ _ _ _ _ _ Hinv1 Ht1). by destruct s.
Qed.

Lemma upcall_send_len (wb : Z) (o : bufs) (src chan : ptr) (st st' : rt_state) :
  sched_inv st → upcall_send wb o src chan st = Ok st' →
  ∀ s, length (data (state_vec st' s)) = length (data (state_vec st s)).
Proof.
  intros Hinv H. unfold upcall_send in H.
  apply bind_Ok in H as (u1 & _ & H).
  apply bind_Ok in H as (c & Hc & H). apply bind_Ok in H as (u2 & _ & H).
  apply bind_Ok in H as (pt & Hpt & H).
  set (st1 := set_chans st (<[chan:=set_chan_proc c src]> (chans st))) in *.
  assert (Hinv1 : sched_inv st1) by (by apply (sched_inv_same_sched st)).
  case_bool_decide; [|by injection H as <-; intros []].
  apply bind_Ok in H as (st2 & Ht & H).
  apply bind_Ok in H as (pt2 & Hpt2 & H).
  apply bind_Ok in H as ([ok st3] & Hr & H).
  destruct (proc_state_transition_inv _ _ _ _ _ _ _ Hinv1 Ht) as (Hinv2 & _).
  assert (Hlen : ∀ s, length (data (state_vec st3 s)) = length (data (state_vec st s))).
  { intros s. rewrite (attempt_rendezvous_len _ _ _ _ _ _ _ Hinv2 Hr).
    rewrite (proc_state_transition_len _ _ _ _ _ _ _ Hinv1 Ht). by destruct s. }
  destruct ok; [by injection H as <-|].
  apply bind_Ok in H as (c3 & Hc3 & H).
  destruct (queued c3); [by injection H as <-|].
  apply bind_Ok in H as (pt3 & Hpt3 & H). apply bind_Ok in H as (w & Hw & H).
  injection H as <-. intros s. rewrite <- Hlen. by destruct s.
Qed.

Lemma upcall_recv_len (wb : Z) (o : bufs) (r : nat) (dst port : ptr) (st st' : rt_state) :
  sched_inv st → upcall_recv wb o r dst port st = Ok st' →
  ∀ s, length (data (state_vec st' s)) = length (data (state_vec st s)).
Proof.
  intros Hinv H. unfold upcall_recv in H.
  apply bind_Ok in H as (u1 & _ & H). apply bind_Ok in H as (pt & Hpt & H).
  apply bind_Ok in H as (u2 & _ & H). apply bind_Ok in H as (u3 & _ & H).
  apply bind_Ok in H as (u4 & _ & H).
  apply bind_Ok in H as (st1 & Ht & H).
  apply bind_Ok in H as (pt1 & Hpt1 & H).
  destruct (proc_state_transition_inv _ _ _ _ _ _ _ Hinv Ht) as (Hinv1 & _).
  pose proof (proc_state_transition_len _ _ _ _ _ _ _ Hinv Ht) as Hlen1.
  case_bool_decide; [|by injection H as <-].
  apply bind_Ok in H as (schan & Hsc & H). apply bind_Ok in H as (sc & Hsc' & H).
  apply bind_Ok in H as (u5 & _ & H).
  apply bind_Ok in H as ([ok st2] & Hr & H).
  pose proof (attempt_rendezvous_len _ _ _ _ _ _ _ Hinv1 Hr) as Hlen2.
  assert (Hlen : ∀ s, length (data (state_vec st2 s)) = length (data (state_vec st s))).
  { intros s. by rewrite Hlen2, Hlen1. }
  destruct ok; [|by injection H as <-].
  apply bind_Ok in H as (st3 & Hsd & H).
  apply bind_Ok in H as (pt3 & Hpt3 & H). apply bind_Ok in H as (w & Hw & H).
  apply bind_Ok in H as (sc4 & Hsc4 & H). injection H as <-.
  destruct (chan_vec_swapdel_sched _ _ _ _ Hsd) as (Hr3 & Hb3 & _).
  intros s. rewrite <- Hlen. destruct s; simpl; by rewrite ?Hr3, ?Hb3.
Qed.

Lemma exit_proc_len (wb : Z) (b : block) (p : ptr) (st st' : rt_state) :
  sched_inv st → exit_proc wb b p st = Ok st' →
  ∀ s, length (data (state_vec st' s)) = length (data (state_vec st s)).
Proof.
  intros Hinv H. unfold exit_proc in H.
  apply bind_Ok in H as (u1 & _ & H). apply bind_Ok in H as (u2 & _ & H).
  apply bind_Ok in H as (sel & _ & H).
  apply bind_Ok in H as (st1 & Hsd & H). apply bind_Ok in H as (st2 & Hdel & H).
  apply bind_Ok in H as (v' & Htrim & H). injection H as <-.
  destruct (proc_vec_swapdel_inv _ _ _ _ Hinv Hsd) as (Hinv1 & Hnr1 & _).
  destruct (del_proc_sched _ _ _ Hdel) as (Hr & Hb & Hp).
  assert (Hinv2 : sched_inv st2).
  { apply (sched_inv_same_sched (set_procs st1 (delete p (procs st1)))); [|done..].
    eapply proj1, (sched_inv_set_procs_unregistered st1 p); [done|done|].
    intros q Hq. by rewrite lookup_delete_ne. }
  rewrite (sched_inv_trim _ _ _ _ _ _ Hinv2 Htrim).
  destruct (proc_vec_swapdel_shape _ _ _ _
              (proj2 (proj2 (sched_inv_vec st sel Hinv))) Hsd) as (_ & _ & Hl & Ho).
  intros s.
  assert (E : state_vec st2 s = state_vec st1 s) by (destruct s; simpl; congruence).
  rewrite E. destruct (decide (s = sel)) as [->|Hne]; [done|]. by rewrite Ho.
Qed.

Lemma add_proc_to_state_vec_len (wb : Z) (b : block) (p : ptr) (st st' : rt_state) :
  sched_inv st → add_proc_to_state_vec wb b p st = Ok st' →
  ∀ s, length (data (state_vec st' s)) = length (data (state_vec st s)).
Proof.
  intros Hinv H.
  destruct (add_proc_to_state_vec_count _ _ _ _ _ H) as (pr & Hpr & _).
  destruct (add_proc_to_state_vec_shape _ _ _ _ _ _ Hinv Hpr H) as (_ & _ & Hl & Ho).
  intros s. destruct (decide (s = get_state_vec (state pr))) as [->|Hne]; [done|].
  by rewrite Ho.
Qed.

Lemma handle_upcall_len (wb off : Z) (e : env) (proc : ptr) (st st' : rt_state) :
  sched_inv st → handle_upcall wb off e proc st = Ok st' →
  ∀ s, length (data (state_vec st' s)) = length (data (state_vec st s)).
Proof.
  intros Hinv H. unfold handle_upcall in H.
  apply bind_Ok in H as (pr & Hpr & H).
  apply bind_Ok in H as (st1 & Hcase & H).
  apply bind_Ok in H as (pr1 & Hpr1 & H). injection H as <-.
  assert (Hsame : ∀ a b : rt_state,
            running_procs b = running_procs a → blocked_procs b = blocked_procs a →
            ∀ s, length (data (state_vec b s)) = length (data (state_vec a s))).
  { intros a b Hr Hb []; simpl; congruence. }
  intros s. rewrite state_vec_set_procs. revert s.
  destruct (upcall_code pr) eqn:Hcode.
  - by injection Hcase as <-.
  - by injection Hcase as <-.
  - apply bind_Ok in Hcase as ([p st2] & Hnew & Hcase). injection Hcase as <-.
    unfold spawn_proc in Hnew.
    destruct (new_proc_inv _ _ _ _ _ _ _ _ Hnew) as (_ & _ & _ & Hr & Hb & _).
    by apply Hsame.
  - unfold upcall_check_expr in Hcase.
    case_bool_decide; [|by injection Hcase as <-].
    apply bind_Ok in Hcase as (pr2 & Hpr2 & Hcase). by injection Hcase as <-.
  - apply bind_Ok in Hcase as ([p st2] & Hm & Hcase). injection Hcase as <-.
    apply bind_Ok in Hm as (p' & _ & Hm). by injection Hm as <- <-.
  - destruct (upcall_free_sched _ _ _ Hcase) as (Hr & Hb & _). by apply Hsame.
  - unfold upcall_new_port in Hcase.
    apply bind_Ok in Hcase as ([p st2] & Hnew & Hcase). injection Hcase as <-.
    apply bind_Ok in Hnew as (port & _ & Hnew).
    apply bind_Ok in Hnew as (w & _ & Hnew). by injection Hnew as <- <-.
  - unfold upcall_del_port in Hcase. inv_res Hcase. by injection Hcase as <-.
  - unfold upcall_new_chan in Hcase.
    apply bind_Ok in Hcase as ([p st2] & Hnew & Hcase). injection Hcase as <-.
    apply bind_Ok in Hnew as (u & _ & Hnew).
    apply bind_Ok in Hnew as (chan & _ & Hnew).
    apply bind_Ok in Hnew as (w & _ & Hnew). by injection Hnew as <- <-.
  - unfold upcall_del_chan in Hcase. inv_res Hcase. by injection Hcase as <-.
  - by eapply upcall_send_len.
  - by eapply upcall_recv_len.
  - by eapply add_proc_to_state_vec_len.
Qed.

Lemma loop_body_len (wb off : Z) (y : yield) (e : env) (p : ptr) (st : rt_state)
    (r : option ptr) (st' : rt_state) :
  sched_inv st → (∃ i, live_slot st sel_running i p) →
  loop_body wb off y e p st = Ok (r, st') →
  ∀ s, length (data (state_vec st' s)) = length (data (state_vec st s)).
Proof.
  intros Hinv (i & Hl) H. pose proof Hinv as (_ & _ & Hs).
  destruct (Hs _ _ _ Hl) as (Hnn & pr & Hpr & Hidx & Hcls).
  rewrite (loop_body_glued _ _ _ _ _ pr) in H by done.
  apply bind_Ok in H as (st2 & Hafter & H).
  assert (st' = st2) as ->.
  { case_bool_decide; [|by injection H as _ <-].
    apply bind_Ok in H as (q & _ & H). by injection H as _ <-. }
  clear H. set (g := glued y p pr st) in *.
  assert (Hg : ∀ s, state_vec g s = state_vec st s) by (by intros []).
  intros s. rewrite <- Hg. revert s. unfold after_yield in Hafter.
  destruct (y_state y) eqn:Hy; try discriminate Hafter.
  - by injection Hafter as <-.
  - assert (Hinvg : sched_inv g) by (apply glued_inv; [done|done|done|by rewrite Hy]).
    apply bind_Ok in Hafter as (st3 & Hup & Hafter).
    apply bind_Ok in Hafter as (pr3 & Hpr3 & Hafter).
    pose proof (handle_upcall_len _ _ _ _ _ _ Hinvg Hup) as Hlen.
    destruct (bool_decide (state pr3 = proc_state_calling_c));
      injection Hafter as <-; [|done].
    intros s. by rewrite state_vec_set_procs.
  - assert (Hinvg : sched_inv g) by (apply glued_inv; [done|done|done|by rewrite Hy]).
    by eapply exit_proc_len.
Qed.

Lemma rust_start_init_len (wb off : Z) (m_rt : ptr) (e : env) (pgm : ptr)
    (pg : gmap Z rust_prog) (m0 : gmap Z Z) (p : ptr) (st : rt_state) :
  (1 < wb)%Z → rust_start_init wb off m_rt e pgm pg m0 = Ok (p, st) →
  ∀ s, length (data (state_vec st s)) = slots wb INIT_PTR_VEC_SZ.
Proof.
  unfold rust_start_init. intros Hwb H.
  apply bind_Ok in H as (pg0 & _ & H).
  apply bind_Ok in H as (st0 & Hrt & H).
  apply bind_Ok in H as ([q st1] & Hnew & H).
  apply bind_Ok in H as (st2 & Hadd & H).
  apply bind_Ok in H as (p' & Hsch & H). injection H as _ <-.
  destruct (new_rt_inv _ _ _ _ _ _ _ Hwb Hrt) as (Hinv0 & Hempty & _).
  unfold spawn_proc in Hnew.
  destruct (new_proc_inv _ _ _ _ _ _ _ _ Hnew)
    as (-> & Hnn & _ & Hr & Hb & _ & _ & _ & _ & Hprocs & _).
  assert (Hinv1 : sched_inv st1).
  { eapply proj1, (sched_inv_fresh_proc st0); eauto. by rewrite Hempty. }
  intros s. rewrite (add_proc_to_state_vec_len _ _ _ _ _ Hinv1 Hadd).
  unfold new_rt in Hrt. apply bind_Ok in Hrt as (x & _ & Hrt).
  apply bind_Ok in Hrt as (r & Hvr & Hrt). apply bind_Ok in Hrt as (bl & Hvb & Hrt).
  injection Hrt as <-.
  destruct (init_ptr_vec_Ok _ _ _ Hvr) as (_ & _ & Hlr).
  destruct (init_ptr_vec_Ok _ _ _ Hvb) as (_ & _ & Hlb).
  destruct s; simpl; [by rewrite Hr|by rewrite Hb].
Qed.

(** X28. On a platform whose pointers take more than one byte, under the
    conventions of the proc-vector invariant, the scheduler vectors are
    never resized: in every state the driver loop reaches each of them has
    [alloc] still at 8 and the buffer [init_ptr_vec] allocated, a block of 8
    bytes, and the pointers it holds fit in these 8 bytes: in a run without
    undefined behaviour at most two procs are runnable, and at most two
    blocked, on a 32-bit platform, and one of each on a 64-bit one. *)
Theorem sched_vec_bound (wb off : Z) (r : option ptr) (st : rt_state) :
  (1 < wb)%Z → loop_reach wb off disciplined r st →
  ∀ sel, alloc (state_vec st sel) = 8
    ∧ length (data (state_vec st sel)) = slots wb 8
    ∧ init (state_vec st sel) ≤ slots wb 8
    ∧ (Z.of_nat (init (state_vec st sel)) * wb ≤ 8)%Z.
Proof.
  intros Hwb Hreach.
  assert (Hlen : ∀ s, length (data (state_vec st s)) = slots wb INIT_PTR_VEC_SZ).
  { induction Hreach as [m_rt e pgm pg m0 p st H|y e p st r st' Hprev IH Hd H].
    - by eapply rust_start_init_len.
    - destruct (loop_reach_inv _ _ _ _ Hwb Hprev) as (Hinv & Hnext).
      intros s. rewrite (loop_body_len _ _ _ _ _ _ _ _ Hinv (Hnext p eq_refl) H). apply IH. }
  destruct (loop_reach_inv _ _ _ _ Hwb Hreach) as (Hinv & _).
  intros sel. destruct (sched_inv_vec st sel Hinv) as (Ha & _ & Hok).
  unfold vec_ok in Hok. rewrite Hlen in Hok. unfold INIT_PTR_VEC_SZ in *.
  split; [done|]. split; [apply Hlen|]. split; [done|].
  unfold slots in Hok. change (Z.of_nat 8) with 8%Z in Hok.
  assert (0 ≤ 8 / wb)%Z by (apply Z.div_pos; lia).
  assert (wb * (8 / wb) ≤ 8)%Z by (apply Z.mul_div_le; lia).
  nia.
Qed.

Lemma sched_vec_bound_witness :
  ∃ p st, rust_start_init 4 20 900 ex_env 80 ex_progs ∅ = Ok (p, st)
    ∧ alloc (running_procs st) = 8 ∧ length (data (running_procs st)) = 2.
Proof.
  destruct (rust_start_init 4 20 900 ex_env 80 ex_progs ∅) as [[p st]| |] eqn:E0;
    [|vm_compute in E0; discriminate E0|vm_compute in E0; discriminate E0].
  exists p, st. split; [reflexivity|].
  destruct (sched_vec_bound 4 20 (Some p) st) with (sel := sel_running)
    as (Ha & Hl & _); [lia|eapply reach_init; exact E0|].
  split; [exact Ha|exact Hl].
Defined.


(** ** Buffers that cannot be allocated, blocks that are freed *)

(** X29. When [malloc] returns the record of a new port or channel but
    [NULL] for the 8-byte buffer of its vector, the round ends with
    [exit(123)]. *)
Theorem buffer_alloc_failure_exits (wb off : Z) (y : yield) (e : env) (p : ptr)
    (st : rt_state) (pr : rust_proc) :
  procs st !! p = Some pr → y_state y = proc_state_calling_c →
  e_block1 e ≠ null → e_bufs e [] = None →
  y_code y = upcall_code_new_port
  ∨ (y_code y = upcall_code_new_chan ∧ yield_arg1 y ≠ null) →
  loop_body wb off y e p st = Exit "rt: allocation failed, exiting" 123%Z.
Proof.
  intros Hpr Hy Hb Hv Hcode. rewrite (loop_body_glued _ _ _ _ _ pr) by done.
  unfold after_yield. rewrite Hy. unfold handle_upcall.
  unfold glued at 1. simpl. rewrite deref_insert. simpl.
  destruct Hcode as [E|[E Hn]]; rewrite E.
  - unfold upcall_new_port, xcalloc. rewrite xalloc_nonnull by done. simpl.
    unfold init_ptr_vec. by rewrite Hv.
  - unfold upcall_new_chan, xcalloc. unfold yield_arg1 in Hn. unfold arg. simpl.
    rewrite (bool_decide_eq_true_2 _ Hn). simpl. rewrite xalloc_nonnull by done. simpl.
    unfold init_ptr_vec. by rewrite Hv.
Qed.

Lemma buffer_alloc_failure_exits_witness :
  loop_body 4 20 ex_new_port_yield (mk_env 12288 0 0 0 (λ _, None)) 16 ex_pair
  = Exit "rt: allocation failed, exiting" 123%Z.
Proof.
  apply (buffer_alloc_failure_exits 4 20 ex_new_port_yield
           (mk_env 12288 0 0 0 (λ _, None)) 16 ex_pair
           (mk_proc 1024 80 0 proc_state_running 0 0 upcall_code_log_uint32
              [0; 0; 0; 0; 0; 0; 0; 0]%Z)).
  - reflexivity.
  - reflexivity.
  - unfold null. simpl. lia.
  - reflexivity.
  - left. reflexivity.
Defined.

(** X30. The malloc and free upcalls.  [upcall_malloc] returns the block
    [malloc] hands out, or exits with status 123 when that is [NULL];
    [upcall_free] on that block gives the state back as it was, and freeing
    the block a second time is undefined; [upcall_free] on [NULL] does
    nothing. *)
Theorem malloc_free_round_trip (m : ptr) (n : Z) (st : rt_state) :
  upcall_malloc null n st = Exit "rt: allocation failed, exiting" 123%Z
  ∧ upcall_free null st = Ok st
  ∧ (m ≠ null → m ∉ blocks st →
       upcall_malloc m n st = Ok (m, set_blocks st ({[m]} ∪ blocks st))
       ∧ upcall_free m (set_blocks st ({[m]} ∪ blocks st)) = Ok st
       ∧ (procs st !! m = None → stks st !! m = None → ports st !! m = None →
          chans st !! m = None → upcall_free m st = Abort)).
Proof.
  split; [done|]. split; [done|]. intros Hm Hfresh.
  split; [unfold upcall_malloc; by rewrite xalloc_nonnull|]. split.
  - unfold upcall_free. rewrite bool_decide_eq_false_2 by done.
    rewrite bool_decide_eq_true_2 by (simpl; set_solver).
    f_equal. destruct st. unfold set_blocks. simpl in *. f_equal.
    apply set_eq. intros x. rewrite elem_of_difference, elem_of_union, elem_of_singleton.
    split; [intros [[->|Hx] Hne]; done|].
    intros Hx. split; [by right|]. by intros ->.
  - intros Hp Hs Hpo Hc. unfold upcall_free.
    rewrite bool_decide_eq_false_2 by done.
    rewrite bool_decide_eq_false_2 by done.
    rewrite Hp, Hs, Hpo, Hc.
    by rewrite !bool_decide_eq_false_2 by apply is_Some_None.
Qed.

Lemma malloc_free_round_trip_witness :
  upcall_malloc 4096 64 ex_pair = Ok (4096%Z, set_blocks ex_pair ({[4096%Z]} ∪ ∅))
  ∧ upcall_free 4096 (set_blocks ex_pair ({[4096%Z]} ∪ ∅)) = Ok ex_pair
  ∧ upcall_free 4096 ex_pair = Abort.
Proof.
  destruct (malloc_free_round_trip 4096 64 ex_pair) as (_ & _ & H).
  destruct H as (Hm & Hf & Hd); [unfold null; lia|apply not_elem_of_empty|].
  split; [exact Hm|]. split; [exact Hf|].
  apply Hd; reflexivity.
Defined.
